(** * The websocket notification and RPC subsystem of stcd, embedded in Rocq

    The development follows the Go source (one file, [package main]):
    - [Wire]: outpoints, transactions and blocks as the handlers read them;
    - [Json]: the notifications and replies that are marshalled;
    - [Client]: [wsClient] with [SendMessage], [QueueNotification] and
      [Disconnect];
    - [Router]: the state owned by [notificationHandler] and its message
      handlers;
    - [Rescan]: [rescanBlock], [recoverFromReorg] and [handleRescan];
    - [Dispatch]: the command handlers and [handleMessage].

    Collaborators outside the file (the JSON marshaller, the script parser,
    the block database, the hash function) are fields of the records [Env],
    [Outside] and [Server].  A Go map ranged over in unspecified order is
    ranged over in the order a [RangeOrder] picks, and every statement
    holds for every such order.

    [Demo] holds concrete transactions, clients and collaborators; the
    facts are in [RouterFacts], [RescanFacts] and [DispatchFacts]. *)

From Stdlib Require Import ZArith Lia.
From Stdlib.Strings Require Import Byte.
From stdpp Require Import base numbers option list strings gmap sets.

#[local] Set Warnings "-clear-no-such-hyp".

Open Scope Z_scope.

(** ** Fixed-width integers *)

(** Go's conversions [int32(x)], [uint32(x)] and [int64] addition wrap. *)
Definition int32 (z : Z) : Z := (z + 2 ^ 31) mod 2 ^ 32 - 2 ^ 31.
Definition int64 (z : Z) : Z := (z + 2 ^ 63) mod 2 ^ 64 - 2 ^ 63.
Definition uint32 (z : Z) : Z := z mod 2 ^ 32.

(** ** Ranging over a Go map *)

(** The order of [for k, v := range m] is unspecified: a [RangeOrder]
    rearranges the entries, and nothing else. *)
Record RangeOrder := {
  order : ∀ A : Type, list A → list A;
  order_perm : ∀ (A : Type) (l : list A), order A l ≡ₚ l
}.

Definition keyOrder : RangeOrder :=
  {| order := λ _ l, l; order_perm := λ _ l, reflexivity l |}.

Definition reverseOrder : RangeOrder :=
  {| order := λ _ l, reverse l; order_perm := λ _ l, reverse_Permutation l |}.

Definition rangeSet `{Countable K} (ro : RangeOrder) (s : gset K) : list K :=
  order ro K (elements s).

(** ** Bytes as map keys *)

#[global] Instance byte_eq_dec : EqDecision byte := Byte.byte_eq_dec.

#[global] Instance byte_countable : Countable byte :=
  inj_countable Byte.to_N Byte.of_N Byte.of_to_N.

(** ** Loops that can return from the function *)

(** What the body of a loop asks for: the next pass ([Next], also Go's
    [continue]), or to leave the function ([Return]). *)
Inductive Flow := Next | Return.

Fixpoint forEach {A S : Type} (body : S → A → Flow * S) (s : S) (l : list A)
    : Flow * S :=
  match l with
  | [] => (Next, s)
  | x :: l =>
      match body s x with
      | (Return, s) => (Return, s)
      | (Next, s) => forEach body s l
      end
  end.

(** ** Logging *)

Inductive LogLevel := LTrace | LDebug | LInfo | LWarn | LError.

(** A log line: its level and its format string (arguments dropped). *)
Definition LogEntry : Type := LogLevel * string.

Module Wire.

(** A [wire.ShaHash] is 32 bytes, read here as one 256-bit number. *)
Abbreviation ShaHash := N (only parsing).

Record OutPoint := mkOutPoint { Hash : ShaHash; Index : Z }.

#[global] Instance OutPoint_eq_dec : EqDecision OutPoint.
Proof. solve_decision. Defined.

#[global] Instance OutPoint_countable : Countable OutPoint.
Proof.
  refine (inj_countable' (λ o, (Hash o, Index o)) (λ p, mkOutPoint p.1 p.2) _).
  by intros [].
Defined.

Record TxIn := mkTxIn { PreviousOutPoint : OutPoint }.

Record TxOut := mkTxOut { Value : Z; PkScript : list byte }.

(** A [coinutil.Tx]: [txSha] is [tx.Sha()], [txIndex] is [tx.Index()]. *)
Record Tx := mkTx {
  txSha : ShaHash;
  txIndex : Z;
  TxIns : list TxIn;
  TxOuts : list TxOut
}.

(** A [coinutil.Block] with the header fields the handlers read. *)
Record Block := mkBlock {
  blockSha : ShaHash;
  blockHeight : Z;
  Timestamp : Z;
  PrevBlock : ShaHash;
  Transactions : list Tx
}.

(** [wire.NewOutPoint(tx.Sha(), uint32(i))] *)
Definition NewOutPoint (h : ShaHash) (i : Z) : OutPoint := mkOutPoint h (uint32 i).

(** The address kinds [rescanBlock] switches on.  [AddressPubKey] carries
    its [ScriptAddress()] bytes and the hash of [AddressPubKeyHash()]. *)
Inductive Address :=
| AddressPubKeyHash (hash160 : N)
| AddressScriptHash (hash160 : N)
| AddressPubKey (scriptAddress : list byte) (pubKeyHash : N)
| AddressOther (encoded : string).

End Wire.
Export Wire.

Module Json.

Record BlockDetails := mkBlockDetails {
  bdHeight : Z;
  bdHash : ShaHash;
  bdIndex : Z;
  bdTime : Z
}.

(** The notifications of [btcjson] that this file builds.  A hash rendered
    with [String()] is kept as the hash; the BTC amount of [txaccepted] is
    kept as the satoshi sum it is computed from. *)
Inductive Ntfn :=
| BlockConnectedNtfn (hash : ShaHash) (height time : Z)
| BlockDisconnectedNtfn (hash : ShaHash) (height time : Z)
| TxAcceptedNtfn (txid : ShaHash) (amount : Z)
| TxAcceptedVerboseNtfn (rawTx : Tx)
| RecvTxNtfn (hexTx : string) (block : option BlockDetails)
| RedeemingTxNtfn (hexTx : string) (block : option BlockDetails)
| RescanProgressNtfn (hash : ShaHash) (height time : Z)
| RescanFinishedNtfn (hash : ShaHash) (height time : Z).

Inductive Method :=
| blockconnected | blockdisconnected | txaccepted | txacceptedverbose
| recvtx | redeemingtx | rescanprogress | rescanfinished.

#[global] Instance Method_eq_dec : EqDecision Method.
Proof. solve_decision. Defined.

Definition method (n : Ntfn) : Method :=
  match n with
  | BlockConnectedNtfn _ _ _ => blockconnected
  | BlockDisconnectedNtfn _ _ _ => blockdisconnected
  | TxAcceptedNtfn _ _ => txaccepted
  | TxAcceptedVerboseNtfn _ => txacceptedverbose
  | RecvTxNtfn _ _ => recvtx
  | RedeemingTxNtfn _ _ => redeemingtx
  | RescanProgressNtfn _ _ _ => rescanprogress
  | RescanFinishedNtfn _ _ _ => rescanfinished
  end.

(** JSON-RPC errors, by the code constant the source names. *)
Inductive RPCErrorCode :=
| ErrRPCParse | ErrRPCInvalidParams | ErrRPCInvalidParameter | ErrRPCInternal
| ErrRPCInvalidAddressOrKey | ErrRPCDatabase | ErrRPCBlockNotFound
| ErrRPCDecodeHexString | ErrRPCOther.

Record RPCError := mkRPCError { Code : RPCErrorCode; Message : string }.

(** What a handler returns as its result. *)
Inductive Result :=
| RNull
| RSession (sessionID : N)
| RText (s : string).

(** A request id: [nil], or the value the client sent. *)
Abbreviation ID := (option string) (only parsing).

(** Marshalled JSON, kept as the value that was marshalled. *)
Inductive Marshalled :=
| JNtfn (n : Ntfn)
| JReply (id : ID) (result : Result) (err : option RPCError).

End Json.
Export Json.

(** ** The websocket client *)

Module Client.

(** A [btcjson.OutPoint] as it arrives in a request. *)
Record JsonOutPoint := mkJsonOutPoint { jHash : string; jIndex : Z }.

(** The commands [parseCmd] can produce.  [StandardCmd] stands for every
    command of the standard (non-websocket) registry. *)
Inductive Cmd :=
| AuthenticateCmd (Username Passphrase : string)
| HelpCmd (Command : option string)
| NotifyBlocksCmd
| StopNotifyBlocksCmd
| NotifyNewTransactionsCmd (Verbose : option bool)
| StopNotifyNewTransactionsCmd
| NotifyReceivedCmd (Addresses : list string)
| StopNotifyReceivedCmd (Addresses : list string)
| NotifySpentCmd (OutPoints : list JsonOutPoint)
| StopNotifySpentCmd (OutPoints : list JsonOutPoint)
| RescanCmd (BeginBlock : string) (Addresses : list string)
    (OutPoints : list JsonOutPoint) (EndBlock : option string)
| SessionCmd
| StandardCmd (name : string).

(** A [btcjson.Request] after [json.Unmarshal]. *)
Record Request := mkRequest { reqID : ID; reqMethod : string; reqParams : string }.

Record parsedRPCCmd := mkParsed {
  cmd_id : ID;
  cmd_method : string;
  cmd_cmd : option Cmd;
  cmd_err : option RPCError
}.

(** [doneChan] names a [chan bool]; [None] is a nil channel. *)
Record wsResponse := mkResponse { msg : Marshalled; doneChan : option positive }.

(** [wsClient].  A channel field holds what has been sent on the channel
    and not yet received, oldest first; capacities, and the blocking of a
    sender on a full channel, are not modelled.  [disconnected] also stands
    for the closed [quit] channel and the closed connection: [Disconnect]
    sets the three together, under the client's lock. *)
Record wsClient := mkClient {
  disconnected : bool;
  addr : string;
  authenticated : bool;
  isAdmin : bool;
  sessionID : N;
  verboseTxUpdates : bool;
  addrRequests : gset string;
  spentRequests : gset OutPoint;
  asyncStarted : bool;
  asyncChan : list parsedRPCCmd;
  ntfnChan : list Marshalled;
  sendChan : list wsResponse
}.

Definition set_disconnected (v : bool) (c : wsClient) : wsClient :=
  mkClient v (addr c) (authenticated c) (isAdmin c) (sessionID c)
    (verboseTxUpdates c) (addrRequests c) (spentRequests c) (asyncStarted c)
    (asyncChan c) (ntfnChan c) (sendChan c).

Definition set_authenticated (v : bool) (c : wsClient) : wsClient :=
  mkClient (disconnected c) (addr c) v (isAdmin c) (sessionID c)
    (verboseTxUpdates c) (addrRequests c) (spentRequests c) (asyncStarted c)
    (asyncChan c) (ntfnChan c) (sendChan c).

Definition set_isAdmin (v : bool) (c : wsClient) : wsClient :=
  mkClient (disconnected c) (addr c) (authenticated c) v (sessionID c)
    (verboseTxUpdates c) (addrRequests c) (spentRequests c) (asyncStarted c)
    (asyncChan c) (ntfnChan c) (sendChan c).

Definition set_verboseTxUpdates (v : bool) (c : wsClient) : wsClient :=
  mkClient (disconnected c) (addr c) (authenticated c) (isAdmin c) (sessionID c)
    v (addrRequests c) (spentRequests c) (asyncStarted c)
    (asyncChan c) (ntfnChan c) (sendChan c).

Definition set_addrRequests (v : gset string) (c : wsClient) : wsClient :=
  mkClient (disconnected c) (addr c) (authenticated c) (isAdmin c) (sessionID c)
    (verboseTxUpdates c) v (spentRequests c) (asyncStarted c)
    (asyncChan c) (ntfnChan c) (sendChan c).

Definition set_spentRequests (v : gset OutPoint) (c : wsClient) : wsClient :=
  mkClient (disconnected c) (addr c) (authenticated c) (isAdmin c) (sessionID c)
    (verboseTxUpdates c) (addrRequests c) v (asyncStarted c)
    (asyncChan c) (ntfnChan c) (sendChan c).

Definition set_asyncStarted (v : bool) (c : wsClient) : wsClient :=
  mkClient (disconnected c) (addr c) (authenticated c) (isAdmin c) (sessionID c)
    (verboseTxUpdates c) (addrRequests c) (spentRequests c) v
    (asyncChan c) (ntfnChan c) (sendChan c).

Definition set_asyncChan (v : list parsedRPCCmd) (c : wsClient) : wsClient :=
  mkClient (disconnected c) (addr c) (authenticated c) (isAdmin c) (sessionID c)
    (verboseTxUpdates c) (addrRequests c) (spentRequests c) (asyncStarted c)
    v (ntfnChan c) (sendChan c).

Definition set_ntfnChan (v : list Marshalled) (c : wsClient) : wsClient :=
  mkClient (disconnected c) (addr c) (authenticated c) (isAdmin c) (sessionID c)
    (verboseTxUpdates c) (addrRequests c) (spentRequests c) (asyncStarted c)
    (asyncChan c) v (sendChan c).

Definition set_sendChan (v : list wsResponse) (c : wsClient) : wsClient :=
  mkClient (disconnected c) (addr c) (authenticated c) (isAdmin c) (sessionID c)
    (verboseTxUpdates c) (addrRequests c) (spentRequests c) (asyncStarted c)
    (asyncChan c) (ntfnChan c) v.

(** [newWebsocketClient]: empty request sets, empty channels. *)
Definition newWebsocketClient (remoteAddr : string) (authenticated isAdmin : bool)
    (sessionID : N) : wsClient :=
  mkClient false remoteAddr authenticated isAdmin sessionID false ∅ ∅ false [] [] [].

(** [Disconnected] *)
Definition Disconnected (c : wsClient) : bool := disconnected c.

(** [Disconnect]: nothing to do if already disconnected.  It yields the
    client; the line it writes to the log is [DisconnectLog]. *)
Definition Disconnect (c : wsClient) : wsClient :=
  if disconnected c then c else set_disconnected true c.

(** What [Disconnect] writes to the log: one trace line, unless the client
    is already disconnected. *)
Definition DisconnectLog (c : wsClient) : list LogEntry :=
  if disconnected c then [] else [(LTrace, "Disconnecting websocket client %s")].

(** [SendMessage] has no result in Go.  It yields the client and the
    sends it made on [chan bool] channels. *)
Definition SendMessage (c : wsClient) (marshalledJSON : Marshalled)
    (done : option positive) : wsClient * list (positive * bool) :=
  if Disconnected c then
    (c, match done with Some d => [(d, false)] | None => [] end)
  else
    (set_sendChan (sendChan c ++ [mkResponse marshalledJSON done]) c, []).

Inductive QueueError := ErrClientQuit.

(** [QueueNotification] returns [ErrClientQuit] or [nil]. *)
Definition QueueNotification (c : wsClient) (marshalledJSON : Marshalled)
    : wsClient * option QueueError :=
  if Disconnected c then (c, Some ErrClientQuit)
  else (set_ntfnChan (ntfnChan c ++ [marshalledJSON]) c, None).

End Client.
Export Client.

(** ** Collaborators outside the file *)

Module Extern.

(** What the handlers call and this file does not define:
    - [marshalFails n]: [btcjson.MarshalCmd(nil, n)] returns an error;
    - [txHexString tx]: the hexadecimal serialization of [tx];
    - [ExtractPkScriptAddrs script]: the addresses of a script, [None] on
      error;
    - [EncodeAddress a]: [a.EncodeAddress()];
    - [createTxRawResultFails tx]: [createTxRawResult] returns an error;
    - [rangeOrder]: the order in which maps are ranged over. *)
Record Env := mkEnv {
  marshalFails : Ntfn → bool;
  txHexString : Tx → string;
  ExtractPkScriptAddrs : list byte → option (list Address);
  EncodeAddress : Address → string;
  createTxRawResultFails : Tx → bool;
  rangeOrder : RangeOrder
}.

(** [btcjson.MarshalCmd(nil, ntfn)] *)
Definition MarshalCmd (env : Env) (ntfn : Ntfn) : option Marshalled :=
  if marshalFails env ntfn then None else Some (JNtfn ntfn).

End Extern.
Export Extern.

(** ** The notification manager *)

Module Router.

(** What [notificationHandler] receives on [notificationMsgs].  A
    [*wsClient] is a [positive]: the client's address, which also stands for
    its [quit] channel, the key of every client map ([newWebsocketClient]
    makes one channel per client and nothing reassigns it). *)
Inductive NotificationMsg :=
| notificationBlockConnected (block : Block)
| notificationBlockDisconnected (block : Block)
| notificationTxAcceptedByMempool (isNew : bool) (tx : Tx)
| notificationRegisterClient (wsc : positive)
| notificationUnregisterClient (wsc : positive)
| notificationRegisterBlocks (wsc : positive)
| notificationUnregisterBlocks (wsc : positive)
| notificationRegisterNewMempoolTxs (wsc : positive)
| notificationUnregisterNewMempoolTxs (wsc : positive)
| notificationRegisterSpent (wsc : positive) (ops : list OutPoint)
| notificationUnregisterSpent (wsc : positive) (op : OutPoint)
| notificationRegisterAddr (wsc : positive) (addrs : list string)
| notificationUnregisterAddr (wsc : positive) (addr : string)
| notificationOther.

(** The maps local to [notificationHandler], the client objects their
    pointers lead to, and the log.  A [map[chan struct{}]*wsClient] is the
    set of its clients. *)
Record ntfnState := mkState {
  clients : gset positive;
  blockNotifications : gset positive;
  txNotifications : gset positive;
  watchedOutPoints : gmap OutPoint (gset positive);
  watchedAddrs : gmap string (gset positive);
  heap : gmap positive wsClient;
  rpcsLog : list LogEntry
}.

Definition set_clients (v : gset positive) (s : ntfnState) : ntfnState :=
  mkState v (blockNotifications s) (txNotifications s) (watchedOutPoints s)
    (watchedAddrs s) (heap s) (rpcsLog s).

Definition set_blockNotifications (v : gset positive) (s : ntfnState) : ntfnState :=
  mkState (clients s) v (txNotifications s) (watchedOutPoints s)
    (watchedAddrs s) (heap s) (rpcsLog s).

Definition set_txNotifications (v : gset positive) (s : ntfnState) : ntfnState :=
  mkState (clients s) (blockNotifications s) v (watchedOutPoints s)
    (watchedAddrs s) (heap s) (rpcsLog s).

Definition set_watchedOutPoints (v : gmap OutPoint (gset positive)) (s : ntfnState)
    : ntfnState :=
  mkState (clients s) (blockNotifications s) (txNotifications s) v
    (watchedAddrs s) (heap s) (rpcsLog s).

Definition set_watchedAddrs (v : gmap string (gset positive)) (s : ntfnState)
    : ntfnState :=
  mkState (clients s) (blockNotifications s) (txNotifications s)
    (watchedOutPoints s) v (heap s) (rpcsLog s).

Definition set_heap (v : gmap positive wsClient) (s : ntfnState) : ntfnState :=
  mkState (clients s) (blockNotifications s) (txNotifications s)
    (watchedOutPoints s) (watchedAddrs s) v (rpcsLog s).

Definition logf (lvl : LogLevel) (fmt : string) (s : ntfnState) : ntfnState :=
  mkState (clients s) (blockNotifications s) (txNotifications s)
    (watchedOutPoints s) (watchedAddrs s) (heap s) (rpcsLog s ++ [(lvl, fmt)]).

(** The state [notificationHandler] starts in. *)
Definition initial : ntfnState := mkState ∅ ∅ ∅ ∅ ∅ ∅ [].

(** The object behind a client pointer.  A pointer the heap has no entry
    for leads to a client as [newWebsocketClient] makes it. *)
Definition deref (s : ntfnState) (wsc : positive) : wsClient :=
  default (newWebsocketClient "" false false 0) (heap s !! wsc).

Definition update (wsc : positive) (f : wsClient → wsClient) (s : ntfnState)
    : ntfnState :=
  set_heap (<[wsc := f (deref s wsc)]> (heap s)) s.

(** [wsc.QueueNotification(marshalledJSON)] through the pointer. *)
Definition queueNotification (wsc : positive) (marshalledJSON : Marshalled)
    (s : ntfnState) : ntfnState * option QueueError :=
  let r := QueueNotification (deref s wsc) marshalledJSON in
  (update wsc (λ _, r.1) s, r.2).

(** One pass of the loop of [addSpentRequests]. *)
Definition addSpentRequest (wsc : positive) (s : ntfnState) (op : OutPoint)
    : ntfnState :=
  let s := update wsc (λ c, set_spentRequests ({[op]} ∪ spentRequests c) c) s in
  let cmap := default ∅ (watchedOutPoints s !! op) in
  set_watchedOutPoints (<[op := {[wsc]} ∪ cmap]> (watchedOutPoints s)) s.

Definition addSpentRequests (wsc : positive) (ops : list OutPoint) (s : ntfnState)
    : ntfnState :=
  foldl (addSpentRequest wsc) s ops.

Definition removeSpentRequest (wsc : positive) (op : OutPoint) (s : ntfnState)
    : ntfnState :=
  let s := update wsc (λ c, set_spentRequests (spentRequests c ∖ {[op]}) c) s in
  match watchedOutPoints s !! op with
  | None =>
      logf LWarn "Attempt to remove nonexistent spent request for websocket client %s" s
  | Some notifyMap =>
      let notifyMap := notifyMap ∖ {[wsc]} in
      if bool_decide (size notifyMap = 0%nat)
      then set_watchedOutPoints (delete op (watchedOutPoints s)) s
      else set_watchedOutPoints (<[op := notifyMap]> (watchedOutPoints s)) s
  end.

(** One pass of the loop of [addAddrRequests]. *)
Definition addAddrRequest (wsc : positive) (s : ntfnState) (addr : string)
    : ntfnState :=
  let s := update wsc (λ c, set_addrRequests ({[addr]} ∪ addrRequests c) c) s in
  let cmap := default ∅ (watchedAddrs s !! addr) in
  set_watchedAddrs (<[addr := {[wsc]} ∪ cmap]> (watchedAddrs s)) s.

Definition addAddrRequests (wsc : positive) (addrs : list string) (s : ntfnState)
    : ntfnState :=
  foldl (addAddrRequest wsc) s addrs.

Definition removeAddrRequest (wsc : positive) (addr : string) (s : ntfnState)
    : ntfnState :=
  let s := update wsc (λ c, set_addrRequests (addrRequests c ∖ {[addr]}) c) s in
  match watchedAddrs s !! addr with
  | None =>
      logf LWarn "Attempt to remove nonexistent addr request <%s> for websocket client %s" s
  | Some cmap =>
      let cmap := cmap ∖ {[wsc]} in
      if bool_decide (size cmap = 0%nat)
      then set_watchedAddrs (delete addr (watchedAddrs s)) s
      else set_watchedAddrs (<[addr := cmap]> (watchedAddrs s)) s
  end.

(** [blockDetails]: [nil] for a nil block. *)
Definition blockDetails (block : option Block) (txIndex : Z) : option BlockDetails :=
  match block with
  | None => None
  | Some b => Some (mkBlockDetails (int32 (blockHeight b)) (blockSha b) txIndex (Timestamp b))
  end.

Section handlers.
Context (env : Env).

(** [for _, wsc := range clients { wsc.QueueNotification(m) }] *)
Definition queueAll (cs : gset positive) (m : Marshalled) (s : ntfnState) : ntfnState :=
  foldl (λ s wsc, (queueNotification wsc m s).1) s (rangeSet (rangeOrder env) cs).

Definition notifyBlockConnected (cs : gset positive) (block : Block) (s : ntfnState)
    : ntfnState :=
  let ntfn := BlockConnectedNtfn (blockSha block) (int32 (blockHeight block))
                (Timestamp block) in
  match MarshalCmd env ntfn with
  | None => logf LError "Failed to marshal block connected notification: %v" s
  | Some marshalledJSON => queueAll cs marshalledJSON s
  end.

Definition notifyBlockDisconnected (cs : gset positive) (block : Block) (s : ntfnState)
    : ntfnState :=
  if bool_decide (size cs = 0%nat) then s else
  let ntfn := BlockDisconnectedNtfn (blockSha block) (int32 (blockHeight block))
                (Timestamp block) in
  match MarshalCmd env ntfn with
  | None => logf LError "Failed to marshal block disconnected notification: %v" s
  | Some marshalledJSON => queueAll cs marshalledJSON s
  end.

(** [newRedeemingTxNotification] *)
Definition newRedeemingTxNotification (txHex : string) (index : Z)
    (block : option Block) : option Marshalled :=
  MarshalCmd env (RedeemingTxNtfn txHex (blockDetails block index)).

(** The loop of [notifyForNewTx] over the subscribers still to visit;
    [marshalledJSONVerbose] is [None] while the verbose form is not built. *)
Fixpoint notifyForNewTxLoop (tx : Tx) (marshalledJSON : Marshalled)
    (cs : list positive) (marshalledJSONVerbose : option Marshalled)
    (s : ntfnState) : ntfnState :=
  match cs with
  | [] => s
  | wsc :: cs =>
      if verboseTxUpdates (deref s wsc) then
        match marshalledJSONVerbose with
        | Some v =>
            notifyForNewTxLoop tx marshalledJSON cs marshalledJSONVerbose
              (queueNotification wsc v s).1
        | None =>
            if createTxRawResultFails env tx then s
            else
              match MarshalCmd env (TxAcceptedVerboseNtfn tx) with
              | None => logf LError "Failed to marshal verbose tx notification: %s" s
              | Some v =>
                  notifyForNewTxLoop tx marshalledJSON cs (Some v)
                    (queueNotification wsc v s).1
              end
        end
      else
        notifyForNewTxLoop tx marshalledJSON cs marshalledJSONVerbose
          (queueNotification wsc marshalledJSON s).1
  end.

Definition notifyForNewTx (cs : gset positive) (tx : Tx) (s : ntfnState) : ntfnState :=
  let amount := foldl (λ amount txOut, int64 (amount + Value txOut)) 0 (TxOuts tx) in
  match MarshalCmd env (TxAcceptedNtfn (txSha tx) amount) with
  | None => logf LError "Failed to marshal tx notification: %s" s
  | Some marshalledJSON =>
      notifyForNewTxLoop tx marshalledJSON (rangeSet (rangeOrder env) cs) None s
  end.

(** [if txHex == "" { txHex = txHexString(tx) }] *)
Definition hexOnce (tx : Tx) (txHex : string) : string :=
  if bool_decide (txHex = "") then txHexString env tx else txHex.

(** The body of [for wscQuit, wsc := range cmap] in [notifyForTxIns]. *)
Definition notifyTxInClient (block : option Block) (prevOut : OutPoint)
    (marshalledJSON : Marshalled) (acc : gset positive * ntfnState)
    (wsc : positive) : gset positive * ntfnState :=
  let s := match block with
           | Some _ => removeSpentRequest wsc prevOut acc.2
           | None => acc.2
           end in
  if bool_decide (wsc ∈ acc.1) then (acc.1, s)
  else ({[wsc]} ∪ acc.1, (queueNotification wsc marshalledJSON s).1).

(** The body of [for _, txIn := range tx.MsgTx().TxIn]; the accumulator is
    [txHex], [wscNotified] and the state. *)
Definition notifyTxIn (tx : Tx) (block : option Block)
    (acc : string * gset positive * ntfnState) (txIn : TxIn)
    : string * gset positive * ntfnState :=
  let '(txHex, wscNotified, s) := acc in
  let prevOut := PreviousOutPoint txIn in
  match watchedOutPoints s !! prevOut with
  | None => acc
  | Some cmap =>
      let txHex := hexOnce tx txHex in
      match newRedeemingTxNotification txHex (txIndex tx) block with
      | None =>
          (txHex, wscNotified,
           logf LWarn "Failed to marshal redeemingtx notification: %v" s)
      | Some marshalledJSON =>
          let r := foldl (notifyTxInClient block prevOut marshalledJSON)
                     (wscNotified, s) (rangeSet (rangeOrder env) cmap) in
          (txHex, r.1, r.2)
      end
  end.

Definition notifyForTxIns (tx : Tx) (block : option Block) (s : ntfnState)
    : ntfnState :=
  if bool_decide (size (watchedOutPoints s) = 0%nat) then s
  else (foldl (notifyTxIn tx block) ("", ∅, s) (TxIns tx)).2.

(** The body of [for wscQuit, wsc := range cmap] in [notifyForTxOuts]. *)
Definition notifyTxOutClient (op : OutPoint) (marshalledJSON : Marshalled)
    (acc : gset positive * ntfnState) (wsc : positive)
    : gset positive * ntfnState :=
  let s := addSpentRequests wsc [op] acc.2 in
  if bool_decide (wsc ∈ acc.1) then (acc.1, s)
  else ({[wsc]} ∪ acc.1, (queueNotification wsc marshalledJSON s).1).

(** The body of [for _, txAddr := range txAddrs], for output number [i]. *)
Definition notifyTxOutAddr (tx : Tx) (block : option Block) (i : Z)
    (acc : string * gset positive * ntfnState) (txAddr : Address)
    : string * gset positive * ntfnState :=
  let '(txHex, wscNotified, s) := acc in
  match watchedAddrs s !! EncodeAddress env txAddr with
  | None => acc
  | Some cmap =>
      let txHex := hexOnce tx txHex in
      let ntfn := RecvTxNtfn txHex (blockDetails block (txIndex tx)) in
      match MarshalCmd env ntfn with
      | None =>
          (txHex, wscNotified,
           logf LError "Failed to marshal processedtx notification: %v" s)
      | Some marshalledJSON =>
          let op := NewOutPoint (txSha tx) i in
          let r := foldl (notifyTxOutClient op marshalledJSON)
                     (wscNotified, s) (rangeSet (rangeOrder env) cmap) in
          (txHex, r.1, r.2)
      end
  end.

(** The body of [for i, txOut := range tx.MsgTx().TxOut]; the accumulator
    carries [i]. *)
Definition notifyTxOut (tx : Tx) (block : option Block)
    (acc : Z * (string * gset positive * ntfnState)) (txOut : TxOut)
    : Z * (string * gset positive * ntfnState) :=
  (acc.1 + 1,
   match ExtractPkScriptAddrs env (PkScript txOut) with
   | None => acc.2
   | Some txAddrs => foldl (notifyTxOutAddr tx block acc.1) acc.2 txAddrs
   end).

Definition notifyForTxOuts (tx : Tx) (block : option Block) (s : ntfnState)
    : ntfnState :=
  if bool_decide (size (watchedAddrs s) = 0%nat) then s
  else (foldl (notifyTxOut tx block) (0, ("", ∅, s)) (TxOuts tx)).2.2.

Definition notifyForTx (tx : Tx) (block : option Block) (s : ntfnState) : ntfnState :=
  let s := if bool_decide (size (watchedOutPoints s) ≠ 0%nat)
           then notifyForTxIns tx block s else s in
  if bool_decide (size (watchedAddrs s) ≠ 0%nat)
  then notifyForTxOuts tx block s else s.

(** The [notificationUnregisterClient] case. *)
Definition unregisterClient (wsc : positive) (s : ntfnState) : ntfnState :=
  let s := set_blockNotifications (blockNotifications s ∖ {[wsc]}) s in
  let s := set_txNotifications (txNotifications s ∖ {[wsc]}) s in
  let s := foldl (λ s op, removeSpentRequest wsc op s) s
             (rangeSet (rangeOrder env) (spentRequests (deref s wsc))) in
  let s := foldl (λ s addr, removeAddrRequest wsc addr s) s
             (rangeSet (rangeOrder env) (addrRequests (deref s wsc))) in
  set_clients (clients s ∖ {[wsc]}) s.

(** The [switch] of [notificationHandler] on one received message. *)
Definition handleNotification (n : NotificationMsg) (s : ntfnState) : ntfnState :=
  match n with
  | notificationBlockConnected block =>
      let s :=
        if bool_decide (size (watchedOutPoints s) ≠ 0%nat)
           || bool_decide (size (watchedAddrs s) ≠ 0%nat)
        then foldl (λ s tx, notifyForTx tx (Some block) s) s (Transactions block)
        else s in
      if bool_decide (size (blockNotifications s) ≠ 0%nat)
      then notifyBlockConnected (blockNotifications s) block s
      else s
  | notificationBlockDisconnected block =>
      notifyBlockDisconnected (blockNotifications s) block s
  | notificationTxAcceptedByMempool isNew tx =>
      let s := if isNew && bool_decide (size (txNotifications s) ≠ 0%nat)
               then notifyForNewTx (txNotifications s) tx s else s in
      notifyForTx tx None s
  | notificationRegisterBlocks wsc =>
      set_blockNotifications ({[wsc]} ∪ blockNotifications s) s
  | notificationUnregisterBlocks wsc =>
      set_blockNotifications (blockNotifications s ∖ {[wsc]}) s
  | notificationRegisterClient wsc =>
      set_clients ({[wsc]} ∪ clients s) s
  | notificationUnregisterClient wsc => unregisterClient wsc s
  | notificationRegisterSpent wsc ops => addSpentRequests wsc ops s
  | notificationUnregisterSpent wsc op => removeSpentRequest wsc op s
  | notificationRegisterAddr wsc addrs => addAddrRequests wsc addrs s
  | notificationUnregisterAddr wsc addr => removeAddrRequest wsc addr s
  | notificationRegisterNewMempoolTxs wsc =>
      set_txNotifications ({[wsc]} ∪ txNotifications s) s
  | notificationUnregisterNewMempoolTxs wsc =>
      set_txNotifications (txNotifications s ∖ {[wsc]}) s
  | notificationOther => logf LWarn "Unhandled notification type" s
  end.

(** The messages received so far, handled one at a time. *)
Definition run (ns : list NotificationMsg) (s : ntfnState) : ntfnState :=
  foldl (λ s n, handleNotification n s) s ns.

(** After the loop: [for _, c := range clients { c.Disconnect() }], each
    call with the line it writes to the log. *)
Definition drain (s : ntfnState) : ntfnState :=
  foldl (λ s wsc,
           update wsc Disconnect
             (mkState (clients s) (blockNotifications s) (txNotifications s)
                (watchedOutPoints s) (watchedAddrs s) (heap s)
                (rpcsLog s ++ DisconnectLog (deref s wsc))))
    s (rangeSet (rangeOrder env) (clients s)).

End handlers.

(** *** The notions the properties are stated with *)

(** The clients of an inner map: [m[k]], empty when [k] has no entry (Go
    reads a missing entry as a nil map). *)
Definition watchers `{Countable K} (m : gmap K (gset positive)) (k : K) : gset positive :=
  default ∅ (m !! k).

(** What [removeSpentRequest] and [removeAddrRequest] do to their map:
    the client leaves the inner map, and the entry goes with its last
    client. *)
Definition dropFrom `{Countable K} (m : gmap K (gset positive)) (k : K) (c : positive)
    : gmap K (gset positive) :=
  match m !! k with
  | None => m
  | Some X =>
      if bool_decide (size (X ∖ {[c]}) = 0%nat) then delete k m else <[k := X ∖ {[c]}]> m
  end.

(** What [addSpentRequests] and [addAddrRequests] do to their map. *)
Definition addTo `{Countable K} (m : gmap K (gset positive)) (k : K) (c : positive)
    : gmap K (gset positive) :=
  <[k := {[c]} ∪ watchers m k]> m.

(** The mirror invariant: a client's own request sets and the router's
    maps say the same. *)
Definition mirror (s : ntfnState) : Prop :=
  (∀ wsc op, op ∈ spentRequests (deref s wsc) ↔ wsc ∈ watchers (watchedOutPoints s) op)
  ∧ (∀ wsc a, a ∈ addrRequests (deref s wsc) ↔ wsc ∈ watchers (watchedAddrs s) a).

(** [s'] has the subscriptions of [s]: the same two maps, and the same
    request sets in every client. *)
Definition sameSubscriptions (s s' : ntfnState) : Prop :=
  watchedOutPoints s' = watchedOutPoints s
  ∧ watchedAddrs s' = watchedAddrs s
  ∧ ∀ c, spentRequests (deref s' c) = spentRequests (deref s c)
         ∧ addrRequests (deref s' c) = addrRequests (deref s c).

(** The scan of the outputs only adds: requests for outpoints of the
    transaction itself, and nothing for any other outpoint. *)
Definition addsOnly (tx : Tx) (s s' : ntfnState) : Prop :=
  (∀ o, Hash o ≠ txSha tx →
        watchedOutPoints s' !! o = watchedOutPoints s !! o
        ∧ ∀ c, o ∈ spentRequests (deref s' c) ↔ o ∈ spentRequests (deref s c))
  ∧ (∀ o c, c ∈ watchers (watchedOutPoints s) o → c ∈ watchers (watchedOutPoints s') o)
  ∧ (∀ o c, o ∈ spentRequests (deref s c) → o ∈ spentRequests (deref s' c)).

(** [s'] differs from [s] in the log and in the client [c] at most. *)
Definition onlyClient (c : positive) (s s' : ntfnState) : Prop :=
  clients s' = clients s
  ∧ blockNotifications s' = blockNotifications s
  ∧ txNotifications s' = txNotifications s
  ∧ watchedOutPoints s' = watchedOutPoints s
  ∧ watchedAddrs s' = watchedAddrs s
  ∧ ∀ c', c' ≠ c → deref s' c' = deref s c'.

(** [s'] is the router [s]: the same sets, indexes and log, and the same
    object behind every client pointer. *)
Definition sameRouter (s s' : ntfnState) : Prop :=
  clients s' = clients s
  ∧ blockNotifications s' = blockNotifications s
  ∧ txNotifications s' = txNotifications s
  ∧ watchedOutPoints s' = watchedOutPoints s
  ∧ watchedAddrs s' = watchedAddrs s
  ∧ rpcsLog s' = rpcsLog s
  ∧ ∀ c, deref s' c = deref s c.

(** [s] with more lines in its log. *)
Definition appendLog (l : list LogEntry) (s : ntfnState) : ntfnState :=
  mkState (clients s) (blockNotifications s) (txNotifications s) (watchedOutPoints s)
    (watchedAddrs s) (heap s) (rpcsLog s ++ l).

(** How many notifications of a method a queue holds. *)
Definition isMethod (meth : Method) (m : Marshalled) : bool :=
  match m with
  | JNtfn n => bool_decide (method n = meth)
  | JReply _ _ _ => false
  end.

Definition countNtfn (meth : Method) (q : list Marshalled) : nat :=
  length (List.filter (isMethod meth) q).

(** What a scan has queued since [s0]: the connected clients of
    [notified] got [N] once more, and nobody else anything. *)
Definition queuedOnce (N : Marshalled) (s0 : ntfnState) (acc : gset positive * ntfnState)
    : Prop :=
  ∀ c, disconnected (deref acc.2 c) = disconnected (deref s0 c)
       ∧ ntfnChan (deref acc.2 c)
         = ntfnChan (deref s0 c)
           ++ (if bool_decide (c ∈ acc.1) && negb (disconnected (deref s0 c))
               then [N] else []).

(** [s'] has the queues of [s] with notifications of other methods than
    [redeemingtx] and [recvtx] added, and nothing else. *)
Definition acceptedOnly (s s' : ntfnState) : Prop :=
  ∀ c, ∃ extra,
    ntfnChan (deref s' c) = ntfnChan (deref s c) ++ extra
    ∧ countNtfn redeemingtx extra = 0%nat ∧ countNtfn recvtx extra = 0%nat.

Definition warnRedeeming : LogEntry :=
  (LWarn, "Failed to marshal redeemingtx notification: %v").

Definition errorRecv : LogEntry :=
  (LError, "Failed to marshal processedtx notification: %v").

Section notions.
Context (env : Env).

(** The [redeemingtx] notification of [tx] in [block], marshalled. *)
Definition redeemingOf (tx : Tx) (block : option Block) : Marshalled :=
  JNtfn (RedeemingTxNtfn (txHexString env tx) (blockDetails block (txIndex tx))).

(** The [recvtx] notification of [tx] in [block], marshalled. *)
Definition recvOf (tx : Tx) (block : option Block) : Marshalled :=
  JNtfn (RecvTxNtfn (txHexString env tx) (blockDetails block (txIndex tx))).

(** The values [txHex] takes in a scan of [tx]. *)
Definition hexOk (tx : Tx) (h : string) : Prop := h = "" ∨ h = txHexString env tx.

(** The inputs of [tx] that spend an outpoint watched in [s]. *)
Definition watchedInputs (tx : Tx) (s : ntfnState) : list TxIn :=
  List.filter (λ txIn, bool_decide (is_Some (watchedOutPoints s !! PreviousOutPoint txIn)))
    (TxIns tx).

(** The addresses paid by the outputs of [tx], output after output, that
    are watched in [s]. *)
Definition watchedPayments (tx : Tx) (s : ntfnState) : list Address :=
  List.filter (λ a, bool_decide (is_Some (watchedAddrs s !! EncodeAddress env a)))
    (concat (map (λ txOut, default [] (ExtractPkScriptAddrs env (PkScript txOut)))
               (TxOuts tx))).

End notions.
End Router.

(** ** The rescan engine *)

Module Rescan.

Record rescanKeys := mkKeys {
  fallbacks : gset string;
  pubKeyHashes : gset N;
  scriptHashes : gset N;
  compressedPubKeys : gset (list byte);
  uncompressedPubKeys : gset (list byte);
  unspent : gset OutPoint
}.

Definition set_unspent (v : gset OutPoint) (r : rescanKeys) : rescanKeys :=
  mkKeys (fallbacks r) (pubKeyHashes r) (scriptHashes r) (compressedPubKeys r)
    (uncompressedPubKeys r) v.

(** [unspentSlice], in the order the map is ranged over. *)
Definition unspentSlice (ro : RangeOrder) (r : rescanKeys) : list OutPoint :=
  rangeSet ro (unspent r).

Inductive DbError := ErrBlockShaMissing | ErrDb (text : string).

#[global] Instance DbError_eq_dec : EqDecision DbError.
Proof. solve_decision. Defined.

Definition Error (e : DbError) : string :=
  match e with ErrBlockShaMissing => "block sha missing" | ErrDb text => text end.

(** The world around a rescan, in some state [W]: the block database
    ([database.Db], whose content other goroutines change between two
    calls, so every call yields the next state), the block manager's pause,
    the 10 second ticker, and the goroutines that may call [Disconnect] on
    the client ([disconnects] tells whether one did since the last look);
    the decoders of addresses and hashes; [database.AllShas]; and
    [rpcDecodeHexError] of the RPC server. *)
Record Outside (W : Type) := mkOutside {
  FetchBlockHeightBySha : ShaHash → W → (DbError + Z) * W;
  FetchHeightRange : Z → Z → W → (DbError + list ShaHash) * W;
  FetchBlockBySha : ShaHash → W → (DbError + Block) * W;
  NewestSha : W → (DbError + ShaHash * Z) * W;
  Pause : W → W;
  Unpause : W → W;
  tick : W → bool * W;
  disconnects : W → bool * W;
  DecodeAddress : string → string + Address;
  NewShaHashFromStr : string → option ShaHash;
  AllShas : Z;
  rpcDecodeHexError : string → RPCError
}.
Arguments FetchBlockHeightBySha {W}.
Arguments FetchHeightRange {W}.
Arguments FetchBlockBySha {W}.
Arguments NewestSha {W}.
Arguments Pause {W}.
Arguments Unpause {W}.
Arguments tick {W}.
Arguments disconnects {W}.
Arguments DecodeAddress {W}.
Arguments NewShaHashFromStr {W}.
Arguments AllShas {W}.
Arguments rpcDecodeHexError {W}.

(** What a rescan works on: the world, the client object, the lookup keys,
    the control messages sent to the notification manager, the log. *)
Record rescanState (W : Type) := mkRescan {
  world : W;
  client : wsClient;
  lookups : rescanKeys;
  outbox : list Router.NotificationMsg;
  rescanLog : list LogEntry
}.
Arguments mkRescan {W}.
Arguments world {W}.
Arguments client {W}.
Arguments lookups {W}.
Arguments outbox {W}.
Arguments rescanLog {W}.

(** How a handler ends: it returns [(result, error)], or it panics on a nil
    pointer; [OutOfFuel] is the model's, for loops cut short. *)
Inductive Outcome :=
| Returned (result : Result) (err : option RPCError)
| Panicked
| OutOfFuel.

(** [ErrRescanReorg] *)
Definition ErrRescanReorg : RPCError := mkRPCError ErrRPCDatabase "Reorganize".

Definition databaseError (e : DbError) : RPCError :=
  mkRPCError ErrRPCDatabase ("Database error: " +:+ Error e).

(** [descendantBlock]: the error, if any. *)
Definition descendantBlock (prevHash : ShaHash) (curBlock : Block) : option RPCError :=
  if bool_decide (prevHash = PrevBlock curBlock) then None else Some ErrRescanReorg.

Section rescan.
Context {W : Type} (env : Env) (out : Outside W) (self : positive).

Definition set_world (w : W) (st : rescanState W) : rescanState W :=
  mkRescan w (client st) (lookups st) (outbox st) (rescanLog st).

Definition set_client (c : wsClient) (st : rescanState W) : rescanState W :=
  mkRescan (world st) c (lookups st) (outbox st) (rescanLog st).

Definition set_lookups (r : rescanKeys) (st : rescanState W) : rescanState W :=
  mkRescan (world st) (client st) r (outbox st) (rescanLog st).

Definition send (n : Router.NotificationMsg) (st : rescanState W) : rescanState W :=
  mkRescan (world st) (client st) (lookups st) (outbox st ++ [n]) (rescanLog st).

Definition rlogf (lvl : LogLevel) (fmt : string) (st : rescanState W) : rescanState W :=
  mkRescan (world st) (client st) (lookups st) (outbox st) (rescanLog st ++ [(lvl, fmt)]).

(** Before the rescan looks at the client, the other goroutines have had
    their turn; what they write to the log is not recorded. *)
Definition sync (st : rescanState W) : rescanState W :=
  let r := disconnects out (world st) in
  set_world r.2 (if r.1 then set_client (Disconnect (client st)) st else st).

(** [wsc.QueueNotification(marshalledJSON)] from the rescan goroutine. *)
Definition queue (marshalledJSON : Marshalled) (st : rescanState W)
    : rescanState W * option QueueError :=
  let st := sync st in
  let r := QueueNotification (client st) marshalledJSON in
  (set_client r.1 st, r.2).

(** The per-transaction variables of [rescanBlock]. *)
Record Locals := mkLocals {
  txHex : string;
  spentNotified : bool;
  recvNotified : bool
}.

(** The body of [for _, txin := range tx.MsgTx().TxIn]. *)
Definition rescanTxIn (tx : Tx) (blk : Block) (acc : Locals * rescanState W)
    (txin : TxIn) : Flow * (Locals * rescanState W) :=
  let loc := acc.1 in
  let st := acc.2 in
  if bool_decide (PreviousOutPoint txin ∈ unspent (lookups st)) then
    let st := set_lookups
                (set_unspent (unspent (lookups st) ∖ {[PreviousOutPoint txin]})
                   (lookups st)) st in
    if spentNotified loc then (Next, (loc, st)) else
    let hex := Router.hexOnce env tx (txHex loc) in
    let loc := mkLocals hex (spentNotified loc) (recvNotified loc) in
    match Router.newRedeemingTxNotification env hex (txIndex tx) (Some blk) with
    | None =>
        (Next, (loc, rlogf LError "Failed to marshal redeemingtx notification: %v" st))
    | Some marshalledJSON =>
        match queue marshalledJSON st with
        | (st, Some ErrClientQuit) => (Return, (loc, st))
        | (st, None) => (Next, (mkLocals hex true (recvNotified loc), st))
        end
    end
  else (Next, acc).

(** The [switch] of [rescanBlock] on the address kind: does the address
    match a lookup key. *)
Definition matchesKeys (r : rescanKeys) (a : Address) : bool :=
  match a with
  | AddressPubKeyHash hash160 => bool_decide (hash160 ∈ pubKeyHashes r)
  | AddressScriptHash hash160 => bool_decide (hash160 ∈ scriptHashes r)
  | AddressPubKey sa pkh =>
      if bool_decide (length sa = 33%nat) then
        bool_decide (sa ∈ compressedPubKeys r) || bool_decide (pkh ∈ pubKeyHashes r)
      else if bool_decide (length sa = 65%nat) then
        bool_decide (sa ∈ uncompressedPubKeys r) || bool_decide (pkh ∈ pubKeyHashes r)
      else false
  | AddressOther _ => bool_decide (EncodeAddress env a ∈ fallbacks r)
  end.

(** The [default] of the inner switch: a pubkey of unknown length. *)
Definition unknownLength (a : Address) : bool :=
  match a with
  | AddressPubKey sa _ =>
      negb (bool_decide (length sa = 33%nat)) && negb (bool_decide (length sa = 65%nat))
  | _ => false
  end.

(** The body of [for _, addr := range addrs], for output [txOutIdx]. *)
Definition rescanAddr (tx : Tx) (blk : Block) (txOutIdx : Z)
    (acc : Locals * rescanState W) (a : Address)
    : Flow * (Locals * rescanState W) :=
  let loc := acc.1 in
  let st := acc.2 in
  if unknownLength a then
    (Next, (loc, rlogf LWarn "Skipping rescanned pubkey of unknown serialized length %d" st))
  else if negb (matchesKeys (lookups st) a) then (Next, acc)
  else
    let outpoint := mkOutPoint (txSha tx) (uint32 txOutIdx) in
    let st := set_lookups
                (set_unspent ({[outpoint]} ∪ unspent (lookups st)) (lookups st)) st in
    if recvNotified loc then (Next, (loc, st)) else
    let hex := Router.hexOnce env tx (txHex loc) in
    let loc := mkLocals hex (spentNotified loc) (recvNotified loc) in
    let ntfn := RecvTxNtfn hex (Router.blockDetails (Some blk) (txIndex tx)) in
    match MarshalCmd env ntfn with
    | None => (Return, (loc, rlogf LError "Failed to marshal recvtx notification: %v" st))
    | Some marshalledJSON =>
        match queue marshalledJSON st with
        | (st, Some ErrClientQuit) => (Return, (loc, st))
        | (st, None) => (Next, (mkLocals hex (spentNotified loc) true, st))
        end
    end.

(** The body of [for txOutIdx, txout := range tx.MsgTx().TxOut]; the
    accumulator carries [txOutIdx].  An error of [ExtractPkScriptAddrs] is
    ignored and leaves no addresses. *)
Definition rescanTxOut (tx : Tx) (blk : Block)
    (acc : Z * (Locals * rescanState W)) (txout : TxOut)
    : Flow * (Z * (Locals * rescanState W)) :=
  let addrs := default [] (ExtractPkScriptAddrs env (PkScript txout)) in
  let r := forEach (rescanAddr tx blk acc.1) acc.2 addrs in
  (r.1, (acc.1 + 1, r.2)).

(** The body of [for _, tx := range blk.Transactions()]. *)
Definition rescanTx (blk : Block) (st : rescanState W) (tx : Tx)
    : Flow * rescanState W :=
  match forEach (rescanTxIn tx blk) (mkLocals "" false false, st) (TxIns tx) with
  | (Return, acc) => (Return, acc.2)
  | (Next, acc) =>
      let r := forEach (rescanTxOut tx blk) (0, acc) (TxOuts tx) in
      (r.1, r.2.2.2)
  end.

(** [rescanBlock]: the flow tells whether it returned early. *)
Definition rescanBlockFlow (blk : Block) (st : rescanState W) : Flow * rescanState W :=
  forEach (rescanTx blk) st (Transactions blk).

Definition rescanBlock (blk : Block) (st : rescanState W) : rescanState W :=
  (rescanBlockFlow blk st).2.

(** The outpoints of the request, decoded; the first bad hash ends it. *)
Fixpoint decodeOutPoints (ops : list JsonOutPoint) : RPCError + list OutPoint :=
  match ops with
  | [] => inr []
  | o :: ops =>
      match NewShaHashFromStr out (jHash o) with
      | None => inl (rpcDecodeHexError out (jHash o))
      | Some blockHash =>
          match decodeOutPoints ops with
          | inl e => inl e
          | inr outpoints => inr (mkOutPoint blockHash (jIndex o) :: outpoints)
          end
      end
  end.

(** The body of [for _, addrStr := range cmd.Addresses]. *)
Definition addLookup (r : rescanKeys) (addrStr : string) : RPCError + rescanKeys :=
  match DecodeAddress out addrStr with
  | inl text =>
      inl (mkRPCError ErrRPCInvalidAddressOrKey
             ("Rescan address " +:+ addrStr +:+ ": " +:+ text))
  | inr (AddressPubKeyHash hash160) =>
      inr (mkKeys (fallbacks r) ({[hash160]} ∪ pubKeyHashes r) (scriptHashes r)
             (compressedPubKeys r) (uncompressedPubKeys r) (unspent r))
  | inr (AddressScriptHash hash160) =>
      inr (mkKeys (fallbacks r) (pubKeyHashes r) ({[hash160]} ∪ scriptHashes r)
             (compressedPubKeys r) (uncompressedPubKeys r) (unspent r))
  | inr (AddressPubKey pubkeyBytes _) =>
      if bool_decide (length pubkeyBytes = 33%nat) then
        inr (mkKeys (fallbacks r) (pubKeyHashes r) (scriptHashes r)
               ({[pubkeyBytes]} ∪ compressedPubKeys r) (uncompressedPubKeys r)
               (unspent r))
      else if bool_decide (length pubkeyBytes = 65%nat) then
        inr (mkKeys (fallbacks r) (pubKeyHashes r) (scriptHashes r)
               (compressedPubKeys r) ({[pubkeyBytes]} ∪ uncompressedPubKeys r)
               (unspent r))
      else
        inl (mkRPCError ErrRPCInvalidAddressOrKey
               ("Pubkey " +:+ addrStr +:+ " is of unknown length"))
  | inr (AddressOther _) =>
      inr (mkKeys ({[addrStr]} ∪ fallbacks r) (pubKeyHashes r) (scriptHashes r)
             (compressedPubKeys r) (uncompressedPubKeys r) (unspent r))
  end.

Fixpoint addLookups (r : rescanKeys) (addrs : list string) : RPCError + rescanKeys :=
  match addrs with
  | [] => inr r
  | addrStr :: addrs =>
      match addLookup r addrStr with
      | inl e => inl e
      | inr r => addLookups r addrs
      end
  end.

(** [recoverFromReorg] *)
Definition recoverFromReorg (minBlock maxBlock : Z) (lastBlock : option ShaHash)
    (st : rescanState W) : (RPCError + list ShaHash) * rescanState W :=
  let r := FetchHeightRange out minBlock maxBlock (world st) in
  let st := set_world r.2 st in
  match r.1 with
  | inl err =>
      (inl (databaseError err), rlogf LError "Error looking up block range: %v" st)
  | inr hashList =>
      match lastBlock, hashList with
      | None, _ | _, [] => (inr hashList, st)
      | Some last, h :: _ =>
          let r := FetchBlockBySha out h (world st) in
          let st := set_world r.2 st in
          match r.1 with
          | inl err =>
              (inl (databaseError err),
               rlogf LError "Error looking up possibly reorged block: %v" st)
          | inr blk =>
              match descendantBlock last blk with
              | Some jsonErr =>
                  (inl jsonErr,
                   rlogf LError "Stopping rescan for reorged block %v (replaced by block %v)" st)
              | None => (inr hashList, st)
              end
          end
      end
  end.

(** The variables of [handleRescan] that its loops change. *)
Record Vars := mkVars {
  minBlock : Z;
  lastBlock : option Block;
  lastBlockHash : option ShaHash
}.

(** How the loop over [hashList] ends: the range is exhausted, or
    [break fetchRange], or the handler is left. *)
Inductive Inner :=
| InnerDone (hashList : list ShaHash) (v : Vars) (st : rescanState W)
| InnerBreak (v : Vars) (st : rescanState W)
| InnerReturn (o : Outcome) (st : rescanState W).

(** [loopHashList: for i := range hashList], at index [i]; the [goto]
    starts over at index 0 of the new list. *)
Fixpoint loopHashList (fuel : nat) (maxBlock : Z) (hashList : list ShaHash)
    (i : nat) (v : Vars) (st : rescanState W) : Inner :=
  match fuel with
  | O => InnerReturn OutOfFuel st
  | S fuel =>
      match hashList !! i with
      | None => InnerDone hashList v st
      | Some hash =>
          let r := FetchBlockBySha out hash (world st) in
          let st := set_world r.2 st in
          match r.1 with
          | inl err =>
              if bool_decide (err ≠ ErrBlockShaMissing) then
                InnerReturn (Returned RNull (Some (databaseError err)))
                  (rlogf LError "Error looking up block: %v" st)
              else if bool_decide (maxBlock ≠ AllShas out) then
                InnerReturn (Returned RNull (Some ErrRescanReorg))
                  (rlogf LError "Stopping rescan for reorged block %v" st)
              else
                let v := mkVars (int32 (minBlock v + int32 (Z.of_nat i)))
                           (lastBlock v) (lastBlockHash v) in
                match recoverFromReorg (minBlock v) maxBlock (lastBlockHash v) st with
                | (inl e, st) => InnerReturn (Returned RNull (Some e)) st
                | (inr [], st) => InnerBreak v st
                | (inr hashList, st) => loopHashList fuel maxBlock hashList 0 v st
                end
          | inr blk =>
              match (if bool_decide (i = 0%nat)
                     then lastBlockHash v ≫= λ last, descendantBlock last blk
                     else None) with
              | Some jsonErr =>
                  InnerReturn (Returned RNull (Some jsonErr))
                    (rlogf LError "Stopping rescan for reorged block %v (replaced by block %v)" st)
              | None =>
                  let st := sync st in
                  if disconnected (client st) then
                    InnerReturn (Returned RNull None)
                      (rlogf LDebug "Stopped rescan at height %v for disconnected client" st)
                  else
                    let st := rescanBlock blk st in
                    let v := mkVars (minBlock v) (Some blk) (Some (blockSha blk)) in
                    let t := tick out (world st) in
                    let st := set_world t.2 st in
                    if negb t.1 then loopHashList fuel maxBlock hashList (S i) v st
                    else
                      let n := RescanProgressNtfn hash (int32 (blockHeight blk))
                                 (Timestamp blk) in
                      match MarshalCmd env n with
                      | None =>
                          loopHashList fuel maxBlock hashList (S i) v
                            (rlogf LError "Failed to marshal rescan progress notification: %v" st)
                      | Some mn =>
                          match queue mn st with
                          | (st, Some ErrClientQuit) =>
                              InnerReturn (Returned RNull None)
                                (rlogf LDebug "Stopped rescan at height %v for disconnected client" st)
                          | (st, None) => loopHashList fuel maxBlock hashList (S i) v st
                          end
                      end
              end
          end
      end
  end.

(** [fetchRange: for minBlock < maxBlock]: the outcome if the handler is
    left inside the loop, else the variables the loop ends with. *)
Fixpoint fetchRange (fuel : nat) (maxBlock : Z) (addresses : list string)
    (v : Vars) (st : rescanState W) : (Outcome + Vars) * rescanState W :=
  if bool_decide (minBlock v < maxBlock) then
    match fuel with
    | O => (inl OutOfFuel, st)
    | S fuel =>
        let r := FetchHeightRange out (minBlock v) maxBlock (world st) in
        let st := set_world r.2 st in
        match r.1 with
        | inl err =>
            (inl (Returned RNull (Some (databaseError err))),
             rlogf LError "Error looking up block range: %v" st)
        | inr [] =>
            if bool_decide (maxBlock ≠ AllShas out) then (inr v, st)
            else
              let st := set_world (Pause out (world st)) st in
              let r := NewestSha out (world st) in
              let st := set_world r.2 st in
              match r.1 with
              | inr (curHash, _) =>
                  if bool_decide (lastBlockHash v = None ∨ lastBlockHash v = Some curHash)
                  then
                    let st := send (Router.notificationRegisterSpent self
                                      (unspentSlice (rangeOrder env) (lookups st))) st in
                    let st := send (Router.notificationRegisterAddr self addresses) st in
                    (inr v, set_world (Unpause out (world st)) st)
                  else
                    fetchRange fuel maxBlock addresses v
                      (set_world (Unpause out (world st)) st)
              | inl err =>
                  (inl (Returned RNull (Some (databaseError err))),
                   rlogf LError "Error fetching best block hash: %v"
                     (set_world (Unpause out (world st)) st))
              end
        | inr hashList =>
            match loopHashList fuel maxBlock hashList 0 v st with
            | InnerReturn o st => (inl o, st)
            | InnerBreak v st => (inr v, st)
            | InnerDone hashList v st =>
                fetchRange fuel maxBlock addresses
                  (mkVars (int32 (minBlock v + int32 (Z.of_nat (length hashList))))
                     (lastBlock v) (lastBlockHash v)) st
            end
        end
    end
  else (inr v, st).

(** After the loop: the [rescanfinished] notification is built from
    [lastBlockHash] and [lastBlock], which are nil pointers when no block
    was rescanned; [lastBlockHash.String()] then panics. *)
Definition finishRescan (v : Vars) (st : rescanState W) : Outcome * rescanState W :=
  match lastBlockHash v, lastBlock v with
  | Some hash, Some blk =>
      let n := RescanFinishedNtfn hash (int32 (blockHeight blk)) (Timestamp blk) in
      let st := match MarshalCmd env n with
                | None => rlogf LError "Failed to marshal rescan finished notification: %v" st
                | Some mn => (queue mn st).1
                end in
      (Returned RNull None, rlogf LInfo "Finished rescan" st)
  | _, _ => (Panicked, st)
  end.

Definition emptyKeys : rescanKeys := mkKeys ∅ ∅ ∅ ∅ ∅ ∅.

Definition blockNotFound (e : DbError) : RPCError :=
  mkRPCError ErrRPCBlockNotFound ("Error getting block: " +:+ Error e).

(** [handleRescan]; [fuel] bounds the passes of its loops. *)
Definition handleRescan (fuel : nat) (icmd : Cmd) (st : rescanState W)
    : Outcome * rescanState W :=
  match icmd with
  | RescanCmd BeginBlock Addresses OutPoints EndBlock =>
      match decodeOutPoints OutPoints with
      | inl e => (Returned RNull (Some e), st)
      | inr outpoints =>
          let st := if bool_decide (length Addresses = 1%nat)
                    then rlogf LInfo "Beginning rescan for 1 address" st
                    else rlogf LInfo "Beginning rescan for %d addresses" st in
          match addLookups emptyKeys Addresses with
          | inl e => (Returned RNull (Some e), st)
          | inr keys =>
              let keys := foldl (λ r outpoint, set_unspent ({[outpoint]} ∪ unspent r) r)
                            keys outpoints in
              let st := set_lookups keys st in
              match NewShaHashFromStr out BeginBlock with
              | None => (Returned RNull (Some (rpcDecodeHexError out BeginBlock)), st)
              | Some minBlockSha =>
                  let r := FetchBlockHeightBySha out minBlockSha (world st) in
                  let st := set_world r.2 st in
                  match r.1 with
                  | inl err => (Returned RNull (Some (blockNotFound err)), st)
                  | inr minBlock =>
                      let scan (maxBlock : Z) (st : rescanState W) :=
                        match fetchRange fuel maxBlock Addresses
                                (mkVars minBlock None None) st with
                        | (inl o, st) => (o, st)
                        | (inr v, st) => finishRescan v st
                        end in
                      match EndBlock with
                      | None => scan (AllShas out) st
                      | Some endBlock =>
                          match NewShaHashFromStr out endBlock with
                          | None =>
                              (Returned RNull (Some (rpcDecodeHexError out endBlock)), st)
                          | Some maxBlockSha =>
                              let r := FetchBlockHeightBySha out maxBlockSha (world st) in
                              let st := set_world r.2 st in
                              match r.1 with
                              | inl err => (Returned RNull (Some (blockNotFound err)), st)
                              | inr maxBlock => scan maxBlock st
                              end
                          end
                      end
                  end
              end
          end
      end
  | _ => (Returned RNull (Some (mkRPCError ErrRPCInternal "Internal error")), st)
  end.

End rescan.

(** *** The unspent set, by the book *)

(** What the rescan of a block owes the unspent set, notifications left
    aside: every input takes its previous outpoint out, and every output
    address that matches a key puts the output's outpoint in. *)
Section bookkeeping.
Context (env : Env).

Definition spendInput (r : rescanKeys) (txin : TxIn) : rescanKeys :=
  set_unspent (unspent r ∖ {[PreviousOutPoint txin]}) r.

Definition creditAddr (tx : Tx) (txOutIdx : Z) (r : rescanKeys) (a : Address)
    : rescanKeys :=
  if matchesKeys env r a
  then set_unspent ({[mkOutPoint (txSha tx) (uint32 txOutIdx)]} ∪ unspent r) r
  else r.

Definition creditOutput (tx : Tx) (acc : Z * rescanKeys) (txout : TxOut)
    : Z * rescanKeys :=
  (acc.1 + 1,
   foldl (creditAddr tx acc.1) acc.2
     (default [] (ExtractPkScriptAddrs env (PkScript txout)))).

Definition bookkeepTx (r : rescanKeys) (tx : Tx) : rescanKeys :=
  (foldl (creditOutput tx) (0, foldl spendInput r (TxIns tx)) (TxOuts tx)).2.

Definition bookkeepBlock (r : rescanKeys) (blk : Block) : rescanKeys :=
  foldl bookkeepTx r (Transactions blk).

End bookkeeping.
End Rescan.

(** ** Command dispatch *)

Module Dispatch.
Import Rescan.

(** [subtle.ConstantTimeByteEq] on two bytes. *)
Definition ConstantTimeByteEq (x y : N) : Z :=
  Z.shiftr (uint32 (Z.of_N (N.lxor x y) - 1)) 31.

(** [v |= x[i] ^ y[i]] *)
Definition orXor (v : N) (p : byte * byte) : N :=
  N.lor v (N.lxor (Byte.to_N p.1) (Byte.to_N p.2)).

(** [subtle.ConstantTimeCompare]: 1 if the slices are equal, else 0. *)
Definition ConstantTimeCompare (x y : list byte) : Z :=
  if bool_decide (length x ≠ length y) then 0
  else ConstantTimeByteEq (foldl orXor 0%N (zip x y)) 0.

(** The RPC server as [handleMessage] and the handlers see it: the two
    credential digests; [json.Unmarshal] into a request ([inl] the error
    text); [parseCmd]; [fastsha256.Sum256]; base64 encoding; the table
    [rpcLimited]; whether [createMarshalledReply] fails;
    [standardCmdResult]; the table [rpcHandlers]; the help cache;
    [internalRPCError]. *)
Record Server := mkServer {
  authsha : list byte;
  limitauthsha : list byte;
  Unmarshal : list byte → string + Request;
  parseCmd : Request → parsedRPCCmd;
  Sum256 : list byte → list byte;
  EncodeToString : list byte → string;
  rpcLimited : string → bool;
  createMarshalledReplyFails : ID → Result → option RPCError → bool;
  standardCmdResult : parsedRPCCmd → Result * option RPCError;
  rpcHandlers : string → bool;
  rpcUsage : string + string;
  rpcMethodHelp : string → string + string;
  internalRPCError : string → string → RPCError
}.

(** [createMarshalledReply] *)
Definition createMarshalledReply (srv : Server) (id : ID) (result : Result)
    (replyErr : option RPCError) : option Marshalled :=
  if createMarshalledReplyFails srv id result replyErr then None
  else Some (JReply id result replyErr).

(** [wsAsyncHandlers] *)
Definition wsAsyncHandlers (method : string) : bool := bool_decide (method = "rescan").

(** The keys of [wsHandlers] ([wsHandlersBeforeInit]). *)
Definition wsHandlerNames (method : string) : bool :=
  bool_decide (method ∈ ["help"; "notifyblocks"; "notifynewtransactions";
    "notifyreceived"; "notifyspent"; "session"; "stopnotifyblocks";
    "stopnotifynewtransactions"; "stopnotifyspent"; "stopnotifyreceived";
    "rescan"]).

(** How [handleMessage] ends: it returns, or a handler it ran panicked (or
    ran out of the model's fuel). *)
Inductive Status := Handled | HandlerPanicked | HandlerOutOfFuel.

Section dispatch.
Context {W : Type} (env : Env) (out : Outside W) (srv : Server) (self : positive).

Definition ErrInternal : RPCError := mkRPCError ErrRPCInternal "Internal error".

(** [c.SendMessage(reply, nil)] *)
Definition reply (m : Marshalled) (st : rescanState W) : rescanState W :=
  set_client (SendMessage (client st) m None).1 st.

(** [c.Disconnect()], with the line it writes to the log. *)
Definition disconnect (st : rescanState W) : rescanState W :=
  mkRescan (world st) (Disconnect (client st)) (lookups st) (outbox st)
    (rescanLog st ++ DisconnectLog (client st)).

(** [deserializeOutpoints] *)
Fixpoint deserializeOutpoints (serializedOuts : list JsonOutPoint)
    : RPCError + list OutPoint :=
  match serializedOuts with
  | [] => inr []
  | o :: serializedOuts =>
      match NewShaHashFromStr out (jHash o) with
      | None => inl (rpcDecodeHexError out (jHash o))
      | Some blockHash =>
          match deserializeOutpoints serializedOuts with
          | inl e => inl e
          | inr outpoints => inr (mkOutPoint blockHash (jIndex o) :: outpoints)
          end
      end
  end.

(** [checkAddressValidity]: the error for the first address that does not
    decode. *)
Fixpoint checkAddressValidity (addrs : list string) : option RPCError :=
  match addrs with
  | [] => None
  | addr :: addrs =>
      match DecodeAddress out addr with
      | inl _ =>
          Some (mkRPCError ErrRPCInvalidAddressOrKey ("Invalid address or key: " +:+ addr))
      | inr _ => checkAddressValidity addrs
      end
  end.

(** A [wsCommandHandler]. *)
Definition wsCommandHandler : Type := Cmd → rescanState W → Outcome * rescanState W.

Definition handleWebsocketHelp : wsCommandHandler := λ icmd st,
  match icmd with
  | HelpCmd Command =>
      let command := default "" Command in
      if bool_decide (command = "") then
        match rpcUsage srv with
        | inl e =>
            (Returned RNull (Some (internalRPCError srv e "Failed to generate RPC usage")), st)
        | inr usage => (Returned (RText usage) None, st)
        end
      else if negb (rpcHandlers srv command) && negb (wsHandlerNames command) then
        (Returned RNull
           (Some (mkRPCError ErrRPCInvalidParameter ("Unknown command: " +:+ command))), st)
      else
        match rpcMethodHelp srv command with
        | inl e =>
            (Returned RNull (Some (internalRPCError srv e "Failed to generate help")), st)
        | inr help => (Returned (RText help) None, st)
        end
  | _ => (Returned RNull (Some ErrInternal), st)
  end.

Definition handleNotifyBlocks : wsCommandHandler := λ icmd st,
  (Returned RNull None, send (Router.notificationRegisterBlocks self) st).

Definition handleSession : wsCommandHandler := λ icmd st,
  (Returned (RSession (sessionID (client st))) None, st).

Definition handleStopNotifyBlocks : wsCommandHandler := λ icmd st,
  (Returned RNull None, send (Router.notificationUnregisterBlocks self) st).

Definition handleNotifySpent : wsCommandHandler := λ icmd st,
  match icmd with
  | NotifySpentCmd OutPoints =>
      match deserializeOutpoints OutPoints with
      | inl e => (Returned RNull (Some e), st)
      | inr outpoints =>
          (Returned RNull None, send (Router.notificationRegisterSpent self outpoints) st)
      end
  | _ => (Returned RNull (Some ErrInternal), st)
  end.

Definition handleNotifyNewTransactions : wsCommandHandler := λ icmd st,
  match icmd with
  | NotifyNewTransactionsCmd Verbose =>
      let st := set_client (set_verboseTxUpdates (default false Verbose) (client st)) st in
      (Returned RNull None, send (Router.notificationRegisterNewMempoolTxs self) st)
  | _ => (Returned RNull (Some ErrInternal), st)
  end.

Definition handleStopNotifyNewTransactions : wsCommandHandler := λ icmd st,
  (Returned RNull None, send (Router.notificationUnregisterNewMempoolTxs self) st).

Definition handleNotifyReceived : wsCommandHandler := λ icmd st,
  match icmd with
  | NotifyReceivedCmd Addresses =>
      match checkAddressValidity Addresses with
      | Some e => (Returned RNull (Some e), st)
      | None =>
          (Returned RNull None, send (Router.notificationRegisterAddr self Addresses) st)
      end
  | _ => (Returned RNull (Some ErrInternal), st)
  end.

Definition handleStopNotifySpent : wsCommandHandler := λ icmd st,
  match icmd with
  | StopNotifySpentCmd OutPoints =>
      match deserializeOutpoints OutPoints with
      | inl e => (Returned RNull (Some e), st)
      | inr outpoints =>
          (Returned RNull None,
           foldl (λ st outpoint, send (Router.notificationUnregisterSpent self outpoint) st)
             st outpoints)
      end
  | _ => (Returned RNull (Some ErrInternal), st)
  end.

Definition handleStopNotifyReceived : wsCommandHandler := λ icmd st,
  match icmd with
  | StopNotifyReceivedCmd Addresses =>
      match checkAddressValidity Addresses with
      | Some e => (Returned RNull (Some e), st)
      | None =>
          (Returned RNull None,
           foldl (λ st addr, send (Router.notificationUnregisterAddr self addr) st)
             st Addresses)
      end
  | _ => (Returned RNull (Some ErrInternal), st)
  end.

(** [wsHandlers]; [fuel] is for the loops of [handleRescan]. *)
Definition wsHandlers (fuel : nat) (method : string) : option wsCommandHandler :=
  if bool_decide (method = "help") then Some handleWebsocketHelp
  else if bool_decide (method = "notifyblocks") then Some handleNotifyBlocks
  else if bool_decide (method = "notifynewtransactions") then Some handleNotifyNewTransactions
  else if bool_decide (method = "notifyreceived") then Some handleNotifyReceived
  else if bool_decide (method = "notifyspent") then Some handleNotifySpent
  else if bool_decide (method = "session") then Some handleSession
  else if bool_decide (method = "stopnotifyblocks") then Some handleStopNotifyBlocks
  else if bool_decide (method = "stopnotifynewtransactions")
       then Some handleStopNotifyNewTransactions
  else if bool_decide (method = "stopnotifyspent") then Some handleStopNotifySpent
  else if bool_decide (method = "stopnotifyreceived") then Some handleStopNotifyReceived
  else if bool_decide (method = "rescan") then Some (handleRescan env out self fuel)
  else None.

(** Marshal the reply of a handler and send it; a handler that panicked
    takes the goroutine with it. *)
Definition sendResult (id : ID) (r : Outcome * rescanState W) (fmt : string)
    : Status * rescanState W :=
  match r with
  | (Returned result jsonErr, st) =>
      match createMarshalledReply srv id result jsonErr with
      | None => (Handled, rlogf LError fmt st)
      | Some m => (Handled, reply m st)
      end
  | (Panicked, st) => (HandlerPanicked, st)
  | (OutOfFuel, st) => (HandlerOutOfFuel, st)
  end.

(** The digest [handleMessage] compares with the stored ones:
    [Sum256("Basic " + base64(Username + ":" + Passphrase))]. *)
Definition authShaOf (Username Passphrase : string) : list byte :=
  Sum256 srv
    (String.list_byte_of_string
       ("Basic " +:+
        EncodeToString srv (String.list_byte_of_string (Username +:+ ":" +:+ Passphrase)))).

(** [msg] is a well-formed command [c]: it unmarshals to [request], which
    [parseCmd] turns into [c] without error. *)
Definition parsesTo (msg : list byte) (request : Request) (c : Cmd) : Prop :=
  Unmarshal srv msg = inr request
  ∧ cmd_err (parseCmd srv request) = None
  ∧ cmd_cmd (parseCmd srv request) = Some c.

(** [handleMessage], before the client is authenticated. *)
Definition handleUnauthenticated (msg : list byte) (st : rescanState W)
    : Status * rescanState W :=
  match Unmarshal srv msg with
  | inl _ => (Handled, disconnect st)
  | inr request =>
      let parsedCmd := parseCmd srv request in
      match cmd_err parsedCmd with
      | Some _ => (Handled, disconnect st)
      | None =>
          match cmd_cmd parsedCmd with
          | Some (AuthenticateCmd Username Passphrase) =>
              let authSha := authShaOf Username Passphrase in
              let cmp := ConstantTimeCompare authSha (authsha srv) in
              let limitcmp := ConstantTimeCompare authSha (limitauthsha srv) in
              if bool_decide (cmp ≠ 1) && bool_decide (limitcmp ≠ 1) then
                (Handled, disconnect (rlogf LWarn "Auth failure." st))
              else
                let st := set_client (set_authenticated true (client st)) st in
                let st := set_client (set_isAdmin (bool_decide (cmp = 1)) (client st)) st in
                match createMarshalledReply srv (cmd_id parsedCmd) RNull None with
                | None =>
                    (Handled, rlogf LError "Failed to marshal authenticate reply: %v" st)
                | Some m => (Handled, reply m st)
                end
          | _ =>
              (Handled,
               disconnect (rlogf LWarn "Unauthenticated websocket message received" st))
          end
      end
  end.

(** [handleMessage], once the client is authenticated. *)
Definition handleAuthenticated (fuel : nat) (msg : list byte) (st : rescanState W)
    : Status * rescanState W :=
  match Unmarshal srv msg with
  | inl e =>
      sendResult None
        (Returned RNull (Some (mkRPCError ErrRPCParse ("Failed to parse request: " +:+ e))), st)
        "Failed to marshal parse failure reply: %v"
  | inr request =>
      match reqID request with
      | None => (Handled, st)
      | Some _ =>
          if negb (isAdmin (client st)) && negb (rpcLimited srv (reqMethod request)) then
            sendResult (reqID request)
              (Returned RNull
                 (Some (mkRPCError ErrRPCInvalidParams
                          "limited user not authorized for this method")), st)
              "Failed to marshal parse failure reply: %v"
          else
            let cmd := parseCmd srv request in
            match cmd_err cmd with
            | Some e =>
                sendResult (cmd_id cmd) (Returned RNull (Some e), st)
                  "Failed to marshal parse failure reply: %v"
            | None =>
                let st := rlogf LDebug "Received command <%s> from %s" st in
                match cmd_cmd cmd with
                | Some (AuthenticateCmd _ _) =>
                    (Handled,
                     disconnect
                       (rlogf LWarn "Websocket client %s is already authenticated" st))
                | _ =>
                    if wsAsyncHandlers (cmd_method cmd) then
                      let st :=
                        if asyncStarted (client st) then st
                        else
                          set_client (set_asyncStarted true (client st))
                            (rlogf LTrace "Starting async handler for %s" st) in
                      (Handled,
                       set_client
                         (set_asyncChan (asyncChan (client st) ++ [cmd]) (client st)) st)
                    else
                      match wsHandlers fuel (cmd_method cmd) with
                      | None =>
                          sendResult (cmd_id cmd)
                            (let r := standardCmdResult srv cmd in Returned r.1 r.2, st)
                            "Failed to marshal reply for <%s> command: %v"
                      | Some wsHandler =>
                          sendResult (cmd_id cmd)
                            (match cmd_cmd cmd with
                             | Some icmd => wsHandler icmd st
                             | None => (Returned RNull (Some ErrInternal), st)
                             end)
                            "Failed to marshal reply for <%s> command: %v"
                      end
                end
            end
      end
  end.

(** [handleMessage] *)
Definition handleMessage (fuel : nat) (msg : list byte) (st : rescanState W)
    : Status * rescanState W :=
  if negb (authenticated (client st)) then handleUnauthenticated msg st
  else handleAuthenticated fuel msg st.

(** [runHandler] of [asyncHandler]: run the handler of a queued command
    and send its reply. *)
Definition runHandler (fuel : nat) (parsedCmd : parsedRPCCmd) (st : rescanState W)
    : Status * rescanState W :=
  match wsHandlers fuel (cmd_method parsedCmd) with
  | None => (Handled, rlogf LWarn "No handler for command <%s>" st)
  | Some wsHandler =>
      sendResult (cmd_id parsedCmd)
        (match cmd_cmd parsedCmd with
         | Some icmd => wsHandler icmd st
         | None => (Returned RNull (Some ErrInternal), st)
         end)
        "Failed to marshal reply for <%s> command: %v"
  end.

End dispatch.
End Dispatch.

(** * Vocabulary for the facts, and the loops of the goroutines

    [Notions], [Effects] and [Loops] name what the statements about the
    notification manager, the command handlers and the rescan engine say;
    [QueueHandler], [Inbound], [Pump] and [Async] follow the goroutines of
    the file: [queueHandler], [inHandler], [notificationQueueHandler] with
    [outHandler], and [asyncHandler].  The facts about them are in
    [RouterMore], [RescanMore], [DispatchMore] and [LoopsMore]. *)

(** ** What the notification manager leaves alone *)

Module Notions.
Import Router.

(** [b] is the connection [a]: the fields of a client that its own
    goroutines own. *)
Definition sameConnection (a b : wsClient) : Prop :=
  disconnected b = disconnected a ∧ addr b = addr a
  ∧ authenticated b = authenticated a ∧ isAdmin b = isAdmin a
  ∧ sessionID b = sessionID a ∧ verboseTxUpdates b = verboseTxUpdates a
  ∧ asyncStarted b = asyncStarted a ∧ asyncChan b = asyncChan a
  ∧ sendChan b = sendChan a.

(** The notification queue of [b] is that of [a] with notifications added
    at its end, none if [a] is disconnected. *)
Definition queuedMore (a b : wsClient) : Prop :=
  ∃ extra, ntfnChan b = ntfnChan a ++ extra
           ∧ (disconnected a = true → extra = [])
           ∧ Forall (λ m, ∃ n, m = JNtfn n) extra.

(** What a step of the notification manager may do to a client: queue
    notifications for it, and nothing to its connection. *)
Definition kept (a b : wsClient) : Prop := sameConnection a b ∧ queuedMore a b.

Definition keeps (s s' : ntfnState) : Prop := ∀ c, kept (deref s c) (deref s' c).

(** [s'] has the client sets of [s]. *)
Definition sameSets (s s' : ntfnState) : Prop :=
  clients s' = clients s
  ∧ blockNotifications s' = blockNotifications s
  ∧ txNotifications s' = txNotifications s.

(** The clients a message leaves registered, given those that were. *)
Definition servedAfter (n : NotificationMsg) (X : gset positive) : gset positive :=
  match n with
  | notificationRegisterClient wsc => {[wsc]} ∪ X
  | notificationUnregisterClient wsc => X ∖ {[wsc]}
  | _ => X
  end.

(** The [blockconnected] and [blockdisconnected] notifications of a block. *)
Definition connectedOf (block : Block) : Ntfn :=
  BlockConnectedNtfn (blockSha block) (int32 (blockHeight block)) (Timestamp block).

Definition disconnectedOf (block : Block) : Ntfn :=
  BlockDisconnectedNtfn (blockSha block) (int32 (blockHeight block)) (Timestamp block).

(** [s'] has the watched addresses of [s], and every watch on an outpoint
    that [s] has. *)
Definition grows (s s' : ntfnState) : Prop :=
  watchedAddrs s' = watchedAddrs s
  ∧ (∀ c op, op ∈ spentRequests (deref s c) → op ∈ spentRequests (deref s' c))
  ∧ (∀ c op, c ∈ watchers (watchedOutPoints s) op → c ∈ watchers (watchedOutPoints s') op).

(** Client [c] watches the outpoint [op], on both sides of the mirror. *)
Definition watches (c : positive) (op : OutPoint) (s : ntfnState) : Prop :=
  op ∈ spentRequests (deref s c) ∧ c ∈ watchers (watchedOutPoints s) op.

(** Client [c] watches the address [a], on both sides of the mirror. *)
Definition watchesAddr (c : positive) (a : string) (s : ntfnState) : Prop :=
  a ∈ addrRequests (deref s c) ∧ c ∈ watchers (watchedAddrs s) a.

(** Client [c] watches [op], or [a], on neither side. *)
Definition unwatched (c : positive) (op : OutPoint) (s : ntfnState) : Prop :=
  (op ∉ spentRequests (deref s c)) ∧ (c ∉ watchers (watchedOutPoints s) op).

Definition unwatchedAddr (c : positive) (a : string) (s : ntfnState) : Prop :=
  (a ∉ addrRequests (deref s c)) ∧ (c ∉ watchers (watchedAddrs s) a).

(** A [redeemingtx] or [recvtx] notification. *)
Definition isTxNtfn (m : Marshalled) : Prop :=
  isMethod redeemingtx m = true ∨ isMethod recvtx m = true.

(** [s'] has the queues of [s] with transaction notifications added. *)
Definition txOnly (s s' : ntfnState) : Prop :=
  ∀ c, disconnected (deref s' c) = disconnected (deref s c)
       ∧ ∃ txs, ntfnChan (deref s' c) = ntfnChan (deref s c) ++ txs ∧ Forall isTxNtfn txs.

(** What a client that is subscribed and connected is sent, once. *)
Definition sentTo (subscribed : gset positive) (s : ntfnState) (c : positive)
    (m : Marshalled) : list Marshalled :=
  if bool_decide (c ∈ subscribed) && negb (disconnected (deref s c)) then [m] else [].

(** The sum of the output values of a transaction, as an [int64]. *)
Definition totalOut (tx : Tx) : Z := int64 (foldr Z.add 0 (Value <$> TxOuts tx)).

End Notions.

(** ** What a message to a client can set off *)

Module Effects.
Import Rescan Dispatch.

Section effects.
Context {W : Type}.

(** Nothing was set off between [st] and [st']: no message to the
    notification manager, no command for the async handler, no change of
    the verbose flag, no notification queued, no access to the database. *)
Definition nothingRan (st st' : rescanState W) : Prop :=
  outbox st' = outbox st ∧ lookups st' = lookups st ∧ world st' = world st
  ∧ asyncChan (client st') = asyncChan (client st)
  ∧ asyncStarted (client st') = asyncStarted (client st)
  ∧ verboseTxUpdates (client st') = verboseTxUpdates (client st)
  ∧ ntfnChan (client st') = ntfnChan (client st).

(** A reply as [handleMessage] sends it: no done channel. *)
Definition isReply (r : wsResponse) : Prop :=
  doneChan r = None ∧ ∃ id result err, msg r = JReply id result err.

(** [st'] has the send channel of [st] with at most one reply added, none
    if the client is disconnected. *)
Definition repliedOnce (st st' : rescanState W) : Prop :=
  ∃ extra, sendChan (client st') = sendChan (client st) ++ extra
           ∧ (length extra ≤ 1)%nat ∧ Forall isReply extra
           ∧ (disconnected (client st) = true → extra = []).

(** What a handler other than [handleRescan] leaves of the client and of
    the world. *)
Definition quick (st st' : rescanState W) : Prop :=
  sendChan (client st') = sendChan (client st)
  ∧ ntfnChan (client st') = ntfnChan (client st)
  ∧ disconnected (client st') = disconnected (client st)
  ∧ asyncChan (client st') = asyncChan (client st)
  ∧ asyncStarted (client st') = asyncStarted (client st)
  ∧ authenticated (client st') = authenticated (client st)
  ∧ isAdmin (client st') = isAdmin (client st)
  ∧ world st' = world st ∧ lookups st' = lookups st.

End effects.
End Effects.

(** ** How the loops of a rescan can end *)

Module Loops.
Import Rescan.

Section loops.
Context {W : Type} (env : Env) (out : Outside W) (self : positive).

(** The state once the client has been registered for continuous
    notifications: the two registrations sent, the block manager resumed. *)
Definition registered (addresses : list string) (st : rescanState W) : rescanState W :=
  let st := send (Router.notificationRegisterSpent self
                    (unspentSlice (rangeOrder env) (lookups st))) st in
  let st := send (Router.notificationRegisterAddr self addresses) st in
  set_world (Unpause out (world st)) st.

(** [P] holds where a pass over a range of hashes ends, and the pass does
    not panic. *)
Definition innerOk (P : Vars → rescanState W → Prop) (r : Inner) : Prop :=
  match r with
  | InnerDone _ v st | InnerBreak v st => P v st
  | InnerReturn o st => o ≠ Panicked ∧ ∃ v, P v st
  end.

(** [P] holds where the loop over the ranges ends, up to the registration
    for continuous notifications, and the loop does not panic. *)
Definition rangeOk (P : Vars → rescanState W → Prop) (maxBlock : Z)
    (addresses : list string) (r : (Outcome + Vars) * rescanState W) : Prop :=
  match r with
  | (inl o, st) => o ≠ Panicked ∧ ∃ v, P v st
  | (inr v, st) =>
      P v st
      ∨ (maxBlock = AllShas out ∧ ∃ st0, P v st0 ∧ st = registered addresses st0)
  end.

(** The scan of [handleRescan], from the loop over the ranges to the
    [rescanfinished] notification. *)
Definition scanRange (fuel : nat) (maxBlock : Z) (addresses : list string) (v : Vars)
    (st : rescanState W) : Outcome * rescanState W :=
  match fetchRange env out self fuel maxBlock addresses v st with
  | (inl o, st) => (o, st)
  | (inr v, st) => finishRescan env out v st
  end.

(** [lastBlock] and [lastBlockHash] are set together, to a block and its
    hash. *)
Definition paired (v : Vars) : Prop :=
  match lastBlock v, lastBlockHash v with
  | None, None => True
  | Some blk, Some hash => hash = blockSha blk
  | _, _ => False
  end.

(** What a scan sends a client for one transaction: nothing, or the
    [redeemingtx] notification of the transaction, then nothing, or its
    [recvtx] notification. *)
Definition oneEach (blk : Block) (tx : Tx) (e : list Marshalled) : Prop :=
  ∃ e1 e2, e = e1 ++ e2
           ∧ (e1 = [] ∨ e1 = [Router.redeemingOf env tx (Some blk)])
           ∧ (e2 = [] ∨ e2 = [Router.recvOf env tx (Some blk)]).

(** The notifications a rescan sends. *)
Definition isRescanNtfn (m : Marshalled) : Prop :=
  ∃ n, m = JNtfn n
       ∧ (method n = redeemingtx ∨ method n = recvtx
          ∨ method n = rescanprogress ∨ method n = rescanfinished).

(** What a rescan may do to its client: queue notifications for it while
    it is connected, and find it disconnected. *)
Definition scannedClient (a b : wsClient) : Prop :=
  addr b = addr a ∧ authenticated b = authenticated a ∧ isAdmin b = isAdmin a
  ∧ sessionID b = sessionID a ∧ verboseTxUpdates b = verboseTxUpdates a
  ∧ addrRequests b = addrRequests a ∧ spentRequests b = spentRequests a
  ∧ asyncStarted b = asyncStarted a ∧ asyncChan b = asyncChan a
  ∧ sendChan b = sendChan a
  ∧ (disconnected a = true → disconnected b = true)
  ∧ ∃ extra, ntfnChan b = ntfnChan a ++ extra
             ∧ Forall isRescanNtfn extra
             ∧ (disconnected a = true → extra = []).

End loops.
End Loops.

(** ** The queue between the manager's callers and its handler *)

Module QueueHandler.

Section queueHandler.
Context {A : Type} (nil : A).

(** Go's [copy(dst, src)]: the first [min(len(dst), len(src))] elements of
    [src] take the place of those of [dst]. *)
Definition copy (dst src : list A) : list A :=
  take (length dst) src ++ drop (length src) dst.

(** The variables of [queueHandler].  A channel variable is [true] when it
    holds [out] and [false] when it is nil; [next] starts as the nil
    interface value. *)
Record queueState := mkQueue {
  q : list A;
  dequeue : bool;
  skipQueue : bool;
  next : A
}.

Definition start : queueState := mkQueue [] false true nil.

(** The case a pass of the outer [select] takes: [in] delivers [n]
    ([ready] tells whether a receiver is waiting on [out] at that moment),
    [in] is found closed, the send on [dequeue] goes through, or [quit] is
    found closed. *)
Inductive Case :=
| recvIn (n : A) (ready : bool)
| closedIn
| sendDequeue
| recvQuit.

(** What a pass does: go on, with what it sent on [out]; leave the loop;
    the case cannot be taken (a send on a nil channel blocks for ever); or
    an index is out of range. *)
Inductive Pass :=
| Loop (st : queueState) (sent : list A)
| Break
| Blocked
| Panic.

Definition pass (st : queueState) (c : Case) : Pass :=
  match c with
  | recvIn n ready =>
      if skipQueue st && ready then Loop st [n]
      else
        let q := q st ++ [n] in
        match q !! 0%nat with
        | Some head => Loop (mkQueue q true false head) []
        | None => Panic
        end
  | closedIn => Break
  | sendDequeue =>
      if negb (dequeue st) then Blocked
      else
        match q st with
        | [] => Panic
        | _ :: tail =>
            let q1 := copy (q st) tail in
            let q2 := <[(length q1 - 1)%nat := nil]> q1 in
            let q3 := take (length q2 - 1) q2 in
            if bool_decide (length q3 = 0%nat)
            then Loop (mkQueue q3 false true (next st)) [next st]
            else
              match q3 !! 0%nat with
              | Some head => Loop (mkQueue q3 (dequeue st) (skipQueue st) head) [next st]
              | None => Panic
              end
        end
  | recvQuit => Break
  end.

(** How far a run got: still in the loop, out of it with [out] closed,
    asked for a case that cannot be taken, or panicked. *)
Inductive Status := Running | Closed | Stuck | Panicked.

(** [queueHandler], along the cases its [select] takes: how it ends, the
    variables then, and everything it sent on [out], oldest first. *)
Fixpoint queueHandler (cases : list Case) (st : queueState)
    : Status * queueState * list A :=
  match cases with
  | [] => (Running, st, [])
  | c :: cases =>
      match pass st c with
      | Loop st' sent =>
          let r := queueHandler cases st' in (r.1.1, r.1.2, sent ++ r.2)
      | Break => (Closed, st, [])
      | Blocked => (Stuck, st, [])
      | Panic => (Panicked, st, [])
      end
  end.

(** What [in] delivered before the loop was left. *)
Fixpoint received (cases : list Case) : list A :=
  match cases with
  | [] => []
  | recvIn n _ :: cases => n :: received cases
  | sendDequeue :: cases => received cases
  | closedIn :: _ | recvQuit :: _ => []
  end.

(** The variables agree with one another. *)
Definition coherent (st : queueState) : Prop :=
  dequeue st = negb (skipQueue st)
  ∧ (skipQueue st = true ↔ q st = [])
  ∧ (q st ≠ [] → q st !! 0%nat = Some (next st)).

End queueHandler.
End QueueHandler.

(** ** The input handler of a client *)

Module Inbound.
Import Rescan Dispatch.

(** What [conn.ReadMessage()] returns: a message, [io.EOF], or another
    error. *)
Inductive Read := ReadMsg (msg : list byte) | ReadEOF | ReadErr.

(** How [inHandler] stands: it has returned, it waits in [ReadMessage], or
    a handler it ran panicked (or ran out of the model's fuel). *)
Inductive InStatus := InReturned | InReading | InPanicked | InOutOfFuel.

Section inbound.
Context {W : Type} (env : Env) (out : Outside W) (srv : Server) (self : positive).

(** After the loop: [c.Disconnect()], and the trace line. *)
Definition inDone (st : rescanState W) : rescanState W :=
  rlogf LTrace "Websocket client input handler done for %s" (disconnect st).

(** [inHandler], along what [ReadMessage] returns.  Each pass first looks
    at [quit], after the other goroutines have had their turn. *)
Fixpoint inHandler (fuel : nat) (reads : list Read) (st : rescanState W)
    : InStatus * rescanState W :=
  let st := sync out st in
  if disconnected (client st) then (InReturned, inDone st)
  else
    match reads with
    | [] => (InReading, st)
    | ReadMsg msg :: reads =>
        match handleMessage env out srv self fuel msg st with
        | (Handled, st) => inHandler fuel reads st
        | (HandlerPanicked, st) => (InPanicked, st)
        | (HandlerOutOfFuel, st) => (InOutOfFuel, st)
        end
    | ReadEOF :: _ => (InReturned, inDone st)
    | ReadErr :: _ =>
        (InReturned, inDone (rlogf LError "Websocket receive error from %s: %v" st))
    end.

(** A message that does not authenticate: it is not a well-formed
    [authenticate] command whose digest is one of the two stored ones. *)
Definition rejected (msg : list byte) : Prop :=
  ∀ request u p, parsesTo srv msg request (AuthenticateCmd u p) →
    authShaOf srv u p ≠ authsha srv ∧ authShaOf srv u p ≠ limitauthsha srv.

End inbound.
End Inbound.

(** ** The two goroutines that carry a client's messages to its connection *)

Module Pump.

(** One client's connection as [notificationQueueHandler] and [outHandler]
    share it: the client, what has been sent on [ntfnSentChan] and on the
    other [chan bool] channels and not yet received, what
    [conn.WriteMessage] has written, the locals of
    [notificationQueueHandler], and which of the two loops are still
    running.  The log is not part of it: the trace lines of the loops and
    of [Disconnect] are left out. *)
Record Conn := mkConn {
  cl : wsClient;
  ntfnSentChan : list bool;
  elsewhere : list (positive * bool);
  written : list wsResponse;
  pendingNtfns : list Marshalled;
  waiting : bool;
  ntfnRunning : bool;
  outRunning : bool
}.

Definition set_cl (v : wsClient) (s : Conn) : Conn :=
  mkConn v (ntfnSentChan s) (elsewhere s) (written s) (pendingNtfns s)
    (waiting s) (ntfnRunning s) (outRunning s).

Definition set_ntfnSentChan (v : list bool) (s : Conn) : Conn :=
  mkConn (cl s) v (elsewhere s) (written s) (pendingNtfns s)
    (waiting s) (ntfnRunning s) (outRunning s).

Definition set_elsewhere (v : list (positive * bool)) (s : Conn) : Conn :=
  mkConn (cl s) (ntfnSentChan s) v (written s) (pendingNtfns s)
    (waiting s) (ntfnRunning s) (outRunning s).

Definition set_written (v : list wsResponse) (s : Conn) : Conn :=
  mkConn (cl s) (ntfnSentChan s) (elsewhere s) v (pendingNtfns s)
    (waiting s) (ntfnRunning s) (outRunning s).

Definition set_pendingNtfns (v : list Marshalled) (s : Conn) : Conn :=
  mkConn (cl s) (ntfnSentChan s) (elsewhere s) (written s) v
    (waiting s) (ntfnRunning s) (outRunning s).

Definition set_waiting (v : bool) (s : Conn) : Conn :=
  mkConn (cl s) (ntfnSentChan s) (elsewhere s) (written s) (pendingNtfns s)
    v (ntfnRunning s) (outRunning s).

Definition set_ntfnRunning (v : bool) (s : Conn) : Conn :=
  mkConn (cl s) (ntfnSentChan s) (elsewhere s) (written s) (pendingNtfns s)
    (waiting s) v (outRunning s).

Definition set_outRunning (v : bool) (s : Conn) : Conn :=
  mkConn (cl s) (ntfnSentChan s) (elsewhere s) (written s) (pendingNtfns s)
    (waiting s) (ntfnRunning s) v.

(** [Start]: a client whose two loops have just been started. *)
Definition started (c : wsClient) : Conn := mkConn c [] [] [] [] false true true.

Section pump.

(** The name of the [ntfnSentChan] that [notificationQueueHandler] makes. *)
Variable sentChan : positive.

(** The sends of a call on [chan bool] channels arrive. *)
Definition deliver (sigs : list (positive * bool)) (s : Conn) : Conn :=
  foldl (λ s sig,
           if bool_decide (sig.1 = sentChan)
           then set_ntfnSentChan (ntfnSentChan s ++ [sig.2]) s
           else set_elsewhere (elsewhere s ++ [sig]) s) s sigs.

(** [c.SendMessage(m, done)] *)
Definition send (m : Marshalled) (done : option positive) (s : Conn) : Conn :=
  let r := SendMessage (cl s) m done in deliver r.2 (set_cl r.1 s).

(** The case a pass of the first [select] of [notificationQueueHandler]
    takes. *)
Inductive NtfnCase := recvNtfn | recvSent | ntfnQuit.

(** The [cleanup] loop of [notificationQueueHandler] receives until
    [ntfnChan] and [ntfnSentChan] are both empty. *)
Definition ntfnCleanup (s : Conn) : Conn :=
  set_ntfnRunning false
    (set_ntfnSentChan [] (set_cl (set_ntfnChan [] (cl s)) s)).

(** One pass of [notificationQueueHandler]; [None] when the case cannot be
    taken (nothing to receive, [quit] still open, or the loop is over). *)
Definition ntfnPass (s : Conn) (c : NtfnCase) : option Conn :=
  if negb (ntfnRunning s) then None
  else
    match c with
    | recvNtfn =>
        match ntfnChan (cl s) with
        | [] => None
        | m :: rest =>
            let s := set_cl (set_ntfnChan rest (cl s)) s in
            let s :=
              if negb (waiting s) then send m (Some sentChan) s
              else set_pendingNtfns (pendingNtfns s ++ [m]) s in
            Some (set_waiting true s)
        end
    | recvSent =>
        match ntfnSentChan s with
        | [] => None
        | _ :: rest =>
            let s := set_ntfnSentChan rest s in
            match pendingNtfns s with
            | [] => Some (set_waiting false s)
            | m :: pending => Some (send m (Some sentChan) (set_pendingNtfns pending s))
            end
        end
    | ntfnQuit =>
        if disconnected (cl s) then Some (ntfnCleanup s) else None
    end.

(** The case a pass of the first [select] of [outHandler] takes;
    [wrote] tells whether [WriteMessage] returned no error. *)
Inductive OutCase := recvSend (wrote : bool) | outQuit.

(** The [cleanup] loop of [outHandler] receives until [sendChan] is empty
    and sends [false] on the done channel of each response that has one. *)
Definition outCleanup (s : Conn) : Conn :=
  set_outRunning false
    (foldl (λ s r, match doneChan r with
                   | Some d => deliver [(d, false)] s
                   | None => s
                   end)
       (set_cl (set_sendChan [] (cl s)) s) (sendChan (cl s))).

(** One pass of [outHandler]. *)
Definition outPass (s : Conn) (c : OutCase) : option Conn :=
  if negb (outRunning s) then None
  else
    match c with
    | recvSend wrote =>
        match sendChan (cl s) with
        | [] => None
        | r :: rest =>
            let s := set_cl (set_sendChan rest (cl s)) s in
            if wrote then
              let s := set_written (written s ++ [r]) s in
              Some (match doneChan r with
                    | Some d => deliver [(d, true)] s
                    | None => s
                    end)
            else Some (outCleanup (set_cl (Disconnect (cl s)) s))
        end
    | outQuit =>
        if disconnected (cl s) then Some (outCleanup s) else None
    end.

(** What happens to the connection: another goroutine calls
    [QueueNotification], [SendMessage] with a nil done channel (the only
    way the file calls it outside [notificationQueueHandler]), or
    [Disconnect]; or one of the two loops makes a pass.  A pass is taken as
    one step. *)
Inductive Event :=
| Queue (m : Marshalled)
| Reply (m : Marshalled)
| Quit
| Ntfn (c : NtfnCase)
| Out (c : OutCase).

Definition step (s : Conn) (e : Event) : option Conn :=
  match e with
  | Queue m => Some (set_cl (QueueNotification (cl s) m).1 s)
  | Reply m => Some (send m None s)
  | Quit => Some (set_cl (Disconnect (cl s)) s)
  | Ntfn c => ntfnPass s c
  | Out c => outPass s c
  end.

(** A run; an event that cannot happen in the state it meets is left out. *)
Definition run (events : list Event) (s : Conn) : Conn :=
  foldl (λ s e, default s (step s e)) s events.

(** The notifications [QueueNotification] took along a run, and the
    replies [SendMessage] took. *)
Fixpoint queued (events : list Event) (s : Conn) : list Marshalled :=
  match events with
  | [] => []
  | e :: events =>
      match e with
      | Queue m => if disconnected (cl s) then [] else [m]
      | _ => []
      end ++ queued events (default s (step s e))
  end.

Fixpoint replied (events : list Event) (s : Conn) : list Marshalled :=
  match events with
  | [] => []
  | e :: events =>
      match e with
      | Reply m => if disconnected (cl s) then [] else [m]
      | _ => []
      end ++ replied events (default s (step s e))
  end.

(** The messages among responses that carry the done channel [done]. *)
Definition carrying (done : option positive) (rs : list wsResponse) : list Marshalled :=
  msg <$> filter (λ r, doneChan r = done) rs.

(** The notifications waiting on [sendChan]. *)
Definition inFlight (s : Conn) : list Marshalled :=
  carrying (Some sentChan) (sendChan (cl s)).

(** What every run keeps true, given the notifications and the replies
    taken so far: at most one notification is on [sendChan] or has its
    done signal on [ntfnSentChan]; [waiting] is clear only when there is
    none and nothing is pending; both loops run while the client is
    connected; what was written is the front of what was taken, and what
    waits on [sendChan] comes next. *)
Definition orderly (notifications replies : list Marshalled) (s : Conn) : Prop :=
  (length (inFlight s) + length (ntfnSentChan s) ≤ 1)%nat
  ∧ (ntfnRunning s = true → waiting s = false →
       pendingNtfns s = [] ∧ inFlight s = [] ∧ ntfnSentChan s = [])
  ∧ (disconnected (cl s) = false → ntfnRunning s = true ∧ outRunning s = true)
  ∧ (∃ rest, notifications = carrying (Some sentChan) (written s) ++ rest
       ∧ inFlight s `prefix_of` rest
       ∧ (disconnected (cl s) = false →
            rest = inFlight s ++ pendingNtfns s ++ ntfnChan (cl s)))
  ∧ (∃ rest, replies = carrying None (written s) ++ rest
       ∧ carrying None (sendChan (cl s)) `prefix_of` rest
       ∧ (disconnected (cl s) = false → rest = carrying None (sendChan (cl s)))).

End pump.
End Pump.

(** ** The goroutine that runs a client's long requests *)

Module Async.
Import Rescan Dispatch.

Section async.
Context {W : Type} (env : Env) (out : Outside W) (srv : Server) (self : positive).

(** A client as [asyncHandler] and the goroutines around it share it: the
    client and what its handlers touch, the number of signals waiting on
    [asyncHandlerDoneChan], the locals of [asyncHandler], the commands a
    handler goroutine was started for (oldest first) and those whose
    goroutine is not over yet, whether [asyncHandler] has left its loops,
    and whether a handler goroutine has panicked, which ends the program. *)
Record AsyncState := mkAsync {
  st : rescanState W;
  asyncHandlerDoneChan : nat;
  pendingCmds : list parsedRPCCmd;
  waiting : bool;
  started : list parsedRPCCmd;
  active : list parsedRPCCmd;
  asyncOver : bool;
  crashed : bool
}.

Definition set_st (v : rescanState W) (s : AsyncState) : AsyncState :=
  mkAsync v (asyncHandlerDoneChan s) (pendingCmds s) (waiting s) (started s)
    (active s) (asyncOver s) (crashed s).

Definition set_asyncHandlerDoneChan (v : nat) (s : AsyncState) : AsyncState :=
  mkAsync (st s) v (pendingCmds s) (waiting s) (started s)
    (active s) (asyncOver s) (crashed s).

Definition set_pendingCmds (v : list parsedRPCCmd) (s : AsyncState) : AsyncState :=
  mkAsync (st s) (asyncHandlerDoneChan s) v (waiting s) (started s)
    (active s) (asyncOver s) (crashed s).

Definition set_waiting (v : bool) (s : AsyncState) : AsyncState :=
  mkAsync (st s) (asyncHandlerDoneChan s) (pendingCmds s) v (started s)
    (active s) (asyncOver s) (crashed s).

Definition set_active (v : list parsedRPCCmd) (s : AsyncState) : AsyncState :=
  mkAsync (st s) (asyncHandlerDoneChan s) (pendingCmds s) (waiting s) (started s)
    v (asyncOver s) (crashed s).

Definition set_asyncOver (v : bool) (s : AsyncState) : AsyncState :=
  mkAsync (st s) (asyncHandlerDoneChan s) (pendingCmds s) (waiting s) (started s)
    (active s) v (crashed s).

Definition set_crashed (v : bool) (s : AsyncState) : AsyncState :=
  mkAsync (st s) (asyncHandlerDoneChan s) (pendingCmds s) (waiting s) (started s)
    (active s) (asyncOver s) v.

(** A client before any of its goroutines has made a step. *)
Definition fresh (st : rescanState W) : AsyncState :=
  mkAsync st 0 [] false [] [] false false.

(** [go func(cmd) { runHandler(cmd); asyncHandlerDoneChan <- struct{}{} }(cmd)] *)
Definition go (cmd : parsedRPCCmd) (s : AsyncState) : AsyncState :=
  mkAsync (st s) (asyncHandlerDoneChan s) (pendingCmds s) (waiting s)
    (started s ++ [cmd]) (active s ++ [cmd]) (asyncOver s) (crashed s).

(** The case a pass of the first [select] of [asyncHandler] takes. *)
Inductive AsyncCase := recvCmd | recvDone | asyncQuit.

(** The [cleanup] loop receives until [asyncChan] and
    [asyncHandlerDoneChan] are both empty. *)
Definition asyncCleanup (s : AsyncState) : AsyncState :=
  set_asyncOver true
    (set_asyncHandlerDoneChan 0
       (set_st (set_client (set_asyncChan [] (client (st s))) (st s)) s)).

(** One pass of [asyncHandler]; [None] when the case cannot be taken, or
    the goroutine does not run (it is started with the first long request
    and is over after its cleanup). *)
Definition asyncPass (s : AsyncState) (c : AsyncCase) : option AsyncState :=
  if negb (asyncStarted (client (st s))) || asyncOver s then None
  else
    match c with
    | recvCmd =>
        match asyncChan (client (st s)) with
        | [] => None
        | cmd :: rest =>
            let s := set_st (set_client (set_asyncChan rest (client (st s))) (st s)) s in
            let s :=
              if negb (waiting s) then go cmd s
              else set_pendingCmds (pendingCmds s ++ [cmd]) s in
            Some (set_waiting true s)
        end
    | recvDone =>
        match asyncHandlerDoneChan s with
        | O => None
        | S n =>
            let s := set_asyncHandlerDoneChan n s in
            match pendingCmds s with
            | [] => Some (set_waiting false s)
            | cmd :: pending => Some (go cmd (set_pendingCmds pending s))
            end
        end
    | asyncQuit =>
        if disconnected (client (st s)) then Some (asyncCleanup s) else None
    end.

(** What happens to the client: the input handler handles a message;
    another goroutine disconnects the client; [asyncHandler] makes a pass;
    the [i]-th handler goroutine runs [runHandler] to its end and signals.
    Each is taken as one step. *)
Inductive Event :=
| Message (fuel : nat) (msg : list byte)
| Quit
| Pass (c : AsyncCase)
| Finish (i : nat) (fuel : nat).

Definition step (s : AsyncState) (e : Event) : option AsyncState :=
  if crashed s then None
  else
    match e with
    | Message fuel msg =>
        match handleMessage env out srv self fuel msg (st s) with
        | (Handled, st') => Some (set_st st' s)
        | (HandlerPanicked, st') => Some (set_crashed true (set_st st' s))
        | (HandlerOutOfFuel, _) => None
        end
    | Quit => Some (set_st (disconnect (st s)) s)
    | Pass c => asyncPass s c
    | Finish i fuel =>
        match active s !! i with
        | None => None
        | Some cmd =>
            match runHandler env out srv self fuel cmd (st s) with
            | (Handled, st') =>
                Some (set_asyncHandlerDoneChan (S (asyncHandlerDoneChan s))
                        (set_active (delete i (active s)) (set_st st' s)))
            | (HandlerPanicked, st') => Some (set_crashed true (set_st st' s))
            | (HandlerOutOfFuel, _) => None
            end
        end
    end.

(** A run; an event that cannot happen in the state it meets is left out. *)
Definition run (events : list Event) (s : AsyncState) : AsyncState :=
  foldl (λ s e, default s (step s e)) s events.

(** The commands sent on [asyncChan] along a run, oldest first. *)
Fixpoint deferred (events : list Event) (s : AsyncState) : list parsedRPCCmd :=
  match events with
  | [] => []
  | e :: events =>
      let s' := default s (step s e) in
      match e with
      | Message _ _ =>
          drop (length (asyncChan (client (st s)))) (asyncChan (client (st s')))
      | _ => []
      end ++ deferred events s'
  end.

(** What every run keeps true, given the commands sent on [asyncChan] so
    far. *)
Definition serial (commands : list parsedRPCCmd) (s : AsyncState) : Prop :=
  (length (active s) + asyncHandlerDoneChan s ≤ 1)%nat
  ∧ (asyncOver s = false → waiting s = false →
       pendingCmds s = [] ∧ active s = [] ∧ asyncHandlerDoneChan s = 0%nat)
  ∧ (∃ rest, commands = started s ++ rest
       ∧ (asyncOver s = false → rest = pendingCmds s ++ asyncChan (client (st s)))).

End async.
End Async.

(** * Sample data

    A small world to run the handlers in: two outpoints, a transaction that
    spends both, a transaction that pays two addresses, two clients. *)

Module Demo.
Import Router Rescan Dispatch.

Definition encode (a : Address) : string :=
  match a with AddressOther s => s | _ => "" end.

(** A script pays the address its first byte names. *)
Definition scripts (script : list byte) : option (list Address) :=
  match script with
  | [] => None
  | b :: _ => Some [AddressOther (if bool_decide (b = x01) then "addr1" else "addr2")]
  end.

(** Marshalling fails on the notifications [bad] picks; maps are ranged
    over in the order [ro]. *)
Definition failing (bad : Ntfn → bool) (ro : RangeOrder) : Env :=
  mkEnv bad (λ _, "00") scripts encode (λ _, false) ro.

(** Nothing fails. *)
Definition env0 : Env := failing (λ _, false) keyOrder.

Definition isVerbose (n : Ntfn) : bool :=
  match n with TxAcceptedVerboseNtfn _ => true | _ => false end.

Definition isRedeeming (n : Ntfn) : bool :=
  match n with RedeemingTxNtfn _ _ => true | _ => false end.

Definition O1 : OutPoint := mkOutPoint 7 0.
Definition O2 : OutPoint := mkOutPoint 7 1.

Definition spendTx : Tx := mkTx 9 0 [mkTxIn O1; mkTxIn O2] [].
Definition payTx : Tx := mkTx 9 0 [] [mkTxOut 100 [x01]; mkTxOut 200 [x02]].
Definition block5 : Block := mkBlock 100 5 1000 99 [spendTx].

(** Client 1 watches [O1] and [O2], client 2 watches [O1]. *)
Definition watching : ntfnState :=
  run env0
    [notificationRegisterClient 1; notificationRegisterClient 2;
     notificationRegisterSpent 1 [O1; O2]; notificationRegisterSpent 2 [O1]]
    initial.

(** Clients 1 and 2 asked for mempool transactions, client 1 verbosely. *)
Definition subscribers : ntfnState :=
  update 1 (set_verboseTxUpdates true)
    (run env0
       [notificationRegisterClient 1; notificationRegisterClient 2;
        notificationRegisterNewMempoolTxs 1; notificationRegisterNewMempoolTxs 2]
       initial).

(** A database in which the block named ["05"] has height 5, and no other
    block is known; nobody disconnects the client. *)
Definition out0 : Outside unit :=
  mkOutside unit
    (λ sha w, (inr (Z.of_N sha), w))
    (λ _ _ w, (inr [], w))
    (λ _ w, (inl ErrBlockShaMissing, w))
    (λ w, (inl (ErrDb "empty"), w))
    (λ w, w) (λ w, w)
    (λ w, (false, w)) (λ w, (false, w))
    (λ s, inr (AddressOther s))
    (λ s, if bool_decide (s = "05") then Some 5%N else None)
    (2 ^ 31 - 1)
    (λ s, mkRPCError ErrRPCDecodeHexString s).

(** A server whose admin digest is the byte 01; every credential hashes to
    it.  A message is an [authenticate] request; its first byte tells
    whether the request carries an id. *)
Definition srv0 : Server :=
  mkServer [x01] [x02]
    (λ msg, match msg with
            | [] => inl "unexpected end of JSON input"
            | b :: _ =>
                inr (mkRequest (if bool_decide (b = x00) then None else Some "1")
                       "authenticate" "")
            end)
    (λ r, mkParsed (reqID r) (reqMethod r) (Some (AuthenticateCmd "user" "pass")) None)
    (λ _, [x01]) (λ _, "")
    (λ _, false)
    (λ _ _ _, false)
    (λ _, (RNull, None))
    (λ _, false)
    (inr "usage") (λ _, inr "help")
    (λ e _, mkRPCError ErrRPCInternal e).

(** A client with nothing queued: authenticated as admin, or not yet
    authenticated. *)
Definition peer (authenticated : bool) : rescanState unit :=
  mkRescan tt (newWebsocketClient "peer" authenticated authenticated 0) emptyKeys [] [].

(** A rescan in progress for [O1] and [O2]. *)
Definition rescanning : rescanState unit :=
  mkRescan tt (newWebsocketClient "peer" true true 0)
    (set_unspent {[O1; O2]} emptyKeys) [] [].

End Demo.

(** A closed, decidable proposition, by evaluation. *)
Ltac by_evaluation := refine (bool_decide_unpack _ _); vm_compute; exact I.


(** More sample data: a router in which client 1 watches the address
    ["addr1"], and the lookup keys of a rescan for that address. *)

Module Samples.
Import Router Rescan.

Definition paying : ntfnState :=
  run Demo.env0
    [notificationRegisterClient 1; notificationRegisterAddr 1 ["addr1"]]
    initial.

Definition keys1 : rescanKeys :=
  match addLookups Demo.out0 emptyKeys ["addr1"] with
  | inr keys => keys
  | inl _ => emptyKeys
  end.

End Samples.
(** * Facts about the notification manager *)

Module RouterFacts.
Import Router.

Lemma foldl_invariant {A B} (P : A → Prop) (f : A → B → A) (l : list B) (a : A) :
  (∀ a b, P a → P (f a b)) → P a → P (foldl f a l).
Proof. intros Hf. revert a. induction l; simpl; auto. Qed.

Lemma deref_update (c c' : positive) (f : wsClient → wsClient) (s : ntfnState) :
  deref (update c f s) c' = if decide (c' = c) then f (deref s c) else deref s c'.
Proof.
  unfold deref, update. simpl. case_decide as H.
  - subst. by rewrite lookup_insert_eq.
  - by rewrite lookup_insert_ne.
Qed.

Lemma size_zero_empty (X : gset positive) : size X = 0%nat ↔ X = ∅.
Proof. rewrite size_empty_iff. apply leibniz_equiv_iff. Qed.

Section watchers.
Context `{Countable K}.
Implicit Types (m : gmap K (gset positive)) (k : K) (X : gset positive).

Lemma watchers_insert m k k' X :
  watchers (<[k := X]> m) k' = if decide (k' = k) then X else watchers m k'.
Proof.
  unfold watchers. case_decide; subst.
  - by rewrite lookup_insert_eq.
  - by rewrite lookup_insert_ne.
Qed.

Lemma watchers_delete m k k' :
  watchers (delete k m) k' = if decide (k' = k) then ∅ else watchers m k'.
Proof.
  unfold watchers. case_decide; subst.
  - by rewrite lookup_delete_eq.
  - by rewrite lookup_delete_ne.
Qed.

Lemma watchers_dropFrom m k c k' :
  watchers (dropFrom m k c) k' = if decide (k' = k) then watchers m k ∖ {[c]} else watchers m k'.
Proof.
  unfold dropFrom. destruct (m !! k) as [X|] eqn:E.
  - case_bool_decide as Hs.
    + rewrite watchers_delete. case_decide; [|done]. subst.
      apply size_zero_empty in Hs. unfold watchers. rewrite E. simpl. by rewrite Hs.
    + rewrite watchers_insert. case_decide; [|done]. subst. unfold watchers. by rewrite E.
  - case_decide; [|done]. subst. unfold watchers. rewrite E. simpl. set_solver.
Qed.

Lemma watchers_addTo m k c k' :
  watchers (addTo m k c) k' = if decide (k' = k) then {[c]} ∪ watchers m k else watchers m k'.
Proof. apply watchers_insert. Qed.

Lemma dropFrom_lookup_ne m k c k' : k' ≠ k → dropFrom m k c !! k' = m !! k'.
Proof.
  intros Hne. unfold dropFrom. destruct (m !! k); [|done].
  case_bool_decide; [by rewrite lookup_delete_ne | by rewrite lookup_insert_ne].
Qed.

Lemma dropFrom_nonempty m k c k' : m !! k' ≠ Some ∅ → dropFrom m k c !! k' ≠ Some ∅.
Proof.
  intros Hm. destruct (decide (k' = k)) as [->|Hne]; [|by rewrite dropFrom_lookup_ne].
  unfold dropFrom. destruct (m !! k) as [X|] eqn:E; [|by rewrite E].
  case_bool_decide as Hs; [by rewrite lookup_delete_eq|].
  rewrite lookup_insert_eq. intros [= Hx]. apply Hs. by rewrite Hx.
Qed.

Lemma addTo_nonempty m k c k' : m !! k' ≠ Some ∅ → addTo m k c !! k' ≠ Some ∅.
Proof.
  intros Hm. unfold addTo. destruct (decide (k' = k)) as [->|Hne].
  - rewrite lookup_insert_eq. intros [= Hx]. set_solver.
  - by rewrite lookup_insert_ne.
Qed.

Lemma dropFrom_addTo m k c :
  c ∉ watchers m k → m !! k ≠ Some ∅ → dropFrom (addTo m k c) k c = m.
Proof.
  intros Hc Hne. unfold dropFrom, addTo. rewrite lookup_insert_eq.
  assert (({[c]} ∪ watchers m k) ∖ {[c]} = watchers m k) as -> by set_solver.
  rewrite (bool_decide_ext _ (watchers m k = ∅)) by apply size_zero_empty.
  unfold watchers in *. destruct (m !! k) as [X|] eqn:E; simpl in *.
  - rewrite bool_decide_false by congruence.
    rewrite insert_insert_eq. by apply insert_id.
  - rewrite bool_decide_true by done. rewrite delete_insert_eq. by apply delete_id.
Qed.
End watchers.

(** *** The primitives, seen through clients and maps *)

Lemma removeSpentRequest_watched c op s :
  watchedOutPoints (removeSpentRequest c op s) = dropFrom (watchedOutPoints s) op c.
Proof.
  unfold removeSpentRequest, dropFrom. simpl.
  destruct (watchedOutPoints s !! op); [|done]. by case_bool_decide.
Qed.

Lemma removeSpentRequest_deref c op s c' :
  deref (removeSpentRequest c op s) c'
  = if decide (c' = c) then set_spentRequests (spentRequests (deref s c) ∖ {[op]}) (deref s c)
    else deref s c'.
Proof.
  rewrite <-(deref_update c c' (λ cl, set_spentRequests (spentRequests cl ∖ {[op]}) cl) s).
  unfold removeSpentRequest. simpl.
  destruct (watchedOutPoints s !! op); [|done]. by case_bool_decide.
Qed.

Lemma removeSpentRequest_addrs c op s :
  watchedAddrs (removeSpentRequest c op s) = watchedAddrs s.
Proof.
  unfold removeSpentRequest. simpl.
  destruct (watchedOutPoints s !! op); [|done]. by case_bool_decide.
Qed.

Lemma removeAddrRequest_addrs c a s :
  watchedAddrs (removeAddrRequest c a s) = dropFrom (watchedAddrs s) a c.
Proof.
  unfold removeAddrRequest, dropFrom. simpl.
  destruct (watchedAddrs s !! a); [|done]. by case_bool_decide.
Qed.

Lemma removeAddrRequest_deref c a s c' :
  deref (removeAddrRequest c a s) c'
  = if decide (c' = c) then set_addrRequests (addrRequests (deref s c) ∖ {[a]}) (deref s c)
    else deref s c'.
Proof.
  rewrite <-(deref_update c c' (λ cl, set_addrRequests (addrRequests cl ∖ {[a]}) cl) s).
  unfold removeAddrRequest. simpl.
  destruct (watchedAddrs s !! a); [|done]. by case_bool_decide.
Qed.

Lemma removeAddrRequest_watched c a s :
  watchedOutPoints (removeAddrRequest c a s) = watchedOutPoints s.
Proof.
  unfold removeAddrRequest. simpl.
  destruct (watchedAddrs s !! a); [|done]. by case_bool_decide.
Qed.

Lemma addSpentRequest_watched c s op :
  watchedOutPoints (addSpentRequest c s op) = addTo (watchedOutPoints s) op c.
Proof. reflexivity. Qed.

Lemma addSpentRequest_deref c s op c' :
  deref (addSpentRequest c s op) c'
  = if decide (c' = c) then set_spentRequests ({[op]} ∪ spentRequests (deref s c)) (deref s c)
    else deref s c'.
Proof.
  by rewrite <-(deref_update c c' (λ cl, set_spentRequests ({[op]} ∪ spentRequests cl) cl) s).
Qed.

Lemma addSpentRequest_addrs c s op :
  watchedAddrs (addSpentRequest c s op) = watchedAddrs s.
Proof. reflexivity. Qed.

Lemma addAddrRequest_addrs c s a :
  watchedAddrs (addAddrRequest c s a) = addTo (watchedAddrs s) a c.
Proof. reflexivity. Qed.

Lemma addAddrRequest_deref c s a c' :
  deref (addAddrRequest c s a) c'
  = if decide (c' = c) then set_addrRequests ({[a]} ∪ addrRequests (deref s c)) (deref s c)
    else deref s c'.
Proof.
  by rewrite <-(deref_update c c' (λ cl, set_addrRequests ({[a]} ∪ addrRequests cl) cl) s).
Qed.

Lemma addAddrRequest_watched c s a :
  watchedOutPoints (addAddrRequest c s a) = watchedOutPoints s.
Proof. reflexivity. Qed.

Lemma queueNotification_deref c m s c' :
  deref (queueNotification c m s).1 c'
  = if decide (c' = c) then (QueueNotification (deref s c) m).1 else deref s c'.
Proof. unfold queueNotification. simpl. by rewrite deref_update. Qed.

Lemma QueueNotification_spent cl m : spentRequests (QueueNotification cl m).1 = spentRequests cl.
Proof. unfold QueueNotification. by destruct (Disconnected cl). Qed.

Lemma QueueNotification_addr cl m : addrRequests (QueueNotification cl m).1 = addrRequests cl.
Proof. unfold QueueNotification. by destruct (Disconnected cl). Qed.

(** *** Steps that leave the subscriptions alone *)

Lemma sameSubscriptions_refl s : sameSubscriptions s s.
Proof. by repeat split. Qed.

Lemma sameSubscriptions_trans s1 s2 s3 :
  sameSubscriptions s1 s2 → sameSubscriptions s2 s3 → sameSubscriptions s1 s3.
Proof.
  intros (Ho & Ha & Hc) (Ho' & Ha' & Hc'). split; [congruence|]. split; [congruence|].
  intros c. destruct (Hc c), (Hc' c). split; congruence.
Qed.

Lemma sameSubscriptions_mirror s s' : sameSubscriptions s s' → mirror s → mirror s'.
Proof.
  intros (Ho & Ha & Hc) [Hs Had]. split.
  - intros wsc op. destruct (Hc wsc) as [-> _]. rewrite Ho. apply Hs.
  - intros wsc a. destruct (Hc wsc) as [_ ->]. rewrite Ha. apply Had.
Qed.

Lemma queueNotification_same c m s : sameSubscriptions s (queueNotification c m s).1.
Proof.
  split; [done|]. split; [done|]. intros c'. rewrite queueNotification_deref.
  case_decide; subst; [|done]. by rewrite QueueNotification_spent, QueueNotification_addr.
Qed.

Lemma logf_same lvl fmt s : sameSubscriptions s (logf lvl fmt s).
Proof. by repeat split. Qed.

Lemma foldl_same {B} (f : ntfnState → B → ntfnState) (l : list B) s :
  (∀ s b, sameSubscriptions s (f s b)) → sameSubscriptions s (foldl f s l).
Proof.
  intros Hf. revert s. induction l as [|b l IH]; intros s; simpl.
  - apply sameSubscriptions_refl.
  - eapply sameSubscriptions_trans; [apply Hf | apply IH].
Qed.

(** *** The mirror invariant, step by step *)

Lemma removeSpentRequest_mirror c op s : mirror s → mirror (removeSpentRequest c op s).
Proof.
  intros [Hs Ha]. split.
  - intros wsc o.
    rewrite removeSpentRequest_deref, removeSpentRequest_watched, watchers_dropFrom.
    pose proof (Hs c op). specialize (Hs wsc o).
    repeat case_decide; simplify_eq; simpl; set_solver.
  - intros wsc a. rewrite removeSpentRequest_deref, removeSpentRequest_addrs.
    specialize (Ha wsc a). by case_decide; simplify_eq.
Qed.

Lemma addSpentRequest_mirror c s op : mirror s → mirror (addSpentRequest c s op).
Proof.
  intros [Hs Ha]. split.
  - intros wsc o.
    rewrite addSpentRequest_deref, addSpentRequest_watched, watchers_addTo.
    pose proof (Hs c op). specialize (Hs wsc o).
    repeat case_decide; simplify_eq; simpl; set_solver.
  - intros wsc a. rewrite addSpentRequest_deref, addSpentRequest_addrs.
    specialize (Ha wsc a). by case_decide; simplify_eq.
Qed.

Lemma removeAddrRequest_mirror c a s : mirror s → mirror (removeAddrRequest c a s).
Proof.
  intros [Hs Ha]. split.
  - intros wsc o. rewrite removeAddrRequest_deref, removeAddrRequest_watched.
    specialize (Hs wsc o). by case_decide; simplify_eq.
  - intros wsc a'.
    rewrite removeAddrRequest_deref, removeAddrRequest_addrs, watchers_dropFrom.
    pose proof (Ha c a). specialize (Ha wsc a').
    repeat case_decide; simplify_eq; simpl; set_solver.
Qed.

Lemma addAddrRequest_mirror c s a : mirror s → mirror (addAddrRequest c s a).
Proof.
  intros [Hs Ha]. split.
  - intros wsc o. rewrite addAddrRequest_deref, addAddrRequest_watched.
    specialize (Hs wsc o). by case_decide; simplify_eq.
  - intros wsc a'.
    rewrite addAddrRequest_deref, addAddrRequest_addrs, watchers_addTo.
    pose proof (Ha c a). specialize (Ha wsc a').
    repeat case_decide; simplify_eq; simpl; set_solver.
Qed.

Lemma addSpentRequests_mirror c ops s : mirror s → mirror (addSpentRequests c ops s).
Proof. apply foldl_invariant. intros. by apply addSpentRequest_mirror. Qed.

Lemma addAddrRequests_mirror c addrs s : mirror s → mirror (addAddrRequests c addrs s).
Proof. apply foldl_invariant. intros. by apply addAddrRequest_mirror. Qed.

Section handlers_facts.
Context (env : Env).

Lemma queueAll_same cs m s : sameSubscriptions s (queueAll env cs m s).
Proof. apply foldl_same. intros. apply queueNotification_same. Qed.

Lemma notifyBlockConnected_same cs block s :
  sameSubscriptions s (notifyBlockConnected env cs block s).
Proof.
  unfold notifyBlockConnected. destruct (MarshalCmd env _);
    [apply queueAll_same | apply logf_same].
Qed.

Lemma notifyBlockDisconnected_same cs block s :
  sameSubscriptions s (notifyBlockDisconnected env cs block s).
Proof.
  unfold notifyBlockDisconnected. case_bool_decide; [apply sameSubscriptions_refl|].
  destruct (MarshalCmd env _); [apply queueAll_same | apply logf_same].
Qed.

Lemma notifyForNewTxLoop_same tx m cs v s :
  sameSubscriptions s (notifyForNewTxLoop env tx m cs v s).
Proof.
  revert v s. induction cs as [|c cs IH]; intros v s; simpl;
    [apply sameSubscriptions_refl|].
  destruct (verboseTxUpdates (deref s c)).
  - destruct v as [v|].
    + eapply sameSubscriptions_trans; [apply queueNotification_same | apply IH].
    + destruct (createTxRawResultFails env tx); [apply sameSubscriptions_refl|].
      destruct (MarshalCmd env _); [|apply logf_same].
      eapply sameSubscriptions_trans; [apply queueNotification_same | apply IH].
  - eapply sameSubscriptions_trans; [apply queueNotification_same | apply IH].
Qed.

Lemma notifyForNewTx_same cs tx s : sameSubscriptions s (notifyForNewTx env cs tx s).
Proof.
  unfold notifyForNewTx. destruct (MarshalCmd env _);
    [apply notifyForNewTxLoop_same | apply logf_same].
Qed.

Lemma notifyTxInClient_mirror block prevOut m acc c :
  mirror acc.2 → mirror (notifyTxInClient block prevOut m acc c).2.
Proof.
  intros Hm. unfold notifyTxInClient.
  assert (mirror (match block with
                  | Some _ => removeSpentRequest c prevOut acc.2
                  | None => acc.2 end)) as Hm'.
  { destruct block; [by apply removeSpentRequest_mirror | done]. }
  case_bool_decide; simpl; [done|].
  eapply sameSubscriptions_mirror; [apply queueNotification_same | done].
Qed.

Lemma notifyTxIn_mirror tx block acc txIn :
  mirror acc.2 → mirror (notifyTxIn env tx block acc txIn).2.
Proof.
  destruct acc as [[txHex wscNotified] s]. simpl. intros Hm.
  destruct (watchedOutPoints s !! PreviousOutPoint txIn); [|done].
  destruct (newRedeemingTxNotification env _ _ _); simpl; [|done].
  apply (foldl_invariant (λ acc, mirror acc.2)); [|done].
  intros. by apply notifyTxInClient_mirror.
Qed.

Lemma notifyForTxIns_mirror tx block s : mirror s → mirror (notifyForTxIns env tx block s).
Proof.
  intros Hm. unfold notifyForTxIns. case_bool_decide; [done|].
  apply (foldl_invariant (λ acc, mirror acc.2)); [|done].
  intros. by apply notifyTxIn_mirror.
Qed.

Lemma notifyTxOutClient_mirror op m acc c :
  mirror acc.2 → mirror (notifyTxOutClient op m acc c).2.
Proof.
  intros Hm. unfold notifyTxOutClient.
  assert (mirror (addSpentRequests c [op] acc.2)) as Hm' by by apply addSpentRequests_mirror.
  case_bool_decide; simpl; [done|].
  eapply sameSubscriptions_mirror; [apply queueNotification_same | done].
Qed.

Lemma notifyTxOutAddr_mirror tx block i acc a :
  mirror acc.2 → mirror (notifyTxOutAddr env tx block i acc a).2.
Proof.
  destruct acc as [[txHex wscNotified] s]. simpl. intros Hm.
  destruct (watchedAddrs s !! EncodeAddress env a); [|done].
  destruct (MarshalCmd env _); simpl; [|done].
  apply (foldl_invariant (λ acc, mirror acc.2)); [|done].
  intros. by apply notifyTxOutClient_mirror.
Qed.

Lemma notifyTxOut_mirror tx block acc txOut :
  mirror acc.2.2 → mirror (notifyTxOut env tx block acc txOut).2.2.
Proof.
  intros Hm. unfold notifyTxOut. simpl.
  destruct (ExtractPkScriptAddrs env _); [|done].
  apply (foldl_invariant (λ acc, mirror acc.2)); [|done].
  intros. by apply notifyTxOutAddr_mirror.
Qed.

Lemma notifyForTxOuts_mirror tx block s : mirror s → mirror (notifyForTxOuts env tx block s).
Proof.
  intros Hm. unfold notifyForTxOuts. case_bool_decide; [done|].
  apply (foldl_invariant (λ acc, mirror acc.2.2)); [|done].
  intros. by apply notifyTxOut_mirror.
Qed.

Lemma notifyForTx_mirror tx block s : mirror s → mirror (notifyForTx env tx block s).
Proof.
  intros Hm. unfold notifyForTx.
  set (s1 := if bool_decide (size (watchedOutPoints s) ≠ 0%nat) then _ else s).
  assert (mirror s1) as Hm1.
  { subst s1. case_bool_decide; [by apply notifyForTxIns_mirror | done]. }
  clearbody s1. case_bool_decide; [by apply notifyForTxOuts_mirror | done].
Qed.

Lemma set_mirror s s' :
  watchedOutPoints s' = watchedOutPoints s → watchedAddrs s' = watchedAddrs s →
  heap s' = heap s → mirror s → mirror s'.
Proof.
  intros Ho Ha Hh. apply sameSubscriptions_mirror. split; [done|]. split; [done|].
  intros c. unfold deref. by rewrite Hh.
Qed.

Lemma unregisterClient_mirror c s : mirror s → mirror (unregisterClient env c s).
Proof.
  intros Hm. unfold unregisterClient.
  eapply set_mirror; [done..|].
  apply foldl_invariant; [intros; by apply removeAddrRequest_mirror|].
  apply foldl_invariant; [intros; by apply removeSpentRequest_mirror|].
  by eapply set_mirror; [..|eapply set_mirror; [..|apply Hm]].
Qed.

Lemma handleNotification_mirror (n : NotificationMsg) (s : ntfnState) :
  mirror s → mirror (handleNotification env n s).
Proof.
  intros Hm. destruct n; simpl.
  - set (s1 := if _ || _ then _ else s).
    assert (mirror s1) as Hm1.
    { subst s1. destruct (_ || _); [|done].
      apply foldl_invariant; [|done]. intros. by apply notifyForTx_mirror. }
    clearbody s1. case_bool_decide; [|done].
    eapply sameSubscriptions_mirror; [apply notifyBlockConnected_same | done].
  - eapply sameSubscriptions_mirror; [apply notifyBlockDisconnected_same | done].
  - apply notifyForTx_mirror. destruct (_ && _); [|done].
    eapply sameSubscriptions_mirror; [apply notifyForNewTx_same | done].
  - by eapply set_mirror.
  - by apply unregisterClient_mirror.
  - by eapply set_mirror.
  - by eapply set_mirror.
  - by eapply set_mirror.
  - by eapply set_mirror.
  - by apply addSpentRequests_mirror.
  - by apply removeSpentRequest_mirror.
  - by apply addAddrRequests_mirror.
  - by apply removeAddrRequest_mirror.
  - by eapply set_mirror.
Qed.

End handlers_facts.

Lemma mirror_initial : mirror initial.
Proof.
  split; intros wsc k; unfold deref, watchers; simpl; rewrite !lookup_empty; simpl;
    set_solver.
Qed.

(** C3: the mirror invariant holds between router messages.  For every
    client [C] and outpoint [O], [O] is in [C.spentRequests] exactly when [C]
    is in [watchedOutPoints[O]], and likewise for addresses with
    [addrRequests] and [watchedAddrs]: it holds when [notificationHandler]
    starts, every message the handler's switch takes (registrations,
    unregistrations, the unregistration of a client, block and mempool
    events with their transaction scans) preserves it, and so it holds
    after any sequence of messages. *)
Theorem mirror_invariant (env : Env) :
  mirror initial
  ∧ (∀ n s, mirror s → mirror (handleNotification env n s))
  ∧ (∀ ns, mirror (run env ns initial)).
Proof.
  split; [apply mirror_initial|]. split; [intros n s; apply handleNotification_mirror|].
  intros ns. unfold run. apply foldl_invariant; [|apply mirror_initial].
  intros s n. apply handleNotification_mirror.
Qed.

Lemma QueueNotification_chan cl m :
  ntfnChan (QueueNotification cl m).1
  = ntfnChan cl ++ (if negb (disconnected cl) then [m] else []).
Proof.
  unfold QueueNotification, Disconnected. destruct (disconnected cl); simpl; [|done].
  by rewrite app_nil_r.
Qed.

Lemma QueueNotification_gone cl m : disconnected (QueueNotification cl m).1 = disconnected cl.
Proof. unfold QueueNotification, Disconnected. by destruct (disconnected cl) eqn:E. Qed.

Lemma removeSpentRequest_chan c op s c' :
  ntfnChan (deref (removeSpentRequest c op s) c') = ntfnChan (deref s c')
  ∧ disconnected (deref (removeSpentRequest c op s) c') = disconnected (deref s c').
Proof. rewrite removeSpentRequest_deref. by case_decide; simplify_eq. Qed.

Lemma addSpentRequest_chan c op s c' :
  ntfnChan (deref (addSpentRequest c s op) c') = ntfnChan (deref s c')
  ∧ disconnected (deref (addSpentRequest c s op) c') = disconnected (deref s c').
Proof. rewrite addSpentRequest_deref. by case_decide; simplify_eq. Qed.

(** One client of the inner loop: the channels, whatever the rest of the
    step [pre] did, as long as it left channels and flags alone. *)
Lemma queuedOnce_step (N : Marshalled) (s0 : ntfnState) (pre : ntfnState → ntfnState)
    (acc : gset positive * ntfnState) (c : positive) :
  (∀ s c', ntfnChan (deref (pre s) c') = ntfnChan (deref s c')
           ∧ disconnected (deref (pre s) c') = disconnected (deref s c')) →
  queuedOnce N s0 acc →
  queuedOnce N s0
    (if bool_decide (c ∈ acc.1) then (acc.1, pre acc.2)
     else ({[c]} ∪ acc.1, (queueNotification c N (pre acc.2)).1)).
Proof.
  intros Hpre Hq c'. destruct (Hq c') as [Hg Hc]. destruct (Hpre acc.2 c') as [Hpc Hpg].
  destruct (decide (c ∈ acc.1)) as [Hin|Hin].
  - rewrite (bool_decide_true _ Hin). cbn [fst snd]. by rewrite Hpc, Hpg.
  - rewrite (bool_decide_false _ Hin). cbn [fst snd].
    rewrite queueNotification_deref. destruct (decide (c' = c)) as [->|Hcc].
    + rewrite QueueNotification_gone, QueueNotification_chan.
      rewrite Hpc, Hpg, Hc, Hg. split; [done|].
      rewrite (bool_decide_false (c ∈ acc.1)) by done. simpl. rewrite app_nil_r.
      rewrite bool_decide_true by set_solver. done.
    + rewrite Hpc, Hpg, Hc, Hg. split; [done|]. f_equal.
      rewrite (bool_decide_ext (c' ∈ {[c]} ∪ acc.1) (c' ∈ acc.1)); [done | set_solver].
Qed.

Lemma notifyTxInClient_queued N s0 block prevOut acc c :
  queuedOnce N s0 acc → queuedOnce N s0 (notifyTxInClient block prevOut N acc c).
Proof.
  intros Hq. unfold notifyTxInClient.
  apply (queuedOnce_step N s0
           (λ s, match block with Some _ => removeSpentRequest c prevOut s | None => s end));
    [|done].
  intros s c'. destruct block; [apply removeSpentRequest_chan | done].
Qed.

Lemma notifyTxOutClient_queued N s0 op acc c :
  queuedOnce N s0 acc → queuedOnce N s0 (notifyTxOutClient op N acc c).
Proof.
  intros Hq. unfold notifyTxOutClient.
  apply (queuedOnce_step N s0 (λ s, addSpentRequests c [op] s)); [|done].
  intros s c'. apply addSpentRequest_chan.
Qed.

Lemma queuedOnce_logf N s0 n lvl fmt s :
  queuedOnce N s0 (n, s) → queuedOnce N s0 (n, logf lvl fmt s).
Proof. done. Qed.

Section scan.
Context (env : Env).

Lemma hexOnce_stable tx h :
  h = "" ∨ h = txHexString env tx → hexOnce env tx h = txHexString env tx.
Proof. unfold hexOnce. intros [->| ->]; case_bool_decide; done. Qed.

Lemma newRedeemingTxNotification_inv tx block m :
  newRedeemingTxNotification env (txHexString env tx) (txIndex tx) block = Some m →
  m = redeemingOf env tx block.
Proof.
  unfold newRedeemingTxNotification, MarshalCmd. destruct (marshalFails env _); [done|].
  by intros [= <-].
Qed.

Lemma notifyTxIn_queued s0 tx block acc txIn :
  hexOk env tx acc.1.1 → queuedOnce (redeemingOf env tx block) s0 (acc.1.2, acc.2) →
  let r := notifyTxIn env tx block acc txIn in
  hexOk env tx r.1.1 ∧ queuedOnce (redeemingOf env tx block) s0 (r.1.2, r.2).
Proof.
  destruct acc as [[h n] s]. simpl. intros Hh Hq.
  destruct (watchedOutPoints s !! PreviousOutPoint txIn) as [cmap|]; [|done].
  rewrite (hexOnce_stable tx h Hh).
  destruct (newRedeemingTxNotification env _ _ _) as [m|] eqn:Em; simpl.
  - apply newRedeemingTxNotification_inv in Em as ->. split; [by right|].
    set (f := notifyTxInClient block (PreviousOutPoint txIn) (redeemingOf env tx block)).
    change (queuedOnce (redeemingOf env tx block) s0 (foldl f (n, s) (rangeSet (rangeOrder env) cmap))).
    apply foldl_invariant; [|done]. intros. by apply notifyTxInClient_queued.
  - split; [by right | done].
Qed.

Lemma queuedOnce_init N s : queuedOnce N s (∅, s).
Proof. intros c. simpl. by rewrite app_nil_r. Qed.

Lemma notifyForTxIns_queued tx block s :
  ∃ notified, queuedOnce (redeemingOf env tx block) s (notified, notifyForTxIns env tx block s).
Proof.
  unfold notifyForTxIns. case_bool_decide; [exists ∅; apply queuedOnce_init|].
  set (r := foldl _ _ _). exists r.1.2.
  assert (hexOk env tx r.1.1 ∧ queuedOnce (redeemingOf env tx block) s (r.1.2, r.2)) as [_ H']; [|done].
  subst r.
  apply (foldl_invariant (λ acc, hexOk env tx acc.1.1 ∧ queuedOnce (redeemingOf env tx block) s (acc.1.2, acc.2))).
  - intros acc txIn [Hh Hq]. by apply notifyTxIn_queued.
  - split; [by left | apply queuedOnce_init].
Qed.

Lemma marshal_recv_inv tx block m :
  MarshalCmd env (RecvTxNtfn (txHexString env tx) (blockDetails block (txIndex tx))) = Some m →
  m = recvOf env tx block.
Proof. unfold MarshalCmd. destruct (marshalFails env _); [done|]. by intros [= <-]. Qed.

Lemma notifyTxOutAddr_queued s0 tx block i acc a :
  hexOk env tx acc.1.1 → queuedOnce (recvOf env tx block) s0 (acc.1.2, acc.2) →
  let r := notifyTxOutAddr env tx block i acc a in
  hexOk env tx r.1.1 ∧ queuedOnce (recvOf env tx block) s0 (r.1.2, r.2).
Proof.
  destruct acc as [[h n] s]. simpl. intros Hh Hq.
  destruct (watchedAddrs s !! EncodeAddress env a) as [cmap|]; [|done].
  rewrite (hexOnce_stable tx h Hh).
  destruct (MarshalCmd env _) as [m|] eqn:Em; simpl.
  - apply marshal_recv_inv in Em as ->. split; [by right|].
    set (f := notifyTxOutClient (NewOutPoint (txSha tx) i) (recvOf env tx block)).
    change (queuedOnce (recvOf env tx block) s0 (foldl f (n, s) (rangeSet (rangeOrder env) cmap))).
    apply foldl_invariant; [|done]. intros. by apply notifyTxOutClient_queued.
  - split; [by right | done].
Qed.

Lemma notifyTxOut_queued s0 tx block acc txOut :
  hexOk env tx acc.2.1.1 → queuedOnce (recvOf env tx block) s0 (acc.2.1.2, acc.2.2) →
  let r := notifyTxOut env tx block acc txOut in
  hexOk env tx r.2.1.1 ∧ queuedOnce (recvOf env tx block) s0 (r.2.1.2, r.2.2).
Proof.
  intros Hh Hq. unfold notifyTxOut. cbn [fst snd].
  destruct (ExtractPkScriptAddrs env _) as [txAddrs|]; [|done].
  apply (foldl_invariant
           (λ a, hexOk env tx a.1.1 ∧ queuedOnce (recvOf env tx block) s0 (a.1.2, a.2))); [|done].
  intros a b [? ?]. by apply notifyTxOutAddr_queued.
Qed.

Lemma notifyForTxOuts_queued tx block s :
  ∃ notified, queuedOnce (recvOf env tx block) s (notified, notifyForTxOuts env tx block s).
Proof.
  unfold notifyForTxOuts. case_bool_decide; [exists ∅; apply queuedOnce_init|].
  set (r := foldl _ _ _). exists r.2.1.2.
  assert (hexOk env tx r.2.1.1 ∧ queuedOnce (recvOf env tx block) s (r.2.1.2, r.2.2)) as [_ H']; [|done].
  subst r.
  apply (foldl_invariant
           (λ a, hexOk env tx a.2.1.1 ∧ queuedOnce (recvOf env tx block) s (a.2.1.2, a.2.2))).
  - intros acc txOut [Hh Hq]. by apply notifyTxOut_queued.
  - split; [by left | apply queuedOnce_init].
Qed.

(** What [notifyForTx] sends to one client: nothing, or the [redeemingtx]
    notification of the transaction, then nothing or its [recvtx] one. *)
Lemma notifyForTx_queued tx block s c :
  ∃ e1 e2,
    ntfnChan (deref (notifyForTx env tx block s) c) = ntfnChan (deref s c) ++ e1 ++ e2
    ∧ (e1 = [] ∨ e1 = [redeemingOf env tx block])
    ∧ (e2 = [] ∨ e2 = [recvOf env tx block])
    ∧ disconnected (deref (notifyForTx env tx block s) c) = disconnected (deref s c).
Proof.
  unfold notifyForTx.
  set (s1 := if bool_decide (size (watchedOutPoints s) ≠ 0%nat) then _ else s).
  assert (∃ e1, ntfnChan (deref s1 c) = ntfnChan (deref s c) ++ e1
                ∧ (e1 = [] ∨ e1 = [redeemingOf env tx block])
                ∧ disconnected (deref s1 c) = disconnected (deref s c)) as (e1 & H1 & He1 & Hg1).
  { subst s1. case_bool_decide.
    - destruct (notifyForTxIns_queued tx block s) as [n Hq]. destruct (Hq c) as [Hg Hc].
      eexists. split; [exact Hc|]. split; [|done]. destruct (_ && _); auto.
    - exists []. rewrite app_nil_r. auto. }
  clearbody s1.
  assert (∃ e2, ntfnChan (deref (if bool_decide (size (watchedAddrs s1) ≠ 0%nat)
                                   then notifyForTxOuts env tx block s1 else s1) c)
                = ntfnChan (deref s1 c) ++ e2
                ∧ (e2 = [] ∨ e2 = [recvOf env tx block])
                ∧ disconnected (deref (if bool_decide (size (watchedAddrs s1) ≠ 0%nat)
                                   then notifyForTxOuts env tx block s1 else s1) c)
                  = disconnected (deref s1 c)) as (e2 & H2 & He2 & Hg2).
  { case_bool_decide.
    - destruct (notifyForTxOuts_queued tx block s1) as [n Hq]. destruct (Hq c) as [Hg Hc].
      eexists. split; [exact Hc|]. split; [|done]. destruct (_ && _); auto.
    - exists []. rewrite app_nil_r. auto. }
  exists e1, e2. rewrite H2, H1, Hg2, Hg1, app_assoc. done.
Qed.

End scan.


Lemma acceptedOnly_refl s : acceptedOnly s s.
Proof. intros c. exists []. by rewrite app_nil_r. Qed.

Lemma acceptedOnly_trans s1 s2 s3 :
  acceptedOnly s1 s2 → acceptedOnly s2 s3 → acceptedOnly s1 s3.
Proof.
  intros H12 H23 c. destruct (H12 c) as (e1 & E1 & A1 & B1), (H23 c) as (e2 & E2 & A2 & B2).
  exists (e1 ++ e2). rewrite E2, E1, app_assoc. split; [done|].
  unfold countNtfn in *. rewrite !List.filter_app, !length_app. lia.
Qed.

Lemma queueNotification_accepted c m s :
  isMethod redeemingtx m = false → isMethod recvtx m = false →
  acceptedOnly s (queueNotification c m s).1.
Proof.
  intros Hr Hv c'. rewrite queueNotification_deref. case_decide as Hc.
  - subst. rewrite QueueNotification_chan. eexists. split; [done|].
    destruct (negb _); unfold countNtfn; simpl; by rewrite ?Hr, ?Hv.
  - exists []. by rewrite app_nil_r.
Qed.

Lemma logf_accepted lvl fmt s : acceptedOnly s (logf lvl fmt s).
Proof. intros c. exists []. by rewrite app_nil_r. Qed.

Section accepted.
Context (env : Env).

Lemma notifyForNewTxLoop_accepted tx n cs v s :
  (∀ m, v = Some m → isMethod redeemingtx m = false ∧ isMethod recvtx m = false) →
  acceptedOnly s (notifyForNewTxLoop env tx (JNtfn (TxAcceptedNtfn (txSha tx) n)) cs v s).
Proof.
  revert v s. induction cs as [|c cs IH]; intros v s Hv; simpl; [apply acceptedOnly_refl|].
  destruct (verboseTxUpdates (deref s c)).
  - destruct v as [m|].
    + destruct (Hv m eq_refl).
      eapply acceptedOnly_trans; [by apply queueNotification_accepted | by apply IH].
    + destruct (createTxRawResultFails env tx); [apply acceptedOnly_refl|].
      unfold MarshalCmd. destruct (marshalFails env _); [apply logf_accepted|].
      eapply acceptedOnly_trans;
        [apply (queueNotification_accepted c (JNtfn (TxAcceptedVerboseNtfn tx)) s);
           reflexivity
        | apply IH].
      by intros m [= <-].
  - eapply acceptedOnly_trans;
      [apply (queueNotification_accepted c (JNtfn (TxAcceptedNtfn (txSha tx) n)) s);
         reflexivity
      | by apply IH].
Qed.

Lemma notifyForNewTx_accepted cs tx s : acceptedOnly s (notifyForNewTx env cs tx s).
Proof.
  unfold notifyForNewTx, MarshalCmd. destruct (marshalFails env _); [apply logf_accepted|].
  by apply notifyForNewTxLoop_accepted.
Qed.

Lemma mempool_event_queued isNew tx s c :
  ∃ extra,
    ntfnChan (deref (handleNotification env (notificationTxAcceptedByMempool isNew tx) s) c)
    = ntfnChan (deref s c) ++ extra
    ∧ (countNtfn redeemingtx extra ≤ 1)%nat
    ∧ (countNtfn recvtx extra ≤ 1)%nat.
Proof.
  simpl. set (s1 := if _ && _ then _ else s).
  assert (acceptedOnly s s1) as H1.
  { subst s1. destruct (_ && _); [apply notifyForNewTx_accepted | apply acceptedOnly_refl]. }
  destruct (H1 c) as (e0 & E0 & A0 & B0).
  destruct (notifyForTx_queued env tx None s1 c) as (e1 & e2 & Hc & He1 & He2 & _).
  exists (e0 ++ e1 ++ e2). rewrite Hc, E0, <-app_assoc. split; [done|].
  unfold countNtfn in *. rewrite !List.filter_app, !length_app, A0, B0.
  destruct He1 as [->| ->], He2 as [->| ->]; simpl; lia.
Qed.

End accepted.

(** C6: in the scan of one transaction ([notifyForTx], run once for a
    mempool transaction and once for each transaction of a connected block)
    a client is sent at most one [redeemingtx] and at most one [recvtx]
    notification, however many inputs spend outpoints it watches and however
    many outputs pay addresses it watches; the same holds for the whole
    handling of a mempool transaction event. *)
Theorem at_most_one_per_transaction (env : Env) (tx : Tx) (s : ntfnState) (c : positive) :
  (∀ block, ∃ extra,
     ntfnChan (deref (notifyForTx env tx block s) c) = ntfnChan (deref s c) ++ extra
     ∧ (countNtfn redeemingtx extra ≤ 1)%nat
     ∧ (countNtfn recvtx extra ≤ 1)%nat)
  ∧ (∀ isNew, ∃ extra,
       ntfnChan (deref (handleNotification env (notificationTxAcceptedByMempool isNew tx) s) c)
       = ntfnChan (deref s c) ++ extra
       ∧ (countNtfn redeemingtx extra ≤ 1)%nat
       ∧ (countNtfn recvtx extra ≤ 1)%nat).
Proof.
  split; [|intros isNew; apply mempool_event_queued].
  intros block.
  destruct (notifyForTx_queued env tx block s c) as (e1 & e2 & Hc & He1 & He2 & _).
  exists (e1 ++ e2). split; [done|].
  unfold countNtfn. rewrite !List.filter_app, !length_app.
  destruct He1 as [->| ->], He2 as [->| ->]; simpl; lia.
Qed.

Lemma watchers_empty_None `{Countable K} (m : gmap K (gset positive)) (k : K) :
  watchers m k = ∅ → m !! k ≠ Some ∅ → m !! k = None.
Proof. unfold watchers. destruct (m !! k); simpl; [by intros -> | done]. Qed.

Lemma watchers_nonempty `{Countable K} (m : gmap K (gset positive)) (k : K) :
  watchers m k ≠ ∅ → m !! k ≠ Some ∅.
Proof. unfold watchers. intros Hw E. by rewrite E in Hw. Qed.

Lemma dropFrom_lookup_None `{Countable K} (m : gmap K (gset positive)) (k k' : K) c :
  m !! k' = None → dropFrom m k c !! k' = None.
Proof.
  intros E. destruct (decide (k' = k)) as [->|Hne]; [|by rewrite dropFrom_lookup_ne].
  unfold dropFrom. by rewrite E.
Qed.

(** One watcher of the inner loop of [notifyForTxIns], block given. *)
Lemma notifyTxInClient_block b p N acc c :
  let r := notifyTxInClient (Some b) p N acc c in
  watchedOutPoints r.2 = dropFrom (watchedOutPoints acc.2) p c
  ∧ (∀ c', spentRequests (deref r.2 c')
           = if decide (c' = c) then spentRequests (deref acc.2 c) ∖ {[p]}
             else spentRequests (deref acc.2 c'))
  ∧ c ∈ r.1 ∧ acc.1 ⊆ r.1.
Proof.
  unfold notifyTxInClient.
  assert (∀ c', spentRequests (deref (removeSpentRequest c p acc.2) c')
                = if decide (c' = c) then spentRequests (deref acc.2 c) ∖ {[p]}
                  else spentRequests (deref acc.2 c')) as Hsp.
  { intros c'. rewrite removeSpentRequest_deref. by case_decide; simplify_eq. }
  destruct (decide (c ∈ acc.1)) as [Hin|Hin].
  - rewrite (bool_decide_true _ Hin). cbn [fst snd].
    rewrite removeSpentRequest_watched. done.
  - rewrite (bool_decide_false _ Hin). cbn [fst snd].
    destruct (queueNotification_same c N (removeSpentRequest c p acc.2)) as (Ho & _ & Hc).
    rewrite Ho, removeSpentRequest_watched. split; [done|]. split; [|set_solver].
    intros c'. destruct (Hc c') as [-> _]. apply Hsp.
Qed.

(** The inner loop on the watchers of [O], all of them in [l]: the entry
    of [O] is gone, and [O] has left the requests of every one of them. *)
Lemma notifyTxInClient_fold_hit b O N l acc :
  (∀ c, c ∈ watchers (watchedOutPoints acc.2) O → c ∈ l) →
  watchedOutPoints acc.2 !! O ≠ Some ∅ →
  let r := foldl (notifyTxInClient (Some b) O N) acc l in
  watchedOutPoints r.2 !! O = None
  ∧ (∀ c, c ∈ l → c ∈ r.1)
  ∧ acc.1 ⊆ r.1
  ∧ (∀ c, c ∈ l ∨ O ∉ spentRequests (deref acc.2 c) → O ∉ spentRequests (deref r.2 c)).
Proof.
  revert acc. induction l as [|c l IH]; intros acc Hall Hne; simpl.
  - split; [|set_solver]. apply watchers_empty_None; [|done].
    apply set_eq. intros c. split; [|set_solver]. intros Hc. by apply Hall, not_elem_of_nil in Hc.
  - destruct (notifyTxInClient_block b O N acc c) as (Ho & Hsp & Hc & Hsub).
    set (acc' := notifyTxInClient (Some b) O N acc c) in *.
    destruct (IH acc') as (H1 & H2 & H3 & H4).
    { intros c'. rewrite Ho, watchers_dropFrom, decide_True by done.
      intros Hc'. apply elem_of_difference in Hc' as [Hc' Hne'].
      apply Hall, elem_of_cons in Hc' as [->|]; [set_solver | done]. }
    { rewrite Ho. by apply dropFrom_nonempty. }
    split; [done|]. split; [|split; [set_solver|]].
    + intros c' [->|Hc']%elem_of_cons; [set_solver | by apply H2].
    + intros c' Hc'. apply H4. rewrite Hsp.
      destruct (decide (c' = c)) as [->|Hcc]; [right; set_solver|].
      destruct Hc' as [[->|Hc']%elem_of_cons|Hc']; [done | by left | by right].
Qed.

(** The inner loop, whatever the outpoint: other entries stay, requests and
    entries are only removed, and the notified set grows. *)
Lemma notifyTxInClient_fold_frame b p N l acc :
  let r := foldl (notifyTxInClient (Some b) p N) acc l in
  (∀ o, o ≠ p → watchedOutPoints r.2 !! o = watchedOutPoints acc.2 !! o)
  ∧ (∀ o, watchedOutPoints acc.2 !! o = None → watchedOutPoints r.2 !! o = None)
  ∧ (∀ c o, o ∉ spentRequests (deref acc.2 c) → o ∉ spentRequests (deref r.2 c))
  ∧ acc.1 ⊆ r.1.
Proof.
  revert acc. induction l as [|c l IH]; intros acc; simpl; [done|].
  destruct (notifyTxInClient_block b p N acc c) as (Ho & Hsp & Hc & Hsub).
  set (acc' := notifyTxInClient (Some b) p N acc c) in *.
  destruct (IH acc') as (H1 & H2 & H3 & H4).
  split; [|split; [|split; [|set_solver]]].
  - intros o Hne. rewrite H1, Ho by done. by apply dropFrom_lookup_ne.
  - intros o E. apply H2. rewrite Ho. by apply dropFrom_lookup_None.
  - intros c' o Ho'. apply H3. rewrite Hsp. case_decide; set_solver.
Qed.

Section one_shot.
Context (env : Env).

Lemma rangeSet_elem_of `{Countable K} (X : gset K) (x : K) :
  x ∈ rangeSet (rangeOrder env) X ↔ x ∈ X.
Proof. unfold rangeSet. by rewrite (order_perm (rangeOrder env)), elem_of_elements. Qed.

Lemma notifyTxIn_fold_queued s0 tx block l acc :
  hexOk env tx acc.1.1 → queuedOnce (redeemingOf env tx block) s0 (acc.1.2, acc.2) →
  let r := foldl (notifyTxIn env tx block) acc l in
  hexOk env tx r.1.1 ∧ queuedOnce (redeemingOf env tx block) s0 (r.1.2, r.2).
Proof.
  intros Hh Hq.
  apply (foldl_invariant
           (λ a, hexOk env tx a.1.1 ∧ queuedOnce (redeemingOf env tx block) s0 (a.1.2, a.2)));
    [|done].
  intros a b [? ?]. by apply notifyTxIn_queued.
Qed.

Lemma notifyTxIn_hexOk tx block acc txIn :
  hexOk env tx acc.1.1 → hexOk env tx (notifyTxIn env tx block acc txIn).1.1.
Proof.
  destruct acc as [[h n] s]. simpl. intros Hh.
  destruct (watchedOutPoints s !! PreviousOutPoint txIn) as [cmap|]; [|done].
  rewrite (hexOnce_stable env tx h Hh).
  destruct (newRedeemingTxNotification env _ _ _); by right.
Qed.

Lemma notifyTxIn_frame tx b acc txIn :
  let r := notifyTxIn env tx (Some b) acc txIn in
  (∀ o, o ≠ PreviousOutPoint txIn →
        watchedOutPoints r.2 !! o = watchedOutPoints acc.2 !! o)
  ∧ (∀ o, watchedOutPoints acc.2 !! o = None → watchedOutPoints r.2 !! o = None)
  ∧ (∀ c o, o ∉ spentRequests (deref acc.2 c) → o ∉ spentRequests (deref r.2 c))
  ∧ acc.1.2 ⊆ r.1.2.
Proof.
  destruct acc as [[h n] s]. simpl.
  destruct (watchedOutPoints s !! PreviousOutPoint txIn) as [cmap|]; [|done].
  destruct (newRedeemingTxNotification env _ _ _) as [m|]; simpl; [|done].
  apply (notifyTxInClient_fold_frame b (PreviousOutPoint txIn) m
           (rangeSet (rangeOrder env) cmap) (n, s)).
Qed.

Lemma notifyTxIn_hit tx b acc txIn :
  hexOk env tx acc.1.1 →
  marshalFails env (RedeemingTxNtfn (txHexString env tx)
                      (blockDetails (Some b) (txIndex tx))) = false →
  watchedOutPoints acc.2 !! PreviousOutPoint txIn ≠ Some ∅ →
  let O := PreviousOutPoint txIn in
  let r := notifyTxIn env tx (Some b) acc txIn in
  watchedOutPoints r.2 !! O = None
  ∧ watchers (watchedOutPoints acc.2) O ⊆ r.1.2
  ∧ (∀ c, c ∈ watchers (watchedOutPoints acc.2) O → O ∉ spentRequests (deref r.2 c)).
Proof.
  intros Hh Hm Hne O. subst O. destruct acc as [[h n] s].
  unfold notifyTxIn. cbn [fst snd] in *.
  unfold watchers.
  destruct (watchedOutPoints s !! PreviousOutPoint txIn) as [cmap|] eqn:E; simpl;
    [|set_solver].
  rewrite (hexOnce_stable env tx h Hh).
  unfold newRedeemingTxNotification, MarshalCmd. rewrite Hm. simpl.
  destruct (notifyTxInClient_fold_hit b (PreviousOutPoint txIn)
              (JNtfn (RedeemingTxNtfn (txHexString env tx) (blockDetails (Some b) (txIndex tx))))
              (rangeSet (rangeOrder env) cmap) (n, s)) as (H1 & H2 & H3 & H4).
  { intros c. simpl. unfold watchers. rewrite E. simpl. by rewrite rangeSet_elem_of. }
  { simpl. by rewrite E. }
  split; [done|]. split.
  - intros c Hc. by apply H2, rangeSet_elem_of.
  - intros c Hc. apply H4. left. by apply rangeSet_elem_of.
Qed.

(** Once the entry of [O] is gone it stays gone, for the rest of the inputs. *)
Lemma notifyTxIn_fold_gone tx b O l acc :
  watchedOutPoints acc.2 !! O = None →
  let r := foldl (notifyTxIn env tx (Some b)) acc l in
  watchedOutPoints r.2 !! O = None
  ∧ acc.1.2 ⊆ r.1.2
  ∧ (∀ c, O ∉ spentRequests (deref acc.2 c) → O ∉ spentRequests (deref r.2 c)).
Proof.
  revert acc. induction l as [|txIn l IH]; intros acc E; simpl; [done|].
  destruct (notifyTxIn_frame tx b acc txIn) as (_ & H2 & H3 & H4).
  destruct (IH (notifyTxIn env tx (Some b) acc txIn)) as (I1 & I2 & I3); [by apply H2|].
  split; [done|]. split; [set_solver|]. intros c Hc. by apply I3, H3.
Qed.

Lemma notifyTxIn_fold_one_shot tx b O l acc :
  hexOk env tx acc.1.1 →
  marshalFails env (RedeemingTxNtfn (txHexString env tx)
                      (blockDetails (Some b) (txIndex tx))) = false →
  O ∈ PreviousOutPoint <$> l →
  watchedOutPoints acc.2 !! O ≠ Some ∅ →
  let r := foldl (notifyTxIn env tx (Some b)) acc l in
  watchedOutPoints r.2 !! O = None
  ∧ watchers (watchedOutPoints acc.2) O ⊆ r.1.2
  ∧ (∀ c, c ∈ watchers (watchedOutPoints acc.2) O → O ∉ spentRequests (deref r.2 c)).
Proof.
  revert acc. induction l as [|txIn l IH]; intros acc Hh Hm Hin Hne; simpl.
  { by apply elem_of_nil in Hin. }
  destruct (decide (PreviousOutPoint txIn = O)) as [<-|Hp].
  - destruct (notifyTxIn_hit tx b acc txIn Hh Hm Hne) as (H1 & H2 & H3).
    destruct (notifyTxIn_fold_gone tx b (PreviousOutPoint txIn) l
                (notifyTxIn env tx (Some b) acc txIn) H1) as (G1 & G2 & G3).
    split; [done|]. split; [set_solver|]. intros c Hc. by apply G3, H3.
  - destruct (notifyTxIn_frame tx b acc txIn) as (F1 & _ & _ & _).
    pose proof (notifyTxIn_hexOk tx (Some b) acc txIn Hh) as Hh'.
    rewrite fmap_cons, elem_of_cons in Hin. destruct Hin as [->|Hin]; [done|].
    specialize (F1 O (not_eq_sym Hp)).
    destruct (IH (notifyTxIn env tx (Some b) acc txIn)) as (I1 & I2 & I3); [done..| |].
    { by rewrite F1. }
    unfold watchers in *. rewrite F1 in I2, I3. done.
Qed.

Lemma notifyForTxIns_mempool_same tx s : sameSubscriptions s (notifyForTxIns env tx None s).
Proof.
  unfold notifyForTxIns. case_bool_decide; [apply sameSubscriptions_refl|].
  apply (foldl_invariant (λ acc, sameSubscriptions s acc.2)); [|apply sameSubscriptions_refl].
  intros [[h n] s1] txIn Hs1. simpl in *.
  destruct (watchedOutPoints s1 !! PreviousOutPoint txIn) as [cmap|]; [|done].
  destruct (newRedeemingTxNotification env _ _ _) as [m|]; simpl.
  - apply (foldl_invariant (λ acc, sameSubscriptions s acc.2)); [|done].
    intros acc c Hacc. unfold notifyTxInClient. case_bool_decide; [done|]. simpl.
    eapply sameSubscriptions_trans; [done | apply queueNotification_same].
  - eapply sameSubscriptions_trans; [done | apply logf_same].
Qed.

(** The guards of [notifyForTx] repeat those of the two scans. *)
Lemma notifyForTx_unguarded tx block s :
  notifyForTx env tx block s = notifyForTxOuts env tx block (notifyForTxIns env tx block s).
Proof.
  unfold notifyForTx.
  assert ((if bool_decide (size (watchedOutPoints s) ≠ 0%nat)
           then notifyForTxIns env tx block s else s) = notifyForTxIns env tx block s) as ->.
  { case_bool_decide as H; [done|]. unfold notifyForTxIns. rewrite bool_decide_true; [done|].
    by destruct (decide (size (watchedOutPoints s) = 0%nat)). }
  case_bool_decide as H; [done|]. unfold notifyForTxOuts. rewrite bool_decide_true; [done|].
  by destruct (decide (size (watchedAddrs (notifyForTxIns env tx block s)) = 0%nat)).
Qed.

Lemma addsOnly_refl tx s : addsOnly tx s s.
Proof. by repeat split. Qed.

Lemma addsOnly_trans tx s1 s2 s3 :
  addsOnly tx s1 s2 → addsOnly tx s2 s3 → addsOnly tx s1 s3.
Proof.
  intros (A1 & B1 & C1) (A2 & B2 & C2). split; [|split].
  - intros o Ho. destruct (A1 o Ho) as [E1 F1], (A2 o Ho) as [E2 F2].
    split; [congruence|]. intros c. by rewrite F2, F1.
  - intros o c Hc. by apply B2, B1.
  - intros o c Hc. by apply C2, C1.
Qed.

Lemma sameSubscriptions_addsOnly tx s s' : sameSubscriptions s s' → addsOnly tx s s'.
Proof.
  intros (Ho & _ & Hc). split; [|split].
  - intros o _. rewrite Ho. split; [done|]. intros c. by destruct (Hc c) as [-> _].
  - intros o c. by rewrite Ho.
  - intros o c. by destruct (Hc c) as [-> _].
Qed.

Lemma addSpentRequest_addsOnly tx c i s :
  addsOnly tx s (addSpentRequest c s (NewOutPoint (txSha tx) i)).
Proof.
  split; [|split].
  - intros o Ho. assert (o ≠ NewOutPoint (txSha tx) i) as Hne by (by intros ->).
    rewrite addSpentRequest_watched. unfold addTo. rewrite lookup_insert_ne by done.
    split; [done|]. intros c'. rewrite addSpentRequest_deref.
    case_decide; simplify_eq; simpl; set_solver.
  - intros o c'. rewrite addSpentRequest_watched, watchers_addTo.
    case_decide; simplify_eq; set_solver.
  - intros o c'. rewrite addSpentRequest_deref. case_decide; simplify_eq; simpl; set_solver.
Qed.

Lemma notifyForTxOuts_addsOnly tx block s : addsOnly tx s (notifyForTxOuts env tx block s).
Proof.
  unfold notifyForTxOuts. case_bool_decide; [apply addsOnly_refl|].
  apply (foldl_invariant (λ acc, addsOnly tx s acc.2.2)); [|apply addsOnly_refl].
  intros [i [[h n] s1]] txOut Hs1. unfold notifyTxOut. cbn [fst snd] in *.
  destruct (ExtractPkScriptAddrs env _) as [txAddrs|]; [|done].
  apply (foldl_invariant (λ acc, addsOnly tx s acc.2)); [|done].
  intros [[h2 n2] s2] a Hs2. simpl in *.
  destruct (watchedAddrs s2 !! EncodeAddress env a) as [cmap|]; [|done].
  destruct (MarshalCmd env _) as [m|]; simpl.
  - apply (foldl_invariant (λ acc, addsOnly tx s acc.2)); [|done].
    intros acc c Hacc. unfold notifyTxOutClient, addSpentRequests. simpl.
    assert (addsOnly tx s (addSpentRequest c acc.2 (NewOutPoint (txSha tx) i))) as Hadd.
    { eapply addsOnly_trans; [done | apply addSpentRequest_addsOnly]. }
    case_bool_decide; [done|]. simpl.
    eapply addsOnly_trans; [done|].
    apply sameSubscriptions_addsOnly, queueNotification_same.
  - eapply addsOnly_trans; [done|]. apply sameSubscriptions_addsOnly, logf_same.
Qed.

(** C2: watched-outpoint subscriptions are one-shot for spends confirmed
    in a block.  When the inputs of a transaction are scanned with a block
    ([notifyForTxIns]), an input spends the outpoint [O], some client
    watches [O], and the [redeemingtx] notification marshals, then afterwards
    [O] has no entry in [watchedOutPoints], [O] has left the [spentRequests]
    of every client that watched it, and each of these clients that is
    connected has been sent the notification, once.  When the same
    transaction is scanned without a block (mempool), both maps and the
    request sets of all clients are what they were.  The scan of the
    outputs that follows ([notifyForTx]) registers outpoints of the
    transaction itself only, so both statements carry over to the whole
    scan: with a block, [O] (an outpoint of another transaction) is gone
    after it; without a block, no watcher and no request is removed. *)
Theorem spent_watch_one_shot (tx : Tx) (s : ntfnState) :
  (∀ b O,
     O ∈ PreviousOutPoint <$> TxIns tx →
     watchers (watchedOutPoints s) O ≠ ∅ →
     marshalFails env (RedeemingTxNtfn (txHexString env tx)
                         (blockDetails (Some b) (txIndex tx))) = false →
     let s' := notifyForTxIns env tx (Some b) s in
     watchedOutPoints s' !! O = None
     ∧ (∀ c, c ∈ watchers (watchedOutPoints s) O →
             (O ∉ spentRequests (deref s' c))
             ∧ (disconnected (deref s c) = false →
                ntfnChan (deref s' c)
                = ntfnChan (deref s c) ++ [redeemingOf env tx (Some b)])))
  ∧ sameSubscriptions s (notifyForTxIns env tx None s)
  ∧ (∀ b O,
       O ∈ PreviousOutPoint <$> TxIns tx →
       watchers (watchedOutPoints s) O ≠ ∅ →
       marshalFails env (RedeemingTxNtfn (txHexString env tx)
                           (blockDetails (Some b) (txIndex tx))) = false →
       Hash O ≠ txSha tx →
       let s' := notifyForTx env tx (Some b) s in
       watchedOutPoints s' !! O = None
       ∧ (∀ c, c ∈ watchers (watchedOutPoints s) O → O ∉ spentRequests (deref s' c)))
  ∧ (let s' := notifyForTx env tx None s in
     (∀ o c, c ∈ watchers (watchedOutPoints s) o → c ∈ watchers (watchedOutPoints s') o)
     ∧ (∀ o c, o ∈ spentRequests (deref s c) → o ∈ spentRequests (deref s' c))).
Proof.
  assert (∀ b O,
     O ∈ PreviousOutPoint <$> TxIns tx →
     watchers (watchedOutPoints s) O ≠ ∅ →
     marshalFails env (RedeemingTxNtfn (txHexString env tx)
                         (blockDetails (Some b) (txIndex tx))) = false →
     let s' := notifyForTxIns env tx (Some b) s in
     watchedOutPoints s' !! O = None
     ∧ (∀ c, c ∈ watchers (watchedOutPoints s) O →
             (O ∉ spentRequests (deref s' c))
             ∧ (disconnected (deref s c) = false →
                ntfnChan (deref s' c)
                = ntfnChan (deref s c) ++ [redeemingOf env tx (Some b)]))) as Hins;
    [|split; [exact Hins|]; split; [apply notifyForTxIns_mempool_same|]; split].
  2:{ intros b O Hin Hw Hm Hne s'. subst s'. rewrite notifyForTx_unguarded.
      destruct (Hins b O Hin Hw Hm) as [H1 H2].
      destruct (notifyForTxOuts_addsOnly tx (Some b) (notifyForTxIns env tx (Some b) s))
        as (A & _ & _).
      destruct (A O Hne) as [E F]. split; [by rewrite E|].
      intros c Hc. rewrite F. by apply H2. }
  2:{ rewrite notifyForTx_unguarded.
      destruct (notifyForTxIns_mempool_same tx s) as (Ho & _ & Hc).
      destruct (notifyForTxOuts_addsOnly tx None (notifyForTxIns env tx None s))
        as (_ & B & C).
      split.
      - intros o c Hoc. apply B. by rewrite Ho.
      - intros o c Hoc. apply C. by destruct (Hc c) as [-> _]. }
  intros b O Hin Hw Hm s'. subst s'. unfold notifyForTxIns.
  rewrite bool_decide_false.
  2:{ rewrite map_size_empty_iff. intros E. apply Hw. unfold watchers. by rewrite E, lookup_empty. }
  destruct (notifyTxIn_fold_one_shot tx b O (TxIns tx) ("", ∅, s)) as (H1 & H2 & H3);
    [by left | done | done | by apply watchers_nonempty |].
  destruct (notifyTxIn_fold_queued s tx (Some b) (TxIns tx) ("", ∅, s)) as [_ Hq];
    [by left | apply queuedOnce_init |].
  set (r := foldl _ _ _) in *. cbn [fst snd] in *.
  split; [done|]. intros c Hc. split; [by apply H3|].
  intros Hd. destruct (Hq c) as [_ Hch]. cbn [fst snd] in Hch.
  rewrite Hch, Hd, bool_decide_true by set_solver. done.
Qed.

End one_shot.

Lemma set_spentRequests_id cl : set_spentRequests (spentRequests cl) cl = cl.
Proof. by destruct cl. Qed.

Lemma set_addrRequests_id cl : set_addrRequests (addrRequests cl) cl = cl.
Proof. by destruct cl. Qed.

Lemma state_eq s s' :
  clients s' = clients s → blockNotifications s' = blockNotifications s →
  txNotifications s' = txNotifications s → watchedOutPoints s' = watchedOutPoints s →
  watchedAddrs s' = watchedAddrs s → heap s' = heap s → rpcsLog s' = rpcsLog s → s' = s.
Proof. destruct s, s'. simpl. by intros -> -> -> -> -> -> ->. Qed.

Lemma removeSpentRequest_log_present c op s :
  is_Some (watchedOutPoints s !! op) → rpcsLog (removeSpentRequest c op s) = rpcsLog s.
Proof.
  intros [X E]. unfold removeSpentRequest. simpl. rewrite E. by case_bool_decide.
Qed.

Lemma removeSpentRequest_heap c op s :
  heap (removeSpentRequest c op s)
  = <[c := set_spentRequests (spentRequests (deref s c) ∖ {[op]}) (deref s c)]> (heap s).
Proof.
  unfold removeSpentRequest. simpl.
  destruct (watchedOutPoints s !! op); [|done]. by case_bool_decide.
Qed.

Lemma removeSpentRequest_rest c op s :
  clients (removeSpentRequest c op s) = clients s
  ∧ blockNotifications (removeSpentRequest c op s) = blockNotifications s
  ∧ txNotifications (removeSpentRequest c op s) = txNotifications s.
Proof.
  unfold removeSpentRequest. simpl.
  destruct (watchedOutPoints s !! op); [|done]. by case_bool_decide.
Qed.

Lemma removeAddrRequest_log_present c a s :
  is_Some (watchedAddrs s !! a) → rpcsLog (removeAddrRequest c a s) = rpcsLog s.
Proof.
  intros [X E]. unfold removeAddrRequest. simpl. rewrite E. by case_bool_decide.
Qed.

Lemma removeAddrRequest_heap c a s :
  heap (removeAddrRequest c a s)
  = <[c := set_addrRequests (addrRequests (deref s c) ∖ {[a]}) (deref s c)]> (heap s).
Proof.
  unfold removeAddrRequest. simpl.
  destruct (watchedAddrs s !! a); [|done]. by case_bool_decide.
Qed.

Lemma removeAddrRequest_rest c a s :
  clients (removeAddrRequest c a s) = clients s
  ∧ blockNotifications (removeAddrRequest c a s) = blockNotifications s
  ∧ txNotifications (removeAddrRequest c a s) = txNotifications s.
Proof.
  unfold removeAddrRequest. simpl.
  destruct (watchedAddrs s !! a); [|done]. by case_bool_decide.
Qed.

(** The router with the object of [c] written back as it is. *)
Lemma update_same c s : sameRouter s (update c (λ cl, cl) s).
Proof.
  do 6 (split; [done|]). intros c'. rewrite deref_update. by destruct (decide (c' = c)) as [->|].
Qed.

Lemma update_held c s : is_Some (heap s !! c) → update c (λ cl, cl) s = s.
Proof.
  intros [cl Hcl]. apply state_eq; try done. simpl. unfold deref. rewrite Hcl. simpl.
  by apply insert_id.
Qed.

Lemma register_unregister_spent c op s :
  op ∉ spentRequests (deref s c) →
  c ∉ watchers (watchedOutPoints s) op → watchedOutPoints s !! op ≠ Some ∅ →
  removeSpentRequest c op (addSpentRequests c [op] s) = update c (λ cl, cl) s.
Proof.
  intros Hop Hc Hne. unfold addSpentRequests. simpl.
  destruct (removeSpentRequest_rest c op (addSpentRequest c s op)) as (R1 & R2 & R3).
  apply state_eq; try done.
  - rewrite removeSpentRequest_watched, addSpentRequest_watched. by apply dropFrom_addTo.
  - by rewrite removeSpentRequest_addrs.
  - rewrite removeSpentRequest_heap, addSpentRequest_deref, decide_True by done.
    unfold addSpentRequest at 1. simpl. rewrite insert_insert_eq.
    assert (({[op]} ∪ spentRequests (deref s c)) ∖ {[op]} = spentRequests (deref s c))
      as -> by set_solver.
    by destruct (deref s c).
  - rewrite removeSpentRequest_log_present; [done|].
    rewrite addSpentRequest_watched. unfold addTo. by rewrite lookup_insert_eq.
Qed.

Lemma register_unregister_addr c a s :
  a ∉ addrRequests (deref s c) →
  c ∉ watchers (watchedAddrs s) a → watchedAddrs s !! a ≠ Some ∅ →
  removeAddrRequest c a (addAddrRequests c [a] s) = update c (λ cl, cl) s.
Proof.
  intros Hop Hc Hne. unfold addAddrRequests. simpl.
  destruct (removeAddrRequest_rest c a (addAddrRequest c s a)) as (R1 & R2 & R3).
  apply state_eq; try done.
  - by rewrite removeAddrRequest_watched.
  - rewrite removeAddrRequest_addrs, addAddrRequest_addrs. by apply dropFrom_addTo.
  - rewrite removeAddrRequest_heap, addAddrRequest_deref, decide_True by done.
    unfold addAddrRequest at 1. simpl. rewrite insert_insert_eq.
    assert (({[a]} ∪ addrRequests (deref s c)) ∖ {[a]} = addrRequests (deref s c))
      as -> by set_solver.
    by destruct (deref s c).
  - rewrite removeAddrRequest_log_present; [done|].
    rewrite addAddrRequest_addrs. unfold addTo. by rewrite lookup_insert_eq.
Qed.

Lemma unregister_absent_spent c op s :
  watchedOutPoints s !! op = None →
  let s' := removeSpentRequest c op s in
  rpcsLog s'
  = rpcsLog s ++ [(LWarn, "Attempt to remove nonexistent spent request for websocket client %s")]
  ∧ onlyClient c s s'
  ∧ deref s' c = set_spentRequests (spentRequests (deref s c) ∖ {[op]}) (deref s c).
Proof.
  intros E s'. subst s'. split; [|split].
  - unfold removeSpentRequest. simpl. by rewrite E.
  - destruct (removeSpentRequest_rest c op s) as (R1 & R2 & R3).
    repeat split; try done.
    + rewrite removeSpentRequest_watched. unfold dropFrom. by rewrite E.
    + by rewrite removeSpentRequest_addrs.
    + intros c' Hne. rewrite removeSpentRequest_deref. by rewrite decide_False.
  - rewrite removeSpentRequest_deref. by rewrite decide_True.
Qed.

Lemma unregister_absent_addr c a s :
  watchedAddrs s !! a = None →
  let s' := removeAddrRequest c a s in
  rpcsLog s'
  = rpcsLog s
    ++ [(LWarn, "Attempt to remove nonexistent addr request <%s> for websocket client %s")]
  ∧ onlyClient c s s'
  ∧ deref s' c = set_addrRequests (addrRequests (deref s c) ∖ {[a]}) (deref s c).
Proof.
  intros E s'. subst s'. split; [|split].
  - unfold removeAddrRequest. simpl. by rewrite E.
  - destruct (removeAddrRequest_rest c a s) as (R1 & R2 & R3).
    repeat split; try done.
    + by rewrite removeAddrRequest_watched.
    + rewrite removeAddrRequest_addrs. unfold dropFrom. by rewrite E.
    + intros c' Hne. rewrite removeAddrRequest_deref. by rewrite decide_False.
  - rewrite removeAddrRequest_deref. by rewrite decide_True.
Qed.

(** C5, amended: for any client and a subscription it does not hold yet
    (the outpoint is not in its [spentRequests], the client is not in the
    outpoint's inner map, and that inner map is not an empty leftover),
    handling its registration and then its unregistration gives back the
    router as it was before the registration: the same client sets, the
    same two indexes, the same log and the same object behind every client
    pointer, so the same request sets; the same for an address.  The two
    states are then equal, but for the entry that holds the object of a
    client the router had not written to before.  Unregistering a key that
    has no entry logs a warning, leaves both maps and all other clients as
    they are, and takes the key out of the client's own request set. *)
Theorem register_then_unregister (env : Env) (c : positive) (s : ntfnState) :
  (∀ op,
     op ∉ spentRequests (deref s c) →
     c ∉ watchers (watchedOutPoints s) op → watchedOutPoints s !! op ≠ Some ∅ →
     let s' := handleNotification env (notificationUnregisterSpent c op)
                 (handleNotification env (notificationRegisterSpent c [op]) s) in
     sameRouter s s' ∧ (is_Some (heap s !! c) → s' = s))
  ∧ (∀ a,
       a ∉ addrRequests (deref s c) →
       c ∉ watchers (watchedAddrs s) a → watchedAddrs s !! a ≠ Some ∅ →
       let s' := handleNotification env (notificationUnregisterAddr c a)
                   (handleNotification env (notificationRegisterAddr c [a]) s) in
       sameRouter s s' ∧ (is_Some (heap s !! c) → s' = s))
  ∧ (∀ op,
       watchedOutPoints s !! op = None →
       let s' := handleNotification env (notificationUnregisterSpent c op) s in
       rpcsLog s'
       = rpcsLog s
         ++ [(LWarn, "Attempt to remove nonexistent spent request for websocket client %s")]
       ∧ onlyClient c s s'
       ∧ deref s' c = set_spentRequests (spentRequests (deref s c) ∖ {[op]}) (deref s c))
  ∧ (∀ a,
       watchedAddrs s !! a = None →
       let s' := handleNotification env (notificationUnregisterAddr c a) s in
       rpcsLog s'
       = rpcsLog s
         ++ [(LWarn, "Attempt to remove nonexistent addr request <%s> for websocket client %s")]
       ∧ onlyClient c s s'
       ∧ deref s' c = set_addrRequests (addrRequests (deref s c) ∖ {[a]}) (deref s c)).
Proof.
  split; [|split; [|split]].
  - intros op Hop Hc Hne. cbv zeta. cbn [handleNotification].
    rewrite register_unregister_spent by done.
    split; [apply update_same | apply update_held].
  - intros a Ha Hc Hne. cbv zeta. cbn [handleNotification].
    rewrite register_unregister_addr by done.
    split; [apply update_same | apply update_held].
  - intros op. apply unregister_absent_spent.
  - intros a. apply unregister_absent_addr.
Qed.

Lemma appendLog_nil s : appendLog [] s = s.
Proof. destruct s. unfold appendLog. simpl. by rewrite app_nil_r. Qed.

Lemma logf_appendLog lvl fmt l s :
  logf lvl fmt (appendLog l s) = appendLog (l ++ [(lvl, fmt)]) s.
Proof. unfold logf, appendLog. simpl. by rewrite app_assoc. Qed.

Section marshal_failure.
Context (env : Env).

Lemma notifyTxIn_fold_fails tx block s l h k :
  marshalFails env (RedeemingTxNtfn (txHexString env tx)
                      (blockDetails block (txIndex tx))) = true →
  hexOk env tx h →
  ∃ h', hexOk env tx h' ∧
    foldl (notifyTxIn env tx block) (h, ∅, appendLog (replicate k warnRedeeming) s) l
    = (h', ∅,
       appendLog
         (replicate
            (k + length (List.filter
                           (λ txIn, bool_decide (is_Some (watchedOutPoints s !! PreviousOutPoint txIn)))
                           l))
            warnRedeeming) s).
Proof.
  intros Hm. revert h k. induction l as [|txIn l IH]; intros h k Hh; simpl.
  { exists h. by rewrite Nat.add_0_r. }
  destruct (watchedOutPoints s !! PreviousOutPoint txIn) as [cmap|] eqn:E.
  - rewrite bool_decide_true by done. simpl.
    rewrite (hexOnce_stable env tx h Hh).
    unfold newRedeemingTxNotification, MarshalCmd. rewrite Hm.
    rewrite logf_appendLog.
    replace (replicate k warnRedeeming ++ [(LWarn, "Failed to marshal redeemingtx notification: %v")])
      with (replicate (S k) warnRedeeming).
    2:{ change [(LWarn, "Failed to marshal redeemingtx notification: %v")]
          with (replicate 1 warnRedeeming).
        rewrite <-replicate_add. f_equal. lia. }
    destruct (IH (txHexString env tx) (S k)) as (h' & Hh' & ->); [by right|].
    exists h'. split; [done|]. do 3 f_equal. lia.
  - rewrite bool_decide_false by (by intros [? ?]).
    apply IH. done.
Qed.

Lemma notifyForTxIns_fails tx block s :
  marshalFails env (RedeemingTxNtfn (txHexString env tx)
                      (blockDetails block (txIndex tx))) = true →
  notifyForTxIns env tx block s
  = appendLog (replicate (length (watchedInputs tx s)) warnRedeeming) s.
Proof.
  intros Hm. unfold notifyForTxIns, watchedInputs. case_bool_decide as Hs.
  - apply map_size_empty_iff in Hs.
    assert (List.filter
              (λ txIn, bool_decide (is_Some (watchedOutPoints s !! PreviousOutPoint txIn)))
              (TxIns tx) = []) as ->.
    { induction (TxIns tx) as [|t l IH]; [done|]. simpl.
      rewrite Hs, lookup_empty. rewrite bool_decide_false by (by intros [? ?]).
      by rewrite Hs in IH. }
    simpl. by rewrite appendLog_nil.
  - destruct (notifyTxIn_fold_fails tx block s (TxIns tx) "" 0 Hm) as (h' & _ & Hf); [by left|].
    simpl in Hf. rewrite appendLog_nil in Hf. by rewrite Hf.
Qed.

Lemma notifyTxOutAddr_fold_fails tx block i s l h k :
  marshalFails env (RecvTxNtfn (txHexString env tx)
                      (blockDetails block (txIndex tx))) = true →
  hexOk env tx h →
  ∃ h', hexOk env tx h' ∧
    foldl (notifyTxOutAddr env tx block i) (h, ∅, appendLog (replicate k errorRecv) s) l
    = (h', ∅,
       appendLog
         (replicate
            (k + length (List.filter
                           (λ a, bool_decide (is_Some (watchedAddrs s !! EncodeAddress env a)))
                           l))
            errorRecv) s).
Proof.
  intros Hm. revert h k. induction l as [|a l IH]; intros h k Hh; simpl.
  { exists h. by rewrite Nat.add_0_r. }
  destruct (watchedAddrs s !! EncodeAddress env a) as [cmap|] eqn:E.
  - rewrite bool_decide_true by done. simpl.
    rewrite (hexOnce_stable env tx h Hh).
    unfold MarshalCmd. rewrite Hm.
    rewrite logf_appendLog.
    replace (replicate k errorRecv ++ [(LError, "Failed to marshal processedtx notification: %v")])
      with (replicate (S k) errorRecv).
    2:{ change [(LError, "Failed to marshal processedtx notification: %v")]
          with (replicate 1 errorRecv).
        rewrite <-replicate_add. f_equal. lia. }
    destruct (IH (txHexString env tx) (S k)) as (h' & Hh' & ->); [by right|].
    exists h'. split; [done|]. do 3 f_equal. lia.
  - rewrite bool_decide_false by (by intros [? ?]).
    apply IH. done.
Qed.

Lemma notifyTxOut_fold_fails tx block s l i h k :
  marshalFails env (RecvTxNtfn (txHexString env tx)
                      (blockDetails block (txIndex tx))) = true →
  hexOk env tx h →
  ∃ i' h', hexOk env tx h' ∧
    foldl (notifyTxOut env tx block) (i, (h, ∅, appendLog (replicate k errorRecv) s)) l
    = (i', (h', ∅,
       appendLog
         (replicate
            (k + length (List.filter
                           (λ a, bool_decide (is_Some (watchedAddrs s !! EncodeAddress env a)))
                           (concat (map (λ txOut, default [] (ExtractPkScriptAddrs env (PkScript txOut))) l))))
            errorRecv) s)).
Proof.
  intros Hm. revert i h k. induction l as [|txOut l IH]; intros i h k Hh; simpl.
  { exists i, h. by rewrite Nat.add_0_r. }
  unfold notifyTxOut at 2. cbn [fst snd].
  rewrite List.filter_app, length_app.
  destruct (ExtractPkScriptAddrs env (PkScript txOut)) as [txAddrs|]; simpl.
  - destruct (notifyTxOutAddr_fold_fails tx block i s txAddrs h k Hm Hh) as (h1 & Hh1 & ->).
    destruct (IH (i + 1) h1 (k + length (List.filter
                 (λ a, bool_decide (is_Some (watchedAddrs s !! EncodeAddress env a))) txAddrs))%nat Hh1)
      as (i' & h' & Hh' & ->).
    exists i', h'. split; [done|]. do 4 f_equal. lia.
  - destruct (IH (i + 1) h k Hh) as (i' & h' & Hh' & ->). by exists i', h'.
Qed.

Lemma notifyForTxOuts_fails tx block s :
  marshalFails env (RecvTxNtfn (txHexString env tx)
                      (blockDetails block (txIndex tx))) = true →
  notifyForTxOuts env tx block s
  = appendLog (replicate (length (watchedPayments env tx s)) errorRecv) s.
Proof.
  intros Hm. unfold notifyForTxOuts, watchedPayments. case_bool_decide as Hs.
  - apply map_size_empty_iff in Hs.
    assert (∀ l, List.filter
              (λ a, bool_decide (is_Some (watchedAddrs s !! EncodeAddress env a))) l = []) as ->.
    { induction l as [|t l IH]; [done|]. simpl.
      rewrite Hs, lookup_empty. rewrite bool_decide_false by (by intros [? ?]).
      by rewrite Hs in IH. }
    simpl. by rewrite appendLog_nil.
  - destruct (notifyTxOut_fold_fails tx block s (TxOuts tx) 0 "" 0 Hm) as (i' & h' & _ & Hf);
      [by left|].
    simpl in Hf. rewrite appendLog_nil in Hf. by rewrite Hf.
Qed.


(** C4, amended: a failure to marshal is logged and costs the
    notifications it was for, no more.  If the [redeemingtx] notification
    of a transaction does not marshal, [notifyForTxIns] writes one warning
    for each input that spends a watched outpoint and changes nothing else,
    and [notifyForTx] goes on to the outputs from there; if the [recvtx]
    notification does not marshal, [notifyForTxOuts] writes one error for
    each watched address an output pays and changes nothing else; in a
    connected block the scan goes on with the transactions that follow; and
    if the [txaccepted] notification of a mempool transaction does not
    marshal, the failure is logged when there are subscribers and the
    transaction is scanned all the same. *)
Theorem marshal_failure_is_local (tx : Tx) (block : option Block) (s : ntfnState) :
  let redeeming := RedeemingTxNtfn (txHexString env tx) (blockDetails block (txIndex tx)) in
  let recv := RecvTxNtfn (txHexString env tx) (blockDetails block (txIndex tx)) in
  (marshalFails env redeeming = true →
     notifyForTxIns env tx block s
     = appendLog (replicate (length (watchedInputs tx s)) warnRedeeming) s
     ∧ notifyForTx env tx block s
       = notifyForTxOuts env tx block
           (appendLog (replicate (length (watchedInputs tx s)) warnRedeeming) s))
  ∧ (marshalFails env recv = true →
     notifyForTxOuts env tx block s
     = appendLog (replicate (length (watchedPayments env tx s)) errorRecv) s)
  ∧ (∀ rest b,
       block = Some b → marshalFails env redeeming = true → marshalFails env recv = true →
       foldl (λ s tx, notifyForTx env tx (Some b) s) s (tx :: rest)
       = foldl (λ s tx, notifyForTx env tx (Some b) s)
           (appendLog (replicate (length (watchedInputs tx s)) warnRedeeming
                       ++ replicate (length (watchedPayments env tx s)) errorRecv) s)
           rest)
  ∧ (∀ isNew,
       block = None →
       marshalFails env
         (TxAcceptedNtfn (txSha tx)
            (foldl (λ amount txOut, int64 (amount + Value txOut)) 0 (TxOuts tx))) = true →
       handleNotification env (notificationTxAcceptedByMempool isNew tx) s
       = notifyForTx env tx None
           (if isNew && bool_decide (size (txNotifications s) ≠ 0%nat)
            then logf LError "Failed to marshal tx notification: %s" s else s)).
Proof.
  intros redeeming recv. subst redeeming recv. split; [|split; [|split]].
  - intros Hm. split; [by apply notifyForTxIns_fails|].
    by rewrite notifyForTx_unguarded, notifyForTxIns_fails.
  - apply notifyForTxOuts_fails.
  - intros rest b -> Hm1 Hm2. simpl. f_equal.
    rewrite notifyForTx_unguarded, notifyForTxIns_fails by done.
    rewrite notifyForTxOuts_fails by done.
    unfold appendLog, watchedPayments. simpl. by rewrite app_assoc.
  - intros isNew -> Hm. simpl. unfold notifyForNewTx, MarshalCmd. by rewrite Hm.
Qed.

End marshal_failure.

(** *** The theorems at work on the sample data *)

(** The block [block5] spends [O1], which clients 1 and 2 watch: the entry
    of [O1] is gone afterwards. *)
Lemma spent_watch_one_shot_witness :
  watchedOutPoints
    (notifyForTxIns Demo.env0 Demo.spendTx (Some Demo.block5) Demo.watching) !! Demo.O1
  = None.
Proof.
  refine (proj1 (proj1 (spent_watch_one_shot Demo.env0 Demo.spendTx Demo.watching)
                   Demo.block5 Demo.O1 _ _ _)).
  - by_evaluation.
  - by_evaluation.
  - reflexivity.
Defined.

(** Client 1 has just been registered and has made no request yet:
    registering and unregistering [O1] for it gives the router back. *)
Lemma register_then_unregister_witness :
  let s := run Demo.env0 [notificationRegisterClient 1] initial in
  let s' := handleNotification Demo.env0 (notificationUnregisterSpent 1 Demo.O1)
              (handleNotification Demo.env0 (notificationRegisterSpent 1 [Demo.O1]) s) in
  heap s !! 1%positive = None ∧ sameRouter s s'.
Proof.
  split; [reflexivity|].
  refine (proj1 (proj1 (register_then_unregister Demo.env0 1
                          (run Demo.env0 [notificationRegisterClient 1] initial))
                   Demo.O1 _ _ _)).
  - by_evaluation.
  - by_evaluation.
  - discriminate.
Defined.

(** Client 2 does not watch [O2]: registering and unregistering it changes
    nothing. *)
Example register_then_unregister_held :
  handleNotification Demo.env0 (notificationUnregisterSpent 2 Demo.O2)
    (handleNotification Demo.env0 (notificationRegisterSpent 2 [Demo.O2]) Demo.watching)
  = Demo.watching.
Proof.
  cbn [handleNotification]. rewrite register_unregister_spent.
  - apply update_held. by_evaluation.
  - by_evaluation.
  - by_evaluation.
  - by_evaluation.
Qed.

(** C5 as stated fails: client 1 watches [O1] already, and registering then
    unregistering [O1] leaves it without the subscription it had. *)
Lemma register_then_unregister_counterexample :
  let s' := handleNotification Demo.env0 (notificationUnregisterSpent 1 Demo.O1)
              (handleNotification Demo.env0 (notificationRegisterSpent 1 [Demo.O1])
                 Demo.watching) in
  (Demo.O1 ∈ spentRequests (deref Demo.watching 1))
  ∧ (Demo.O1 ∉ spentRequests (deref s' 1))
  ∧ (1%positive ∈ watchers (watchedOutPoints Demo.watching) Demo.O1)
  ∧ (1%positive ∉ watchers (watchedOutPoints s') Demo.O1)
  ∧ s' ≠ Demo.watching.
Proof.
  cbv zeta. repeat split; try by_evaluation.
  intros E.
  apply (f_equal (λ s, bool_decide (Demo.O1 ∈ spentRequests (deref s 1)))) in E.
  vm_compute in E. discriminate E.
Qed.

(** The [redeemingtx] notification of [spendTx] does not marshal: two
    warnings, one for each watched input, and nothing else. *)
Lemma marshal_failure_is_local_witness :
  notifyForTxIns (Demo.failing Demo.isRedeeming keyOrder) Demo.spendTx (Some Demo.block5)
    Demo.watching
  = appendLog [warnRedeeming; warnRedeeming] Demo.watching.
Proof.
  exact (proj1 (proj1 (marshal_failure_is_local (Demo.failing Demo.isRedeeming keyOrder)
                         Demo.spendTx (Some Demo.block5) Demo.watching)
                  eq_refl)).
Defined.

(** C4 as stated fails in [notifyForNewTx]: the verbose notification does
    not marshal, the compact one does; when the range over the subscribers
    reaches the verbose client 1 first, the function returns and client 2 is
    sent nothing, and when it reaches client 2 first, client 2 is sent its
    notification. *)
Lemma marshal_failure_counterexample :
  let event := notificationTxAcceptedByMempool true Demo.payTx in
  marshalFails (Demo.failing Demo.isVerbose reverseOrder) (TxAcceptedNtfn 9 300) = false
  ∧ txNotifications Demo.subscribers = {[1%positive; 2%positive]}
  ∧ verboseTxUpdates (deref Demo.subscribers 2) = false
  ∧ disconnected (deref Demo.subscribers 2) = false
  ∧ ntfnChan (deref (handleNotification (Demo.failing Demo.isVerbose reverseOrder)
                       event Demo.subscribers) 2) = []
  ∧ ntfnChan (deref (handleNotification (Demo.failing Demo.isVerbose keyOrder)
                       event Demo.subscribers) 2) = [JNtfn (TxAcceptedNtfn 9 300)].
Proof. cbv zeta. repeat split; vm_compute; reflexivity. Qed.

(** One transaction spends two outpoints client 1 watches: one
    notification. *)
Example two_inputs_one_notification :
  ntfnChan (deref (notifyForTx Demo.env0 Demo.spendTx (Some Demo.block5) Demo.watching) 1)
  = [redeemingOf Demo.env0 Demo.spendTx (Some Demo.block5)].
Proof. vm_compute. reflexivity. Qed.

End RouterFacts.
(** * Facts about the rescan engine *)

Module RescanFacts.
Import Rescan.

Lemma forEach_view {A S V : Type} (body : S → A → Flow * S) (view : S → V)
    (g : V → A → V) (l : list A) (s s' : S) :
  (∀ s x s', body s x = (Next, s') → view s' = g (view s) x) →
  forEach body s l = (Next, s') → view s' = foldl g (view s) l.
Proof.
  intros Hb. revert s. induction l as [|x l IH]; intros s; simpl.
  - by intros [= ->].
  - destruct (body s x) as [[] s1] eqn:E; [|done].
    intros Hf. rewrite <-(Hb _ _ _ E). by apply IH.
Qed.

Lemma forEach_total {A S : Type} (I : S → Prop) (body : S → A → Flow * S)
    (l : list A) (s : S) :
  (∀ s x, I s → ∃ s', body s x = (Next, s') ∧ I s') →
  I s → ∃ s', forEach body s l = (Next, s') ∧ I s'.
Proof.
  intros Hb. revert s. induction l as [|x l IH]; intros s Hs; simpl.
  - by exists s.
  - destruct (Hb s x Hs) as (s1 & -> & Hs1). by apply IH.
Qed.

Lemma set_unspent_same r u : u = unspent r → set_unspent u r = r.
Proof. intros ->. by destruct r. Qed.

Section rescan_facts.
Context {W : Type} (env : Env) (out : Outside W).

Lemma queue_lookups m (st : rescanState W) : lookups (queue out m st).1 = lookups st.
Proof.
  unfold queue, sync. simpl. by destruct (disconnects out (world st)).1.
Qed.

Lemma matchesKeys_unspent r u a : matchesKeys env (set_unspent u r) a = matchesKeys env r a.
Proof. by destruct a. Qed.

Lemma matches_known r a : matchesKeys env r a = true → unknownLength a = false.
Proof.
  destruct a; simpl; try done.
  repeat case_bool_decide; simpl; done.
Qed.

Lemma unknown_no_match r a : unknownLength a = true → matchesKeys env r a = false.
Proof.
  intros Hu. destruct (matchesKeys env r a) eqn:E; [|done].
  apply matches_known in E. congruence.
Qed.

Lemma rescanTxIn_lookups tx blk acc txin :
  lookups (rescanTxIn env out tx blk acc txin).2.2 = spendInput (lookups acc.2) txin.
Proof.
  unfold rescanTxIn, spendInput. cbv zeta. case_bool_decide as Hin.
  - destruct (spentNotified acc.1); [done|].
    destruct (Router.newRedeemingTxNotification env _ _ _) as [m|]; [|done].
    set (q := queue out m _). pose proof (queue_lookups m _ : lookups q.1 = _) as Hq.
    by destruct q as [st' [[]|]].
  - simpl. symmetry. apply set_unspent_same. set_solver.
Qed.

Lemma rescanAddr_lookups tx blk idx acc a :
  lookups (rescanAddr env out tx blk idx acc a).2.2 = creditAddr env tx idx (lookups acc.2) a.
Proof.
  unfold rescanAddr, creditAddr. cbv zeta. destruct (unknownLength a) eqn:Hu.
  - simpl. by rewrite unknown_no_match.
  - destruct (matchesKeys env (lookups acc.2) a); cbn [negb]; [|done].
    destruct (recvNotified acc.1); [done|].
    destruct (MarshalCmd env _) as [m|]; [|done].
    set (q := queue out m _). pose proof (queue_lookups m _ : lookups q.1 = _) as Hq.
    by destruct q as [st' [[]|]].
Qed.

Lemma rescanTxOut_view tx blk acc txout acc' :
  rescanTxOut env out tx blk acc txout = (Next, acc') →
  (acc'.1, lookups acc'.2.2) = creditOutput env tx (acc.1, lookups acc.2.2) txout.
Proof.
  unfold rescanTxOut, creditOutput. cbn [fst snd].
  destruct (forEach _ _ _) as [f a'] eqn:E. simpl. intros [= -> <-]. simpl. f_equal.
  apply (forEach_view _ (λ a, lookups a.2) (creditAddr env tx acc.1) _ _ _) in E; [done|].
  intros s x s' Hb. by rewrite <-(rescanAddr_lookups tx blk acc.1 s x), Hb.
Qed.

Lemma rescanTx_view blk st tx st' :
  rescanTx env out blk st tx = (Next, st') → lookups st' = bookkeepTx env (lookups st) tx.
Proof.
  unfold rescanTx, bookkeepTx.
  destruct (forEach (rescanTxIn env out tx blk) _ _) as [[] a1] eqn:E1; [|done].
  apply (forEach_view _ (λ a, lookups a.2) spendInput _ _ _) in E1.
  2:{ intros s x s' Hb. by rewrite <-(rescanTxIn_lookups tx blk s x), Hb. }
  simpl in E1. rewrite <-E1.
  destruct (forEach (rescanTxOut env out tx blk) _ _) as [f a2] eqn:E2. simpl.
  intros [= -> <-].
  apply (forEach_view _ (λ a, (a.1, lookups a.2.2)) (creditOutput env tx) _ _ _) in E2.
  2:{ intros s x s' Hb. by apply (rescanTxOut_view tx blk). }
  simpl in E2. by rewrite <-E2.
Qed.

Lemma rescanBlockFlow_view blk st st' :
  rescanBlockFlow env out blk st = (Next, st') →
  lookups st' = bookkeepBlock env (lookups st) blk.
Proof.
  unfold rescanBlockFlow, bookkeepBlock. intros E.
  apply (forEach_view _ lookups (bookkeepTx env) _ _ _) in E; [done|].
  intros s x s'. apply (rescanTx_view blk).
Qed.

(** *** A client that stays connected *)

Section connected.
Hypothesis never_disconnects : ∀ w, (disconnects out w).1 = false.
Hypothesis recv_marshals : ∀ hex bd, marshalFails env (RecvTxNtfn hex bd) = false.

Lemma queue_connected m (st : rescanState W) :
  disconnected (client st) = false →
  ∃ st', queue out m st = (st', None) ∧ disconnected (client st') = false.
Proof.
  intros Hc. unfold queue, sync. rewrite never_disconnects. simpl.
  unfold QueueNotification, Disconnected. rewrite Hc. simpl. by eexists.
Qed.

Lemma rescanTxIn_connected tx blk acc txin :
  disconnected (client acc.2) = false →
  ∃ acc', rescanTxIn env out tx blk acc txin = (Next, acc')
          ∧ disconnected (client acc'.2) = false.
Proof.
  intros Hc. unfold rescanTxIn. cbv zeta. case_bool_decide; [|by eexists].
  destruct (spentNotified acc.1); [by eexists|].
  destruct (Router.newRedeemingTxNotification env _ _ _) as [m|]; [|by eexists].
  edestruct (queue_connected m) as (st' & -> & Hc'); [|by eexists]. done.
Qed.

Lemma rescanAddr_connected tx blk idx acc a :
  disconnected (client acc.2) = false →
  ∃ acc', rescanAddr env out tx blk idx acc a = (Next, acc')
          ∧ disconnected (client acc'.2) = false.
Proof.
  intros Hc. unfold rescanAddr. cbv zeta. destruct (unknownLength a); [by eexists|].
  destruct (matchesKeys env (lookups acc.2) a); cbn [negb]; [|by eexists].
  destruct (recvNotified acc.1); [by eexists|].
  unfold MarshalCmd. rewrite recv_marshals.
  edestruct (queue_connected (JNtfn (RecvTxNtfn (Router.hexOnce env tx (txHex acc.1))
               (Router.blockDetails (Some blk) (txIndex tx))))) as (st' & -> & Hc');
    [|by eexists]. done.
Qed.

Lemma rescanTxOut_connected tx blk acc txout :
  disconnected (client acc.2.2) = false →
  ∃ acc', rescanTxOut env out tx blk acc txout = (Next, acc')
          ∧ disconnected (client acc'.2.2) = false.
Proof.
  intros Hc. unfold rescanTxOut.
  destruct (forEach_total (λ a : Locals * rescanState W, disconnected (client a.2) = false)
              (rescanAddr env out tx blk acc.1)
              (default [] (ExtractPkScriptAddrs env (PkScript txout))) acc.2)
    as (a' & -> & Ha'); [|done|by eexists].
  intros s x Hs. by apply rescanAddr_connected.
Qed.

Lemma rescanTx_connected blk st tx :
  disconnected (client st) = false →
  ∃ st', rescanTx env out blk st tx = (Next, st') ∧ disconnected (client st') = false.
Proof.
  intros Hc. unfold rescanTx.
  destruct (forEach_total (λ a : Locals * rescanState W, disconnected (client a.2) = false)
              (rescanTxIn env out tx blk) (TxIns tx) (mkLocals "" false false, st))
    as (a1 & -> & Ha1); [|done|].
  { intros s x Hs. by apply rescanTxIn_connected. }
  destruct (forEach_total
              (λ a : Z * (Locals * rescanState W), disconnected (client a.2.2) = false)
              (rescanTxOut env out tx blk) (TxOuts tx) (0, a1))
    as (a2 & -> & Ha2); [|done|by eexists].
  intros s x Hs. by apply rescanTxOut_connected.
Qed.

Lemma rescanBlockFlow_connected blk st :
  disconnected (client st) = false →
  ∃ st', rescanBlockFlow env out blk st = (Next, st').
Proof.
  intros Hc. unfold rescanBlockFlow.
  destruct (forEach_total (λ s : rescanState W, disconnected (client s) = false)
              (rescanTx env out blk) (Transactions blk) st) as (st' & E & _); [|done|by eexists].
  intros s x Hs. by apply rescanTx_connected.
Qed.

End connected.

(** *** When [rescanBlock] returns early *)

Lemma queue_quit m (st : rescanState W) :
  (queue out m st).2 = Some ErrClientQuit ↔ disconnected (client (sync out st)) = true.
Proof.
  unfold queue, QueueNotification, Disconnected. cbn [snd].
  destruct (disconnected (client (sync out st))); simpl; split; done.
Qed.

Lemma sync_lookups_client l (st : rescanState W) :
  client (sync out (set_lookups l st)) = client (sync out st).
Proof. unfold sync. simpl. by destruct (disconnects out (world st)).1. Qed.

Lemma rescanTxIn_returns tx blk loc (st : rescanState W) txin :
  (rescanTxIn env out tx blk (loc, st) txin).1 = Return
  ↔ PreviousOutPoint txin ∈ unspent (lookups st)
    ∧ spentNotified loc = false
    ∧ marshalFails env (RedeemingTxNtfn (Router.hexOnce env tx (txHex loc))
                          (Router.blockDetails (Some blk) (txIndex tx))) = false
    ∧ disconnected (client (sync out st)) = true.
Proof.
  unfold rescanTxIn. cbv zeta. cbn [fst snd].
  case_bool_decide as Hin; [|split; [done | by intros (? & _)]].
  destruct (spentNotified loc); [split; [done | by intros (_ & ? & _)]|].
  unfold Router.newRedeemingTxNotification, MarshalCmd.
  destruct (marshalFails env _); [split; [done | by intros (_ & _ & ? & _)]|].
  match goal with |- context [queue out ?m ?s] =>
    pose proof (queue_quit m s) as Hq; destruct (queue out m s) as [st' [[]|]]
  end; cbn [fst snd] in *; rewrite sync_lookups_client in Hq.
  - split; [intros _; repeat split; try done; by apply Hq | done].
  - split; [done|]. intros (_ & _ & _ & Hd). apply Hq in Hd. done.
Qed.

Lemma rescanAddr_returns tx blk txOutIdx loc (st : rescanState W) a :
  (rescanAddr env out tx blk txOutIdx (loc, st) a).1 = Return
  ↔ matchesKeys env (lookups st) a = true
    ∧ recvNotified loc = false
    ∧ (marshalFails env (RecvTxNtfn (Router.hexOnce env tx (txHex loc))
                           (Router.blockDetails (Some blk) (txIndex tx))) = true
       ∨ disconnected (client (sync out st)) = true).
Proof.
  unfold rescanAddr. cbv zeta. cbn [fst snd].
  destruct (unknownLength a) eqn:Hu.
  { split; [done|]. intros (Hm & _). by rewrite (unknown_no_match (lookups st) a Hu) in Hm. }
  destruct (matchesKeys env (lookups st) a); cbn [negb]; [|split; [done | by intros (? & _)]].
  destruct (recvNotified loc); [split; [done | by intros (_ & ? & _)]|].
  unfold MarshalCmd.
  destruct (marshalFails env _); [split; [intros _; repeat split; by left | done]|].
  match goal with |- context [queue out ?m ?s] =>
    pose proof (queue_quit m s) as Hq; destruct (queue out m s) as [st' [[]|]]
  end; cbn [fst snd] in *; rewrite sync_lookups_client in Hq.
  - split; [intros _; repeat split; right; by apply Hq | done].
  - split; [done|]. intros (_ & _ & [?|Hd]); [done|]. apply Hq in Hd. done.
Qed.

(** C9, amended: [rescanBlock] keeps the unspent set whatever becomes of
    the notifications, as far as it gets.  An input whose previous outpoint
    is in the unspent set has it deleted by its pass of the input loop,
    whether or not a [redeemingtx] notification was already sent for the
    transaction, whether or not marshalling fails, whether or not the client
    is still there; an output address that matches a lookup key has the
    output's outpoint inserted by its pass, whether or not a [recvtx]
    notification was already sent.  So when [rescanBlock] reaches the end of
    the block, the lookup keys are those of the bookkeeping alone
    ([bookkeepBlock]); and it does reach the end when the client stays
    connected and the [recvtx] notifications marshal.  It returns before
    the end, leaving the inputs and outputs that follow as they are, in two
    cases only: a pass of the input loop returns exactly when it has a
    first [redeemingtx] notification of the transaction to queue, the
    notification marshals and the client is found disconnected; a pass of
    the address loop returns exactly when it has a first [recvtx]
    notification of the transaction to queue and the notification does not
    marshal or the client is found disconnected. *)
Theorem unspent_independent_of_notifications (blk : Block) (st : rescanState W) :
  (∀ tx loc txin,
     PreviousOutPoint txin ∈ unspent (lookups st) →
     PreviousOutPoint txin ∉ unspent (lookups (rescanTxIn env out tx blk (loc, st) txin).2.2))
  ∧ (∀ tx loc txOutIdx a,
       matchesKeys env (lookups st) a = true →
       mkOutPoint (txSha tx) (uint32 txOutIdx)
       ∈ unspent (lookups (rescanAddr env out tx blk txOutIdx (loc, st) a).2.2))
  ∧ (∀ st', rescanBlockFlow env out blk st = (Next, st') →
            lookups st' = bookkeepBlock env (lookups st) blk)
  ∧ (disconnected (client st) = false →
     (∀ w, (disconnects out w).1 = false) →
     (∀ hex bd, marshalFails env (RecvTxNtfn hex bd) = false) →
     lookups (rescanBlock env out blk st) = bookkeepBlock env (lookups st) blk)
  ∧ (∀ tx loc txin,
       (rescanTxIn env out tx blk (loc, st) txin).1 = Return
       ↔ PreviousOutPoint txin ∈ unspent (lookups st)
         ∧ spentNotified loc = false
         ∧ marshalFails env (RedeemingTxNtfn (Router.hexOnce env tx (txHex loc))
                               (Router.blockDetails (Some blk) (txIndex tx))) = false
         ∧ disconnected (client (sync out st)) = true)
  ∧ (∀ tx loc txOutIdx a,
       (rescanAddr env out tx blk txOutIdx (loc, st) a).1 = Return
       ↔ matchesKeys env (lookups st) a = true
         ∧ recvNotified loc = false
         ∧ (marshalFails env (RecvTxNtfn (Router.hexOnce env tx (txHex loc))
                                (Router.blockDetails (Some blk) (txIndex tx))) = true
            ∨ disconnected (client (sync out st)) = true)).
Proof.
  split; [|split; [|split; [|split; [|split]]]].
  - intros tx loc txin Hin. rewrite rescanTxIn_lookups. unfold spendInput. simpl. set_solver.
  - intros tx loc idx a Hm. rewrite rescanAddr_lookups. unfold creditAddr. simpl.
    rewrite Hm. simpl. set_solver.
  - intros st'. apply rescanBlockFlow_view.
  - intros Hc Hd Hr. destruct (rescanBlockFlow_connected Hd Hr blk st Hc) as [st' E].
    unfold rescanBlock. rewrite E. simpl. by apply rescanBlockFlow_view.
  - intros tx loc txin. apply rescanTxIn_returns.
  - intros tx loc idx a. apply rescanAddr_returns.
Qed.

End rescan_facts.

Section rescan_range.
Context {W : Type} (env : Env) (out : Outside W) (self : positive).

Lemma fetchRange_skipped fuel maxBlock addresses v (st : rescanState W) :
  maxBlock ≤ minBlock v →
  fetchRange env out self fuel maxBlock addresses v st = (inr v, st).
Proof.
  intros Hle. destruct fuel; simpl; rewrite bool_decide_false by lia; done.
Qed.

(** C1, as the code has it: when the begin and the end block of a rescan
    request resolve to the same height, the loop is not entered, no
    notification is queued and nothing is sent to the notification manager;
    then the [rescanfinished] notification is built from [lastBlockHash] and
    [lastBlock], which are still nil, and the handler panics instead of
    returning. *)
Theorem rescan_of_empty_range_panics (fuel : nat) (st : rescanState W)
    (BeginBlock EndBlock : string) (Addresses : list string)
    (OutPoints : list JsonOutPoint) (outpoints : list OutPoint) (keys : rescanKeys)
    (minBlockSha maxBlockSha : ShaHash) (height : Z) (w1 w2 : W) :
  decodeOutPoints out OutPoints = inr outpoints →
  addLookups out emptyKeys Addresses = inr keys →
  NewShaHashFromStr out BeginBlock = Some minBlockSha →
  FetchBlockHeightBySha out minBlockSha (world st) = (inr height, w1) →
  NewShaHashFromStr out EndBlock = Some maxBlockSha →
  FetchBlockHeightBySha out maxBlockSha w1 = (inr height, w2) →
  let r := handleRescan env out self fuel
             (RescanCmd BeginBlock Addresses OutPoints (Some EndBlock)) st in
  r.1 = Panicked
  ∧ client r.2 = client st
  ∧ outbox r.2 = outbox st.
Proof.
  intros Hops Hkeys Hmin Hh1 Hmax Hh2 r. subst r.
  unfold handleRescan. rewrite Hops, Hkeys, Hmin.
  destruct (bool_decide (length Addresses = 1%nat));
    cbn [world set_world set_lookups rlogf]; rewrite Hh1; cbn [fst snd];
    rewrite Hmax; cbn [world set_world]; rewrite Hh2; cbn [fst snd];
    rewrite fetchRange_skipped by (simpl; lia); done.
Qed.

End rescan_range.

(** *** The theorems at work on the sample data *)

(** A rescan from block ["05"] to block ["05"]. *)
Lemma rescan_of_empty_range_witness :
  (handleRescan Demo.env0 Demo.out0 1 0 (RescanCmd "05" [] [] (Some "05"))
     (Demo.peer true)).1
  = Panicked.
Proof.
  refine (proj1 (rescan_of_empty_range_panics Demo.env0 Demo.out0 1 0 (Demo.peer true)
                   "05" "05" [] [] [] emptyKeys 5%N 5%N 5 tt tt _ _ _ _ _ _));
    reflexivity.
Defined.

(** [block5] spends [O1] and [O2], both unspent, and the [redeemingtx]
    notification does not marshal: both leave the unspent set. *)
Lemma unspent_independent_witness :
  unspent (lookups (rescanBlock (Demo.failing Demo.isRedeeming keyOrder) Demo.out0
                      Demo.block5 Demo.rescanning))
  = ∅.
Proof.
  rewrite (proj1 (proj2 (proj2 (proj2 (unspent_independent_of_notifications
                                         (Demo.failing Demo.isRedeeming keyOrder)
                                         Demo.out0 Demo.block5 Demo.rescanning))))
             eq_refl (λ _, eq_refl) (λ _ _, eq_refl)).
  vm_compute. reflexivity.
Defined.

(** C9 as stated fails: [spendTx], the transaction of [block5], spends
    [O1] and [O2], which are both unspent, and the client has gone.
    [rescanBlock] returns when it queues the notification for the first
    input: [O2] is still in the unspent set after the block. *)
Lemma unspent_independent_counterexample :
  let st := set_client (Disconnect (client Demo.rescanning)) Demo.rescanning in
  Transactions Demo.block5 = [Demo.spendTx]
  ∧ PreviousOutPoint <$> TxIns Demo.spendTx = [Demo.O1; Demo.O2]
  ∧ unspent (lookups st) = {[Demo.O1; Demo.O2]}
  ∧ unspent (lookups (rescanBlock Demo.env0 Demo.out0 Demo.block5 st)) = {[Demo.O2]}.
Proof. cbv zeta. repeat split; vm_compute; reflexivity. Qed.

End RescanFacts.
(** * Facts about the client and the dispatch of its messages *)

Module DispatchFacts.
Import Rescan Dispatch.

Lemma lt256_lor (a b : N) : (a < 256 → b < 256 → N.lor a b < 256)%N.
Proof.
  intros Ha Hb.
  destruct (decide (a = 0%N)) as [->|Ha0]; [by rewrite N.lor_0_l|].
  destruct (decide (b = 0%N)) as [->|Hb0]; [by rewrite N.lor_0_r|].
  change 256%N with (2 ^ 8)%N in *.
  apply N.log2_lt_pow2; [|rewrite N.log2_lor; apply N.max_lub_lt; apply N.log2_lt_pow2; lia].
  assert (N.lor a b ≠ 0%N); [rewrite N.lor_eq_0_iff; tauto | lia].
Qed.

Lemma lt256_lxor (a b : N) : (a < 256 → b < 256 → N.lxor a b < 256)%N.
Proof.
  intros Ha Hb.
  destruct (decide (N.lxor a b = 0%N)) as [->|Hx]; [lia|].
  destruct (decide (a = 0%N)) as [->|Ha0]; [by rewrite N.lxor_0_l|].
  destruct (decide (b = 0%N)) as [->|Hb0]; [by rewrite N.lxor_0_r|].
  change 256%N with (2 ^ 8)%N in *.
  apply N.log2_lt_pow2; [lia|].
  eapply N.le_lt_trans; [apply N.log2_lxor|].
  apply N.max_lub_lt; apply N.log2_lt_pow2; lia.
Qed.

Lemma to_N_lt256 (b : byte) : (Byte.to_N b < 256)%N.
Proof. pose proof (Byte.to_N_bounded b). lia. Qed.

Lemma to_N_inj (a b : byte) : Byte.to_N a = Byte.to_N b → a = b.
Proof.
  intros H. pose proof (Byte.of_to_N a) as Ha. rewrite H, Byte.of_to_N in Ha.
  congruence.
Qed.

Lemma orXor_fold_lt256 (l : list (byte * byte)) (v : N) :
  (v < 256)%N → (foldl orXor v l < 256)%N.
Proof.
  revert v. induction l as [|p l IH]; intros v Hv; [done|].
  simpl. apply IH, lt256_lor; [done|]. apply lt256_lxor; apply to_N_lt256.
Qed.

Lemma orXor_fold_zero (l : list (byte * byte)) (v : N) :
  foldl orXor v l = 0%N ↔ v = 0%N ∧ Forall (λ p, p.1 = p.2) l.
Proof.
  revert v. induction l as [|p l IH]; intros v; simpl.
  - split; [intros ->; by split | by intros [-> _]].
  - rewrite IH. unfold orXor at 1. rewrite N.lor_eq_0_iff, N.lxor_eq_0_iff, Forall_cons.
    split.
    + intros [[-> H] Hl]. split; [done|]. split; [by apply to_N_inj | done].
    + intros [-> [H Hl]]. rewrite H. done.
Qed.

Lemma zip_Forall_eq {A} (x y : list A) :
  length x = length y → Forall (λ p : A * A, p.1 = p.2) (zip x y) ↔ x = y.
Proof.
  revert y. induction x as [|a x IH]; intros [|b y] Hlen; simpl in *; try done.
  rewrite Forall_cons. simpl. rewrite IH by lia. split; [intros [-> ->]; done | intros [= -> ->]; done].
Qed.

Lemma ConstantTimeByteEq_zero (v : N) :
  (v < 256)%N → ConstantTimeByteEq v 0 = if bool_decide (v = 0%N) then 1 else 0.
Proof.
  intros Hv. unfold ConstantTimeByteEq, uint32. rewrite N.lxor_0_r.
  case_bool_decide as H.
  - subst. reflexivity.
  - rewrite Z.shiftr_div_pow2 by lia. rewrite Z.mod_small by lia.
    apply Z.div_small. lia.
Qed.

Lemma ConstantTimeCompare_spec (x y : list byte) :
  ConstantTimeCompare x y = if bool_decide (x = y) then 1 else 0.
Proof.
  unfold ConstantTimeCompare. case_bool_decide as Hlen.
  - rewrite bool_decide_false; [done|]. intros ->. done.
  -
    rewrite ConstantTimeByteEq_zero by (apply orXor_fold_lt256; lia).
    f_equal. rewrite (bool_decide_ext _ (x = y)); [done|].
    rewrite orXor_fold_zero, zip_Forall_eq by done. tauto.
Qed.

Section dispatch_facts.
Context {W : Type} (env : Env) (out : Outside W) (srv : Server) (self : positive).

Lemma Disconnect_idem (c : wsClient) : Disconnect (Disconnect c) = Disconnect c.
Proof. unfold Disconnect. destruct c as [[] ?]; reflexivity. Qed.

(** C7, amended.  While the client is not authenticated, [handleMessage]
    disconnects it on any message that does not parse, is not an
    authenticate command, or carries credentials whose digest equals
    neither stored digest; when the digest equals one of them, the client
    is marked authenticated, [isAdmin] is set exactly when the admin digest
    matched, and an empty success reply [{id, null, null}] is handed to
    [SendMessage] (no reply when marshalling it fails).  Once the client is
    authenticated, a further authenticate command disconnects it when the
    request carries an id and passes the limited-user check (the client is
    admin, or the method is in [rpcLimited]).  A request without an id,
    an authenticate request among them, is dropped: nothing changes.  A
    request with an id that the limited-user check refuses is answered with
    the not-authorized error (no reply when marshalling it fails), and the
    client is as connected as it was. *)
Theorem handleMessage_authentication (fuel : nat) (msg : list byte) (st : rescanState W) :
  let r := (handleMessage env out srv self fuel msg st).2 in
  (authenticated (client st) = false →
     ((∀ request u p, parsesTo srv msg request (AuthenticateCmd u p) →
         authShaOf srv u p ≠ authsha srv ∧ authShaOf srv u p ≠ limitauthsha srv) →
       client r = Disconnect (client st))
     ∧ (∀ request u p, parsesTo srv msg request (AuthenticateCmd u p) →
         authShaOf srv u p = authsha srv ∨ authShaOf srv u p = limitauthsha srv →
         let c := set_isAdmin (bool_decide (authShaOf srv u p = authsha srv))
                    (set_authenticated true (client st)) in
         match createMarshalledReply srv (cmd_id (parseCmd srv request)) RNull None with
         | Some m =>
             m = JReply (cmd_id (parseCmd srv request)) RNull None
             ∧ client r = (SendMessage c m None).1
         | None => client r = c
         end))
  ∧ (authenticated (client st) = true →
     ∀ request u p, parsesTo srv msg request (AuthenticateCmd u p) →
       reqID request ≠ None →
       isAdmin (client st) = true ∨ rpcLimited srv (reqMethod request) = true →
       client r = Disconnect (client st))
  ∧ (authenticated (client st) = true →
     ∀ request, Unmarshal srv msg = inr request →
       reqID request = None →
       handleMessage env out srv self fuel msg st = (Handled, st))
  ∧ (authenticated (client st) = true →
     ∀ request, Unmarshal srv msg = inr request →
       reqID request ≠ None →
       isAdmin (client st) = false → rpcLimited srv (reqMethod request) = false →
       let e := mkRPCError ErrRPCInvalidParams
                  "limited user not authorized for this method" in
       (handleMessage env out srv self fuel msg st).1 = Handled
       ∧ disconnected (client r) = disconnected (client st)
       ∧ match createMarshalledReply srv (reqID request) RNull (Some e) with
         | Some m =>
             m = JReply (reqID request) RNull (Some e)
             ∧ client r = (SendMessage (client st) m None).1
         | None => client r = client st
         end).
Proof.
  intros r. subst r. unfold handleMessage. split; [|split; [|split]].
  - intros Hauth. rewrite Hauth. simpl. unfold handleUnauthenticated. split.
    + intros Hno. destruct (Unmarshal srv msg) as [e|request] eqn:Hu; [done|].
      destruct (cmd_err (parseCmd srv request)) eqn:He; [done|].
      destruct (cmd_cmd (parseCmd srv request)) as [[u p| | | | | | | | | | | | ]|] eqn:Hc;
        try done.
      destruct (Hno request u p) as [H1 H2]; [done|].
      rewrite !ConstantTimeCompare_spec.
      rewrite (bool_decide_false (authShaOf srv u p = authsha srv)) by done.
      rewrite (bool_decide_false (authShaOf srv u p = limitauthsha srv)) by done.
      done.
    + intros request u p (Hu & He & Hc) Hmatch. rewrite Hu, He, Hc.
      rewrite !ConstantTimeCompare_spec.
      assert ((bool_decide ((if bool_decide (authShaOf srv u p = authsha srv) then 1 else 0) ≠ 1)
               && bool_decide ((if bool_decide (authShaOf srv u p = limitauthsha srv) then 1 else 0) ≠ 1))
              = false) as ->.
      { assert (bool_decide ((1 : Z) ≠ 1) = false) as E by reflexivity.
        destruct Hmatch as [H|H]; rewrite (bool_decide_true _ H), E;
          [done | apply andb_false_r]. }
      assert (bool_decide ((if bool_decide (authShaOf srv u p = authsha srv) then 1 else 0) = 1)
              = bool_decide (authShaOf srv u p = authsha srv)) as ->.
      { by destruct (bool_decide (authShaOf srv u p = authsha srv)). }
      unfold createMarshalledReply.
      destruct (createMarshalledReplyFails srv _ _ _); simpl; done.
  - intros Hauth request u p (Hu & He & Hc) Hid Hadm. rewrite Hauth. simpl.
    unfold handleAuthenticated. rewrite Hu.
    destruct (reqID request) eqn:Hrid; [|done].
    assert (negb (isAdmin (client st)) && negb (rpcLimited srv (reqMethod request)) = false) as ->.
    { destruct Hadm as [->| ->]; simpl; [done | by rewrite andb_false_r]. }
    rewrite He, Hc. done.
  - intros Hauth request Hu Hid. rewrite Hauth. simpl.
    unfold handleAuthenticated. by rewrite Hu, Hid.
  - intros Hauth request Hu Hid Hadm Hlim. rewrite Hauth. simpl.
    unfold handleAuthenticated. rewrite Hu.
    destruct (reqID request) as [id|] eqn:Hrid; [|done].
    rewrite Hadm, Hlim. simpl.
    unfold createMarshalledReply.
    destruct (createMarshalledReplyFails srv _ _ _); simpl; [done|].
    unfold SendMessage, Disconnected.
    destruct (disconnected (client st)) eqn:Hd; simpl; rewrite ?Hd; done.
Qed.

End dispatch_facts.

(** C8: on a client whose [disconnected] flag is set, [SendMessage]
    discards the message: the client, with its [sendChan], is as before;
    [false] is sent on the done channel when one is given, and nothing
    otherwise.  [SendMessage] has no result to report an error with, in this
    case or any other. *)
Theorem SendMessage_disconnected (c : wsClient) (m : Marshalled) (done : option positive) :
  disconnected c = true →
  SendMessage c m done
  = (c, match done with Some d => [(d, false)] | None => [] end).
Proof. intros H. unfold SendMessage, Disconnected. by rewrite H. Qed.

(** *** The theorems at work on the sample data *)

Lemma SendMessage_disconnected_witness :
  SendMessage (Disconnect (newWebsocketClient "peer" true true 0))
    (JReply (Some "1") RNull None) (Some 3%positive)
  = (Disconnect (newWebsocketClient "peer" true true 0), [(3%positive, false)]).
Proof.
  apply (SendMessage_disconnected (Disconnect (newWebsocketClient "peer" true true 0))
           (JReply (Some "1") RNull None) (Some 3%positive)).
  reflexivity.
Defined.

(** An authenticated admin sends [authenticate] with an id: disconnected. *)
Lemma handleMessage_authentication_witness :
  client (handleMessage Demo.env0 Demo.out0 Demo.srv0 1 0 [x01] (Demo.peer true)).2
  = Disconnect (client (Demo.peer true)).
Proof.
  refine (proj1 (proj2 (handleMessage_authentication Demo.env0 Demo.out0 Demo.srv0 1 0
                          [x01] (Demo.peer true)))
            eq_refl (mkRequest (Some "1") "authenticate" "") "user" "pass" _ _ _).
  - repeat split.
  - discriminate.
  - left. reflexivity.
Defined.

(** C7 as stated fails: an authenticated client sends [authenticate] as a
    notification (no id), and stays connected. *)
Lemma handleMessage_authentication_counterexample :
  parsesTo Demo.srv0 [x00] (mkRequest None "authenticate" "") (AuthenticateCmd "user" "pass")
  ∧ authenticated (client (Demo.peer true)) = true
  ∧ disconnected
      (client (handleMessage Demo.env0 Demo.out0 Demo.srv0 1 0 [x00] (Demo.peer true)).2)
    = false.
Proof. repeat split. Qed.

(** A client that is not authenticated yet sends the right credentials. *)
Example authentication_succeeds :
  let c := client (handleMessage Demo.env0 Demo.out0 Demo.srv0 1 0 [x01] (Demo.peer false)).2 in
  authenticated c = true ∧ isAdmin c = true ∧ disconnected c = false
  ∧ sendChan c = [mkResponse (JReply (Some "1") RNull None) None].
Proof. cbv zeta. repeat split. Qed.

End DispatchFacts.

(** * More facts about the notification manager *)

Module RouterMore.
Import Router Notions RouterFacts.

(** *** What a message does to the connection of a client *)

Lemma kept_refl a : kept a a.
Proof.
  split; [by repeat split|]. exists []. rewrite app_nil_r. by repeat split.
Qed.

Lemma kept_trans a b c : kept a b → kept b c → kept a c.
Proof.
  intros [S1 (e1 & E1 & N1 & F1)] [S2 (e2 & E2 & N2 & F2)].
  destruct S1 as (?&?&?&?&?&?&?&?&?), S2 as (Hd&?&?&?&?&?&?&?&?).
  split; [repeat split; congruence|].
  exists (e1 ++ e2). rewrite E2, E1, app_assoc. split; [done|]. split.
  - intros Ha. rewrite N1 by done. rewrite N2 by congruence. done.
  - by apply Forall_app.
Qed.

Lemma keeps_refl s : keeps s s.
Proof. intros c. apply kept_refl. Qed.

Lemma keeps_trans s1 s2 s3 : keeps s1 s2 → keeps s2 s3 → keeps s1 s3.
Proof. intros H1 H2 c. eapply kept_trans; [apply H1 | apply H2]. Qed.

Lemma keeps_heap s s' : heap s' = heap s → keeps s s'.
Proof. intros Hh c. unfold deref. rewrite Hh. apply kept_refl. Qed.

Lemma QueueNotification_kept cl m : (∃ n, m = JNtfn n) → kept cl (QueueNotification cl m).1.
Proof.
  intros Hm. unfold QueueNotification, Disconnected.
  destruct (disconnected cl) eqn:E; simpl; [apply kept_refl|].
  split; [by repeat split|]. exists [m]. split; [done|]. split; [congruence|].
  by apply Forall_singleton.
Qed.

Lemma queueNotification_keeps c m s : (∃ n, m = JNtfn n) → keeps s (queueNotification c m s).1.
Proof.
  intros Hm c'. rewrite queueNotification_deref. case_decide; subst;
    [by apply QueueNotification_kept | apply kept_refl].
Qed.

Lemma set_spentRequests_kept X cl : kept cl (set_spentRequests X cl).
Proof. split; [by repeat split|]. exists []. simpl. rewrite app_nil_r. by repeat split. Qed.

Lemma set_addrRequests_kept X cl : kept cl (set_addrRequests X cl).
Proof. split; [by repeat split|]. exists []. simpl. rewrite app_nil_r. by repeat split. Qed.

Lemma removeSpentRequest_keeps c op s : keeps s (removeSpentRequest c op s).
Proof.
  intros c'. rewrite removeSpentRequest_deref. case_decide; subst;
    [apply set_spentRequests_kept | apply kept_refl].
Qed.

Lemma removeAddrRequest_keeps c a s : keeps s (removeAddrRequest c a s).
Proof.
  intros c'. rewrite removeAddrRequest_deref. case_decide; subst;
    [apply set_addrRequests_kept | apply kept_refl].
Qed.

Lemma addSpentRequest_keeps c s op : keeps s (addSpentRequest c s op).
Proof.
  intros c'. rewrite addSpentRequest_deref. case_decide; subst;
    [apply set_spentRequests_kept | apply kept_refl].
Qed.

Lemma addAddrRequest_keeps c s a : keeps s (addAddrRequest c s a).
Proof.
  intros c'. rewrite addAddrRequest_deref. case_decide; subst;
    [apply set_addrRequests_kept | apply kept_refl].
Qed.

Lemma MarshalCmd_ntfn env n m : MarshalCmd env n = Some m → ∃ n, m = JNtfn n.
Proof. unfold MarshalCmd. destruct (marshalFails env n); [done|]. intros [= <-]. eauto. Qed.


(** *** Steps that every scan is made of *)

(** A relation between states that is reflexive, transitive, and holds
    across the primitive steps holds across the scans. *)
Section preserved.
Context (env : Env) (R : ntfnState → ntfnState → Prop).
Hypothesis R_refl : ∀ s, R s s.
Hypothesis R_trans : ∀ s1 s2 s3, R s1 s2 → R s2 s3 → R s1 s3.
Hypothesis R_queue : ∀ c n s, R s (queueNotification c (JNtfn n) s).1.
Hypothesis R_logf : ∀ lvl fmt s, R s (logf lvl fmt s).
Hypothesis R_add : ∀ c s op, R s (addSpentRequest c s op).
Hypothesis R_remove : ∀ c op s, R s (removeSpentRequest c op s).

Lemma preserved_foldl {B} (f : ntfnState → B → ntfnState) (l : list B) s :
  (∀ s b, R s (f s b)) → R s (foldl f s l).
Proof.
  intros Hf. revert s. induction l as [|b l IH]; intros s; simpl; [apply R_refl|].
  eapply R_trans; [apply Hf | apply IH].
Qed.

Lemma preserved_fold_snd {A B} (f : A * ntfnState → B → A * ntfnState) (l : list B) acc :
  (∀ acc b, R acc.2 (f acc b).2) → R acc.2 (foldl f acc l).2.
Proof.
  intros Hf. revert acc. induction l as [|b l IH]; intros acc; simpl; [apply R_refl|].
  eapply R_trans; [apply Hf | apply IH].
Qed.

Lemma queueAll_preserved cs n s : R s (queueAll env cs (JNtfn n) s).
Proof. apply preserved_foldl. intros. apply R_queue. Qed.

Lemma notifyBlockConnected_preserved cs block s : R s (notifyBlockConnected env cs block s).
Proof.
  unfold notifyBlockConnected, MarshalCmd.
  destruct (marshalFails env _); [apply R_logf | apply queueAll_preserved].
Qed.

Lemma notifyBlockDisconnected_preserved cs block s :
  R s (notifyBlockDisconnected env cs block s).
Proof.
  unfold notifyBlockDisconnected, MarshalCmd. case_bool_decide; [apply R_refl|].
  destruct (marshalFails env _); [apply R_logf | apply queueAll_preserved].
Qed.

Lemma notifyForNewTxLoop_preserved tx n cs v s :
  R s (notifyForNewTxLoop env tx (JNtfn n) cs (JNtfn <$> v) s).
Proof.
  revert v s. induction cs as [|c cs IH]; intros v s; simpl; [apply R_refl|].
  destruct (verboseTxUpdates (deref s c)).
  - destruct v as [v|]; simpl.
    + eapply R_trans; [apply (R_queue c v s) | apply (IH (Some v))].
    + destruct (createTxRawResultFails env tx); [apply R_refl|].
      unfold MarshalCmd. destruct (marshalFails env _); [apply R_logf|].
      eapply R_trans;
        [apply (R_queue c (TxAcceptedVerboseNtfn tx) s)
        | apply (IH (Some (TxAcceptedVerboseNtfn tx)))].
  - eapply R_trans; [apply (R_queue c n s) | apply IH].
Qed.

Lemma notifyForNewTx_preserved cs tx s : R s (notifyForNewTx env cs tx s).
Proof.
  unfold notifyForNewTx, MarshalCmd. destruct (marshalFails env _); [apply R_logf|].
  apply (notifyForNewTxLoop_preserved tx _ _ None).
Qed.

Lemma notifyTxInClient_preserved block prevOut n acc c :
  R acc.2 (notifyTxInClient block prevOut (JNtfn n) acc c).2.
Proof.
  unfold notifyTxInClient.
  assert (R acc.2 (match block with
                   | Some _ => removeSpentRequest c prevOut acc.2
                   | None => acc.2 end)) as Hk.
  { destruct block; [apply R_remove | apply R_refl]. }
  case_bool_decide; simpl; [done|].
  eapply R_trans; [done | apply R_queue].
Qed.

Lemma notifyTxIn_preserved tx block acc txIn : R acc.2 (notifyTxIn env tx block acc txIn).2.
Proof.
  destruct acc as [[txHex wscNotified] s]. simpl.
  destruct (watchedOutPoints s !! PreviousOutPoint txIn); [|apply R_refl].
  unfold newRedeemingTxNotification, MarshalCmd.
  destruct (marshalFails env _); simpl; [apply R_logf|].
  apply (preserved_fold_snd _ _ (wscNotified, s)). intros. apply notifyTxInClient_preserved.
Qed.

Lemma notifyForTxIns_preserved tx block s : R s (notifyForTxIns env tx block s).
Proof.
  unfold notifyForTxIns. case_bool_decide; [apply R_refl|].
  apply (preserved_fold_snd _ _ ("", ∅, s)). intros. apply notifyTxIn_preserved.
Qed.

Lemma notifyTxOutClient_preserved op n acc c :
  R acc.2 (notifyTxOutClient op (JNtfn n) acc c).2.
Proof.
  unfold notifyTxOutClient.
  assert (R acc.2 (addSpentRequests c [op] acc.2)) as Hk by apply R_add.
  case_bool_decide; simpl; [done|].
  eapply R_trans; [done | apply R_queue].
Qed.

Lemma notifyTxOutAddr_preserved tx block i acc a :
  R acc.2 (notifyTxOutAddr env tx block i acc a).2.
Proof.
  destruct acc as [[txHex wscNotified] s]. simpl.
  destruct (watchedAddrs s !! EncodeAddress env a); [|apply R_refl].
  unfold MarshalCmd. destruct (marshalFails env _); simpl; [apply R_logf|].
  apply (preserved_fold_snd _ _ (wscNotified, s)). intros. apply notifyTxOutClient_preserved.
Qed.

Lemma notifyTxOut_preserved tx block acc txOut :
  R acc.2.2 (notifyTxOut env tx block acc txOut).2.2.
Proof.
  unfold notifyTxOut. simpl. destruct (ExtractPkScriptAddrs env _); [|apply R_refl].
  apply (preserved_fold_snd _ _ acc.2). intros. apply notifyTxOutAddr_preserved.
Qed.

Lemma notifyForTxOuts_preserved tx block s : R s (notifyForTxOuts env tx block s).
Proof.
  unfold notifyForTxOuts. case_bool_decide; [apply R_refl|].
  set (f := notifyTxOut env tx block).
  assert (∀ l acc, R acc.2.2 (foldl f acc l).2.2) as Hf.
  { induction l as [|b l IH]; intros acc; simpl; [apply R_refl|].
    eapply R_trans; [apply notifyTxOut_preserved | apply IH]. }
  apply (Hf _ (0, ("", ∅, s))).
Qed.

Lemma notifyForTx_preserved tx block s : R s (notifyForTx env tx block s).
Proof.
  rewrite notifyForTx_unguarded.
  eapply R_trans; [apply notifyForTxIns_preserved | apply notifyForTxOuts_preserved].
Qed.

Lemma block_scan_preserved block s :
  R s (foldl (λ s tx, notifyForTx env tx (Some block) s) s (Transactions block)).
Proof. apply preserved_foldl. intros. apply notifyForTx_preserved. Qed.

(** What is left of [handleNotification]: registrations and
    unregistrations. *)
Hypothesis R_sets : ∀ s s', heap s' = heap s → watchedOutPoints s' = watchedOutPoints s →
  watchedAddrs s' = watchedAddrs s → R s s'.
Hypothesis R_addAddr : ∀ c s a, R s (addAddrRequest c s a).
Hypothesis R_removeAddr : ∀ c a s, R s (removeAddrRequest c a s).

Lemma unregisterClient_preserved c s : R s (unregisterClient env c s).
Proof.
  unfold unregisterClient.
  set (s0 := set_txNotifications _ _).
  set (s1 := foldl _ s0 _).
  set (s2 := foldl _ s1 _).
  apply (R_trans _ s0); [by apply R_sets|].
  apply (R_trans _ s1); [apply preserved_foldl; intros; apply R_remove|].
  apply (R_trans _ s2); [apply preserved_foldl; intros; apply R_removeAddr|].
  by apply R_sets.
Qed.

Lemma handleNotification_preserved n s : R s (handleNotification env n s).
Proof.
  destruct n; simpl; try (by apply R_sets).
  - set (s1 := if _ || _ then _ else s).
    assert (R s s1) as H1.
    { subst s1. destruct (_ || _); [apply block_scan_preserved | apply R_refl]. }
    clearbody s1. case_bool_decide; [|done].
    eapply R_trans; [done | apply notifyBlockConnected_preserved].
  - apply notifyBlockDisconnected_preserved.
  - eapply R_trans; [|apply notifyForTx_preserved].
    destruct (_ && _); [apply notifyForNewTx_preserved | apply R_refl].
  - apply unregisterClient_preserved.
  - apply preserved_foldl. intros. apply R_add.
  - apply R_remove.
  - apply preserved_foldl. intros. apply R_addAddr.
  - apply R_removeAddr.
Qed.

End preserved.

(** *** The client sets *)

Lemma sameSets_refl s : sameSets s s.
Proof. done. Qed.

Lemma sameSets_trans s1 s2 s3 : sameSets s1 s2 → sameSets s2 s3 → sameSets s1 s3.
Proof. intros (?&?&?) (?&?&?). repeat split; congruence. Qed.

Lemma removeSpentRequest_sets c op s : sameSets s (removeSpentRequest c op s).
Proof.
  unfold removeSpentRequest. simpl.
  destruct (watchedOutPoints s !! op); [|done]. by case_bool_decide.
Qed.

Lemma removeAddrRequest_sets c a s : sameSets s (removeAddrRequest c a s).
Proof.
  unfold removeAddrRequest. simpl.
  destruct (watchedAddrs s !! a); [|done]. by case_bool_decide.
Qed.

Lemma scans_sameSets env :
  (∀ tx block s, sameSets s (notifyForTx env tx block s))
  ∧ (∀ cs tx s, sameSets s (notifyForNewTx env cs tx s))
  ∧ (∀ cs block s, sameSets s (notifyBlockConnected env cs block s))
  ∧ (∀ cs block s, sameSets s (notifyBlockDisconnected env cs block s)).
Proof.
  assert (∀ c s op, sameSets s (addSpentRequest c s op)) as Ha by done.
  assert (∀ c n s, sameSets s (queueNotification c (JNtfn n) s).1) as Hq by done.
  assert (∀ lvl fmt s, sameSets s (logf lvl fmt s)) as Hl by done.
  split; [|split; [|split]]; intros.
  - apply (notifyForTx_preserved env sameSets);
      first [exact sameSets_refl | exact sameSets_trans | exact removeSpentRequest_sets
            | assumption].
  - apply (notifyForNewTx_preserved env sameSets);
      first [exact sameSets_refl | exact sameSets_trans | assumption].
  - apply (notifyBlockConnected_preserved env sameSets);
      first [exact sameSets_refl | exact sameSets_trans | assumption].
  - apply (notifyBlockDisconnected_preserved env sameSets);
      first [exact sameSets_refl | exact sameSets_trans | assumption].
Qed.

(** The clients being served (what [NumClients] counts) are those that
    were registered and not unregistered since: a message changes the set
    [clients] as [servedAfter] says, and in particular block events,
    mempool events and subscription requests leave it as it is; after any
    sequence of messages the set is the one the client registrations in it
    give. *)
Theorem served_clients (env : Env) :
  (∀ n s, clients (handleNotification env n s) = servedAfter n (clients s))
  ∧ (∀ ns, clients (run env ns initial) = foldl (λ X n, servedAfter n X) ∅ ns).
Proof.
  destruct (scans_sameSets env) as (Htx & Hnew & Hbc & Hbd).
  assert (∀ n s, clients (handleNotification env n s) = servedAfter n (clients s)) as Hstep.
  { intros n s. destruct n; simpl; try done.
    - set (s1 := if _ || _ then _ else s).
      assert (sameSets s s1) as (H1 & _).
      { subst s1. destruct (_ || _); [|done].
        apply (preserved_foldl sameSets sameSets_refl sameSets_trans). intros. apply Htx. }
      clearbody s1. case_bool_decide; [|done].
      destruct (Hbc (blockNotifications s1) block s1) as (-> & _). done.
    - by destruct (Hbd (blockNotifications s) block s) as (-> & _).
    - set (s1 := if _ && _ then _ else s).
      assert (sameSets s s1) as (H1 & _).
      { subst s1. destruct (_ && _); [apply Hnew | done]. }
      destruct (Htx tx None s1) as (-> & _). done.
    - unfold unregisterClient. cbn [clients set_clients]. f_equal.
      set (s0 := set_txNotifications _ _).
      set (s1 := foldl _ s0 _).
      assert (sameSets s0 s1) as (E1 & _).
      { apply (preserved_foldl sameSets sameSets_refl sameSets_trans).
        intros. apply removeSpentRequest_sets. }
      assert (sameSets s1 (foldl (λ s addr, removeAddrRequest wsc addr s) s1
                (rangeSet (rangeOrder env) (addrRequests (deref s1 wsc))))) as (E2 & _).
      { apply (preserved_foldl sameSets sameSets_refl sameSets_trans).
        intros. apply removeAddrRequest_sets. }
      by rewrite E2, E1.
    - unfold addSpentRequests.
      assert (sameSets s (foldl (addSpentRequest wsc) s ops)) as (-> & _); [|done].
      by apply (preserved_foldl sameSets sameSets_refl sameSets_trans).
    - by destruct (removeSpentRequest_sets wsc op s) as (-> & _).
    - unfold addAddrRequests.
      assert (sameSets s (foldl (addAddrRequest wsc) s addrs)) as (-> & _); [|done].
      by apply (preserved_foldl sameSets sameSets_refl sameSets_trans).
    - match goal with |- clients (removeAddrRequest ?c ?a s) = _ =>
        by destruct (removeAddrRequest_sets c a s) as (-> & _) end. }
  split; [done|].
  intros ns. unfold run.
  change (∅ : gset positive) with (clients initial). generalize initial.
  induction ns as [|n ns IH]; intros s; simpl; [done|]. by rewrite IH, Hstep.
Qed.

(** The notification manager only queues notifications: whatever message
    [notificationHandler] handles, a client's connection state
    ([disconnected], [authenticated], [isAdmin], [sessionID],
    [verboseTxUpdates], the async fields and [sendChan]) is what it was,
    and its notification queue is the old one with notifications added at
    the end, none if the client is disconnected. *)
Theorem router_keeps_connections (env : Env) (n : NotificationMsg) (s : ntfnState)
    (c : positive) :
  sameConnection (deref s c) (deref (handleNotification env n s) c)
  ∧ queuedMore (deref s c) (deref (handleNotification env n s) c).
Proof.
  revert c. change (keeps s (handleNotification env n s)).
  apply (handleNotification_preserved env keeps);
    first [exact keeps_refl | exact keeps_trans | exact removeSpentRequest_keeps
          | exact removeAddrRequest_keeps | exact addSpentRequest_keeps
          | exact addAddrRequest_keeps | idtac].
  - intros. apply queueNotification_keeps. eauto.
  - intros. by apply keeps_heap.
  - intros. by apply keeps_heap.
Qed.

(** *** A client leaves *)

Lemma rangeSet_NoDup `{Countable K} (ro : RangeOrder) (X : gset K) : NoDup (rangeSet ro X).
Proof. unfold rangeSet. rewrite order_perm. apply NoDup_elements. Qed.

Lemma rangeSet_in `{Countable K} (ro : RangeOrder) (X : gset K) (x : K) :
  x ∈ rangeSet ro X ↔ x ∈ X.
Proof. unfold rangeSet. rewrite order_perm. apply elem_of_elements. Qed.

Lemma rangeSet_to_set `{Countable K} (ro : RangeOrder) (X : gset K) :
  list_to_set (rangeSet ro X) = X.
Proof. apply set_eq. intros x. by rewrite elem_of_list_to_set, rangeSet_in. Qed.

Lemma unregister_spent_fold c l s :
  let s' := foldl (λ s op, removeSpentRequest c op s) s l in
  spentRequests (deref s' c) = spentRequests (deref s c) ∖ list_to_set l
  ∧ addrRequests (deref s' c) = addrRequests (deref s c)
  ∧ ∀ c', c' ≠ c → deref s' c' = deref s c'.
Proof.
  revert s. induction l as [|op l IH]; intros s; simpl.
  - split; [set_solver | done].
  - destruct (IH (removeSpentRequest c op s)) as (Hs & Ha & Ho).
    rewrite Hs, Ha. rewrite removeSpentRequest_deref. rewrite decide_True by done. simpl.
    split; [set_solver|]. split; [done|].
    intros c' Hc. rewrite Ho by done. rewrite removeSpentRequest_deref.
    by rewrite decide_False.
Qed.

Lemma unregister_addr_fold c l s :
  let s' := foldl (λ s a, removeAddrRequest c a s) s l in
  addrRequests (deref s' c) = addrRequests (deref s c) ∖ list_to_set l
  ∧ spentRequests (deref s' c) = spentRequests (deref s c)
  ∧ ∀ c', c' ≠ c → deref s' c' = deref s c'.
Proof.
  revert s. induction l as [|a l IH]; intros s; simpl.
  - split; [set_solver | done].
  - destruct (IH (removeAddrRequest c a s)) as (Ha & Hs & Ho).
    rewrite Hs, Ha. rewrite removeAddrRequest_deref. rewrite decide_True by done. simpl.
    split; [set_solver|]. split; [done|].
    intros c' Hc. rewrite Ho by done. rewrite removeAddrRequest_deref.
    by rewrite decide_False.
Qed.

(** When a client is unregistered ([RemoveClient]), every request it made
    goes with it: it is in none of the three client sets, in no inner map
    of the two indexes, and its own request sets are empty; every other
    client keeps its object, its place in the sets and its watches. *)
Theorem unregister_client_forgets (env : Env) (c : positive) (s : ntfnState) :
  mirror s →
  let s' := handleNotification env (notificationUnregisterClient c) s in
  (c ∉ clients s') ∧ (c ∉ blockNotifications s') ∧ (c ∉ txNotifications s')
  ∧ (∀ op, c ∉ watchers (watchedOutPoints s') op)
  ∧ (∀ a, c ∉ watchers (watchedAddrs s') a)
  ∧ spentRequests (deref s' c) = ∅ ∧ addrRequests (deref s' c) = ∅
  ∧ (∀ c', c' ≠ c →
       deref s' c' = deref s c'
       ∧ (c' ∈ clients s' ↔ c' ∈ clients s)
       ∧ (c' ∈ blockNotifications s' ↔ c' ∈ blockNotifications s)
       ∧ (c' ∈ txNotifications s' ↔ c' ∈ txNotifications s)
       ∧ (∀ op, c' ∈ watchers (watchedOutPoints s') op ↔ c' ∈ watchers (watchedOutPoints s) op)
       ∧ (∀ a, c' ∈ watchers (watchedAddrs s') a ↔ c' ∈ watchers (watchedAddrs s) a)).
Proof.
  intros Hm s'.
  assert (mirror s') as [Hs' Ha'] by by apply handleNotification_mirror.
  destruct Hm as [Hs Ha].
  subst s'.
  change (handleNotification env (notificationUnregisterClient c) s)
    with (unregisterClient env c s) in *.
  unfold unregisterClient in *.
  set (s0 := set_txNotifications _ _) in *.
  set (s1 := foldl _ s0 _) in *.
  set (l2 := rangeSet (rangeOrder env) (addrRequests (deref s1 c))) in *.
  set (s2 := foldl _ s1 l2) in *.
  set (s3 := set_clients _ s2) in *.
  destruct (unregister_spent_fold c (rangeSet (rangeOrder env) (spentRequests (deref s0 c))) s0)
    as (S1 & A1 & O1). fold s1 in S1, A1, O1.
  destruct (unregister_addr_fold c l2 s1) as (A2 & S2 & O2). fold s2 in S2, A2, O2.
  rewrite rangeSet_to_set in S1. subst l2. rewrite rangeSet_to_set in A2.
  assert (sameSets s0 s1) as (C1 & B1 & T1).
  { apply (preserved_foldl sameSets sameSets_refl sameSets_trans).
    intros. apply removeSpentRequest_sets. }
  assert (sameSets s1 s2) as (C2 & B2 & T2).
  { apply (preserved_foldl sameSets sameSets_refl sameSets_trans).
    intros. apply removeAddrRequest_sets. }
  assert (∀ x, deref s3 x = deref s2 x) as D3 by done.
  assert (∀ x, deref s0 x = deref s x) as D0 by done.
  assert (spentRequests (deref s3 c) = ∅) as E1.
  { rewrite D3, S2, S1. set_solver. }
  assert (addrRequests (deref s3 c) = ∅) as E2.
  { rewrite D3, A2. set_solver. }
  assert (clients s3 = clients s ∖ {[c]}) as EC.
  { subst s3. cbn [clients set_clients]. by rewrite C2, C1. }
  assert (blockNotifications s3 = blockNotifications s ∖ {[c]}) as EB.
  { subst s3. cbn [blockNotifications set_clients]. by rewrite B2, B1. }
  assert (txNotifications s3 = txNotifications s ∖ {[c]}) as ET.
  { subst s3. cbn [txNotifications set_clients]. by rewrite T2, T1. }
  rewrite EC, EB, ET.
  split; [set_solver|]. split; [set_solver|]. split; [set_solver|].
  split. { intros op. rewrite <-Hs', E1. set_solver. }
  split. { intros a. rewrite <-Ha', E2. set_solver. }
  split; [done|]. split; [done|].
  intros c' Hc.
  assert (deref s3 c' = deref s c') as D.
  { rewrite D3, O2, O1, D0 by done. done. }
  split; [done|]. split; [set_solver|]. split; [set_solver|]. split; [set_solver|].
  split.
  - intros op. by rewrite <-Hs', <-Hs, D.
  - intros a. by rewrite <-Ha', <-Ha, D.
Qed.

Lemma run_mirror env ns : mirror (run env ns initial).
Proof.
  unfold run. apply foldl_invariant; [|apply mirror_initial].
  intros. by apply handleNotification_mirror.
Qed.

(** *** Who is sent a block or a new transaction *)

Lemma queue_list_once N (l : list positive) s c :
  NoDup l →
  let s' := foldl (λ s w, (queueNotification w N s).1) s l in
  disconnected (deref s' c) = disconnected (deref s c)
  ∧ ntfnChan (deref s' c)
    = ntfnChan (deref s c)
      ++ (if bool_decide (c ∈ l) && negb (disconnected (deref s c)) then [N] else []).
Proof.
  revert s. induction l as [|w l IH]; intros s Hnd; cbn [foldl].
  - cbv zeta. by rewrite app_nil_r.
  - apply NoDup_cons in Hnd as [Hw Hnd]. cbv zeta.
    destruct (IH (queueNotification w N s).1 Hnd) as [Hd Hc]. rewrite Hd, Hc.
    rewrite queueNotification_deref. destruct (decide (c = w)) as [->|Hne].
    + rewrite QueueNotification_gone, QueueNotification_chan. split; [done|].
      rewrite (bool_decide_false (w ∈ l)) by done.
      rewrite bool_decide_true by set_solver. simpl. by rewrite app_nil_r.
    + split; [done|]. f_equal.
      rewrite (bool_decide_ext (c ∈ w :: l) (c ∈ l)); [done | set_solver].
Qed.

Lemma queueAll_once env cs N s c :
  disconnected (deref (queueAll env cs N s) c) = disconnected (deref s c)
  ∧ ntfnChan (deref (queueAll env cs N s) c) = ntfnChan (deref s c) ++ sentTo cs s c N.
Proof.
  destruct (queue_list_once N (rangeSet (rangeOrder env) cs) s c (rangeSet_NoDup _ _))
    as [Hd Hc].
  split; [exact Hd|]. unfold queueAll, sentTo. rewrite Hc.
  by rewrite (bool_decide_ext _ _ (rangeSet_in (rangeOrder env) cs c)).
Qed.

Lemma txOnly_refl s : txOnly s s.
Proof. intros c. split; [done|]. exists []. by rewrite app_nil_r. Qed.

Lemma txOnly_trans s1 s2 s3 : txOnly s1 s2 → txOnly s2 s3 → txOnly s1 s3.
Proof.
  intros H1 H2 c. destruct (H1 c) as (D1 & e1 & E1 & F1), (H2 c) as (D2 & e2 & E2 & F2).
  split; [congruence|]. exists (e1 ++ e2). rewrite E2, E1, app_assoc. split; [done|].
  by apply Forall_app.
Qed.

Lemma notifyForTx_txOnly env tx block s : txOnly s (notifyForTx env tx block s).
Proof.
  intros c. destruct (notifyForTx_queued env tx block s c) as (e1 & e2 & Hc & He1 & He2 & Hd).
  split; [done|]. exists (e1 ++ e2). split; [done|]. apply Forall_app. split.
  - destruct He1 as [->| ->]; [done|]. apply Forall_singleton. by left.
  - destruct He2 as [->| ->]; [done|]. apply Forall_singleton. by right.
Qed.

(** A connected block reaches the clients that asked for block updates:
    when the notification marshals, a client's queue is the old one, then
    what the scan of the block's transactions queued, all of it
    [redeemingtx] and [recvtx] notifications, then, for a connected client
    registered for blocks, the one [blockconnected] notification, whatever
    the order in which the clients are ranged over.  A disconnected block reaches the same clients
    with one [blockdisconnected] notification, and nobody else is sent
    anything. *)
Theorem block_events_reach_subscribers (env : Env) (block : Block) (s : ntfnState)
    (c : positive) :
  (marshalFails env (connectedOf block) = false →
   ∃ txs,
     ntfnChan (deref (handleNotification env (notificationBlockConnected block) s) c)
     = ntfnChan (deref s c) ++ txs
       ++ sentTo (blockNotifications s) s c (JNtfn (connectedOf block))
     ∧ Forall isTxNtfn txs)
  ∧ (marshalFails env (disconnectedOf block) = false →
     ntfnChan (deref (handleNotification env (notificationBlockDisconnected block) s) c)
     = ntfnChan (deref s c)
       ++ sentTo (blockNotifications s) s c (JNtfn (disconnectedOf block))).
Proof.
  split; intros Hm; simpl.
  - set (s1 := if _ || _ then _ else s).
    assert (txOnly s s1 ∧ sameSets s s1) as [Ht (_ & Hb & _)].
    { subst s1. destruct (_ || _); [|split; [apply txOnly_refl | done]]. split.
      - apply (preserved_foldl txOnly txOnly_refl txOnly_trans).
        intros. apply notifyForTx_txOnly.
      - apply (preserved_foldl sameSets sameSets_refl sameSets_trans).
        intros. apply (scans_sameSets env). }
    clearbody s1. destruct (Ht c) as (Hd & txs & Hc & Hf). exists txs. split; [|done].
    unfold sentTo. rewrite <-Hb, <-Hd.
    case_bool_decide as Hsz.
    + unfold notifyBlockConnected, MarshalCmd. fold (connectedOf block). rewrite Hm.
      destruct (queueAll_once env (blockNotifications s1) (JNtfn (connectedOf block)) s1 c)
        as [_ ->].
      by rewrite Hc, app_assoc.
    + rewrite Hc. rewrite bool_decide_false; [by rewrite !app_nil_r|].
      intros Hin. assert (size (blockNotifications s1) = 0%nat) as Hz.
      { destruct (decide (size (blockNotifications s1) = 0%nat)); [done | by destruct Hsz]. }
      apply size_zero_empty in Hz. set_solver.
  - unfold notifyBlockDisconnected. case_bool_decide as Hsz.
    + apply size_zero_empty in Hsz. unfold sentTo. rewrite Hsz.
      rewrite bool_decide_false by set_solver. by rewrite app_nil_r.
    + unfold MarshalCmd. fold (disconnectedOf block). rewrite Hm.
      by destruct (queueAll_once env (blockNotifications s) (JNtfn (disconnectedOf block)) s c)
        as [_ ->].
Qed.

Lemma int64_idemp (a b : Z) : int64 (int64 a + b) = int64 (a + b).
Proof.
  unfold int64. f_equal.
  replace ((a + 2 ^ 63) mod 2 ^ 64 - 2 ^ 63 + b + 2 ^ 63)
    with ((a + 2 ^ 63) mod 2 ^ 64 + b) by lia.
  rewrite Zplus_mod_idemp_l. f_equal. lia.
Qed.

Lemma amount_totalOut (tx : Tx) :
  foldl (λ amount txOut, int64 (amount + Value txOut)) 0 (TxOuts tx) = totalOut tx.
Proof.
  unfold totalOut.
  assert (∀ l a,
    foldl (λ amount txOut, int64 (amount + Value txOut)) (int64 a) l
    = int64 (a + foldr Z.add 0 (Value <$> l))) as H.
  { induction l as [|o l IH]; intros a; cbn [foldl fmap list_fmap foldr].
    - by rewrite Z.add_0_r.
    - rewrite int64_idemp, IH. f_equal. lia. }
  apply (H _ 0).
Qed.

Lemma notifyForNewTxLoop_once env tx mj l v s c :
  let V := JNtfn (TxAcceptedVerboseNtfn tx) in
  NoDup l →
  createTxRawResultFails env tx = false →
  marshalFails env (TxAcceptedVerboseNtfn tx) = false →
  v = None ∨ v = Some V →
  let s' := notifyForNewTxLoop env tx mj l v s in
  disconnected (deref s' c) = disconnected (deref s c)
  ∧ verboseTxUpdates (deref s' c) = verboseTxUpdates (deref s c)
  ∧ ntfnChan (deref s' c)
    = ntfnChan (deref s c)
      ++ (if bool_decide (c ∈ l) && negb (disconnected (deref s c))
          then [if verboseTxUpdates (deref s c) then V else mj] else []).
Proof.
  intros V Hnd Hraw Hmv. revert v s Hnd.
  induction l as [|w l IH]; intros v s Hnd Hv.
  - simpl. by rewrite app_nil_r.
  - apply NoDup_cons in Hnd as [Hw Hnd]. cbv zeta.
    set (X := if verboseTxUpdates (deref s w) then V else mj).
    assert (∃ v', (v' = None ∨ v' = Some V)
                  ∧ notifyForNewTxLoop env tx mj (w :: l) v s
                    = notifyForNewTxLoop env tx mj l v' (queueNotification w X s).1)
      as (v' & Hv' & ->).
    { subst X. cbn [notifyForNewTxLoop]. destruct (verboseTxUpdates (deref s w)).
      - destruct Hv as [->| ->].
        + exists (Some V). split; [by right|]. unfold MarshalCmd. by rewrite Hraw, Hmv.
        + exists (Some V). split; [by right | done].
      - exists v. done. }
    destruct (IH v' (queueNotification w X s).1 Hnd Hv') as (Hd & Hvb & Hc).
    rewrite Hd, Hvb, Hc. rewrite queueNotification_deref.
    destruct (decide (c = w)) as [->|Hne].
    + rewrite QueueNotification_gone, QueueNotification_chan.
      split; [done|]. split; [unfold QueueNotification; by destruct (Disconnected _)|].
      rewrite (bool_decide_false (w ∈ l)) by done.
      rewrite bool_decide_true by set_solver. simpl. by rewrite app_nil_r.
    + split; [done|]. split; [done|]. f_equal.
      rewrite (bool_decide_ext (c ∈ w :: l) (c ∈ l)); [done | set_solver].
Qed.

(** A transaction new to the mempool reaches the clients that asked for
    new transactions ([notifyForNewTx]): when nothing fails to marshal, a
    connected subscriber is sent exactly one notification, the verbose form
    if it asked for it and otherwise [txaccepted] with the transaction's
    hash and the sum of its output values as an [int64]; nobody else is
    sent anything, whatever the order in which the subscribers are ranged
    over. *)
Theorem new_tx_reaches_subscribers (env : Env) (cs : gset positive) (tx : Tx)
    (s : ntfnState) (c : positive) :
  marshalFails env (TxAcceptedNtfn (txSha tx) (totalOut tx)) = false →
  createTxRawResultFails env tx = false →
  marshalFails env (TxAcceptedVerboseNtfn tx) = false →
  ntfnChan (deref (notifyForNewTx env cs tx s) c)
  = ntfnChan (deref s c)
    ++ sentTo cs s c
         (JNtfn (if verboseTxUpdates (deref s c) then TxAcceptedVerboseNtfn tx
                 else TxAcceptedNtfn (txSha tx) (totalOut tx))).
Proof.
  intros Hm Hraw Hmv. unfold notifyForNewTx, MarshalCmd.
  rewrite amount_totalOut, Hm.
  destruct (notifyForNewTxLoop_once env tx (JNtfn (TxAcceptedNtfn (txSha tx) (totalOut tx)))
              (rangeSet (rangeOrder env) cs) None s c (rangeSet_NoDup _ _) Hraw Hmv)
    as (_ & _ & ->); [by left|].
  unfold sentTo. rewrite (bool_decide_ext _ _ (rangeSet_in (rangeOrder env) cs c)).
  by destruct (verboseTxUpdates (deref s c)).
Qed.

(** *** An output that pays a watched address *)

Lemma foldl_reach {A B} (I Q : A → Prop) (f : A → B → A) (l : list B) (x : B) (a : A) :
  x ∈ l → I a →
  (∀ a y, I a → I (f a y)) → (∀ a, I a → Q (f a x)) → (∀ a y, Q a → Q (f a y)) →
  Q (foldl f a l).
Proof.
  intros Hx Ia HI Hhit HQ.
  apply list_elem_of_split in Hx as (l1 & l2 & ->).
  rewrite foldl_app. simpl. apply foldl_invariant; [done|].
  apply Hhit. by apply foldl_invariant.
Qed.

Lemma foldl_reach_at {A B} (I : nat → A → Prop) (Q : A → Prop) (f : A → B → A)
    (l : list B) (i : nat) (x : B) (a : A) :
  l !! i = Some x → I 0%nat a →
  (∀ k a y, I k a → I (S k) (f a y)) → (∀ a, I i a → Q (f a x)) →
  (∀ a y, Q a → Q (f a y)) →
  Q (foldl f a l).
Proof.
  intros Hx Ia HI Hhit HQ.
  assert (∀ k, l !! i = Some x → I k a → (∀ a, I (k + i)%nat a → Q (f a x)) →
               Q (foldl f a l)) as H; [|by apply (H 0%nat)].
  clear Hx Ia Hhit. revert i a. induction l as [|y l IH]; intros i a k Hx Ia Hhit; [done|].
  simpl. destruct i as [|i]; simpl in Hx.
  - injection Hx as ->. apply foldl_invariant; [done|]. apply Hhit. by rewrite Nat.add_0_r.
  - apply (IH i _ (S k)); [done | by apply HI|].
    intros a' Ia'. apply Hhit. by replace (k + S i)%nat with (S k + i)%nat by lia.
Qed.

Lemma grows_refl s : grows s s.
Proof. by repeat split. Qed.

Lemma grows_trans s1 s2 s3 : grows s1 s2 → grows s2 s3 → grows s1 s3.
Proof.
  intros (A1 & S1 & W1) (A2 & S2 & W2). split; [congruence|]. split.
  - intros c op H. by apply S2, S1.
  - intros c op H. by apply W2, W1.
Qed.

Lemma sameSubscriptions_grows s s' : sameSubscriptions s s' → grows s s'.
Proof.
  intros (Ho & Ha & Hc). split; [done|]. split.
  - intros c op. by destruct (Hc c) as [-> _].
  - intros c op. by rewrite Ho.
Qed.

Lemma addSpentRequest_grows c s op : grows s (addSpentRequest c s op).
Proof.
  split; [done|]. split.
  - intros c' o. rewrite addSpentRequest_deref. case_decide; simplify_eq; simpl; set_solver.
  - intros c' o. rewrite addSpentRequest_watched, watchers_addTo.
    case_decide; simplify_eq; set_solver.
Qed.

Lemma addSpentRequest_watches c s op : watches c op (addSpentRequest c s op).
Proof.
  split.
  - rewrite addSpentRequest_deref, decide_True by done. simpl. set_solver.
  - rewrite addSpentRequest_watched, watchers_addTo, decide_True by done. set_solver.
Qed.

Lemma grows_watches c op s s' : grows s s' → watches c op s → watches c op s'.
Proof. intros (_ & S & W) [H1 H2]. split; [by apply S | by apply W]. Qed.

Section paid.
Context (env : Env).

Lemma grows_queue c n s : grows s (queueNotification c (JNtfn n) s).1.
Proof. apply sameSubscriptions_grows, queueNotification_same. Qed.

Lemma grows_logf lvl fmt s : grows s (logf lvl fmt s).
Proof. apply sameSubscriptions_grows, logf_same. Qed.

Lemma notifyTxOutClient_grows op n acc c :
  grows acc.2 (notifyTxOutClient op (JNtfn n) acc c).2.
Proof.
  apply (notifyTxOutClient_preserved grows grows_trans grows_queue addSpentRequest_grows).
Qed.

Lemma notifyTxOutAddr_grows tx block i acc a :
  grows acc.2 (notifyTxOutAddr env tx block i acc a).2.
Proof.
  apply (notifyTxOutAddr_preserved env grows grows_refl grows_trans grows_queue grows_logf
           addSpentRequest_grows).
Qed.

Lemma notifyTxOut_grows tx block acc txOut :
  grows acc.2.2 (notifyTxOut env tx block acc txOut).2.2.
Proof.
  apply (notifyTxOut_preserved env grows grows_refl grows_trans grows_queue grows_logf
           addSpentRequest_grows).
Qed.

Lemma notifyTxOutAddr_hex tx block i acc a :
  hexOk env tx acc.1.1 → hexOk env tx (notifyTxOutAddr env tx block i acc a).1.1.
Proof.
  destruct acc as [[h n] s]. simpl. intros Hh.
  destruct (watchedAddrs s !! EncodeAddress env a); [|done].
  rewrite (hexOnce_stable env tx h Hh). destruct (MarshalCmd env _); by right.
Qed.

Lemma notifyTxOut_hex tx block acc txOut :
  hexOk env tx acc.2.1.1 → hexOk env tx (notifyTxOut env tx block acc txOut).2.1.1.
Proof.
  intros Hh. unfold notifyTxOut. cbn [fst snd].
  destruct (ExtractPkScriptAddrs env _); [|done].
  apply (foldl_invariant (λ a, hexOk env tx a.1.1)); [|done].
  intros. by apply notifyTxOutAddr_hex.
Qed.

(** An output that pays a watched address is watched from then on
    ([notifyForTxOuts]): when output number [i] of a transaction pays an
    address that client [c] watches and the [recvtx] notification marshals,
    the outpoint of that output is in [c.spentRequests] and [c] is in its
    entry of [watchedOutPoints] after the scan, for a transaction in a
    block and for one in the mempool, for a connected client and for a
    disconnected one. *)
Theorem paid_output_becomes_watched (tx : Tx) (block : option Block) (s : ntfnState)
    (i : nat) (txOut : TxOut) (addrs : list Address) (a : Address) (c : positive) :
  TxOuts tx !! i = Some txOut →
  ExtractPkScriptAddrs env (PkScript txOut) = Some addrs →
  a ∈ addrs →
  c ∈ watchers (watchedAddrs s) (EncodeAddress env a) →
  marshalFails env (RecvTxNtfn (txHexString env tx) (blockDetails block (txIndex tx)))
  = false →
  watches c (NewOutPoint (txSha tx) (Z.of_nat i)) (notifyForTxOuts env tx block s).
Proof.
  intros Hi Hx Ha Hc Hm. unfold notifyForTxOuts.
  rewrite bool_decide_false.
  2:{ intros Hz. apply map_size_empty_iff in Hz. unfold watchers in Hc.
      rewrite Hz, lookup_empty in Hc. set_solver. }
  set (op := NewOutPoint (txSha tx) (Z.of_nat i)).
  apply (foldl_reach_at
           (λ k acc, acc.1 = Z.of_nat k ∧ hexOk env tx acc.2.1.1
                     ∧ watchedAddrs acc.2.2 = watchedAddrs s)
           (λ acc, watches c op acc.2.2) _ _ i txOut); [done|..].
  - split; [done|]. split; [by left | done].
  - intros k acc y (Hk & Hh & Hw). split; [simpl; lia|]. split; [by apply notifyTxOut_hex|].
    destruct (notifyTxOut_grows tx block acc y) as (-> & _). done.
  - intros acc (Hk & Hh & Hw). unfold notifyTxOut. cbn [fst snd]. rewrite Hx, Hk.
    apply (foldl_reach
             (λ acc, hexOk env tx acc.1.1 ∧ watchedAddrs acc.2 = watchedAddrs s)
             (λ acc, watches c op acc.2) _ _ a); [done | done |..].
    + intros acc' y [Hh' Hw']. split; [by apply notifyTxOutAddr_hex|].
      destruct (notifyTxOutAddr_grows tx block (Z.of_nat i) acc' y) as (-> & _). done.
    + intros [[h n] s1] [Hh' Hw']. simpl in Hh', Hw'. simpl.
      unfold watchers in Hc. rewrite Hw'.
      destruct (watchedAddrs s !! EncodeAddress env a) as [cmap|] eqn:E; [|set_solver].
      simpl in Hc. rewrite (hexOnce_stable env tx h Hh').
      unfold MarshalCmd. rewrite Hm. simpl.
      apply (foldl_reach (λ _, True) (λ acc, watches c op acc.2) _ _ c);
        [by apply rangeSet_in | done | done |..].
      * intros acc' _. unfold notifyTxOutClient.
        assert (watches c op (addSpentRequests c [op] acc'.2)) as Hw2
          by apply addSpentRequest_watches.
        case_bool_decide; simpl; [done|].
        eapply grows_watches; [apply grows_queue | done].
      * intros acc' y. apply grows_watches, notifyTxOutClient_grows.
    + intros acc' y. apply grows_watches, notifyTxOutAddr_grows.
  - intros acc y. apply grows_watches, notifyTxOut_grows.
Qed.

End paid.

(** *** Registering and unregistering, seen from the client *)

Lemma addSpentRequests_watches c ops s op :
  op ∈ ops → watches c op (addSpentRequests c ops s).
Proof.
  intros Hin. unfold addSpentRequests.
  apply (foldl_reach (λ _, True) (watches c op) _ _ op); [done | done | done |..].
  - intros. apply addSpentRequest_watches.
  - intros s' o. apply grows_watches, addSpentRequest_grows.
Qed.

Lemma addAddrRequests_watches c addrs s a :
  a ∈ addrs → watchesAddr c a (addAddrRequests c addrs s).
Proof.
  intros Hin. unfold addAddrRequests.
  apply (foldl_reach (λ _, True) (watchesAddr c a) _ _ a); [done | done | done |..].
  - intros s' _. split.
    + rewrite addAddrRequest_deref, decide_True by done. simpl. set_solver.
    + rewrite addAddrRequest_addrs, watchers_addTo, decide_True by done. set_solver.
  - intros s' a' [H1 H2]. split.
    + rewrite addAddrRequest_deref, decide_True by done. simpl. set_solver.
    + rewrite addAddrRequest_addrs, watchers_addTo. case_decide; simplify_eq; set_solver.
Qed.

Lemma removeSpentRequests_unwatched c (ops : list OutPoint) s op :
  op ∈ ops → unwatched c op (foldl (λ s op, removeSpentRequest c op s) s ops).
Proof.
  intros Hin.
  apply (foldl_reach (λ _, True) (unwatched c op) _ _ op); [done | done | done |..].
  - intros s' _. split.
    + rewrite removeSpentRequest_deref, decide_True by done. simpl. set_solver.
    + rewrite removeSpentRequest_watched, watchers_dropFrom, decide_True by done. set_solver.
  - intros s' o [H1 H2]. split.
    + rewrite removeSpentRequest_deref, decide_True by done. simpl. set_solver.
    + rewrite removeSpentRequest_watched, watchers_dropFrom.
      case_decide; simplify_eq; set_solver.
Qed.

Lemma removeAddrRequests_unwatched c (addrs : list string) s a :
  a ∈ addrs → unwatchedAddr c a (foldl (λ s a, removeAddrRequest c a s) s addrs).
Proof.
  intros Hin.
  apply (foldl_reach (λ _, True) (unwatchedAddr c a) _ _ a); [done | done | done |..].
  - intros s' _. split.
    + rewrite removeAddrRequest_deref, decide_True by done. simpl. set_solver.
    + rewrite removeAddrRequest_addrs, watchers_dropFrom, decide_True by done. set_solver.
  - intros s' o [H1 H2]. split.
    + rewrite removeAddrRequest_deref, decide_True by done. simpl. set_solver.
    + rewrite removeAddrRequest_addrs, watchers_dropFrom.
      case_decide; simplify_eq; set_solver.
Qed.

(** *** Shutdown *)

Lemma Disconnect_fields cl :
  disconnected (Disconnect cl) = true
  ∧ ntfnChan (Disconnect cl) = ntfnChan cl ∧ sendChan (Disconnect cl) = sendChan cl
  ∧ spentRequests (Disconnect cl) = spentRequests cl
  ∧ addrRequests (Disconnect cl) = addrRequests cl.
Proof. unfold Disconnect. by destruct (disconnected cl) eqn:E. Qed.

Lemma drain_list (l : list positive) (s : ntfnState) (c : positive) :
  NoDup l →
  let s' := foldl (λ s w,
                     update w Disconnect
                       (mkState (clients s) (blockNotifications s) (txNotifications s)
                          (watchedOutPoints s) (watchedAddrs s) (heap s)
                          (rpcsLog s ++ DisconnectLog (deref s w)))) s l in
  deref s' c = (if bool_decide (c ∈ l) then Disconnect (deref s c) else deref s c)
  ∧ clients s' = clients s ∧ blockNotifications s' = blockNotifications s
  ∧ txNotifications s' = txNotifications s
  ∧ watchedOutPoints s' = watchedOutPoints s ∧ watchedAddrs s' = watchedAddrs s.
Proof.
  revert s. induction l as [|w l IH]; intros s Hnd; cbn [foldl]; cbv zeta.
  - rewrite bool_decide_false by set_solver. done.
  - apply NoDup_cons in Hnd as [Hw Hnd].
    set (s1 := mkState (clients s) (blockNotifications s) (txNotifications s)
                 (watchedOutPoints s) (watchedAddrs s) (heap s)
                 (rpcsLog s ++ DisconnectLog (deref s w))).
    destruct (IH (update w Disconnect s1) Hnd) as (Hd & -> & -> & -> & -> & ->).
    split; [|done]. rewrite Hd, deref_update.
    change (deref s1) with (deref s).
    destruct (decide (c = w)) as [->|Hne].
    + rewrite (bool_decide_false (w ∈ l)) by done.
      by rewrite (bool_decide_true (w ∈ w :: l)) by set_solver.
    + by rewrite (bool_decide_ext (c ∈ w :: l) (c ∈ l)) by set_solver.
Qed.

(** When [notificationHandler] leaves its loop it disconnects every
    registered client and no other: after that, the object of a registered
    client is the one [Disconnect] makes of it (disconnected, its queues
    and request sets as they were), the object of any other client is
    untouched, and so are the sets and the indexes of the handler. *)
Theorem shutdown_disconnects_clients (env : Env) (s : ntfnState) (c : positive) :
  let s' := drain env s in
  deref s' c = (if bool_decide (c ∈ clients s) then Disconnect (deref s c) else deref s c)
  ∧ clients s' = clients s ∧ blockNotifications s' = blockNotifications s
  ∧ txNotifications s' = txNotifications s
  ∧ watchedOutPoints s' = watchedOutPoints s ∧ watchedAddrs s' = watchedAddrs s.
Proof.
  cbv zeta. unfold drain.
  rewrite <-(bool_decide_ext _ _ (rangeSet_in (rangeOrder env) (clients s) c)).
  apply drain_list, rangeSet_NoDup.
Qed.

(** *** The theorems at work on the sample data *)

(** Client 1, which watches [O1] and [O2], is unregistered. *)
Lemma unregister_client_forgets_witness :
  let s' := handleNotification Demo.env0 (notificationUnregisterClient 1) Demo.watching in
  (1%positive ∉ clients s') ∧ (1%positive ∉ blockNotifications s')
  ∧ (1%positive ∉ txNotifications s')
  ∧ (∀ op, 1%positive ∉ watchers (watchedOutPoints s') op)
  ∧ (∀ a, 1%positive ∉ watchers (watchedAddrs s') a)
  ∧ spentRequests (deref s' 1) = ∅ ∧ addrRequests (deref s' 1) = ∅
  ∧ (∀ c', c' ≠ 1%positive →
       deref s' c' = deref Demo.watching c'
       ∧ (c' ∈ clients s' ↔ c' ∈ clients Demo.watching)
       ∧ (c' ∈ blockNotifications s' ↔ c' ∈ blockNotifications Demo.watching)
       ∧ (c' ∈ txNotifications s' ↔ c' ∈ txNotifications Demo.watching)
       ∧ (∀ op, c' ∈ watchers (watchedOutPoints s') op
                ↔ c' ∈ watchers (watchedOutPoints Demo.watching) op)
       ∧ (∀ a, c' ∈ watchers (watchedAddrs s') a
               ↔ c' ∈ watchers (watchedAddrs Demo.watching) a)).
Proof.
  apply (unregister_client_forgets Demo.env0 1 Demo.watching).
  apply run_mirror.
Defined.

(** Client 2 asked for new transactions, not verbosely. *)
Lemma new_tx_reaches_subscribers_witness :
  ntfnChan (deref (notifyForNewTx Demo.env0 (txNotifications Demo.subscribers)
                     Demo.payTx Demo.subscribers) 2)
  = ntfnChan (deref Demo.subscribers 2)
    ++ sentTo (txNotifications Demo.subscribers) Demo.subscribers 2
         (JNtfn (if verboseTxUpdates (deref Demo.subscribers 2)
                 then TxAcceptedVerboseNtfn Demo.payTx
                 else TxAcceptedNtfn (txSha Demo.payTx) (totalOut Demo.payTx))).
Proof.
  apply (new_tx_reaches_subscribers Demo.env0 (txNotifications Demo.subscribers)
           Demo.payTx Demo.subscribers 2); reflexivity.
Defined.

(** The first output of [payTx] pays ["addr1"], which client 1 watches. *)
Lemma paid_output_becomes_watched_witness :
  watches 1 (NewOutPoint (txSha Demo.payTx) 0)
    (notifyForTxOuts Demo.env0 Demo.payTx None Samples.paying).
Proof.
  apply (paid_output_becomes_watched Demo.env0 Demo.payTx None Samples.paying 0
           (mkTxOut 100 [x01]) [AddressOther "addr1"] (AddressOther "addr1") 1).
  - reflexivity.
  - reflexivity.
  - apply list_elem_of_here.
  - by_evaluation.
  - reflexivity.
Defined.

End RouterMore.

(** * More facts about the rescan engine *)

Module RescanMore.
Import Rescan Notions Loops RescanFacts.

Lemma forEach_invariant {A S : Type} (I : S → Prop) (body : S → A → Flow * S)
    (l : list A) (s : S) :
  (∀ s x, I s → I (body s x).2) → I s → I (forEach body s l).2.
Proof.
  intros Hb. revert s. induction l as [|x l IH]; intros s Hs; simpl; [done|].
  pose proof (Hb s x Hs) as H1. destruct (body s x) as [[] s1]; simpl in *; [by apply IH | done].
Qed.

Section scan_preserved.
Context {W : Type} (env : Env) (out : Outside W).

(** *** The steps a block scan is made of *)

Section block.
Context (R : rescanState W → rescanState W → Prop).
Hypothesis R_refl : ∀ st, R st st.
Hypothesis R_trans : ∀ st1 st2 st3, R st1 st2 → R st2 st3 → R st1 st3.
Hypothesis R_lookups : ∀ st r, R st (set_lookups r st).
Hypothesis R_log : ∀ st lvl fmt, R st (rlogf lvl fmt st).
Hypothesis R_queue : ∀ st n,
  method n = redeemingtx ∨ method n = recvtx → R st (queue out (JNtfn n) st).1.

Lemma rescanTxIn_preserved tx blk acc txin :
  R acc.2 (rescanTxIn env out tx blk acc txin).2.2.
Proof.
  unfold rescanTxIn. cbv zeta. case_bool_decide; [|apply R_refl].
  destruct (spentNotified acc.1); [apply R_lookups|].
  unfold Router.newRedeemingTxNotification, MarshalCmd.
  destruct (marshalFails env _).
  - eapply R_trans; [apply R_lookups | apply R_log].
  - set (st1 := set_lookups _ _). set (n := RedeemingTxNtfn _ _).
    pose proof (R_queue st1 n (or_introl eq_refl)) as Hq.
    destruct (queue out (JNtfn n) st1) as [st2 [[]|]]; simpl in *;
      (eapply R_trans; [apply R_lookups | exact Hq]).
Qed.

Lemma rescanAddr_preserved tx blk idx acc a :
  R acc.2 (rescanAddr env out tx blk idx acc a).2.2.
Proof.
  unfold rescanAddr. cbv zeta. destruct (unknownLength a); [apply R_log|].
  destruct (negb _); [apply R_refl|].
  destruct (recvNotified acc.1); [apply R_lookups|].
  unfold MarshalCmd. destruct (marshalFails env _).
  - eapply R_trans; [apply R_lookups | apply R_log].
  - set (st1 := set_lookups _ _). set (n := RecvTxNtfn _ _).
    pose proof (R_queue st1 n (or_intror eq_refl)) as Hq.
    destruct (queue out (JNtfn n) st1) as [st2 [[]|]]; simpl in *;
      (eapply R_trans; [apply R_lookups | exact Hq]).
Qed.

Lemma rescanTxOut_preserved tx blk acc txout :
  R acc.2.2 (rescanTxOut env out tx blk acc txout).2.2.2.
Proof.
  unfold rescanTxOut. cbn [fst snd].
  apply (forEach_invariant (λ a, R acc.2.2 a.2)); [|apply R_refl].
  intros s x Hs. eapply R_trans; [exact Hs | apply rescanAddr_preserved].
Qed.

Lemma rescanTx_preserved blk st tx : R st (rescanTx env out blk st tx).2.
Proof.
  unfold rescanTx.
  pose proof (forEach_invariant (λ a : Locals * rescanState W, R st a.2)
                (rescanTxIn env out tx blk) (TxIns tx) (mkLocals "" false false, st)) as H1.
  destruct (forEach (rescanTxIn env out tx blk) _ _) as [[] a1]; simpl in *.
  - apply (forEach_invariant (λ a : Z * (Locals * rescanState W), R st a.2.2)).
    + intros s x Hs. eapply R_trans; [exact Hs | apply rescanTxOut_preserved].
    + apply H1; [|apply R_refl].
      intros s x Hs. eapply R_trans; [exact Hs | apply rescanTxIn_preserved].
  - apply H1; [|apply R_refl].
    intros s x Hs. eapply R_trans; [exact Hs | apply rescanTxIn_preserved].
Qed.

Lemma rescanBlock_preserved blk st : R st (rescanBlock env out blk st).
Proof.
  unfold rescanBlock, rescanBlockFlow.
  apply (forEach_invariant (λ s, R st s)); [|apply R_refl].
  intros s x Hs. eapply R_trans; [exact Hs | apply rescanTx_preserved].
Qed.

End block.

(** *** The loops of [handleRescan] *)

Section loops.
Context (self : positive) (P : Vars → rescanState W → Prop).
Hypothesis P_world : ∀ v st w, P v st → P v (set_world w st).
Hypothesis P_log : ∀ v st lvl fmt, P v st → P v (rlogf lvl fmt st).
Hypothesis P_min : ∀ v st m, P v st → P (mkVars m (lastBlock v) (lastBlockHash v)) st.
Hypothesis P_sync : ∀ v st, P v st → P v (sync out st).
Hypothesis P_scan : ∀ v st blk,
  P v st → disconnected (client st) = false →
  P (mkVars (minBlock v) (Some blk) (Some (blockSha blk))) (rescanBlock env out blk st).
Hypothesis P_progress : ∀ v st n,
  P v st → is_Some (lastBlock v) → method n = rescanprogress ∨ method n = rescanfinished →
  P v (queue out (JNtfn n) st).1.

Lemma recoverFromReorg_inv v minB maxB last st :
  P v st → P v (recoverFromReorg out minB maxB last st).2.
Proof.
  intros Hp. unfold recoverFromReorg. cbv zeta.
  destruct (FetchHeightRange out minB maxB (world st)).1 as [err|hashList];
    [by apply P_log, P_world|].
  destruct last as [last|]; [|by apply P_world].
  destruct hashList as [|h rest]; [by apply P_world|].
  cbn [world set_world].
  destruct (FetchBlockBySha out h _).1 as [err|blk]; [by apply P_log, P_world, P_world|].
  destruct (descendantBlock last blk); [by apply P_log, P_world, P_world|].
  by apply P_world, P_world.
Qed.

Lemma loopHashList_inv fuel maxBlock hashList i v st :
  P v st → innerOk P (loopHashList env out fuel maxBlock hashList i v st).
Proof.
  unfold innerOk.
  revert hashList i v st.
  induction fuel as [|fuel IH]; intros hashList i v st Hp; cbn [loopHashList].
  - split; [done | by exists v].
  - destruct (hashList !! i) as [hash|]; [|done].
    destruct (FetchBlockBySha out hash (world st)).1 as [err|blk].
    + case_bool_decide; [split; [done|]; exists v; by apply P_log, P_world|].
      case_bool_decide; [split; [done|]; exists v; by apply P_log, P_world|].
      set (v1 := mkVars _ _ _).
      assert (P v1 (set_world (FetchBlockBySha out hash (world st)).2 st)) as Hp1
        by by apply P_min, P_world.
      pose proof (recoverFromReorg_inv v1 (minBlock v1) maxBlock (lastBlockHash v1) _ Hp1) as Hr.
      destruct (recoverFromReorg out _ _ _ _) as [[e|[|h rest]] st1]; simpl in Hr.
      * split; [done | by exists v1].
      * done.
      * by apply IH.
    + assert (P v (set_world (FetchBlockBySha out hash (world st)).2 st)) as Hp1
        by by apply P_world.
      destruct (if bool_decide (i = 0%nat) then _ else _);
        [split; [done|]; exists v; by apply P_log|].
      set (st1 := sync out _). assert (P v st1) as Hp2 by by apply P_sync.
      destruct (disconnected (client st1)) eqn:Hd;
        [split; [done|]; exists v; by apply P_log|].
      set (v2 := mkVars (minBlock v) (Some blk) (Some (blockSha blk))).
      assert (P v2 (rescanBlock env out blk st1)) as Hp3 by by apply P_scan.
      set (st2 := rescanBlock env out blk st1) in *.
      assert (P v2 (set_world (tick out (world st2)).2 st2)) as Hp4 by by apply P_world.
      destruct (tick out (world st2)).1; cbn [negb]; [|by apply IH].
      unfold MarshalCmd. destruct (marshalFails env _); [by apply IH, P_log|].
      set (n := RescanProgressNtfn _ _ _).
      pose proof (P_progress v2 _ n Hp4 (mk_is_Some _ _ eq_refl) (or_introl eq_refl)) as Hq.
      destruct (queue out (JNtfn n) _) as [st3 [[]|]]; simpl in Hq.
      * split; [done|]. exists v2. by apply P_log.
      * by apply IH.
Qed.

Lemma fetchRange_inv fuel maxBlock addresses v st :
  P v st →
  rangeOk env out self P maxBlock addresses
    (fetchRange env out self fuel maxBlock addresses v st).
Proof.
  unfold rangeOk.
  revert v st. induction fuel as [|fuel IH]; intros v st Hp; cbn [fetchRange].
  - case_bool_decide; [split; [done | by exists v] | by left].
  - case_bool_decide; [|by left].
    destruct (FetchHeightRange out (minBlock v) maxBlock (world st)).1 as [err|hashList] eqn:E.
    + split; [done|]. exists v. by apply P_log, P_world.
    + assert (P v (set_world (FetchHeightRange out (minBlock v) maxBlock (world st)).2 st))
        as Hp1 by by apply P_world.
      destruct hashList as [|h rest].
      * case_bool_decide as Hmax; [by left|].
        destruct (NewestSha out _).1 as [err|[curHash ?]].
        -- split; [done|]. exists v. by apply P_log, P_world, P_world, P_world.
        -- case_bool_decide.
           ++ right. split.
              { destruct (decide (maxBlock = AllShas out)); [done | by destruct Hmax]. }
              eexists. split; [|reflexivity]. by apply P_world, P_world.
           ++ by apply IH, P_world, P_world, P_world.
      * pose proof (loopHashList_inv fuel maxBlock (h :: rest) 0 v _ Hp1) as Hl.
        unfold innerOk in Hl.
        destruct (loopHashList env out fuel maxBlock (h :: rest) 0 v _) as [hl v' st'|v' st'|o st'];
          simpl in Hl.
        -- by apply IH, P_min.
        -- by left.
        -- done.
Qed.

Lemma finishRescan_inv v st : P v st → ∃ v', P v' (finishRescan env out v st).2.
Proof.
  intros Hp. unfold finishRescan.
  destruct (lastBlockHash v) as [hash|]; [|by exists v].
  destruct (lastBlock v) as [blk|] eqn:Eb; [|by exists v].
  exists v. cbn [snd]. apply P_log. unfold MarshalCmd.
  destruct (marshalFails env _); [by apply P_log|].
  apply P_progress; [done | by rewrite Eb | by right].
Qed.

Lemma scanRange_inv fuel maxBlock addresses v st :
  (∀ v st0, P v st0 → P v (registered env out self addresses st0)) →
  P v st → ∃ v', P v' (scanRange env out self fuel maxBlock addresses v st).2.
Proof.
  intros Hreg Hp. unfold scanRange.
  pose proof (fetchRange_inv fuel maxBlock addresses v st Hp) as Hr. unfold rangeOk in Hr.
  destruct (fetchRange env out self fuel maxBlock addresses v st) as [[o|v'] st'].
  - by destruct Hr as [_ ?].
  - apply finishRescan_inv. destruct Hr as [?|(_ & st0 & Hp0 & ->)]; [done|]. by apply Hreg.
Qed.

End loops.

(** How [handleRescan] ends: with an error before the scan, the client and
    the messages sent as they were; or with what the scan of the range
    gives, started on the lookup keys of the request. *)
Lemma handleRescan_shape self fuel icmd (st : rescanState W) :
  let r := handleRescan env out self fuel icmd st in
  (∃ e, r.1 = Returned RNull (Some e) ∧ client r.2 = client st ∧ outbox r.2 = outbox st)
  ∨ (∃ begin addrs ops endb minBlock maxBlock st1,
       icmd = RescanCmd begin addrs ops endb
       ∧ client st1 = client st ∧ outbox st1 = outbox st
       ∧ r = scanRange env out self fuel maxBlock addrs (mkVars minBlock None None) st1).
Proof.
  cbv zeta. destruct icmd as [| | | | | | | | | |begin addrs ops endb| |];
    try (left; eexists; by repeat split).
  unfold handleRescan.
  destruct (decodeOutPoints out ops); [left; eexists; by repeat split|].
  destruct (addLookups out emptyKeys addrs);
    [left; eexists; repeat split; by case_bool_decide|].
  destruct (NewShaHashFromStr out begin);
    [|left; eexists; repeat split; by case_bool_decide].
  destruct (FetchBlockHeightBySha out _ _).1 as [err|minBlock];
    [left; eexists; repeat split; by case_bool_decide|].
  destruct endb as [endb|].
  - destruct (NewShaHashFromStr out endb);
      [|left; eexists; repeat split; by case_bool_decide].
    destruct (FetchBlockHeightBySha out _ _).1 as [err|maxBlock];
      [left; eexists; repeat split; by case_bool_decide|].
    right. do 7 eexists. split; [done|]. split; [|split; [|reflexivity]];
      by case_bool_decide.
  - right. do 7 eexists. split; [done|]. split; [|split; [|reflexivity]];
      by case_bool_decide.
Qed.

(** *** What a rescan does to its client *)

Lemma scannedClient_refl c : scannedClient c c.
Proof.
  do 11 (split; [done|]). exists []. rewrite app_nil_r. by repeat split.
Qed.

Lemma scannedClient_trans a b c : scannedClient a b → scannedClient b c → scannedClient a c.
Proof.
  intros (?&?&?&?&?&?&?&?&?&?&D1&e1&E1&F1&N1) (?&?&?&?&?&?&?&?&?&?&D2&e2&E2&F2&N2).
  do 10 (split; [congruence|]). split; [auto|].
  exists (e1 ++ e2). rewrite E2, E1, app_assoc. split; [done|]. split; [by apply Forall_app|].
  intros Ha. rewrite N1 by done. rewrite N2 by auto. done.
Qed.

Lemma scannedClient_Disconnect c : scannedClient c (Disconnect c).
Proof.
  unfold Disconnect. destruct (disconnected c) eqn:E; [apply scannedClient_refl|].
  do 11 (split; [done|]). exists []. simpl. rewrite app_nil_r. split; [done|].
  split; [done | congruence].
Qed.

Lemma scannedClient_queue c n :
  method n = redeemingtx ∨ method n = recvtx ∨ method n = rescanprogress
  ∨ method n = rescanfinished →
  scannedClient c (QueueNotification c (JNtfn n)).1.
Proof.
  intros Hn. unfold QueueNotification, Disconnected.
  destruct (disconnected c) eqn:E; [apply scannedClient_refl|]. simpl.
  do 10 (split; [done|]). split; [congruence|].
  exists [JNtfn n]. split; [done|]. split; [|congruence].
  apply Forall_singleton. by exists n.
Qed.

Lemma sync_client (st : rescanState W) :
  client (sync out st) = client st ∨ client (sync out st) = Disconnect (client st).
Proof. unfold sync. destruct (disconnects out (world st)).1; simpl; auto. Qed.

Lemma sync_scanned (st : rescanState W) : scannedClient (client st) (client (sync out st)).
Proof.
  destruct (sync_client st) as [->| ->];
    [apply scannedClient_refl | apply scannedClient_Disconnect].
Qed.

Lemma queue_scanned n (st : rescanState W) :
  method n = redeemingtx ∨ method n = recvtx ∨ method n = rescanprogress
  ∨ method n = rescanfinished →
  scannedClient (client st) (client (queue out (JNtfn n) st).1).
Proof.
  intros Hn. unfold queue. cbn [fst client set_client].
  eapply scannedClient_trans; [apply sync_scanned | by apply scannedClient_queue].
Qed.

(** What every step of a rescan does to the client, the whole rescan
    does. *)
Lemma handleRescan_client (R : wsClient → wsClient → Prop) :
  (∀ c, R c c) → (∀ a b c, R a b → R b c → R a c) →
  (∀ st : rescanState W, R (client st) (client (sync out st))) →
  (∀ (st : rescanState W) n,
     method n = redeemingtx ∨ method n = recvtx ∨ method n = rescanprogress
     ∨ method n = rescanfinished →
     R (client st) (client (queue out (JNtfn n) st).1)) →
  ∀ (self : positive) (fuel : nat) (icmd : Cmd) (st : rescanState W),
    R (client st) (client (handleRescan env out self fuel icmd st).2).
Proof.
  intros R_refl R_trans R_sync R_queue self fuel icmd st.
  destruct (handleRescan_shape self fuel icmd st)
    as [(e & _ & -> & _)|(? & addrs & ? & ? & minB & maxB & st1 & _ & Hc & _ & ->)];
    [apply R_refl|].
  rewrite <-Hc.
  destruct (scanRange_inv self (λ _ st', R (client st1) (client st'))
              (λ _ _ _ H, H) (λ _ _ _ _ H, H) (λ _ _ _ H, H)) with
    (fuel := fuel) (maxBlock := maxB) (addresses := addrs)
    (v := mkVars minB None None) (st := st1) as [_ H]; try done.
  - intros _ st' H. eapply R_trans; [exact H | apply R_sync].
  - intros _ st' blk H _. eapply R_trans; [exact H|].
    apply (rescanBlock_preserved (λ a b, R (client a) (client b))).
    + intros. apply R_refl.
    + intros ? ? ?. apply R_trans.
    + intros. apply R_refl.
    + intros. apply R_refl.
    + intros st2 n [Hn|Hn]; apply R_queue; auto.
  - intros _ st' n H _ [Hn|Hn]; (eapply R_trans; [exact H|]);
      apply R_queue; auto.
Qed.

(** A rescan only queues notifications.  Whatever the request and the
    database, [handleRescan] leaves the client with its send channel (the
    reply is for the caller to send), its async queue, its flags and its
    request sets as they were; its notification queue is the old one with
    [redeemingtx], [recvtx], [rescanprogress] and [rescanfinished]
    notifications added at the end, none if the client was disconnected
    when the rescan began; and a disconnected client stays disconnected. *)
Theorem rescan_only_queues_notifications (self : positive) (fuel : nat) (icmd : Cmd)
    (st : rescanState W) :
  scannedClient (client st) (client (handleRescan env out self fuel icmd st).2).
Proof.
  apply (handleRescan_client scannedClient).
  - apply scannedClient_refl.
  - apply scannedClient_trans.
  - apply sync_scanned.
  - intros st0 n. apply queue_scanned.
Qed.

(** *** Registration for continuous notifications *)

Lemma queue_outbox m (st : rescanState W) : outbox (queue out m st).1 = outbox st.
Proof. unfold queue, sync. simpl. by destruct (disconnects out (world st)).1. Qed.

Lemma sync_outbox (st : rescanState W) : outbox (sync out st) = outbox st.
Proof. unfold sync. by destruct (disconnects out (world st)).1. Qed.

Lemma rescanBlock_outbox blk (st : rescanState W) :
  outbox (rescanBlock env out blk st) = outbox st.
Proof.
  apply (rescanBlock_preserved (λ a b, outbox b = outbox a)); try done.
  - intros ? ? ? H1 H2. by rewrite H2.
  - intros. apply queue_outbox.
Qed.

Lemma finishRescan_outbox v (st : rescanState W) :
  outbox (finishRescan env out v st).2 = outbox st
  ∧ lookups (finishRescan env out v st).2 = lookups st
  ∧ ((finishRescan env out v st).1 = Returned RNull None
     ∨ (finishRescan env out v st).1 = Panicked).
Proof.
  unfold finishRescan. destruct (lastBlockHash v); [|by auto].
  destruct (lastBlock v); [|by auto]. cbn [fst snd].
  destruct (MarshalCmd env _); cbn [outbox lookups rlogf];
    [rewrite queue_outbox, queue_lookups|]; auto.
Qed.

(** A rescan registers its client for continuous notifications only when
    it runs through the tip of the chain.  Whatever the database, the
    messages [handleRescan] sends to the notification manager are none, or
    the registration of the outpoints still unspent followed by the
    registration of the addresses of the request, once, after which the
    handler ends without an error reply; and when the request names a stop
    block whose height is not [database.AllShas], none are sent. *)
Theorem rescan_registers_only_through_tip (self : positive) (fuel : nat)
    (begin : string) (addrs : list string) (ops : list JsonOutPoint)
    (endb : option string) (st : rescanState W) :
  let r := handleRescan env out self fuel (RescanCmd begin addrs ops endb) st in
  (outbox r.2 = outbox st
   ∨ (outbox r.2
      = outbox st
        ++ [Router.notificationRegisterSpent self
              (unspentSlice (rangeOrder env) (lookups r.2));
            Router.notificationRegisterAddr self addrs]
      ∧ (r.1 = Returned RNull None ∨ r.1 = Panicked)))
  ∧ (∀ e h, endb = Some e → NewShaHashFromStr out e = Some h →
       (∀ w, (FetchBlockHeightBySha out h w).1 ≠ inr (AllShas out)) →
       outbox r.2 = outbox st).
Proof.
  cbv zeta.
  assert (∀ maxB minB (st1 : rescanState W),
    let r := scanRange env out self fuel maxB addrs (mkVars minB None None) st1 in
    (outbox r.2 = outbox st1
     ∨ (maxB = AllShas out
        ∧ outbox r.2
          = outbox st1
            ++ [Router.notificationRegisterSpent self
                  (unspentSlice (rangeOrder env) (lookups r.2));
                Router.notificationRegisterAddr self addrs]
        ∧ (r.1 = Returned RNull None ∨ r.1 = Panicked)))) as Hscan.
  { intros maxB minB st1. cbv zeta. unfold scanRange.
    pose proof (fetchRange_inv self (λ _ st', outbox st' = outbox st1)
                  (λ _ _ _ H, H) (λ _ _ _ _ H, H) (λ _ _ _ H, H)) as Hinv.
    specialize (Hinv (λ _ st' H, eq_trans (sync_outbox st') H)).
    specialize (Hinv (λ _ st' blk H _, eq_trans (rescanBlock_outbox blk st') H)).
    specialize (Hinv (λ _ st' n H _ _, eq_trans (queue_outbox (JNtfn n) st') H)).
    specialize (Hinv fuel maxB addrs (mkVars minB None None) st1 eq_refl).
    unfold rangeOk in Hinv.
    destruct (fetchRange env out self fuel maxB addrs _ st1) as [[o|v'] st'].
    - left. by destruct Hinv as [_ [_ ?]].
    - destruct (finishRescan_outbox v' st') as (Ho & Hl & Hr).
      destruct Hinv as [H|(Hmax & st0 & H0 & ->)]; [left; congruence|].
      right. split; [done|]. split; [|done]. rewrite Ho, Hl. unfold registered.
      cbn [outbox lookups set_world send]. by rewrite <-app_assoc, H0. }
  unfold handleRescan.
  destruct (decodeOutPoints out ops); [by split; [left|]|].
  destruct (addLookups out emptyKeys addrs); [split; [left|intros]; by case_bool_decide|].
  destruct (NewShaHashFromStr out begin); [|split; [left|intros]; by case_bool_decide].
  destruct (FetchBlockHeightBySha out _ _).1 as [err|minBlock];
    [split; [left|intros]; by case_bool_decide|].
  set (st1 := set_world _ (set_lookups _ _)).
  assert (outbox st1 = outbox st) as Ho1 by (subst st1; by case_bool_decide).
  destruct endb as [endb|].
  - destruct (NewShaHashFromStr out endb) as [h|] eqn:Eh; [|by split; [left|]].
    destruct (FetchBlockHeightBySha out h (world st1)).1 as [err|maxBlock] eqn:Em;
      [by split; [left|]|].
    fold (scanRange env out self fuel maxBlock addrs (mkVars minBlock None None)
            (set_world (FetchBlockHeightBySha out h (world st1)).2 st1)).
    destruct (Hscan maxBlock minBlock
                (set_world (FetchBlockHeightBySha out h (world st1)).2 st1))
      as [H|(Hmax & H & Hr)].
    + split; [left|intros]; by rewrite H.
    + split; [right; split; [by rewrite H, <-Ho1 | done]|].
      intros e h' [= <-] Eh' Hnot. rewrite Eh in Eh'. injection Eh' as <-.
      destruct (Hnot (world st1)). by rewrite Em, Hmax.
  - fold (scanRange env out self fuel (AllShas out) addrs (mkVars minBlock None None) st1).
    split; [|done].
    destruct (Hscan (AllShas out) minBlock st1) as [H|(_ & H & Hr)].
    + left. by rewrite H.
    + right. split; [by rewrite H, <-Ho1 | done].
Qed.

(** *** A rescan that panics *)

Lemma queue_ntfnChan_stuck m (st : rescanState W) :
  (queue out m st).2 = Some ErrClientQuit →
  ntfnChan (client (queue out m st).1) = ntfnChan (client st).
Proof.
  unfold queue, QueueNotification, Disconnected. cbn [fst snd client set_client].
  destruct (disconnected (client (sync out st))) eqn:E; [|done]. intros _.
  destruct (sync_client st) as [->| ->]; [done|]. unfold Disconnect.
  by destruct (disconnected (client st)).
Qed.

Lemma sync_ntfnChan (st : rescanState W) :
  ntfnChan (client (sync out st)) = ntfnChan (client st).
Proof.
  destruct (sync_client st) as [->| ->]; [done|]. unfold Disconnect.
  by destruct (disconnected (client st)).
Qed.

(** [handleRescan] panics only when it has scanned no block.  When the
    handler ends in the nil dereference after its loop, the client has been
    sent no notification at all; a rescan that has sent a notification does
    not panic. *)
Theorem rescan_panics_only_unscanned (self : positive) (fuel : nat) (icmd : Cmd)
    (st : rescanState W) :
  (handleRescan env out self fuel icmd st).1 = Panicked →
  ntfnChan (client (handleRescan env out self fuel icmd st).2) = ntfnChan (client st).
Proof.
  destruct (handleRescan_shape self fuel icmd st)
    as [(e & -> & _)|(? & addrs & ? & ? & minB & maxB & st1 & _ & Hc & _ & ->)]; [done|].
  rewrite <-Hc. unfold scanRange.
  set (P := λ (v : Vars) (st' : rescanState W),
              paired v ∧ (lastBlock v = None →
                          ntfnChan (client st') = ntfnChan (client st1))).
  assert (rangeOk env out self P maxB addrs
            (fetchRange env out self fuel maxB addrs (mkVars minB None None) st1)) as Hinv.
  { apply fetchRange_inv; subst P; cbv beta.
    - done.
    - done.
    - done.
    - intros v st' [Hp Hn]. split; [done|]. intros Hb. rewrite sync_ntfnChan. by apply Hn.
    - intros v st' blk _ _. split; [done | discriminate].
    - intros v st' n [Hp Hn] [blk Hb] _. split; [done|]. by rewrite Hb.
    - split; [done|]. done. }
  subst P.
  unfold rangeOk in Hinv.
  destruct (fetchRange env out self fuel maxB addrs _ st1) as [[o|v'] st'].
  - by destruct Hinv as [? _].
  - assert (paired v' ∧ (lastBlock v' = None →
                          ntfnChan (client st') = ntfnChan (client st1))) as [Hp Hn].
    { destruct Hinv as [?|(_ & st0 & H0 & ->)]; done. }
    unfold finishRescan, paired in *.
    destruct (lastBlockHash v'), (lastBlock v'); try done. intros _. by apply Hn.
Qed.

(** *** The notifications of a block, transaction by transaction *)

Lemma queue_chan m (st : rescanState W) :
  ntfnChan (client (queue out m st).1)
  = ntfnChan (client st) ++ match (queue out m st).2 with None => [m] | Some _ => [] end.
Proof.
  unfold queue. cbv zeta. cbn [fst snd client set_client].
  rewrite <-(sync_ntfnChan st). generalize (client (sync out st)) as c. intros c.
  unfold QueueNotification, Disconnected. destruct (disconnected c); simpl;
    by rewrite ?app_nil_r.
Qed.

Lemma rescanTxIn_chan tx blk base acc txin :
  let J := λ a : Locals * rescanState W,
    Router.hexOk env tx (txHex a.1) ∧ recvNotified a.1 = false
    ∧ ntfnChan (client a.2)
      = base ++ (if spentNotified a.1 then [Router.redeemingOf env tx (Some blk)] else []) in
  J acc → J (rescanTxIn env out tx blk acc txin).2.
Proof.
  destruct acc as [[hex sn rn] st0]. cbv zeta beta. cbn [fst snd txHex spentNotified recvNotified].
  intros (Hh & Hr & Hc). unfold rescanTxIn. cbv zeta.
  cbn [fst snd txHex spentNotified recvNotified].
  case_bool_decide; [|done].
  destruct sn; [done|].
  rewrite (RouterFacts.hexOnce_stable env tx _ Hh).
  destruct (Router.newRedeemingTxNotification env _ _ _) as [m|] eqn:Em.
  - apply RouterFacts.newRedeemingTxNotification_inv in Em as ->.
    set (st1 := set_lookups _ _).
    pose proof (queue_chan (Router.redeemingOf env tx (Some blk)) st1) as Hq.
    change (ntfnChan (client st1)) with (ntfnChan (client st0)) in Hq.
    destruct (queue out _ st1) as [st2 [[]|]];
      cbn [fst snd txHex spentNotified recvNotified] in *.
    + split; [by right|]. split; [done|]. by rewrite Hq, app_nil_r.
    + split; [by right|]. split; [done|]. by rewrite Hq, Hc, app_nil_r.
  - cbn [fst snd txHex spentNotified recvNotified]. split; [by right|]. done.
Qed.

Lemma rescanAddr_chan tx blk idx base sn0 acc a :
  let J := λ a : Locals * rescanState W,
    Router.hexOk env tx (txHex a.1) ∧ spentNotified a.1 = sn0
    ∧ ntfnChan (client a.2)
      = base ++ (if recvNotified a.1 then [Router.recvOf env tx (Some blk)] else []) in
  J acc → J (rescanAddr env out tx blk idx acc a).2.
Proof.
  destruct acc as [[hex sn rn] st0]. cbv zeta beta. cbn [fst snd txHex spentNotified recvNotified].
  intros (Hh & Hs & Hc). unfold rescanAddr. cbv zeta.
  cbn [fst snd txHex spentNotified recvNotified].
  destruct (unknownLength a); [done|]. destruct (negb _); [done|].
  destruct rn; [done|].
  rewrite (RouterFacts.hexOnce_stable env tx _ Hh).
  destruct (MarshalCmd env _) as [m|] eqn:Em.
  - apply RouterFacts.marshal_recv_inv in Em as ->.
    set (st1 := set_lookups _ _).
    pose proof (queue_chan (Router.recvOf env tx (Some blk)) st1) as Hq.
    change (ntfnChan (client st1)) with (ntfnChan (client st0)) in Hq.
    destruct (queue out _ st1) as [st2 [[]|]];
      cbn [fst snd txHex spentNotified recvNotified] in *.
    + split; [by right|]. split; [done|]. by rewrite Hq, app_nil_r.
    + split; [by right|]. split; [done|]. by rewrite Hq, Hc, app_nil_r.
  - cbn [fst snd txHex spentNotified recvNotified]. split; [by right|]. done.
Qed.

Lemma rescanTx_oneEach blk (st : rescanState W) tx :
  ∃ e, ntfnChan (client (rescanTx env out blk st tx).2) = ntfnChan (client st) ++ e
       ∧ oneEach env blk tx e.
Proof.
  unfold rescanTx.
  assert (let a := (forEach (rescanTxIn env out tx blk) (mkLocals "" false false, st)
                      (TxIns tx)).2 in
          Router.hexOk env tx (txHex a.1) ∧ recvNotified a.1 = false
          ∧ ntfnChan (client a.2)
            = ntfnChan (client st)
              ++ (if spentNotified a.1 then [Router.redeemingOf env tx (Some blk)] else []))
    as H1.
  { apply (forEach_invariant
             (λ a : Locals * rescanState W,
                Router.hexOk env tx (txHex a.1) ∧ recvNotified a.1 = false
                ∧ ntfnChan (client a.2)
                  = ntfnChan (client st)
                    ++ (if spentNotified a.1
                        then [Router.redeemingOf env tx (Some blk)] else []))
             (rescanTxIn env out tx blk)).
    - intros s x. apply rescanTxIn_chan.
    - split; [by left|]. split; [done|]. simpl. by rewrite app_nil_r. }
  destruct (forEach (rescanTxIn env out tx blk) _ _) as [f a1]. cbv zeta in H1.
  cbn [snd] in H1. destruct H1 as (Hh & Hr & Hc).
  set (e1 := if spentNotified a1.1 then [Router.redeemingOf env tx (Some blk)] else []) in *.
  assert (e1 = [] ∨ e1 = [Router.redeemingOf env tx (Some blk)]) as He1.
  { subst e1. destruct (spentNotified a1.1); auto. }
  destruct f.
  - assert (let a := (forEach (rescanTxOut env out tx blk) (0, a1) (TxOuts tx)).2 in
            Router.hexOk env tx (txHex a.2.1) ∧ spentNotified a.2.1 = spentNotified a1.1
            ∧ ntfnChan (client a.2.2)
              = (ntfnChan (client st) ++ e1)
                ++ (if recvNotified a.2.1 then [Router.recvOf env tx (Some blk)] else []))
      as H2.
    { apply (forEach_invariant
               (λ a : Z * (Locals * rescanState W),
                  Router.hexOk env tx (txHex a.2.1)
                  ∧ spentNotified a.2.1 = spentNotified a1.1
                  ∧ ntfnChan (client a.2.2)
                    = (ntfnChan (client st) ++ e1)
                      ++ (if recvNotified a.2.1
                          then [Router.recvOf env tx (Some blk)] else []))
               (rescanTxOut env out tx blk)).
      - intros s x Hs. unfold rescanTxOut. cbn [fst snd].
        apply (forEach_invariant
                 (λ a : Locals * rescanState W,
                    Router.hexOk env tx (txHex a.1)
                    ∧ spentNotified a.1 = spentNotified a1.1
                    ∧ ntfnChan (client a.2)
                      = (ntfnChan (client st) ++ e1)
                        ++ (if recvNotified a.1
                            then [Router.recvOf env tx (Some blk)] else []))
                 (rescanAddr env out tx blk s.1)); [|done].
        intros s' a. apply rescanAddr_chan.
      - split; [done|]. split; [done|]. cbn [fst snd]. by rewrite Hr, app_nil_r. }
    cbv zeta in H2. destruct H2 as (_ & _ & Hc2). cbn [snd].
    eexists. split; [by rewrite Hc2, <-app_assoc|].
    exists e1, (if recvNotified (forEach (rescanTxOut env out tx blk) (0, a1) (TxOuts tx)).2.2.1
                then [Router.recvOf env tx (Some blk)] else []).
    split; [done|]. split; [done|]. case_match; auto.
  - cbn [snd]. exists e1. split; [done|]. exists e1, []. rewrite app_nil_r. auto.
Qed.

(** [rescanBlock] sends a client at most one [redeemingtx] and one
    [recvtx] notification for each transaction of the block, in the order
    of the block: the notification queue after the scan is the old one
    followed, transaction after transaction, by nothing or the
    [redeemingtx] notification of the transaction and then nothing or its
    [recvtx] notification, however many of its inputs spend unspent
    outpoints and however many of its outputs pay rescanned addresses. *)
Theorem rescanBlock_one_of_each (blk : Block) (st : rescanState W) :
  ∃ per : list (list Marshalled),
    ntfnChan (client (rescanBlock env out blk st)) = ntfnChan (client st) ++ concat per
    ∧ Forall2 (oneEach env blk) (Transactions blk) per.
Proof.
  unfold rescanBlock, rescanBlockFlow.
  generalize (Transactions blk) as txs. intros txs. revert st.
  induction txs as [|tx txs IH]; intros st; simpl.
  - exists []. simpl. by rewrite app_nil_r.
  - destruct (rescanTx_oneEach blk st tx) as (e & He & Hone).
    destruct (rescanTx env out blk st tx) as [[] st1]; cbn [snd] in *.
    + destruct (IH st1) as (per & Hp & Hf). exists (e :: per). simpl.
      split; [by rewrite Hp, He, <-app_assoc | by constructor].
    + exists (e :: replicate (length txs) []). simpl. split.
      * rewrite He. f_equal. clear. induction txs; simpl; [by rewrite app_nil_r | done].
      * constructor; [done|]. clear. induction txs; simpl; constructor; [|done].
        exists [], []. auto.
Qed.

(** *** The lookup keys of a request *)

Lemma addLookup_grows r a r' d :
  addLookup out r a = inr r' → matchesKeys env r d = true → matchesKeys env r' d = true.
Proof.
  unfold addLookup. intros Ha Hm.
  destruct (DecodeAddress out a) as [text|[h|h|sa pkh|s]]; [done|..].
  - injection Ha as <-. destruct d; simpl in *; try done;
      repeat case_bool_decide; simpl in *; try done; set_solver.
  - injection Ha as <-. destruct d; simpl in *; try done;
      repeat case_bool_decide; simpl in *; try done; set_solver.
  - repeat case_bool_decide; try done; injection Ha as <-;
      destruct d; simpl in *; try done;
      repeat case_bool_decide; simpl in *; try done; set_solver.
  - injection Ha as <-. destruct d; simpl in *; try done;
      repeat case_bool_decide; simpl in *; try done; set_solver.
Qed.

Lemma addLookup_adds r a r' d :
  addLookup out r a = inr r' → DecodeAddress out a = inr d →
  (∀ s, d = AddressOther s → EncodeAddress env d = a) →
  matchesKeys env r' d = true.
Proof.
  unfold addLookup. intros Ha Hd He. rewrite Hd in Ha.
  destruct d as [h|h|sa pkh|s].
  - injection Ha as <-. simpl. apply bool_decide_eq_true. set_solver.
  - injection Ha as <-. simpl. apply bool_decide_eq_true. set_solver.
  - simpl. destruct (decide (length sa = 33%nat)) as [H33|H33].
    + rewrite bool_decide_true in Ha by done. injection Ha as <-.
      rewrite bool_decide_true by done. simpl.
      apply orb_true_iff. left. apply bool_decide_eq_true. set_solver.
    + rewrite bool_decide_false in Ha by done. rewrite bool_decide_false by done.
      destruct (decide (length sa = 65%nat)) as [H65|H65].
      * rewrite bool_decide_true in Ha by done. injection Ha as <-.
        rewrite bool_decide_true by done. simpl.
        apply orb_true_iff. left. apply bool_decide_eq_true. set_solver.
      * by rewrite bool_decide_false in Ha by done.
  - injection Ha as <-. simpl. apply bool_decide_eq_true. rewrite (He s eq_refl). set_solver.
Qed.

(** Every address of a rescan request is recognised by the scan.  When
    the loop over [cmd.Addresses] accepts the request, an address of the
    request, as it decodes, matches the lookup keys in the switch of
    [rescanBlock], whatever outpoints are in the unspent set: a
    pay-to-pubkey-hash or pay-to-script-hash address by its hash, a
    public key by its 33 or 65 serialized bytes, and an address of any
    other kind by its string, provided the request gave the string that
    [EncodeAddress] gives. *)
Theorem rescan_keys_match_request (addrs : list string) (r keys : rescanKeys)
    (a : string) (d : Address) (u : gset OutPoint) :
  addLookups out r addrs = inr keys →
  a ∈ addrs →
  DecodeAddress out a = inr d →
  (∀ s, d = AddressOther s → EncodeAddress env d = a) →
  matchesKeys env (set_unspent u keys) d = true.
Proof.
  intros Hl Ha Hd He. rewrite matchesKeys_unspent.
  assert (∀ l r, addLookups out r l = inr keys → matchesKeys env r d = true →
                 matchesKeys env keys d = true) as Hmono.
  { induction l as [|x l IH]; intros r0; simpl; [by intros [= ->]|].
    destruct (addLookup out r0 x) as [e|r1] eqn:E; [done|].
    intros H1 H2. apply (IH r1 H1). by eapply addLookup_grows. }
  revert r Hl. induction addrs as [|x l IH]; intros r Hl; [by apply elem_of_nil in Ha|].
  simpl in Hl. destruct (addLookup out r x) as [e|r1] eqn:E; [done|].
  apply elem_of_cons in Ha as [->|Ha].
  - apply (Hmono l r1 Hl). by eapply addLookup_adds.
  - by apply (IH Ha r1).
Qed.

End scan_preserved.

(** *** The theorems at work on the sample data *)

(** A rescan from block ["05"] to block ["05"] panics, with nothing queued. *)
Lemma rescan_panics_only_unscanned_witness :
  ntfnChan (client (handleRescan Demo.env0 Demo.out0 1 0
                      (RescanCmd "05" [] [] (Some "05")) (Demo.peer true)).2)
  = ntfnChan (client (Demo.peer true)).
Proof.
  apply (rescan_panics_only_unscanned Demo.env0 Demo.out0 1 0
           (RescanCmd "05" [] [] (Some "05")) (Demo.peer true)).
  reflexivity.
Defined.

(** A rescan for ["addr1"] recognises that address, whatever is unspent. *)
Lemma rescan_keys_match_request_witness :
  matchesKeys Demo.env0 (set_unspent {[Demo.O1]} Samples.keys1) (AddressOther "addr1")
  = true.
Proof.
  apply (rescan_keys_match_request Demo.env0 Demo.out0 ["addr1"] emptyKeys Samples.keys1
           "addr1" (AddressOther "addr1") {[Demo.O1]}).
  - reflexivity.
  - apply list_elem_of_here.
  - reflexivity.
  - intros s _. reflexivity.
Defined.

End RescanMore.

(** * More facts about command dispatch *)

Module DispatchMore.
Import Rescan Dispatch Effects Notions Loops RouterFacts RouterMore RescanMore.

Section handlers_more.
Context {W : Type} (env : Env) (out : Outside W) (srv : Server) (self : positive).

Lemma quick_refl (st : rescanState W) : quick st st.
Proof. by repeat split. Qed.

Lemma quick_send n (st : rescanState W) : quick st (send n st).
Proof. by repeat split. Qed.

Lemma quick_sends {A} (f : A → Router.NotificationMsg) l (st : rescanState W) :
  quick st (foldl (λ st x, send (f x) st) st l).
Proof.
  revert st. induction l as [|x l IH]; intros st; simpl; [apply quick_refl|].
  destruct (IH (send (f x) st)) as (?&?&?&?&?&?&?&?&?). by repeat split.
Qed.

(** The handlers that [handleMessage] runs itself return, and leave the
    channels of the client alone. *)
Lemma quick_handlers fuel method h icmd (st : rescanState W) :
  wsHandlers env out srv self fuel method = Some h → method ≠ "rescan" →
  ∃ result err, (h icmd st).1 = Returned result err ∧ quick st (h icmd st).2.
Proof.
  unfold wsHandlers. intros Hh Hne.
  repeat (case_bool_decide; [injection Hh as <-|]); [..|done].
  - unfold handleWebsocketHelp. destruct icmd; try (by eauto using quick_refl).
    case_bool_decide; [destruct (rpcUsage srv); eauto using quick_refl|].
    destruct (_ && _); [eauto using quick_refl|].
    destruct (rpcMethodHelp srv _); eauto using quick_refl.
  - unfold handleNotifyBlocks. eauto using quick_send.
  - unfold handleNotifyNewTransactions. destruct icmd; try (by eauto using quick_refl).
    do 2 eexists. split; [done|]. by repeat split.
  - unfold handleNotifyReceived. destruct icmd; try (by eauto using quick_refl).
    destruct (checkAddressValidity out _); eauto using quick_refl, quick_send.
  - unfold handleNotifySpent. destruct icmd; try (by eauto using quick_refl).
    destruct (deserializeOutpoints out _); eauto using quick_refl, quick_send.
  - unfold handleSession. eauto using quick_refl.
  - unfold handleStopNotifyBlocks. eauto using quick_send.
  - unfold handleStopNotifyNewTransactions. eauto using quick_send.
  - unfold handleStopNotifySpent. destruct icmd; try (by eauto using quick_refl).
    destruct (deserializeOutpoints out _); [eauto using quick_refl|].
    do 2 eexists. split; [done|]. apply quick_sends.
  - unfold handleStopNotifyReceived. destruct icmd; try (by eauto using quick_refl).
    destruct (checkAddressValidity out _); [eauto using quick_refl|].
    do 2 eexists. split; [done|]. apply (quick_sends (Router.notificationUnregisterAddr self)).
  - done.
Qed.

Lemma wsHandlers_fuel fuel fuel' method :
  method ≠ "rescan" →
  wsHandlers env out srv self fuel method = wsHandlers env out srv self fuel' method.
Proof. intros Hne. unfold wsHandlers. repeat (case_bool_decide; [done|]). done. Qed.

Lemma sendResult_returned id result err (st : rescanState W) fmt :
  sendResult srv id (Returned result err, st) fmt
  = (Handled, match createMarshalledReply srv id result err with
              | None => rlogf LError fmt st
              | Some m => reply m st
              end).
Proof. unfold sendResult. by destruct (createMarshalledReply srv id result err). Qed.

Lemma createMarshalledReply_inv id result err m :
  createMarshalledReply srv id result err = Some m → m = JReply id result err.
Proof.
  unfold createMarshalledReply. destruct (createMarshalledReplyFails srv _ _ _); [done|].
  by intros [= <-].
Qed.

Lemma handleMessage_handled (fuel : nat) (msg : list byte) (st : rescanState W) :
  (handleMessage env out srv self fuel msg st).1 = Handled.
Proof.
  unfold handleMessage.
  destruct (negb _).
    + unfold handleUnauthenticated. destruct (Unmarshal srv msg); [done|].
      destruct (cmd_err _); [done|].
      destruct (cmd_cmd _) as [[]|]; try done.
      destruct (_ && _); [done|]. by destruct (createMarshalledReply srv _ _ _).
    + unfold handleAuthenticated. destruct (Unmarshal srv msg) as [e|request].
      { by rewrite sendResult_returned. }
      destruct (reqID request); [|done].
      destruct (_ && _); [by rewrite sendResult_returned|].
      destruct (cmd_err _); [by rewrite sendResult_returned|].
      assert (∀ st0 : rescanState W,
        (if wsAsyncHandlers (cmd_method (parseCmd srv request))
          then (Handled,
                set_client
                  (set_asyncChan
                     (asyncChan (client (if asyncStarted (client st0) then st0
                        else set_client (set_asyncStarted true (client st0))
                               (rlogf LTrace "Starting async handler for %s" st0)))
                      ++ [parseCmd srv request])
                     (client (if asyncStarted (client st0) then st0
                        else set_client (set_asyncStarted true (client st0))
                               (rlogf LTrace "Starting async handler for %s" st0))))
                  (if asyncStarted (client st0) then st0
                   else set_client (set_asyncStarted true (client st0))
                          (rlogf LTrace "Starting async handler for %s" st0)))
          else match wsHandlers env out srv self fuel (cmd_method (parseCmd srv request)) with
               | Some wsHandler =>
                   sendResult srv (cmd_id (parseCmd srv request))
                     match cmd_cmd (parseCmd srv request) with
                     | Some icmd => wsHandler icmd st0
                     | None => (Returned RNull (Some ErrInternal), st0)
                     end "Failed to marshal reply for <%s> command: %v"
               | None =>
                   sendResult srv (cmd_id (parseCmd srv request))
                     (let r := standardCmdResult srv (parseCmd srv request) in
                      Returned r.1 r.2, st0)
                     "Failed to marshal reply for <%s> command: %v"
               end).1 = Handled) as Hrest.
      { intros st0. unfold wsAsyncHandlers. case_bool_decide as Hm; [done|].
        destruct (wsHandlers env out srv self fuel _) as [h|] eqn:Hh;
          [|by rewrite sendResult_returned].
        destruct (cmd_cmd _) as [icmd|]; [|by rewrite sendResult_returned].
        destruct (quick_handlers fuel _ h icmd st0 Hh Hm) as (res & err & Hr & _).
        destruct (h icmd st0) as [o st1]. simpl in Hr. subst o.
        by rewrite sendResult_returned. }
      destruct (cmd_cmd _) as [[]|]; try done; apply Hrest.
Qed.

(** A rescan is never run by the input handler.  Whatever the message,
    [handleMessage] returns (no handler it runs itself can panic), and what
    it does does not depend on the rescan engine at all; a well-formed
    [rescan] request of an authenticated client is appended to [asyncChan]
    for the async handler, which is marked as started, and is not answered
    here: the send channel, the messages to the notification manager and
    the database are as they were. *)
Theorem rescan_is_deferred (fuel : nat) (msg : list byte) (st : rescanState W) :
  let r := handleMessage env out srv self fuel msg st in
  r.1 = Handled
  ∧ r = handleMessage env out srv self 0 msg st
  ∧ (∀ request,
       authenticated (client st) = true →
       Unmarshal srv msg = inr request →
       reqID request ≠ None →
       isAdmin (client st) = true ∨ rpcLimited srv (reqMethod request) = true →
       cmd_err (parseCmd srv request) = None →
       (∀ u p, cmd_cmd (parseCmd srv request) ≠ Some (AuthenticateCmd u p)) →
       cmd_method (parseCmd srv request) = "rescan" →
       client r.2
       = set_asyncChan (asyncChan (client st) ++ [parseCmd srv request])
           (set_asyncStarted true (client st))
       ∧ outbox r.2 = outbox st ∧ world r.2 = world st ∧ lookups r.2 = lookups st).
Proof.
  cbv zeta. unfold handleMessage. split; [|split].
  - apply handleMessage_handled.
  - destruct (negb _); [done|]. unfold handleAuthenticated.
    destruct (Unmarshal srv msg) as [e|request]; [done|].
    destruct (reqID request); [|done]. destruct (_ && _); [done|].
    destruct (cmd_err _); [done|].
    unfold wsAsyncHandlers. case_bool_decide as Hm.
    + by destruct (cmd_cmd _) as [[]|].
    + rewrite (wsHandlers_fuel fuel 0 _ Hm). done.
  - intros request Hauth Hu Hid Hadm He Hna Hm. rewrite Hauth. simpl.
    unfold handleAuthenticated. rewrite Hu.
    destruct (reqID request) eqn:Hrid; [|done].
    assert (negb (isAdmin (client st)) && negb (rpcLimited srv (reqMethod request)) = false)
      as ->.
    { destruct Hadm as [->| ->]; simpl; [done | by rewrite andb_false_r]. }
    rewrite He. unfold wsAsyncHandlers. rewrite Hm.
    rewrite bool_decide_true by done.
    assert (∀ st0 : rescanState W, client st0 = client st → outbox st0 = outbox st →
              world st0 = world st → lookups st0 = lookups st →
              let st1 := if asyncStarted (client st0) then st0
                         else set_client (set_asyncStarted true (client st0))
                                (rlogf LTrace "Starting async handler for %s" st0) in
              let st2 := set_client
                           (set_asyncChan (asyncChan (client st1) ++ [parseCmd srv request])
                              (client st1)) st1 in
              client st2
              = set_asyncChan (asyncChan (client st) ++ [parseCmd srv request])
                  (set_asyncStarted true (client st))
              ∧ outbox st2 = outbox st ∧ world st2 = world st ∧ lookups st2 = lookups st)
      as Hq.
    { intros st0 Hc Ho Hw Hl. cbv zeta.
      destruct (asyncStarted (client st0)) eqn:Ha; simpl; rewrite ?Hc, ?Ho, ?Hw, ?Hl.
      - split; [|done]. rewrite Hc in Ha. destruct (client st). simpl in *. by subst.
      - done. }
    destruct (cmd_cmd _) as [[u p| | | | | | | | | | | | ]|] eqn:Hc;
      try (by apply Hq). by destruct (Hna u p).
Qed.

Lemma repliedOnce_same (st st' : rescanState W) :
  sendChan (client st') = sendChan (client st) → repliedOnce st st'.
Proof.
  intros E. exists []. rewrite E, app_nil_r.
  split; [done|]. split; [simpl; lia|]. split; [by constructor | done].
Qed.

Lemma repliedOnce_reply id result err m (st st1 : rescanState W) :
  createMarshalledReply srv id result err = Some m →
  sendChan (client st1) = sendChan (client st) →
  disconnected (client st1) = disconnected (client st) →
  repliedOnce st (reply m st1).
Proof.
  intros Hm Hs Hd. apply createMarshalledReply_inv in Hm as ->.
  unfold reply, SendMessage, Disconnected. simpl. rewrite Hd.
  destruct (disconnected (client st)) eqn:E; simpl.
  - by apply repliedOnce_same.
  - exists [mkResponse (JReply id result err) None]. rewrite Hs.
    split; [done|]. split; [simpl; lia|]. split; [|congruence].
    apply Forall_singleton. split; [done|]. by eauto.
Qed.

Lemma repliedOnce_result id result err fmt (st st1 : rescanState W) :
  sendChan (client st1) = sendChan (client st) →
  disconnected (client st1) = disconnected (client st) →
  repliedOnce st (sendResult srv id (Returned result err, st1) fmt).2.
Proof.
  intros Hs Hd. rewrite sendResult_returned. simpl.
  destruct (createMarshalledReply srv id result err) eqn:E.
  - by eapply repliedOnce_reply.
  - by apply repliedOnce_same.
Qed.

Lemma Disconnect_sendChan c : sendChan (Disconnect c) = sendChan c.
Proof. unfold Disconnect. by destruct (disconnected c). Qed.

Lemma Disconnect_ntfnChan c : ntfnChan (Disconnect c) = ntfnChan c.
Proof. unfold Disconnect. by destruct (disconnected c). Qed.

Lemma reply_ntfnChan m (st : rescanState W) : ntfnChan (client (reply m st)) = ntfnChan (client st).
Proof. unfold reply, SendMessage. simpl. by destruct (Disconnected _). Qed.

Lemma sendResult_ntfnChan id result err fmt (st : rescanState W) :
  ntfnChan (client (sendResult srv id (Returned result err, st) fmt).2) = ntfnChan (client st).
Proof.
  rewrite sendResult_returned. simpl. destruct (createMarshalledReply srv _ _ _); [|done].
  apply reply_ntfnChan.
Qed.

(** A message is answered at most once, and with a reply.  Whatever the
    message and the state of the client, [handleMessage] leaves the send
    channel as it was or adds one response at its end, which is a
    JSON-RPC reply with no done channel; it adds none when the client is
    disconnected; and it never touches the notification queue. *)
Theorem handleMessage_replies_once (fuel : nat) (msg : list byte) (st : rescanState W) :
  let st' := (handleMessage env out srv self fuel msg st).2 in
  repliedOnce st st' ∧ ntfnChan (client st') = ntfnChan (client st).
Proof.
  cbv zeta. unfold handleMessage. destruct (negb _).
  - unfold handleUnauthenticated.
    assert (∀ st0 : rescanState W, sendChan (client st0) = sendChan (client st) →
              ntfnChan (client st0) = ntfnChan (client st) →
              repliedOnce st (disconnect st0)
              ∧ ntfnChan (client (disconnect st0)) = ntfnChan (client st)) as Hdis.
    { intros st0 Hs Hn. unfold disconnect. simpl.
      rewrite Disconnect_ntfnChan. split; [|done].
      apply repliedOnce_same. simpl. by rewrite Disconnect_sendChan. }
    destruct (Unmarshal srv msg); [by apply Hdis|].
    destruct (cmd_err _); [by apply Hdis|].
    destruct (cmd_cmd _) as [[]|]; try (by apply Hdis).
    destruct (_ && _); [by apply Hdis|].
    destruct (createMarshalledReply srv _ _ _) eqn:E; cbn [snd].
    + split; [by eapply repliedOnce_reply | by rewrite reply_ntfnChan].
    + split; [by apply repliedOnce_same | done].
  - unfold handleAuthenticated. destruct (Unmarshal srv msg) as [e|request].
    { split; [by apply repliedOnce_result | by rewrite sendResult_ntfnChan]. }
    destruct (reqID request); [|split; [by apply repliedOnce_same | done]].
    destruct (_ && _).
    { split; [by apply repliedOnce_result | by rewrite sendResult_ntfnChan]. }
    destruct (cmd_err _).
    { split; [by apply repliedOnce_result | by rewrite sendResult_ntfnChan]. }
    set (st0 := rlogf LDebug "Received command <%s> from %s" st).
    assert (repliedOnce st (disconnect
              (rlogf LWarn "Websocket client %s is already authenticated" st0))
            ∧ ntfnChan (client (disconnect
                (rlogf LWarn "Websocket client %s is already authenticated" st0)))
              = ntfnChan (client st)) as Hauth.
    { unfold disconnect. simpl. rewrite Disconnect_ntfnChan. split; [|done].
      apply repliedOnce_same. simpl. by rewrite Disconnect_sendChan. }
    assert (let r :=
        (if wsAsyncHandlers (cmd_method (parseCmd srv request))
          then (Handled,
                set_client
                  (set_asyncChan
                     (asyncChan (client (if asyncStarted (client st0) then st0
                        else set_client (set_asyncStarted true (client st0))
                               (rlogf LTrace "Starting async handler for %s" st0)))
                      ++ [parseCmd srv request])
                     (client (if asyncStarted (client st0) then st0
                        else set_client (set_asyncStarted true (client st0))
                               (rlogf LTrace "Starting async handler for %s" st0))))
                  (if asyncStarted (client st0) then st0
                   else set_client (set_asyncStarted true (client st0))
                          (rlogf LTrace "Starting async handler for %s" st0)))
          else match wsHandlers env out srv self fuel (cmd_method (parseCmd srv request)) with
               | Some wsHandler =>
                   sendResult srv (cmd_id (parseCmd srv request))
                     match cmd_cmd (parseCmd srv request) with
                     | Some icmd => wsHandler icmd st0
                     | None => (Returned RNull (Some ErrInternal), st0)
                     end "Failed to marshal reply for <%s> command: %v"
               | None =>
                   sendResult srv (cmd_id (parseCmd srv request))
                     (let r := standardCmdResult srv (parseCmd srv request) in
                      Returned r.1 r.2, st0)
                     "Failed to marshal reply for <%s> command: %v"
               end).2 in
        repliedOnce st r ∧ ntfnChan (client r) = ntfnChan (client st)) as Hrest.
    { cbv zeta. unfold wsAsyncHandlers. case_bool_decide as Hm.
      - simpl. split; [apply repliedOnce_same|];
          by destruct (asyncStarted (client st)).
      - destruct (wsHandlers env out srv self fuel _) as [h|] eqn:Hh.
        2:{ split; [by apply repliedOnce_result | by rewrite sendResult_ntfnChan]. }
        destruct (cmd_cmd _) as [icmd|].
        2:{ split; [by apply repliedOnce_result | by rewrite sendResult_ntfnChan]. }
        destruct (quick_handlers fuel _ h icmd st0 Hh Hm)
          as (res & err & Hr & (Hs & Hn & Hd & _)).
        destruct (h icmd st0) as [o st1]. cbn [fst snd] in *. subst o.
        split; [by apply repliedOnce_result | rewrite sendResult_ntfnChan; exact Hn]. }
    destruct (cmd_cmd _) as [[]|]; try (exact Hauth); apply Hrest.
Qed.

Lemma nothingRan_refl (st : rescanState W) : nothingRan st st.
Proof. by repeat split. Qed.

Lemma nothingRan_reply m (st st1 : rescanState W) :
  nothingRan st st1 → nothingRan st (reply m st1).
Proof.
  intros (?&?&?&?&?&?&?). unfold reply, SendMessage. simpl.
  destruct (Disconnected _); by repeat split.
Qed.

Lemma nothingRan_disconnect (st st1 : rescanState W) :
  nothingRan st st1 → nothingRan st (disconnect st1).
Proof.
  intros (?&?&?&?&?&?&?). unfold disconnect, Disconnect. simpl.
  destruct (disconnected _); by repeat split.
Qed.

Lemma nothingRan_result id result err fmt (st st1 : rescanState W) :
  nothingRan st st1 → nothingRan st (sendResult srv id (Returned result err, st1) fmt).2.
Proof.
  intros H. rewrite sendResult_returned. simpl.
  destruct (createMarshalledReply srv _ _ _); [by apply nothingRan_reply | done].
Qed.

(** No command takes effect without authority.  While the client is not
    authenticated, and for an authenticated client when the message does
    not parse, when the request has no id, or when the client is a limited
    user and the method is not in [rpcLimited], [handleMessage] sets
    nothing off: no message goes to the notification manager, nothing is
    queued for the async handler, the verbose flag and the notification
    queue are as they were, and the database is not touched. *)
Theorem nothing_runs_without_authority (fuel : nat) (msg : list byte) (st : rescanState W) :
  let st' := (handleMessage env out srv self fuel msg st).2 in
  (authenticated (client st) = false → nothingRan st st')
  ∧ (∀ e, Unmarshal srv msg = inl e → nothingRan st st')
  ∧ (∀ request, Unmarshal srv msg = inr request →
       reqID request = None
       ∨ (isAdmin (client st) = false ∧ rpcLimited srv (reqMethod request) = false) →
       nothingRan st st').
Proof.
  cbv zeta.
  assert (authenticated (client st) = false →
          nothingRan st (handleMessage env out srv self fuel msg st).2) as Hun.
  { intros Hauth. unfold handleMessage. rewrite Hauth. simpl. unfold handleUnauthenticated.
    destruct (Unmarshal srv msg); [by apply nothingRan_disconnect, nothingRan_refl|].
    destruct (cmd_err _); [by apply nothingRan_disconnect, nothingRan_refl|].
    destruct (cmd_cmd _) as [[]|];
      try (by apply nothingRan_disconnect; repeat split).
    destruct (_ && _); [by apply nothingRan_disconnect; repeat split|].
    destruct (createMarshalledReply srv _ _ _); [apply nothingRan_reply|]; by repeat split. }
  split; [done|]. split.
  - intros e Hu. destruct (authenticated (client st)) eqn:Hauth; [|by apply Hun].
    unfold handleMessage. rewrite Hauth. simpl. unfold handleAuthenticated. rewrite Hu.
    apply nothingRan_result, nothingRan_refl.
  - intros request Hu Hwhy. destruct (authenticated (client st)) eqn:Hauth; [|by apply Hun].
    unfold handleMessage. rewrite Hauth. simpl. unfold handleAuthenticated. rewrite Hu.
    destruct (reqID request) eqn:Hid; [|apply nothingRan_refl].
    destruct Hwhy as [?|[-> ->]]; [done|]. simpl.
    apply nothingRan_result, nothingRan_refl.
Qed.

(** *** Validation of the arguments *)

Lemma first_of_cons {A} (pre post : list A) (x y : A) (l : list A) :
  y :: l = pre ++ x :: post →
  (pre = [] ∧ x = y ∧ post = l) ∨ ∃ pre', pre = y :: pre' ∧ l = pre' ++ x :: post.
Proof.
  destruct pre as [|z pre]; simpl; intros [= -> ->]; [by left|]. right. by exists pre.
Qed.

(** [deserializeOutpoints] decodes all the outpoints or none.  It returns
    a list exactly when every hash decodes, and the list then has one
    outpoint for each serialized one, in the same order, with the decoded
    hash and the index as given; it returns an error exactly when some
    hash does not decode, and the error is [rpcDecodeHexError] of the first
    such hash. *)
Theorem deserializeOutpoints_all_or_first_error (ops : list JsonOutPoint) :
  (∀ l, deserializeOutpoints out ops = inr l
        ↔ Forall2 (λ o p, NewShaHashFromStr out (jHash o) = Some (Hash p)
                          ∧ Index p = jIndex o) ops l)
  ∧ (∀ e, deserializeOutpoints out ops = inl e
          ↔ ∃ pre o post,
              ops = pre ++ o :: post
              ∧ Forall (λ o, is_Some (NewShaHashFromStr out (jHash o))) pre
              ∧ NewShaHashFromStr out (jHash o) = None
              ∧ e = rpcDecodeHexError out (jHash o)).
Proof.
  induction ops as [|o ops [IHr IHl]]; simpl.
  - split.
    + intros l. split; [intros [= <-]; constructor | intros H; by inversion H].
    + intros e. split; [done|]. intros (pre & o & post & H & _). by destruct pre.
  - destruct (NewShaHashFromStr out (jHash o)) as [h|] eqn:Eh.
    + split.
      * intros l. destruct (deserializeOutpoints out ops) as [e|l'] eqn:Ed.
        -- split; [done|]. intros H. inversion H as [|? p ? l2 Hp Hl]; subst.
           by apply IHr in Hl.
        -- split.
           ++ intros [= <-]. constructor; [done | by apply IHr].
           ++ intros H. inversion H as [|? p ? l2 [Hp Hi] Hl]; subst.
              apply IHr in Hl. injection Hl as ->. destruct p as [ph pi]. simpl in *.
              by simplify_eq.
      * intros e. split.
        -- destruct (deserializeOutpoints out ops) as [e'|l'] eqn:Ed; [|done].
           intros [= <-].
           destruct (proj1 (IHl e') eq_refl) as (pre & o' & post & -> & Hp & Hn & ->).
           exists (o :: pre), o', post. split; [done|]. split; [|done].
           constructor; [by rewrite Eh | done].
        -- intros (pre & o' & post & Ho & Hp & Hn & ->).
           apply first_of_cons in Ho as [(-> & -> & ->)|(pre' & -> & ->)].
           { by rewrite Eh in Hn. }
           apply Forall_cons in Hp as [_ Hp].
           rewrite (proj2 (IHl (rpcDecodeHexError out (jHash o')))); [done|].
           by exists pre', o', post.
    + split.
      * intros l. split; [done|]. intros H. inversion H as [|? p ? l2 [Hp Hi] Hl]; subst.
        by rewrite Eh in Hp.
      * intros e. split.
        -- intros [= <-]. exists [], o, ops. by repeat split.
        -- intros (pre & o' & post & Ho & Hp & Hn & ->).
           apply first_of_cons in Ho as [(-> & -> & ->)|(pre' & -> & ->)]; [done|].
           apply Forall_cons in Hp as [[? Hp] _]. by rewrite Eh in Hp.
Qed.

(** [checkAddressValidity] accepts a list exactly when every address in it
    decodes, and otherwise reports the first address that does not. *)
Theorem checkAddressValidity_first_error (addrs : list string) :
  (checkAddressValidity out addrs = None
   ↔ Forall (λ a, ∃ d, DecodeAddress out a = inr d) addrs)
  ∧ (∀ e, checkAddressValidity out addrs = Some e
          ↔ ∃ pre a post text,
              addrs = pre ++ a :: post
              ∧ Forall (λ a, ∃ d, DecodeAddress out a = inr d) pre
              ∧ DecodeAddress out a = inl text
              ∧ e = mkRPCError ErrRPCInvalidAddressOrKey ("Invalid address or key: " +:+ a)).
Proof.
  induction addrs as [|a addrs [IHn IHe]]; simpl.
  - split; [done|]. intros e. split; [done|]. intros (pre & ? & ? & ? & H & _). by destruct pre.
  - destruct (DecodeAddress out a) as [text|d] eqn:Ed.
    + split.
      * split; [done|]. intros H. apply Forall_cons in H as [[d Hd] _]. by rewrite Ed in Hd.
      * intros e. split.
        -- intros [= <-]. exists [], a, addrs, text. by repeat split.
        -- intros (pre & a' & post & text' & Ha & Hp & Hn & ->).
           apply first_of_cons in Ha as [(-> & -> & ->)|(pre' & -> & ->)]; [done|].
           apply Forall_cons in Hp as [[? Hp] _]. by rewrite Ed in Hp.
    + split.
      * rewrite IHn. split; [intros H; constructor; eauto | by intros [_ H]%Forall_cons].
      * intros e. rewrite IHe. split.
        -- intros (pre & a' & post & text & -> & Hp & Hn & ->).
           exists (a :: pre), a', post, text. split; [done|]. split; [|done].
           constructor; eauto.
        -- intros (pre & a' & post & text & Ha & Hp & Hn & ->).
           apply first_of_cons in Ha as [(-> & -> & ->)|(pre' & -> & ->)].
           { by rewrite Ed in Hn. }
           apply Forall_cons in Hp as [_ Hp]. by exists pre', a', post, text.
Qed.

(** *** From a request to the index *)

Lemma run_unregister_spent c (ops : list OutPoint) s :
  Router.run env (Router.notificationUnregisterSpent c <$> ops) s
  = foldl (λ s op, Router.removeSpentRequest c op s) s ops.
Proof. unfold Router.run. by rewrite foldl_fmap. Qed.

Lemma run_unregister_addr c (addrs : list string) s :
  Router.run env (Router.notificationUnregisterAddr c <$> addrs) s
  = foldl (λ s a, Router.removeAddrRequest c a s) s addrs.
Proof. unfold Router.run. by rewrite foldl_fmap. Qed.

Lemma outbox_sends {A} (f : A → Router.NotificationMsg) (l : list A) (st : rescanState W) :
  outbox (foldl (λ st x, send (f x) st) st l) = outbox st ++ (f <$> l).
Proof.
  revert st. induction l as [|x l IH]; intros st; simpl; [by rewrite app_nil_r|].
  rewrite IH. simpl. by rewrite <-app_assoc.
Qed.

(** A subscription request does what it says once the notification manager
    has handled what the handler sent it.  With arguments that decode,
    [notifyspent] and [notifyreceived] send one registration, after which
    the client watches every outpoint, every address, of the request;
    [stopnotifyspent] and [stopnotifyreceived] send one unregistration for
    each argument, in order, after which the client watches none of them.
    Addresses are registered as the strings the request gave. *)
Theorem subscription_round_trip (st : rescanState W) (s : Router.ntfnState) :
  (∀ ops outpoints,
     deserializeOutpoints out ops = inr outpoints →
     (let r := handleNotifySpent out self (NotifySpentCmd ops) st in
      r.1 = Returned RNull None
      ∧ outbox r.2 = outbox st ++ [Router.notificationRegisterSpent self outpoints]
      ∧ ∀ op, op ∈ outpoints →
          watches self op
            (Router.run env [Router.notificationRegisterSpent self outpoints] s))
     ∧ (let r := handleStopNotifySpent out self (StopNotifySpentCmd ops) st in
        r.1 = Returned RNull None
        ∧ outbox r.2 = outbox st ++ (Router.notificationUnregisterSpent self <$> outpoints)
        ∧ ∀ op, op ∈ outpoints →
            unwatched self op
              (Router.run env (Router.notificationUnregisterSpent self <$> outpoints) s)))
  ∧ (∀ addrs,
       checkAddressValidity out addrs = None →
       (let r := handleNotifyReceived out self (NotifyReceivedCmd addrs) st in
        r.1 = Returned RNull None
        ∧ outbox r.2 = outbox st ++ [Router.notificationRegisterAddr self addrs]
        ∧ ∀ a, a ∈ addrs →
            watchesAddr self a (Router.run env [Router.notificationRegisterAddr self addrs] s))
       ∧ (let r := handleStopNotifyReceived out self (StopNotifyReceivedCmd addrs) st in
          r.1 = Returned RNull None
          ∧ outbox r.2 = outbox st ++ (Router.notificationUnregisterAddr self <$> addrs)
          ∧ ∀ a, a ∈ addrs →
              unwatchedAddr self a
                (Router.run env (Router.notificationUnregisterAddr self <$> addrs) s))).
Proof.
  split.
  - intros ops outpoints Hd. cbv zeta.
    unfold handleNotifySpent, handleStopNotifySpent. rewrite Hd. cbn [fst snd]. split.
    + split; [done|]. split; [done|].
      intros op Hop. by apply addSpentRequests_watches.
    + split; [done|].
      split; [apply (outbox_sends (Router.notificationUnregisterSpent self))|].
      intros op Hop. rewrite run_unregister_spent. by apply removeSpentRequests_unwatched.
  - intros addrs Hv. cbv zeta.
    unfold handleNotifyReceived, handleStopNotifyReceived. rewrite Hv. cbn [fst snd]. split.
    + split; [done|]. split; [done|].
      intros a Ha. by apply addAddrRequests_watches.
    + split; [done|].
      split; [apply (outbox_sends (Router.notificationUnregisterAddr self))|].
      intros a Ha. rewrite run_unregister_addr. by apply removeAddrRequests_unwatched.
Qed.

Lemma rejected_disconnects (msg : list byte) (st : rescanState W) :
  authenticated (client st) = false →
  Inbound.rejected srv msg →
  ∀ fuel, let r := handleMessage env out srv self fuel msg st in
  r.1 = Handled ∧ client r.2 = Disconnect (client st) ∧ outbox r.2 = outbox st
  ∧ lookups r.2 = lookups st ∧ world r.2 = world st.
Proof.
  intros Hauth Hno fuel. cbv zeta. unfold handleMessage. rewrite Hauth. simpl.
  unfold handleUnauthenticated.
  destruct (Unmarshal srv msg) as [e|request] eqn:Hu; [done|].
  destruct (cmd_err (parseCmd srv request)) eqn:He; [done|].
  destruct (cmd_cmd (parseCmd srv request)) as [[u p| | | | | | | | | | | | ]|] eqn:Hc;
    try done.
  destruct (Hno request u p) as [H1 H2]; [done|].
  rewrite !DispatchFacts.ConstantTimeCompare_spec.
  rewrite (bool_decide_false (authShaOf srv u p = authsha srv)) by done.
  rewrite (bool_decide_false (authShaOf srv u p = limitauthsha srv)) by done.
  done.
Qed.

Lemma Disconnect_disconnected c : disconnected (Disconnect c) = true.
Proof. unfold Disconnect. by destruct c as [[] ?]. Qed.

Lemma Disconnect_rest c :
  authenticated (Disconnect c) = authenticated c
  ∧ asyncChan (Disconnect c) = asyncChan c
  ∧ sendChan (Disconnect c) = sendChan c
  ∧ ntfnChan (Disconnect c) = ntfnChan c.
Proof. unfold Disconnect. by destruct c as [[] ?]. Qed.

Lemma sync_rest (st : rescanState W) :
  (client (sync out st) = client st ∨ client (sync out st) = Disconnect (client st))
  ∧ outbox (sync out st) = outbox st ∧ lookups (sync out st) = lookups st.
Proof. unfold sync. destruct (disconnects out (world st)) as [[] w]; simpl; auto. Qed.

Lemma sync_stays_disconnected (st : rescanState W) :
  disconnected (client st) = true → disconnected (client (sync out st)) = true.
Proof.
  intros H. destruct (sync_rest st) as ([-> | ->] & _); [done|].
  apply Disconnect_disconnected.
Qed.

Lemma inDone_fields (st : rescanState W) :
  disconnected (client (Inbound.inDone st)) = true
  ∧ authenticated (client (Inbound.inDone st)) = authenticated (client st)
  ∧ sendChan (client (Inbound.inDone st)) = sendChan (client st)
  ∧ ntfnChan (client (Inbound.inDone st)) = ntfnChan (client st)
  ∧ asyncChan (client (Inbound.inDone st)) = asyncChan (client st)
  ∧ outbox (Inbound.inDone st) = outbox st
  ∧ lookups (Inbound.inDone st) = lookups st.
Proof.
  unfold Inbound.inDone, rlogf, disconnect, set_client.
  cbn [client outbox lookups world rescanLog].
  destruct (Disconnect_rest (client st)) as (E1 & E2 & E3 & E4).
  by rewrite Disconnect_disconnected, E1, E2, E3, E4.
Qed.

Lemma sync_fields (st : rescanState W) :
  authenticated (client (sync out st)) = authenticated (client st)
  ∧ sendChan (client (sync out st)) = sendChan (client st)
  ∧ ntfnChan (client (sync out st)) = ntfnChan (client st)
  ∧ asyncChan (client (sync out st)) = asyncChan (client st)
  ∧ outbox (sync out st) = outbox st
  ∧ lookups (sync out st) = lookups st.
Proof.
  destruct (sync_rest st) as (Hc & Ho & Hl).
  destruct (Disconnect_rest (client st)) as (E1 & E2 & E3 & E4).
  destruct Hc as [-> | ->]; by rewrite ?E1, ?E2, ?E3, ?E4.
Qed.

(** Until a client has authenticated, the input handler looks at one
    message only.  When that message is not a well-formed [authenticate]
    whose digest is one of the two stored ones, the handler returns with the
    client disconnected and still unauthenticated, whatever the connection
    delivers afterwards; no reply, notification or deferred command was
    queued and nothing was sent to the notification manager. *)
Theorem first_message_must_authenticate (fuel : nat) (msg : list byte)
    (rest : list Inbound.Read) (st : rescanState W) :
  authenticated (client st) = false →
  Inbound.rejected srv msg →
  let r := Inbound.inHandler env out srv self fuel (Inbound.ReadMsg msg :: rest) st in
  r = Inbound.inHandler env out srv self fuel [Inbound.ReadMsg msg] st
  ∧ r.1 = Inbound.InReturned
  ∧ disconnected (client r.2) = true
  ∧ authenticated (client r.2) = false
  ∧ sendChan (client r.2) = sendChan (client st)
  ∧ ntfnChan (client r.2) = ntfnChan (client st)
  ∧ asyncChan (client r.2) = asyncChan (client st)
  ∧ outbox r.2 = outbox st
  ∧ lookups r.2 = lookups st.
Proof.
  intros Hauth Hrej. cbv zeta.
  destruct (sync_fields st) as (Sa & Ss & Sn & Sy & So & Sl).
  cbn [Inbound.inHandler].
  destruct (disconnected (client (sync out st))) eqn:Hd.
  { destruct (inDone_fields (sync out st)) as (Dd & Da & Ds & Dn & Dy & Do & Dl).
    cbn [fst snd].
    by rewrite Dd, Da, Ds, Dn, Dy, Do, Dl, Sa, Ss, Sn, Sy, So, Sl. }
  assert (Ha : authenticated (client (sync out st)) = false) by (by rewrite Sa).
  destruct (rejected_disconnects msg (sync out st) Ha Hrej fuel) as (H1 & H2 & H3 & H4 & H5).
  destruct (handleMessage env out srv self fuel msg (sync out st)) as [status st1].
  cbn [fst snd] in H1, H2, H3, H4, H5. subst status.
  assert (Hd1 : disconnected (client (sync out st1)) = true).
  { apply sync_stays_disconnected. rewrite H2. apply Disconnect_disconnected. }
  assert (Hboth : ∀ reads, Inbound.inHandler env out srv self fuel reads st1
                           = (Inbound.InReturned, Inbound.inDone (sync out st1))).
  { intros reads. destruct reads; cbn [Inbound.inHandler]; by rewrite Hd1. }
  rewrite !Hboth. cbn [fst snd].
  destruct (inDone_fields (sync out st1)) as (Dd & Da & Ds & Dn & Dy & Do & Dl).
  destruct (sync_fields st1) as (Ta & Ts & Tn & Ty & To & Tl).
  destruct (Disconnect_rest (client (sync out st))) as (G1 & G2 & G3 & G4).
  rewrite Dd, Da, Ds, Dn, Dy, Do, Dl, Ta, Ts, Tn, Ty, To, Tl, H2, H3, H4,
    G1, G2, G3, G4, Sa, Ss, Sn, Sy, So, Sl.
  by rewrite ?Hd1, Hauth.
Qed.

(** The input handler never panics and never runs out of the model's fuel:
    whatever the connection delivers, it either still waits for the next
    message, with the client connected and every delivery so far a message,
    or it has returned, and then the client is disconnected.  A read error
    or an end of file always ends it. *)
Theorem inHandler_ends_disconnected (fuel : nat) (reads : list Inbound.Read)
    (st : rescanState W) :
  let r := Inbound.inHandler env out srv self fuel reads st in
  (r.1 = Inbound.InReturned ∧ disconnected (client r.2) = true)
  ∨ (r.1 = Inbound.InReading ∧ disconnected (client r.2) = false
     ∧ Forall (λ x, ∃ msg, x = Inbound.ReadMsg msg) reads).
Proof.
  cbv zeta. revert st. induction reads as [|x reads IH]; intros st; cbn [Inbound.inHandler].
  - destruct (disconnected (client (sync out st))) eqn:Hd.
    + left. split; [done|]. apply inDone_fields.
    + right. by repeat split.
  - destruct (disconnected (client (sync out st))) eqn:Hd.
    { left. split; [done|]. apply inDone_fields. }
    destruct x as [msg| |].
    + pose proof (handleMessage_handled fuel msg (sync out st)) as Hh.
      destruct (handleMessage env out srv self fuel msg (sync out st)) as [status st1].
      cbn [fst] in Hh. subst status.
      destruct (IH st1) as [Hr | (Hr & Hc & Hall)]; [by left|].
      right. split; [done|split; [done|]]. constructor; [by eexists | done].
    + left. split; [done|]. apply inDone_fields.
    + left. split; [done|]. apply inDone_fields.
Qed.

(** *** The async queue of a client *)

Lemma reply_async m (st : rescanState W) :
  asyncChan (client (reply m st)) = asyncChan (client st)
  ∧ asyncStarted (client (reply m st)) = asyncStarted (client st).
Proof. unfold reply, SendMessage. simpl. by destruct (Disconnected _). Qed.

Lemma sendResult_async id o fmt (st : rescanState W) :
  asyncChan (client (sendResult srv id (o, st) fmt).2) = asyncChan (client st)
  ∧ asyncStarted (client (sendResult srv id (o, st) fmt).2) = asyncStarted (client st).
Proof.
  unfold sendResult. destruct o; try done.
  destruct (createMarshalledReply srv _ _ _); [apply reply_async | done].
Qed.

Lemma wsHandlers_async fuel method h icmd (st : rescanState W) :
  wsHandlers env out srv self fuel method = Some h →
  asyncChan (client (h icmd st).2) = asyncChan (client st)
  ∧ asyncStarted (client (h icmd st).2) = asyncStarted (client st).
Proof.
  intros Hh. destruct (decide (method = "rescan")) as [->|Hne].
  - unfold wsHandlers in Hh. simpl in Hh. injection Hh as <-.
    destruct (handleRescan_client env out scannedClient scannedClient_refl
                scannedClient_trans (sync_scanned out) (λ st n, queue_scanned out n st)
                self fuel icmd st)
      as (_ & _ & _ & _ & _ & _ & _ & H1 & H2 & _). done.
  - destruct (quick_handlers fuel method h icmd st Hh Hne)
      as (? & ? & _ & (_ & _ & _ & H1 & H2 & _)). done.
Qed.

Lemma runHandler_async fuel cmd (st : rescanState W) :
  asyncChan (client (runHandler env out srv self fuel cmd st).2) = asyncChan (client st)
  ∧ asyncStarted (client (runHandler env out srv self fuel cmd st).2)
    = asyncStarted (client st).
Proof.
  unfold runHandler. destruct (wsHandlers env out srv self fuel _) as [h|] eqn:Hh; [|done].
  destruct (cmd_cmd cmd) as [icmd|]; [|apply sendResult_async].
  destruct (wsHandlers_async fuel _ h icmd st Hh) as [H1 H2].
  destruct (h icmd st) as [o st1]. simpl in H1, H2.
  destruct (sendResult_async (cmd_id cmd) o
              "Failed to marshal reply for <%s> command: %v" st1) as [H3 H4].
  by rewrite H3, H4.
Qed.

Lemma handleMessage_defers fuel msg (st : rescanState W) :
  ∃ extra, asyncChan (client (handleMessage env out srv self fuel msg st).2)
           = asyncChan (client st) ++ extra.
Proof.
  assert (Hsame : ∀ st' : rescanState W, asyncChan (client st') = asyncChan (client st) →
            ∃ extra, asyncChan (client st') = asyncChan (client st) ++ extra).
  { intros st' E. exists []. by rewrite app_nil_r. }
  assert (Hdis : ∀ st0 : rescanState W, asyncChan (client st0) = asyncChan (client st) →
            asyncChan (client (disconnect st0)) = asyncChan (client st)).
  { intros st0 E. unfold disconnect. simpl. by rewrite (proj1 (proj2 (Disconnect_rest _))). }
  unfold handleMessage. destruct (negb _).
  - unfold handleUnauthenticated. apply Hsame.
    destruct (Unmarshal srv msg); [by apply Hdis|].
    destruct (cmd_err _); [by apply Hdis|].
    destruct (cmd_cmd _) as [[]|]; try (by apply Hdis).
    destruct (_ && _); [by apply Hdis|].
    destruct (createMarshalledReply srv _ _ _) eqn:E; cbn [snd]; [|done].
    by rewrite (proj1 (reply_async _ _)).
  - unfold handleAuthenticated. destruct (Unmarshal srv msg) as [e|request].
    { apply Hsame. apply sendResult_async. }
    destruct (reqID request); [|by apply Hsame].
    destruct (_ && _); [apply Hsame; apply sendResult_async|].
    destruct (cmd_err _); [apply Hsame; apply sendResult_async|].
    set (st0 := rlogf LDebug "Received command <%s> from %s" st).
    assert (let r :=
        (if wsAsyncHandlers (cmd_method (parseCmd srv request))
          then (Handled,
                set_client
                  (set_asyncChan
                     (asyncChan (client (if asyncStarted (client st0) then st0
                        else set_client (set_asyncStarted true (client st0))
                               (rlogf LTrace "Starting async handler for %s" st0)))
                      ++ [parseCmd srv request])
                     (client (if asyncStarted (client st0) then st0
                        else set_client (set_asyncStarted true (client st0))
                               (rlogf LTrace "Starting async handler for %s" st0))))
                  (if asyncStarted (client st0) then st0
                   else set_client (set_asyncStarted true (client st0))
                          (rlogf LTrace "Starting async handler for %s" st0)))
          else match wsHandlers env out srv self fuel (cmd_method (parseCmd srv request)) with
               | Some wsHandler =>
                   sendResult srv (cmd_id (parseCmd srv request))
                     match cmd_cmd (parseCmd srv request) with
                     | Some icmd => wsHandler icmd st0
                     | None => (Returned RNull (Some ErrInternal), st0)
                     end "Failed to marshal reply for <%s> command: %v"
               | None =>
                   sendResult srv (cmd_id (parseCmd srv request))
                     (let r := standardCmdResult srv (parseCmd srv request) in
                      Returned r.1 r.2, st0)
                     "Failed to marshal reply for <%s> command: %v"
               end).2 in
        ∃ extra, asyncChan (client r) = asyncChan (client st) ++ extra) as Hrest.
    { cbv zeta. destruct (wsAsyncHandlers _).
      - exists [parseCmd srv request]. simpl. by destruct (asyncStarted (client st)).
      - apply Hsame.
        destruct (wsHandlers env out srv self fuel _) as [h|] eqn:Hh;
          [|by rewrite (proj1 (sendResult_async _ _ _ _))].
        destruct (cmd_cmd _) as [icmd|]; [|by rewrite (proj1 (sendResult_async _ _ _ _))].
        destruct (wsHandlers_async fuel _ h icmd st0 Hh) as [H1 _].
        destruct (h icmd st0) as [o st1]. simpl in H1.
        by rewrite (proj1 (sendResult_async _ _ _ _)). }
    destruct (cmd_cmd _) as [[]|]; try apply Hrest.
    apply Hsame. by apply Hdis.
Qed.

Lemma wsHandlers_sendChan fuel method h icmd (st : rescanState W) :
  wsHandlers env out srv self fuel method = Some h →
  sendChan (client (h icmd st).2) = sendChan (client st).
Proof.
  intros Hh. destruct (decide (method = "rescan")) as [->|Hne].
  - unfold wsHandlers in Hh. simpl in Hh. injection Hh as <-.
    destruct (handleRescan_client env out scannedClient scannedClient_refl
                scannedClient_trans (sync_scanned out) (λ st n, queue_scanned out n st)
                self fuel icmd st)
      as (_ & _ & _ & _ & _ & _ & _ & _ & _ & H & _). done.
  - destruct (quick_handlers fuel method h icmd st Hh Hne)
      as (? & ? & _ & (H & _)). done.
Qed.

(** A deferred command is answered at most once.  [runHandler] leaves the
    send channel of the client as it was, or adds one response at its end:
    the reply that carries the id of the command and no done channel.  It
    adds it only when the handler returned and the client is connected at
    that moment; a handler that panics sends nothing. *)
Theorem deferred_command_answered_once (fuel : nat) (cmd : parsedRPCCmd)
    (st : rescanState W) :
  let r := runHandler env out srv self fuel cmd st in
  sendChan (client r.2) = sendChan (client st)
  ∨ (∃ result err,
       sendChan (client r.2)
       = sendChan (client st) ++ [mkResponse (JReply (cmd_id cmd) result err) None]
       ∧ r.1 = Handled ∧ disconnected (client r.2) = false).
Proof.
  cbv zeta. unfold runHandler.
  destruct (wsHandlers env out srv self fuel _) as [h|] eqn:Hh; [|by left].
  assert (Hsend : ∀ o (st1 : rescanState W), sendChan (client st1) = sendChan (client st) →
    let r := sendResult srv (cmd_id cmd) (o, st1)
               "Failed to marshal reply for <%s> command: %v" in
    sendChan (client r.2) = sendChan (client st)
    ∨ (∃ result err,
         sendChan (client r.2)
         = sendChan (client st) ++ [mkResponse (JReply (cmd_id cmd) result err) None]
         ∧ r.1 = Handled ∧ disconnected (client r.2) = false)).
  { intros o st1 Hs. cbv zeta. unfold sendResult. destruct o as [result err| |]; try by left.
    destruct (createMarshalledReply srv _ _ _) as [m|] eqn:Hm; [|by left].
    apply createMarshalledReply_inv in Hm as ->.
    unfold reply, SendMessage, Disconnected. cbn [fst snd].
    destruct (disconnected (client st1)) eqn:Hd; simpl; [by left|].
    right. exists result, err. by rewrite Hs, Hd. }
  destruct (cmd_cmd cmd) as [icmd|]; [|by apply Hsend].
  pose proof (wsHandlers_sendChan fuel _ h icmd st Hh) as Hs.
  destruct (h icmd st) as [o st1]. by apply Hsend.
Qed.

End handlers_more.

(** *** The theorems at work on the sample data *)

(** An empty message does not parse: the client is disconnected, and the
    messages after it are not looked at. *)
Lemma first_message_must_authenticate_witness :
  let r := Inbound.inHandler Demo.env0 Demo.out0 Demo.srv0 1 0
             [Inbound.ReadMsg []; Inbound.ReadMsg [x01]] (Demo.peer false) in
  r = Inbound.inHandler Demo.env0 Demo.out0 Demo.srv0 1 0 [Inbound.ReadMsg []]
        (Demo.peer false)
  ∧ r.1 = Inbound.InReturned
  ∧ disconnected (client r.2) = true
  ∧ authenticated (client r.2) = false
  ∧ sendChan (client r.2) = sendChan (client (Demo.peer false))
  ∧ ntfnChan (client r.2) = ntfnChan (client (Demo.peer false))
  ∧ asyncChan (client r.2) = asyncChan (client (Demo.peer false))
  ∧ outbox r.2 = outbox (Demo.peer false)
  ∧ lookups r.2 = lookups (Demo.peer false).
Proof.
  apply (first_message_must_authenticate Demo.env0 Demo.out0 Demo.srv0 1 0 []
           [Inbound.ReadMsg [x01]] (Demo.peer false)).
  - reflexivity.
  - intros request u p [H _]. discriminate H.
Defined.

End DispatchMore.


(** * The goroutines' loops *)

Module LoopsMore.

Section queue_facts.
Import QueueHandler.
Context {A : Type} (nil : A).

Lemma copy_shift (x : A) (tail : list A) :
  take (length (<[(length (copy (x :: tail) tail) - 1)%nat := nil]> (copy (x :: tail) tail)) - 1)
       (<[(length (copy (x :: tail) tail) - 1)%nat := nil]> (copy (x :: tail) tail)) = tail.
Proof.
  assert (Hc : ∃ y, copy (x :: tail) tail = tail ++ [y]).
  { unfold copy. rewrite take_ge by (simpl; lia).
    assert (Hd : length (drop (length tail) (x :: tail)) = 1%nat)
      by (rewrite length_drop; simpl; lia).
    destruct (drop (length tail) (x :: tail)) as [|y [|? ?]]; simpl in Hd; try lia.
    by exists y. }
  destruct Hc as [y ->].
  rewrite length_insert, length_app. simpl.
  replace (length tail + 1 - 1)%nat with (length tail) by lia.
  rewrite insert_app_r_alt by lia. rewrite Nat.sub_diag. simpl.
  by rewrite take_app_length.
Qed.

Lemma start_coherent : coherent (start nil).
Proof. by repeat split. Qed.

Lemma pass_coherent (st : queueState) (c : Case) :
  coherent st →
  match pass nil st c with
  | Loop st' sent =>
      coherent st' ∧
      sent ++ q st' = q st ++ match c with recvIn n _ => [n] | _ => [] end
  | Panic => False
  | _ => True
  end.
Proof.
  intros Hst. pose proof Hst as (Hd & Hs & Hn).
  destruct c as [n ready| | |]; simpl; try done.
  - destruct (skipQueue st) eqn:Hsk; simpl.
    + assert (Hq : q st = []) by (by apply Hs).
      destruct ready.
      * split; [done|]. by rewrite Hq.
      * rewrite Hq. simpl. split; [|done].
        repeat split; simpl; try done.
    + destruct (q st) as [|x tail] eqn:Hq.
      { assert (false = true) by (by apply Hs). done. }
      simpl. split; [|done]. repeat split; simpl; try done.
  - rewrite Hd. destruct (skipQueue st) eqn:Hsk; simpl; [done|].
    destruct (q st) as [|x tail] eqn:Hq.
    { assert (false = true) by (by apply Hs). done. }
    rewrite copy_shift.
    assert (Hx : next st = x).
    { assert (Some x = Some (next st)) by (by apply Hn). congruence. }
    case_bool_decide as Hl.
    + destruct tail; [|done]. split; [by repeat split|]. by rewrite Hx.
    + destruct tail as [|y tail]; [done|]. simpl. split; [|by rewrite Hx, app_nil_r].
      unfold coherent; simpl. by repeat split.
Qed.

(** [queueHandler] passes on what arrives on [in], in the order of arrival,
    nothing dropped and nothing repeated, as long as it runs: what it sent
    on [out] followed by what it still holds is what it received, and when
    it has left the loop what it sent is the front of what it received.
    Its variables stay coherent ([skipQueue] is set exactly while the queue
    is empty, [dequeue] exactly while it is not, and [next] is then the
    head of the queue), and no index is ever out of range. *)
Theorem queueHandler_keeps_order (cases : list Case) :
  let r := queueHandler nil cases (start nil) in
  r.1.1 ≠ Panicked
  ∧ coherent r.1.2
  ∧ (r.1.1 = Running → received cases = r.2 ++ q r.1.2)
  ∧ (∃ unsent, received cases = r.2 ++ unsent).
Proof.
  cbv zeta.
  assert (H : ∀ st, coherent st →
    let r := queueHandler nil cases st in
    r.1.1 ≠ Panicked ∧ coherent r.1.2
    ∧ (r.1.1 = Running → q st ++ received cases = r.2 ++ q r.1.2)
    ∧ (∃ unsent, q st ++ received cases = r.2 ++ unsent)).
  { induction cases as [|c cases IH]; intros st Hst; cbv zeta.
    - simpl. split; [done|split; [done|split]].
      + intros _. by rewrite app_nil_r.
      + exists (q st). by rewrite app_nil_r.
    - cbn [queueHandler]. pose proof (pass_coherent st c Hst) as Hp.
      destruct (pass nil st c) as [st' sent| | |] eqn:Hpass; cbn [fst snd].
      + destruct Hp as [Hst' Hq].
        destruct (IH st' Hst') as (Hn & Hc & Hrun & [unsent Hun]).
        assert (Hrec : q st ++ received (c :: cases) = sent ++ q st' ++ received cases).
        { rewrite (app_assoc sent), Hq.
          destruct c; simpl in *; try done.
          - by rewrite <- app_assoc.
          - by rewrite app_nil_r. }
        split; [done|split; [done|split]].
        * intros Hr. rewrite Hrec, (Hrun Hr). by rewrite app_assoc.
        * exists unsent. rewrite Hrec, Hun. by rewrite app_assoc.
      + split; [done|split; [done|split; [done|]]]. by eexists.
      + split; [done|split; [done|split; [done|]]]. by eexists.
      + done. }
  apply (H (start nil)), start_coherent.
Qed.

End queue_facts.

Section pump_facts.
Import Pump.
Variable sentChan : positive.

Lemma carrying_app done l1 l2 :
  carrying done (l1 ++ l2) = carrying done l1 ++ carrying done l2.
Proof. unfold carrying. by rewrite filter_app, fmap_app. Qed.

Lemma carrying_cons done r l :
  carrying done (r :: l)
  = (if decide (doneChan r = done) then [msg r] else []) ++ carrying done l.
Proof. unfold carrying. rewrite filter_cons. by destruct (decide _). Qed.

Lemma carrying_one done m d :
  carrying done [mkResponse m d] = if decide (d = done) then [m] else [].
Proof. rewrite carrying_cons. simpl. destruct (decide _); by rewrite ?app_nil_r. Qed.

Lemma send_connected m done s :
  disconnected (cl s) = false →
  send sentChan m done s
  = set_cl (set_sendChan (sendChan (cl s) ++ [mkResponse m done]) (cl s)) s.
Proof. intros H. unfold send, SendMessage, Disconnected. by rewrite H. Qed.

Lemma send_disconnected_sent m s :
  disconnected (cl s) = true →
  send sentChan m (Some sentChan) s = set_ntfnSentChan (ntfnSentChan s ++ [false]) s.
Proof.
  intros H. unfold send, SendMessage, Disconnected. rewrite H. simpl.
  rewrite bool_decide_true by done. by destruct s.
Qed.

Lemma send_disconnected_nil m s :
  disconnected (cl s) = true → send sentChan m None s = s.
Proof. intros H. unfold send, SendMessage, Disconnected. rewrite H. by destruct s. Qed.

Lemma cleanup_fold (rs : list wsResponse) (s0 : Conn) :
  let s1 := foldl (λ s r, match doneChan r with
                          | Some d => deliver sentChan [(d, false)] s
                          | None => s
                          end) s0 rs in
  cl s1 = cl s0 ∧ written s1 = written s0 ∧ pendingNtfns s1 = pendingNtfns s0
  ∧ waiting s1 = waiting s0 ∧ ntfnRunning s1 = ntfnRunning s0
  ∧ outRunning s1 = outRunning s0
  ∧ ntfnSentChan s1
    = ntfnSentChan s0 ++ replicate (length (carrying (Some sentChan) rs)) false.
Proof.
  revert s0. induction rs as [|r rs IH]; intros s0; cbv zeta.
  - simpl. by rewrite app_nil_r.
  - cbn [foldl]. rewrite carrying_cons.
    destruct (IH (match doneChan r with
                  | Some d => deliver sentChan [(d, false)] s0
                  | None => s0
                  end)) as (H1 & H2 & H3 & H4 & H5 & H6 & H7).
    rewrite H1, H2, H3, H4, H5, H6, H7.
    destruct (doneChan r) as [d|] eqn:Hd.
    + unfold deliver. cbn [foldl fst snd]. case_bool_decide as Hs.
      * subst d. destruct (decide _); [|done]. simpl. by rewrite <- app_assoc.
      * destruct (decide _) as [E|]; [congruence|]. by simpl.
    + destruct (decide _); [done|]. by simpl.
Qed.

Lemma Disconnect_cases c :
  disconnected (Disconnect c) = true ∧ sendChan (Disconnect c) = sendChan c
  ∧ ntfnChan (Disconnect c) = ntfnChan c.
Proof. unfold Disconnect. by destruct c as [[] ?]. Qed.

Ltac open_orderly :=
  intros (Ht & Hw & Hrun & (restn & Hn1 & Hn2 & Hn3) & (restr & Hr1 & Hr2 & Hr3)).

Lemma queue_orderly ns rs s m :
  orderly sentChan ns rs s →
  orderly sentChan (ns ++ (if disconnected (cl s) then [] else [m])) rs
    (set_cl (QueueNotification (cl s) m).1 s).
Proof.
  unfold QueueNotification, Disconnected. destruct (disconnected (cl s)) eqn:Hd.
  - simpl. rewrite app_nil_r. by destruct s.
  - open_orderly. unfold orderly, inFlight in *. destruct s as [c sent el wr pn wt nr or].
    simpl in *. specialize (Hrun Hd). specialize (Hn3 Hd). specialize (Hr3 Hd).
    split; [done|]. split; [done|]. split; [done|]. split; [|by exists restr].
    exists (restn ++ [m]). split; [by rewrite Hn1, app_assoc|].
    split; [by apply prefix_app_r|]. intros _. rewrite Hn3.
    by rewrite <- !app_assoc.
Qed.

Lemma reply_orderly ns rs s m :
  orderly sentChan ns rs s →
  orderly sentChan ns (rs ++ (if disconnected (cl s) then [] else [m]))
    (send sentChan m None s).
Proof.
  destruct (disconnected (cl s)) eqn:Hd.
  - rewrite send_disconnected_nil by done. by rewrite app_nil_r.
  - rewrite send_connected by done. open_orderly.
    unfold orderly, inFlight in *. destruct s as [c sent el wr pn wt nr or].
    simpl in *. specialize (Hrun Hd). specialize (Hn3 Hd). specialize (Hr3 Hd).
    rewrite !carrying_app, !carrying_one.
    destruct (decide (None = Some sentChan)) as [E|_]; [done|].
    destruct (decide (None = @None positive)) as [_|E]; [|done].
    rewrite app_nil_r.
    split; [done|]. split; [done|]. split; [done|]. split; [by exists restn|].
    exists (restr ++ [m]). split; [by rewrite Hr1, app_assoc|].
    by rewrite Hr3.
Qed.

Lemma quit_orderly ns rs s :
  orderly sentChan ns rs s → orderly sentChan ns rs (set_cl (Disconnect (cl s)) s).
Proof.
  open_orderly. destruct (Disconnect_cases (cl s)) as (D1 & D2 & D3).
  unfold orderly, inFlight in *. destruct s as [c sent el wr pn wt nr or].
  simpl in *. rewrite D1, D2.
  split; [done|]. split; [done|]. split; [done|].
  split; [by exists restn | by exists restr].
Qed.

Lemma tokens_one {A B} (l : list A) (b : B) (rest : list B) :
  (length l + length (b :: rest) ≤ 1)%nat → l = [] ∧ rest = [].
Proof. destruct l, rest; simpl; intros; try lia; done. Qed.

Ltac running := first [by auto | intros; congruence].
Ltac keep r := exists r; split; [done|]; split; [done|]; running.

Lemma ntfn_orderly ns rs s c :
  orderly sentChan ns rs s → orderly sentChan ns rs (default s (ntfnPass sentChan s c)).
Proof.
  intros Hs. unfold ntfnPass. destruct (ntfnRunning s) eqn:Hnr; simpl; [|done].
  destruct c.
  - destruct (ntfnChan (cl s)) as [|m rest] eqn:Hch; [done|]. simpl.
    destruct (waiting s) eqn:Hwt; simpl.
    + revert Hs. open_orderly. unfold orderly, inFlight in *.
      destruct s as [c sent el wr pn wt nr or]. simpl in *. subst.
      split; [done|]. split; [done|]. split; [running|]. split; [|keep restr].
      exists restn. split; [done|]. split; [done|]. intros Hd.
      rewrite (Hn3 Hd), Hch. by rewrite <- !app_assoc.
    + destruct (disconnected (cl s)) eqn:Hd.
      * rewrite send_disconnected_sent by (by destruct s).
        revert Hs. open_orderly. unfold orderly, inFlight in *.
        destruct s as [c sent el wr pn wt nr or]. simpl in *. subst.
        destruct (Hw eq_refl eq_refl) as (-> & Hf & ->). rewrite Hf in *.
        split; [simpl; lia|]. split; [done|]. split; [running|].
        split; [|keep restr].
        exists restn. split; [done|]. split; [done|]. running.
      * rewrite send_connected by (by destruct s).
        revert Hs. open_orderly. unfold orderly, inFlight in *.
        destruct s as [c sent el wr pn wt nr or]. simpl in *. subst.
        destruct (Hw eq_refl eq_refl) as (-> & Hf & ->).
        specialize (Hn3 Hd). specialize (Hr3 Hd). rewrite Hch in Hn3.
        rewrite !carrying_app, !carrying_one, Hf in *.
        destruct (decide (Some sentChan = Some sentChan)) as [_|E]; [|done].
        destruct (decide (Some sentChan = None)) as [E|_]; [done|].
        rewrite app_nil_r. simpl in *.
        split; [lia|]. split; [done|]. split; [running|].
        split; [|keep restr].
        exists restn. split; [done|]. rewrite Hn3. split; [apply prefix_cons, prefix_nil|done].
  - destruct (ntfnSentChan s) as [|b rest] eqn:Hsc; [done|]. simpl.
    revert Hs. open_orderly. unfold inFlight in *. rewrite Hsc in Ht.
    destruct (tokens_one _ _ _ Ht) as [Hf ->].
    destruct (pendingNtfns s) as [|m pending] eqn:Hpn.
    + unfold orderly, inFlight. destruct s as [c sent el wr pn wt nr or]. simpl in *. subst.
      rewrite Hf in *.
      split; [simpl; lia|]. split; [done|]. split; [running|].
      split; [keep restn | keep restr].
    + assert (Hwt : waiting s = true).
      { destruct (waiting s) eqn:E; [done|]. by destruct (Hw Hnr eq_refl). }
      destruct (disconnected (cl s)) eqn:Hd.
      * rewrite send_disconnected_sent by (by destruct s).
        unfold orderly, inFlight. destruct s as [c sent el wr pn wt nr or]. simpl in *. subst.
        rewrite Hf in *.
        split; [simpl; lia|]. split; [done|]. split; [running|].
        split; [|keep restr].
        exists restn. split; [done|]. split; [done|]. running.
      * rewrite send_connected by (by destruct s).
        unfold orderly, inFlight. destruct s as [c sent el wr pn wt nr or]. simpl in *. subst.
        specialize (Hn3 eq_refl). specialize (Hr3 eq_refl).
        rewrite !carrying_app, !carrying_one, Hf in *.
        destruct (decide (Some sentChan = Some sentChan)) as [_|E]; [|done].
        destruct (decide (Some sentChan = None)) as [E|_]; [done|].
        rewrite app_nil_r. simpl in *.
        split; [lia|]. split; [done|]. split; [running|].
        split; [|keep restr].
        exists restn. split; [done|]. rewrite Hn3. split; [apply prefix_cons, prefix_nil|done].
  - destruct (disconnected (cl s)) eqn:Hd; [|done]. simpl.
    revert Hs. open_orderly. unfold orderly, inFlight in *.
    destruct s as [c sent el wr pn wt nr or]. simpl in *. subst.
    split; [lia|]. split; [done|]. split; [running|].
    split; [exists restn | exists restr]; (split; [done|]; split; [done|]; running).
Qed.

Lemma cleanup_orderly ns rs s :
  disconnected (cl s) = true →
  (length (inFlight sentChan s) + length (ntfnSentChan s) ≤ 1)%nat →
  (ntfnRunning s = true → waiting s = false →
     pendingNtfns s = [] ∧ inFlight sentChan s = [] ∧ ntfnSentChan s = []) →
  (∃ rest, ns = carrying (Some sentChan) (written s) ++ rest) →
  (∃ rest, rs = carrying None (written s) ++ rest) →
  orderly sentChan ns rs (outCleanup sentChan s).
Proof.
  intros Hd Ht Hw [restn Hn] [restr Hr]. unfold outCleanup.
  pose proof (cleanup_fold (sendChan (cl s)) (set_cl (set_sendChan [] (cl s)) s)) as H.
  cbv zeta in H.
  set (s1 := foldl _ _ _) in *. destruct H as (C1 & C2 & C3 & C4 & C5 & C6 & C7).
  clearbody s1. unfold orderly, inFlight in *.
  destruct s as [c sent el wr pn wt nr or]. destruct s1 as [c1 sent1 el1 wr1 pn1 wt1 nr1 or1].
  simpl in *. subst. simpl.
  rewrite length_app, length_replicate.
  split; [lia|]. split.
  { intros Hn Hwt. destruct (Hw Hn Hwt) as (-> & -> & ->). done. }
  split; [running|].
  split; [exists restn | exists restr]; (split; [done|]; split; [apply prefix_nil|running]).
Qed.

Lemma out_orderly ns rs s c :
  orderly sentChan ns rs s → orderly sentChan ns rs (default s (outPass sentChan s c)).
Proof.
  intros Hs. unfold outPass. destruct (outRunning s) eqn:Hor; simpl; [|done].
  destruct c as [wrote|].
  - destruct (sendChan (cl s)) as [|r rest] eqn:Hsc; [done|].
    destruct wrote; simpl.
    + revert Hs. open_orderly. unfold orderly, inFlight in *. rewrite Hsc in *.
      rewrite carrying_cons in *.
      destruct (doneChan r) as [d|] eqn:Hdone.
      * unfold deliver. cbn [foldl fst snd]. case_bool_decide as Hch.
        -- subst d. destruct (decide (Some sentChan = Some sentChan)) as [_|E]; [|done].
           destruct (decide (Some sentChan = None)) as [E|_]; [done|].
           destruct s as [c sent el wr pn wt nr or]. simpl in *.
           rewrite !carrying_app, !carrying_cons, Hdone.
           destruct (decide (Some sentChan = Some sentChan)) as [_|E]; [|done].
           destruct (decide (Some sentChan = None)) as [E|_]; [done|].
           unfold carrying at 2 4. simpl. rewrite !app_nil_r.
           rewrite length_app. simpl.
           split; [lia|]. split.
           { intros Hn Hwt. by destruct (Hw Hn Hwt) as (_ & ? & _). }
           split; [running|].
           destruct Hn2 as [k Hk]. split.
           ++ exists (carrying (Some sentChan) rest ++ k). split.
              { rewrite Hn1, Hk. by rewrite <- !app_assoc. }
              split; [by apply prefix_app_r|]. intros Hd.
              specialize (Hn3 Hd). rewrite Hn3 in Hk. simpl in Hk.
              injection Hk as Hk. by rewrite <- Hk.
           ++ keep restr.
        -- destruct (decide (Some d = Some sentChan)) as [E|_]; [congruence|].
           destruct (decide (Some d = None)) as [E|_]; [done|].
           destruct s as [c sent el wr pn wt nr or]. simpl in *.
           rewrite !carrying_app, !carrying_cons, Hdone.
           destruct (decide (Some d = Some sentChan)) as [E|_]; [congruence|].
           destruct (decide (Some d = None)) as [E|_]; [done|].
           unfold carrying at 2 4. simpl. rewrite !app_nil_r.
           split; [lia|]. split; [done|]. split; [running|].
           split; [keep restn | keep restr].
      * destruct (decide (None = Some sentChan)) as [E|_]; [done|].
        destruct (decide (None = @None positive)) as [_|E]; [|done].
        destruct s as [c sent el wr pn wt nr or]. simpl in *.
        rewrite !carrying_app, !carrying_cons, Hdone.
        destruct (decide (None = Some sentChan)) as [E|_]; [done|].
        destruct (decide (None = @None positive)) as [_|E]; [|done].
        unfold carrying at 2 4. simpl. rewrite !app_nil_r.
        split; [lia|]. split; [done|]. split; [running|].
        split; [keep restn|].
        destruct Hr2 as [k Hk].
        exists (carrying None rest ++ k). split.
        { rewrite Hr1, Hk. by rewrite <- !app_assoc. }
        split; [by apply prefix_app_r|]. intros Hd.
        specialize (Hr3 Hd). rewrite Hr3 in Hk. simpl in Hk.
        injection Hk as Hk. rewrite <- (app_nil_r (carrying None rest)) in Hk at 1.
        apply app_inv_head in Hk. by rewrite <- Hk, app_nil_r.
    + revert Hs. open_orderly. unfold inFlight in *. rewrite Hsc in *.
      rewrite carrying_cons, length_app in Ht.
      destruct (Disconnect_cases (set_sendChan rest (cl s))) as (D1 & D2 & D3).
      apply cleanup_orderly; unfold inFlight; simpl; rewrite ?D1, ?D2; simpl.
      * done.
      * destruct s; simpl in *. lia.
      * intros Hn Hwt. destruct (Hw Hn Hwt) as (Hp & Hf & Hsent).
        rewrite carrying_cons in Hf. apply app_eq_nil in Hf. destruct Hf as [_ Hf].
        by destruct s.
      * exists restn. by destruct s.
      * exists restr. by destruct s.
  - destruct (disconnected (cl s)) eqn:Hd; [|done]. simpl.
    revert Hs. open_orderly. apply cleanup_orderly; try done.
    + by exists restn.
    + by exists restr.
Qed.

Lemma run_orderly events :
  ∀ s ns rs, orderly sentChan ns rs s →
    orderly sentChan (ns ++ queued sentChan events s) (rs ++ replied sentChan events s)
      (run sentChan events s).
Proof.
  induction events as [|e events IH]; intros s ns rs Hs.
  - simpl. by rewrite !app_nil_r.
  - cbn [queued replied]. unfold run. cbn [foldl]. rewrite !app_assoc.
    apply IH. destruct e as [m|m| |c|c]; cbn [step default]; rewrite ?app_nil_r.
    + by apply queue_orderly.
    + by apply reply_orderly.
    + by apply quit_orderly.
    + by apply ntfn_orderly.
    + by apply out_orderly.
Qed.

Lemma started_orderly remoteAddr auth admin sid :
  orderly sentChan [] [] (started (newWebsocketClient remoteAddr auth admin sid)).
Proof.
  unfold orderly, inFlight. simpl. split; [lia|]. split; [done|]. split; [done|].
  split; by exists [].
Qed.

(** A client's notifications reach its connection in the order in which
    [QueueNotification] took them, none left out and none twice, and so do
    the replies handed to [SendMessage]: at every moment of every run of the
    two loops of a new client, what has been written is the front of what
    was taken, and while the client is connected what was taken and not yet
    written still waits, in order, on [sendChan], in the pending list or on
    [ntfnChan].  At most one notification is on [sendChan] or has its done
    signal unread, so [ntfnSentChan], of capacity one, never blocks a
    sender. *)
Theorem notifications_written_in_order (remoteAddr : string) (auth admin : bool)
    (sid : N) (events : list Event) :
  let s0 := started (newWebsocketClient remoteAddr auth admin sid) in
  let s := run sentChan events s0 in
  carrying (Some sentChan) (written s) `prefix_of` queued sentChan events s0
  ∧ carrying None (written s) `prefix_of` replied sentChan events s0
  ∧ (disconnected (cl s) = false →
       queued sentChan events s0
       = carrying (Some sentChan) (written s) ++ inFlight sentChan s
           ++ pendingNtfns s ++ ntfnChan (cl s)
       ∧ replied sentChan events s0
         = carrying None (written s) ++ carrying None (sendChan (cl s)))
  ∧ (length (inFlight sentChan s) + length (ntfnSentChan s) ≤ 1)%nat.
Proof.
  cbv zeta.
  pose proof (run_orderly events _ _ _ (started_orderly remoteAddr auth admin sid)) as H.
  rewrite !app_nil_l in H.
  destruct H as (Ht & _ & _ & (restn & Hn1 & _ & Hn3) & (restr & Hr1 & _ & Hr3)).
  split; [by exists restn|]. split; [by exists restr|]. split; [|done].
  intros Hd. by rewrite Hn1, Hr1, (Hn3 Hd), (Hr3 Hd).
Qed.

End pump_facts.

Section async_facts.
Import Rescan Dispatch Async DispatchMore.
Context {W : Type} (env : Env) (out : Outside W) (srv : Server) (self : positive).

Ltac open_serial := intros (Ht & Hw & (rest & Hc1 & Hc2)).

Ltac flags :=
  repeat match goal with
         | H : ?x = true |- _ => is_var x; subst x
         | H : ?x = false |- _ => is_var x; subst x
         end.

Lemma pass_serial cmds (s : AsyncState (W:=W)) c :
  serial cmds s → serial cmds (default s (asyncPass s c)).
Proof.
  intros Hs. unfold asyncPass.
  destruct (negb (asyncStarted (client (st s))) || asyncOver s) eqn:Hguard; [done|].
  apply orb_false_elim in Hguard as [_ Hover].
  generalize Hs. open_serial. specialize (Hw Hover). specialize (Hc2 Hover).
  destruct c.
  - destruct (asyncChan (client (st s))) as [|cmd more] eqn:Hch; [done|]. simpl.
    destruct (waiting s) eqn:Hwt; simpl.
    + unfold serial. destruct s as [st0 done pn wt sd ac ov cr]. simpl in *. flags.
      split; [done|]. split; [done|]. exists rest. split; [done|]. intros _.
      by rewrite Hc2, <- app_assoc.
    + destruct (Hw eq_refl) as (Hp & Ha & Hd).
      unfold serial, go. destruct s as [st0 done pn wt sd ac ov cr]. simpl in *. flags.
      subst pn ac done. simpl in *.
      split; [simpl; lia|]. split; [done|]. exists more.
      split; [by rewrite Hc1, Hc2, <- app_assoc|done].
  - destruct (asyncHandlerDoneChan s) as [|n] eqn:Hdone; [done|]. simpl.
    assert (Ha : active s = [] ∧ n = 0%nat).
    { destruct (active s); simpl in Ht; [split; [done|lia] | lia]. }
    destruct Ha as [Ha ->].
    destruct (pendingCmds s) as [|cmd pending] eqn:Hpn.
    + unfold serial. destruct s as [st0 done pn wt sd ac ov cr]. simpl in *. flags.
      subst pn ac. split; [simpl; lia|]. split; [done|]. by exists rest.
    + assert (Hwt : waiting s = true).
      { destruct (waiting s); [done|]. by destruct (Hw eq_refl). }
      unfold serial, go. destruct s as [st0 done pn wt sd ac ov cr]. simpl in *. flags.
      subst pn ac. split; [simpl; lia|]. split; [done|].
      exists (pending ++ asyncChan (client st0)).
      split; [by rewrite Hc1, Hc2, <- app_assoc|done].
  - destruct (disconnected (client (st s))); [|done]. simpl.
    unfold serial. destruct s as [st0 done pn wt sd ac ov cr]. simpl in *.
    split; [lia|]. split; [done|]. by exists rest.
Qed.

Lemma step_serial cmds (s : AsyncState (W:=W)) e :
  serial cmds s →
  serial (cmds ++ match e with
                  | Message _ _ =>
                      drop (length (asyncChan (client (st s))))
                        (asyncChan (client (st (default s (step env out srv self s e)))))
                  | _ => []
                  end)
    (default s (step env out srv self s e)).
Proof.
  intros Hs. unfold step. destruct (crashed s) eqn:Hcr.
  { simpl. destruct e; rewrite ?drop_all, app_nil_r; done. }
  destruct e as [fuel msg| |c|i fuel].
  - pose proof (handleMessage_handled env out srv self fuel msg (st s)) as Hh.
    destruct (handleMessage_defers env out srv self fuel msg (st s)) as [extra He].
    destruct (handleMessage env out srv self fuel msg (st s)) as [status st'].
    simpl in Hh, He. subst status. simpl. rewrite He, drop_app_length.
    revert Hs. open_serial. unfold serial.
    destruct s as [st0 done pn wt sd ac ov cr]. simpl in *.
    split; [done|]. split; [done|]. exists (rest ++ extra).
    split; [by rewrite Hc1, app_assoc|]. intros Hov.
    by rewrite (Hc2 Hov), He, <- !app_assoc.
  - simpl. rewrite app_nil_r. revert Hs. open_serial. unfold serial, disconnect.
    destruct (Disconnect_rest (client (st s))) as (_ & E & _).
    destruct s as [st0 done pn wt sd ac ov cr]. simpl in *. rewrite E.
    split; [done|]. split; [done|]. by exists rest.
  - rewrite app_nil_r. by apply pass_serial.
  - rewrite app_nil_r. destruct (active s !! i) as [cmd|] eqn:Hi; [|done].
    destruct (runHandler_async env out srv self fuel cmd (st s)) as [E _].
    destruct (runHandler env out srv self fuel cmd (st s)) as [[] st']; simpl in *.
    + revert Hs. open_serial. unfold serial.
      pose proof (length_delete (active s) i (mk_is_Some _ _ Hi)) as Hlen.
      pose proof (lookup_lt_Some _ _ _ Hi) as Hlt.
      destruct s as [st0 done pn wt sd ac ov cr]. simpl in *. rewrite E.
      split; [lia|]. split.
      { intros Hov Hwt. destruct (Hw Hov Hwt) as (_ & -> & _). simpl in Hlt. lia. }
      by exists rest.
    + revert Hs. open_serial. unfold serial.
      destruct s as [st0 done pn wt sd ac ov cr]. simpl in *. rewrite E.
      split; [done|]. split; [done|]. by exists rest.
    + done.
Qed.

Lemma run_serial events :
  ∀ (s : AsyncState (W:=W)) cmds, serial cmds s →
    serial (cmds ++ deferred env out srv self events s) (run env out srv self events s).
Proof.
  induction events as [|e events IH]; intros s cmds Hs.
  - simpl. by rewrite app_nil_r.
  - cbn [deferred]. unfold run. cbn [foldl]. cbv zeta. rewrite !app_assoc.
    apply IH. by apply step_serial.
Qed.

(** Long requests run one at a time and in the order in which they were
    sent on [asyncChan].  At every moment of every run, at most one handler
    goroutine is running or has its done signal unread (so the signal
    channel, of capacity one, never blocks); the commands a handler was
    started for are the front of the commands sent; and until
    [asyncHandler] has cleaned up, the others still wait, in order, in the
    pending list or on [asyncChan]. *)
Theorem long_requests_run_one_at_a_time (st0 : rescanState W) (events : list Event) :
  let sent := asyncChan (client st0) ++ deferred env out srv self events (fresh st0) in
  let s := run env out srv self events (fresh st0) in
  (length (active s) + asyncHandlerDoneChan s ≤ 1)%nat
  ∧ started s `prefix_of` sent
  ∧ (asyncOver s = false →
       sent = started s ++ pendingCmds s ++ asyncChan (client (st s))).
Proof.
  cbv zeta.
  assert (H0 : serial (asyncChan (client st0)) (fresh st0)).
  { unfold serial, fresh. simpl. split; [lia|]. split; [done|].
    by exists (asyncChan (client st0)). }
  destruct (run_serial events _ _ H0) as (Ht & _ & (rest & Hc1 & Hc2)).
  split; [done|]. split; [by exists rest|]. intros Hov. by rewrite Hc1, (Hc2 Hov).
Qed.

End async_facts.

End LoopsMore.
